(* ===== verification/_CoqProject ===== *)
-Q . S2P
Prelude.v
BTree.v
PaqusCore.v
Toy.v
Mempool.v
MempoolInv.v
MempoolSpec.v
MempoolSelect.v
MempoolMarket.v
Compact.v
Snapshot.v
Gossip.v
Net.v
Peer.v
Float.v
Recovery.v
Lmdb.v
Storage.v
StorageLogic.v
StorageSpec.v
StorageRead.v
StorageState.v
StorageExamples.v
Cache.v
Miner.v
NodeState.v
Node.v
NodeOrphans.v
NodeChain.v
NodeMempool.v
NodeRecovery.v
NodeExamples.v
SnapshotImport.v
Database.v
Message.v
Transport.v
Handler.v
Sync.v
Connection.v
HandlerSpec.v
ConnectionSpec.v
ReaderSpec.v
Session.v
SyncSpec.v
SyncHonest.v
SyncPlan.v
SyncParallel.v
Config.v
ConfigSpec.v
PeerFile.v
Http.v
Service.v
ServiceSpec.v
RpcAccess.v
Gateway.v
Mining.v
Rpc.v
RpcSpec.v
RpcEvents.v
RpcEventsSpec.v
RpcRead.v
RpcReadSpec.v
RpcExamples.v
WalletCore.v
WalletSpec.v
WalletAmount.v
WalletCli.v
WalletTransfer.v
WalletTransferSpec.v
WalletNew.v
WalletCash.v
WalletCashSpec.v
NetworkExamples.v
ConnectionExamples.v
ServiceExamples.v
WalletCliExamples.v
WalletProof.v
WalletProofSpec.v
WalletPool.v
WalletPoolSpec.v
