(* ===== verification/Prelude.v ===== *)
(** * A verification of the Paqus node

    Paqus is a proof-of-work chain node with a wallet. The repository is a Cargo workspace:
    [node], [wallet-core], [wallet-cli] and [app-config], all verified here. The
    consensus rules themselves - transaction formats, hashing, ledger execution, fork choice,
    difficulty - are the third-party crate [paqus], which the node calls. The node's own core
    is everything around those rules: which transactions it keeps, which chain it follows, what
    it stores, how it recovers from reorganisations, and how it talks to its peers.

    ** How the parts interact

    A block arrives from a peer or from the miner and goes to [Node::apply_block]. If its
    parent is known, it is checked, executed on the ledger, entered in the fork choice and
    either extends the active tip, becomes a side block, or triggers a reorganisation; if not,
    it waits in the orphan pool and its parent joins the queue of missing parents. A
    reorganisation turns every transaction of an abandoned block into a rollback record and
    resubmits it to the mempool. The mempool validates against the ledger; the miner fills a
    block from it. Storage keeps blocks, indexes, accounts and rollback records in LMDB tables.
    Each peer has a persistent connection: a reader thread turns its bytes into envelopes on a
    channel, a request waits on that channel for the envelope that answers it, and every other
    message goes to the handler, which answers from the node or changes it. On top of requests
    the node downloads headers, blocks (from several peers at once), its pool and snapshots.
    The mining loop takes a candidate from the node, searches without holding the node and
    applies what it found if the tip is still the same. The configuration comes from a file,
    the environment and the command line. The RPC serves explorers, miners and administrators:
    a request passes the rate limiter and, on the administration listener, the token check, and
    its handler takes the lock of the node or of the peer table. The main loop serves the network
    in turns: it accepts connections and starts a thread for each, chooses the best peers of the
    table, dials and polls them, saves the table to the peer file, and from time to time registers
    at a gateway that names more peers. The wallet library makes keys, wallet files and signatures;
    the wallet's commands ask the node over HTTP for the account's state, drafts, fees and proofs,
    check what it answers, sign, and send the transaction back through the RPC.

    ** The files (source paths are under src/node/src/)

    - [Prelude]: this header; [Result], the state-and-error monad [ST] (an error keeps the state
      reached so far, as a Rust method on [&mut self] does), machine integers with saturation
      and wrap-around, sorting, shared list lemmas, tactics and hint databases.
    - [BTree]: [Ord] as a class with its laws and [BTreeMap] as a key-sorted list.
    - [PaqusCore]: the interface of the [paqus] crate as classes of abstract types, functions
      and named laws. [Toy]: a small executable protocol that satisfies it; witnesses run on it.
    - [Mempool] (runtime/mempool/extension.rs, error.rs): the pool record and every operation.
      [MempoolInv], [MempoolSpec], [MempoolSelect], [MempoolMarket]: its theorems.
    - [Compact] (runtime/network/compact.rs): compact blocks and their reconstruction.
    - [Snapshot], [SnapshotImport] (snapshot.rs): chunk coding and the fast-sync bundle; export and
      the import into a new database over a disk of files and database directories.
      [Database] (command/database.rs): the check, backup and restore commands on the same disk.
    - [Net]: std's socket addresses. [Float]: [f64] as executable binary64.
    - [Gossip] (p2p/gossip.rs), [Peer] (p2p/mod.rs: [PeerState], the request window).
    - [Recovery] (runtime/recovery.rs): rollback issues and proof contexts.
    - [Lmdb]: the key-value store as an interface with a concrete in-memory instance.
      [Storage] (runtime/storage/storage.rs, error.rs): every table, read and write.
      [StorageLogic], [StorageSpec], [StorageRead], [StorageState]: its theorems;
      [StorageExamples]: the toy encodings and the witnesses.
    - [Cache] (runtime/cache.rs), [Miner] (runtime/miner/miner.rs).
    - [NodeState] (runtime/node/node.rs structs, error.rs) and [Node] (impl Node).
      [NodeOrphans], [NodeChain], [NodeMempool], [NodeRecovery]: its theorems;
      [NodeExamples]: witnesses.
    - [Message] (runtime/network/message.rs, metrics.rs, error.rs), [Transport]
      (runtime/network/transport.rs: frames over a reader that delivers in pieces or fails),
      [Handler] (runtime/network/handler.rs). [HandlerSpec]: what a peer can make the node do.
    - [Sync] (p2p/mod.rs: handshake, download, planning, parallel download, missing parents)
      over the class [PeerWorld] of what a connection, the node lock and threads promise.
      [SyncSpec] (any peer), [SyncHonest] (a peer that answers as the handler does),
      [SyncPlan], [SyncParallel]: its theorems.
    - [Connection] (p2p/mod.rs: [PeerConnection], its reader thread and what it does with
      unsolicited messages; rpc/transport.rs: one request on a stream): a [World] of channel,
      stream, connection and shared node, and an [Environment] that says what time it is and
      what other threads do; it is an instance of [PeerWorld]. [ConnectionSpec], [ReaderSpec],
      [Session]: its theorems. [NetworkExamples], [ConnectionExamples]: witnesses.
    - [Config] (command/config.rs, parse.rs, the constants of app-config, and
      [validate_rpc_security] of main.rs), [ConfigSpec]: the configuration.
    - [PeerFile] (p2p/mod.rs: [load_peers_file], [save_peer_states_file]).
    - [Service] (main.rs: [service_network_once], [spawn_inbound_peer], [known_peer_infos],
      [promote_message_peers]): a turn of the main loop and the thread of an inbound peer as programs
      on the node and the tables of peers and connections; a [ServiceEnv] says what the clocks,
      locks, sockets and other threads do. [ServiceSpec]: its theorems;
      [ServiceExamples]: witnesses.
    - [Http]: reading an HTTP response, which gateway/mod.rs and the wallet's commands.rs
      do in the same way. [Gateway] (gateway/mod.rs and [service_gateway_once]).
    - [Mining] (mining.rs): one mining round against the shared node.
    - [RpcAccess] (rpc/api.rs: listeners, token, rate limiter, counters), [Rpc]
      (rpc/transactions.rs, mining.rs, recovery.rs, adding a peer), [RpcEvents] (rpc/events.rs),
      [RpcRead] (rpc/explorer.rs, drafts of rpc/api.rs): a handler is a program on the locked
      node, peer table and connections. [RpcSpec], [RpcEventsSpec], [RpcReadSpec]: their
      theorems; [RpcExamples]: witnesses.
    - [WalletCore] (../../wallet-core/src/lib.rs), [WalletSpec]: the wallet library.
    - The wallet's commands (../../wallet-cli/src/commands.rs, wallet_file.rs, rpc_display.rs) are
      programs on the files, with a [CliEnv] for the node's answers, what the user types, random
      bytes and failing file operations. [WalletAmount] (amounts and fees), [WalletCli] (wallet
      files, JSON, HTTP), [WalletTransfer] (keys, authorization, drafts, pay and send), [WalletNew]
      (new and restored wallets), [WalletCash] (coins), [WalletProof] (checkpoint, state proofs,
      rollback), [WalletPool] (pool payouts). [WalletTransferSpec], [WalletCashSpec],
      [WalletProofSpec], [WalletPoolSpec]: their theorems; [WalletCliExamples]: witnesses.

    ** Conventions

    A method on [&self] is a function of the record; a method on [&mut self] is a program in
    [ST State Error]. A [u64], [u32], [usize] or [i32] is a [Z], with [saturating_add],
    [saturating_sub] and wrap-around written where the code has them. A [BTreeMap] keeps its key
    order, since the code evicts and iterates in it; a [HashSet] is a [gset]. Each reading of the
    system clock is an argument of the operation or, in [Node], the next value of an arbitrary
    function [clock], so two readings are unrelated. Error texts are kept as strings.

    ** What the theorems show

    - Mempool: in every reachable state the four indexes and the byte count agree with the pool
      and its limits hold; no two pooled transactions share a signer state or a coin; what
      admission returns on success and on each error; selection is one greedy pass, is sound for
      the ledger, and never overfills a block; what the fee estimates are.
    - Node: a rejected block leaves chain, pool and storage as they were; the active ledger only
      moves to executed states or to a replay of the best branch; the orphan pool, its index and
      the request queue stay consistent under every operation; adopting orphans and start-up
      indexing end; a reorganisation accounts for every abandoned transaction.
    - Storage: failed writes leave no trace; blocks, accounts and records are read back as
      saved; the transaction and address indexes list exactly the saved chain; the integrity
      check accepts exactly the consistent databases; a newer schema is refused.
    - Network: a compact block is rebuilt only from transactions with its short ids; snapshot
      chunks and bundles round-trip and never expand past their announced size; the seen-hash
      memory is a bounded queue; broadcasts account for every peer; scores, bans and request
      windows stay in their bounds; frames reach the channel whole and in order; whatever a
      peer sends, the handler keeps the node's invariants; announcing a compact block and
      supplying what is missing delivers the block.
    - Synchronisation: whatever the peer answers, headers are linked and blocks are those of the
      headers; an honest peer's chain and snapshot are downloaded exactly; the ranges of a
      parallel download partition it and are applied in order; a request is answered only by
      its own response; a whole session keeps the node's invariants.
    - Network service: whatever peers send, locks and connections do and other threads change,
      turns of the service and inbound peers keep the node's invariants and the peer table well
      formed; the peers of a turn are the best ones that are not banned; an inbound thread ends,
      and ends at the first silence; saved peers are loaded again; an HTTP body is read exactly
      in whatever pieces it arrives.
    - Snapshot import: it activates a complete database of the authenticated ledger or nothing.
      A backup is an exact copy of a database that passed the integrity check, under a new name.
    - Mining loop: a reported block was built from the node, meets its difficulty and was
      applied on the tip it extends; rounds search disjoint nonces.
    - Configuration: what parses is well formed, later options override earlier ones, the
      default file reads back, and the RPC check admits exactly the safe listeners.
    - RPC: nothing of the administration interface runs without the token; an address gets at
      most its burst; a configuration that passed the checks starts its listeners, encrypted off
      loopback; every request keeps the node and the peer table well formed, and a submission
      answered as accepted is in the pool; the pages of an event list make it up and the stream
      sends each finalized height once and in order; a draft is the transfer that was asked for;
      a statement is found at the first height that has it.
    - Wallet: a wallet file reads back as the wallet and what is read is consistent; a mnemonic
      typed with any spacing and case gives the wallet back.
    - Wallet commands: a created wallet loads again and its phrase restores it; amounts are read
      exactly; whatever the node answers, the wallet signs the outputs that were asked for and at
      most a fee, and the node's own drafts pass its checks; a withdrawal plan adds up and its coin
      files appear all together or not at all; a paid pool payout is never found unpaid; the
      trusted checkpoint moves only along verified proofs. One theorem shows a defect: a mistyped
      password makes the wallet file unreadable.

    ** Fuel

    Loops that are not structural take fuel computed from the state: eviction the number of
    pooled transactions, orphan adoption the size of the pool and its index, start-up indexing
    the number of stored blocks, mining the number of attempts, the pass loop of selection the
    number of candidates, header and block download the heights of the range, waiting for a
    response the events of the channel plus one, reading the pieces and bytes of the stream plus
    one, and so for the thread of an inbound peer and for an HTTP response. The event stream never ends by itself: a run takes the list of nodes its turns see. 
    [adoption_terminates], [startup_indexing_terminates], [mining_search], [download_loops_end],
    [connection_loops_end], [inbound_thread_ends], [http_body_exact] and the eviction lemmas of [MempoolInv] show
    that it does not run out before the loop's own exit is reached.

    ** Not modelled

    The [paqus] crate, LMDB, borsh, hash functions, mnemonic word lists and random bytes are
    parameters with named laws, and so are the parsing and printing of socket addresses and
    JSON. Opening sockets, spawning threads, DNS, HTTP routing and its layers, the gRPC service,
    NAT mapping, JSON rendering, console output and the menus and tables of the wallet's command
    line are input and output through the system or third-party libraries, and so are the
    wallet's commands that only show or copy coin files
    (track, utxos, list, backup, recover). Of the read-only RPC, block responses, account and QCash
    proofs and the status and metrics texts are left out. The start-up of [run_node] is modelled
    only in the parts it is made of.
    [next_difficulty_after_branch_tip] and the [expected_difficulty] helpers of node.rs are only
    called by tests. *)
From Stdlib Require Import ZArith Lia Permutation Sorted.
From stdpp Require Import base numbers option strings list sets.

#[global] Open Scope Z_scope.

Declare Scope paqus_scope.
Delimit Scope paqus_scope with paqus.

(** ** Fallible code: [Result] *)

(** Rust's [Result<A, E>], error type first so that [Result E] is a monad. *)
Inductive Result (E A : Type) : Type :=
| Ok (a : A)
| Err (e : E).
Arguments Ok {E A} a.
Arguments Err {E A} e.

#[global] Instance result_ret {E} : MRet (Result E) := fun A a => Ok a.
#[global] Instance result_bind {E} : MBind (Result E) :=
  fun A B k r => match r with Ok a => k a | Err e => Err e end.

Definition map_err {E F A} (f : E -> F) (r : Result E A) : Result F A :=
  match r with Ok a => Ok a | Err e => Err (f e) end.
Definition result_ok {E A} (r : Result E A) : option A :=
  match r with Ok a => Some a | Err _ => None end.
Definition ok_or {E A} (o : option A) (e : E) : Result E A :=
  match o with Some a => Ok a | None => Err e end.
Definition is_ok {E A} (r : Result E A) : bool :=
  match r with Ok _ => true | Err _ => false end.
Definition is_err {E A} (r : Result E A) : bool := negb (is_ok r).
Definition unwrap_or {A} (d : A) (o : option A) : A :=
  match o with Some a => a | None => d end.

(** [iter().map(f).collect::<Result<Vec<_>, _>>()]: stops at the first error. *)
Fixpoint collect_result {E A B} (f : A -> Result E B) (l : list A) : Result E (list B) :=
  match l with
  | [] => Ok []
  | x :: l => y ← f x; ys ← collect_result f l; Ok (y :: ys)
  end.

Lemma bind_Ok {E A B} (r : Result E A) (k : A -> Result E B) b :
  r ≫= k = Ok b <-> exists a, r = Ok a /\ k a = Ok b.
Proof. destruct r; cbn; split; intros H; try naive_solver; discriminate. Qed.
Lemma bind_Err {E A B} (r : Result E A) (k : A -> Result E B) e :
  r ≫= k = Err e <-> r = Err e \/ exists a, r = Ok a /\ k a = Err e.
Proof. destruct r; cbn; naive_solver. Qed.
Lemma map_err_Ok {E F A} (f : E -> F) (r : Result E A) a :
  map_err f r = Ok a <-> r = Ok a.
Proof. destruct r; cbn; naive_solver. Qed.
Lemma ok_or_Ok {E A} (o : option A) (e : E) a : ok_or o e = Ok a <-> o = Some a.
Proof. destruct o; cbn; naive_solver. Qed.
Lemma result_ok_Some {E A} (r : Result E A) a : result_ok r = Some a <-> r = Ok a.
Proof. destruct r; cbn; naive_solver. Qed.

Lemma collect_result_Ok {E A B} (f : A -> Result E B) l ys :
  collect_result f l = Ok ys <-> Forall2 (fun x y => f x = Ok y) l ys.
Proof.
  revert ys; induction l as [|x l IH]; intros ys; cbn.
  - split; [intros [= <-]; constructor | intros H; by inversion H].
  - rewrite bind_Ok; setoid_rewrite bind_Ok; split.
    + intros (y & Hy & zs & Hzs & [= <-]). constructor; [done | by apply IH].
    + intros H; inversion H as [|? y ? zs]; subst. exists y; split; [done|].
      exists zs; split; [by apply IH | done].
Qed.

(** ** Code that mutates [&mut self] and may fail: [ST] *)

(** The state survives an error: what was mutated before a [?] stays mutated. *)
Definition ST (S E A : Type) : Type := S -> Result E A * S.

#[global] Instance st_ret {S E} : MRet (ST S E) := fun A a s => (Ok a, s).
#[global] Instance st_bind {S E} : MBind (ST S E) :=
  fun A B k m s =>
    match m s with
    | (Ok a, s') => k a s'
    | (Err e, s') => (Err e, s')
    end.

Definition st_get {S E} : ST S E S := fun s => (Ok s, s).
Definition st_put {S E} (s : S) : ST S E unit := fun _ => (Ok tt, s).
Definition st_modify {S E} (f : S -> S) : ST S E unit := fun s => (Ok tt, f s).
Definition st_fail {S E A} (e : E) : ST S E A := fun s => (Err e, s).
Definition st_lift {S E A} (r : Result E A) : ST S E A := fun s => (r, s).
(** A step that cannot fail. *)
Definition st_step {S E A} (f : S -> A * S) : ST S E A := fun s => (Ok (f s).1, (f s).2).
(** [match call() { Ok(..) => .., Err(..) => .. }]: the outcome as a value. *)
Definition st_try {S E F A} (m : ST S E A) : ST S F (Result E A) :=
  fun s => (Ok (m s).1, (m s).2).
(** [map_err] on a stateful call. *)
Definition st_map_err {S E F A} (f : E -> F) (m : ST S E A) : ST S F A :=
  fun s => let '(r, s') := m s in (map_err f r, s').

(** Code that works on the part [get] of the state, written back by [put]. *)
Definition st_zoom {S T E A} (get : S -> T) (put : T -> S -> S) (m : ST T E A) : ST S E A :=
  fun s => let '(r, t) := m (get s) in (r, put t s).

Lemma st_bind_inv {S E A B} (m : ST S E A) (k : A -> ST S E B) s r s' :
  (m ≫= k) s = (r, s') ->
  (exists e, m s = (Err e, s') /\ r = Err e) \/
  (exists a s1, m s = (Ok a, s1) /\ k a s1 = (r, s')).
Proof.
  unfold mbind, st_bind. destruct (m s) as [[a|e] s1] eqn:Hm; intros H.
  - right; eauto.
  - left; exists e; naive_solver.
Qed.

Section st_equations.
Context {S E A B : Type} (s : S).
Lemma st_bind_get (k : S -> ST S E B) : (st_get ≫= k) s = k s s.
Proof. done. Qed.
Lemma st_bind_modify f (k : unit -> ST S E B) : (st_modify f ≫= k) s = k tt (f s).
Proof. done. Qed.
Lemma st_bind_ret (a : A) (k : A -> ST S E B) : (mret a ≫= k) s = k a s.
Proof. done. Qed.
Lemma st_bind_lift_ok (a : A) (k : A -> ST S E B) : (st_lift (Ok a) ≫= k) s = k a s.
Proof. done. Qed.
Lemma st_bind_lift_err e (k : A -> ST S E B) : (st_lift (Err e) ≫= k) s = (Err e, s).
Proof. done. Qed.
Lemma st_bind_fail e (k : A -> ST S E B) : (st_fail e ≫= k) s = (Err e, s).
Proof. done. Qed.
End st_equations.
Lemma st_bind_ok {S E A B} (m : ST S E A) (k : A -> ST S E B) s a s1 :
  m s = (Ok a, s1) -> (m ≫= k) s = k a s1.
Proof. intros Hm. unfold mbind, st_bind. by rewrite Hm. Qed.
Lemma st_bind_err {S E A B} (m : ST S E A) (k : A -> ST S E B) s e s1 :
  m s = (Err e, s1) -> (m ≫= k) s = (Err e, s1).
Proof. intros Hm. unfold mbind, st_bind. by rewrite Hm. Qed.

(** Runs the steps of [ST] code whose outcome is known. *)
Ltac st_simpl :=
  repeat (first
    [ rewrite st_bind_get | rewrite st_bind_modify | rewrite st_bind_ret
    | rewrite st_bind_lift_ok | rewrite st_bind_lift_err | rewrite st_bind_fail ];
    cbn beta iota; cbn [map_err]).
Ltac st_simpl_in Hst :=
  repeat (first
    [ rewrite st_bind_get in Hst | rewrite st_bind_modify in Hst | rewrite st_bind_ret in Hst
    | rewrite st_bind_lift_ok in Hst | rewrite st_bind_lift_err in Hst
    | rewrite st_bind_fail in Hst ];
    cbn beta iota in Hst; cbn [map_err] in Hst).

(** Every step of a list of stateful steps, stopping at the first error. *)
Fixpoint st_for {S E A} (f : A -> ST S E unit) (l : list A) : ST S E unit :=
  match l with
  | [] => mret tt
  | x :: l => f x ;; st_for f l
  end.

(** Invariants travel through [ST] code. *)
Definition st_preserves {S E A} (P : S -> Prop) (m : ST S E A) : Prop :=
  forall s, P s -> P (m s).2.

Lemma st_preserves_ret {S E A} (P : S -> Prop) (a : A) :
  st_preserves (E := E) P (mret a).
Proof. by intros s Hs. Qed.
Lemma st_preserves_fail {S E A} (P : S -> Prop) (e : E) :
  st_preserves (A := A) P (st_fail e).
Proof. by intros s Hs. Qed.
Lemma st_preserves_lift {S E A} (P : S -> Prop) (r : Result E A) :
  st_preserves P (st_lift r).
Proof. by intros s Hs. Qed.
Lemma st_preserves_get {S E} (P : S -> Prop) : st_preserves (E := E) P st_get.
Proof. by intros s Hs. Qed.
Lemma st_preserves_modify {S E} (P : S -> Prop) (f : S -> S) :
  (forall s, P s -> P (f s)) -> st_preserves (E := E) P (st_modify f).
Proof. intros Hf s Hs. by apply Hf. Qed.
Lemma st_preserves_map_err {S E F A} (P : S -> Prop) (f : E -> F) (m : ST S E A) :
  st_preserves P m -> st_preserves P (st_map_err f m).
Proof. intros Hm s Hs. unfold st_map_err. specialize (Hm s Hs). by destruct (m s). Qed.
Lemma st_preserves_try {S E F A} (P : S -> Prop) (m : ST S E A) :
  st_preserves P m -> st_preserves (E := F) P (st_try m).
Proof. intros Hm s Hs. exact (Hm s Hs). Qed.
Lemma st_preserves_zoom {S T E A} (P : S -> Prop) get put (m : ST T E A) :
  (forall s t, P s -> t = (m (get s)).2 -> P (put t s)) -> st_preserves P (st_zoom get put m).
Proof. intros Hp s Hs. unfold st_zoom. specialize (Hp s _ Hs eq_refl). by destruct (m (get s)). Qed.
Lemma st_preserves_put {S E} (P : S -> Prop) s : P s -> st_preserves (E := E) P (st_put s).
Proof. by intros Hs s' _. Qed.
Lemma st_preserves_step {S E A} (P : S -> Prop) (f : S -> A * S) :
  (forall s, P s -> P (f s).2) -> st_preserves (E := E) P (st_step f).
Proof. intros Hf s Hs. by apply Hf. Qed.
Lemma st_preserves_bind {S E A B} (P : S -> Prop) (m : ST S E A) (k : A -> ST S E B) :
  st_preserves P m -> (forall a, st_preserves P (k a)) -> st_preserves P (m ≫= k).
Proof.
  intros Hm Hk s Hs. unfold mbind, st_bind. specialize (Hm s Hs).
  destruct (m s) as [[a|e] s1]; [by apply Hk | done].
Qed.
Lemma st_preserves_for {S E A} (P : S -> Prop) (f : A -> ST S E unit) l :
  (forall a, st_preserves P (f a)) -> st_preserves P (st_for f l).
Proof.
  intros Hf; induction l as [|x l IH]; cbn.
  - apply st_preserves_ret.
  - apply st_preserves_bind; auto.
Qed.

(** [m] leaves the part [f] of the state as it was. *)
Definition st_keeps {S E A X} (f : S -> X) (m : ST S E A) : Prop :=
  forall x, st_preserves (fun s => f s = x) m.
Lemma st_keeps_eq {S E A X} (f : S -> X) (m : ST S E A) s : st_keeps f m -> f (m s).2 = f s.
Proof. intros Hm. by apply (Hm (f s)). Qed.
Lemma st_keeps_preserves {S E A X} (f : S -> X) (P : S -> Prop) (m : ST S E A) :
  (forall s s', f s = f s' -> P s' -> P s) -> st_keeps f m -> st_preserves P m.
Proof. intros Hf Hm s Hs. apply (Hf _ s); [by apply st_keeps_eq|done]. Qed.

(** Follows the steps of [ST] code down to the calls; [tac] deals with those. *)
Ltac st_steps tac :=
  repeat first
    [ progress tac
    | apply st_preserves_ret | apply st_preserves_fail | apply st_preserves_lift
    | apply st_preserves_get
    | apply st_preserves_bind; [|intros ?]
    | apply st_preserves_try
    | apply st_preserves_for; intros ?
    | match goal with |- st_preserves _ (match ?x with _ => _ end) => destruct x end ].

Create HintDb st discriminated.
#[export] Hint Resolve st_preserves_ret st_preserves_fail st_preserves_lift
  st_preserves_get st_preserves_modify st_preserves_map_err st_preserves_bind
  st_preserves_for : st.

(** ** [std::io::Error]: its kind and the text it displays *)

Inductive ErrorKind :=
| InvalidData | UnexpectedEof | Interrupted | WouldBlock | TimedOut | NotFound | KindOther (n : Z).
#[global] Instance error_kind_eq_dec : EqDecision ErrorKind.
Proof. solve_decision. Defined.
Record IoError := { io_kind : ErrorKind; io_text : string }.

(** ** Machine integers *)

Definition U64_MAX : Z := 2 ^ 64 - 1.
Definition U32_MAX : Z := 2 ^ 32 - 1.
Definition U128_MAX : Z := 2 ^ 128 - 1.
Definition I32_MAX : Z := 2 ^ 31 - 1.
Definition I32_MIN : Z := - 2 ^ 31.
(** [usize] on the 64-bit targets the node is built for. *)
Definition USIZE_MAX : Z := U64_MAX.

Definition saturating_add (max a b : Z) : Z := Z.min (a + b) max.
Definition saturating_mul (max a b : Z) : Z := Z.min (a * b) max.
Definition saturating_sub (a b : Z) : Z := Z.max 0 (a - b).
Definition u64_add := saturating_add U64_MAX.
Definition u64_mul := saturating_mul U64_MAX.
Definition u64_sub := saturating_sub.
Definition u64_wrapping_add (a b : Z) : Z := (a + b) mod 2 ^ 64.
Definition i32_saturating_add (a b : Z) : Z := Z.max I32_MIN (Z.min I32_MAX (a + b)).
Definition i32_saturating_sub (a b : Z) : Z := Z.max I32_MIN (Z.min I32_MAX (a - b)).

Definition is_u64 (z : Z) : Prop := 0 <= z <= U64_MAX.
Definition is_u32 (z : Z) : Prop := 0 <= z <= U32_MAX.

Definition zlen {A} (l : list A) : Z := Z.of_nat (length l).

Ltac unfold_int :=
  unfold u64_add, u64_mul, u64_sub, saturating_add, saturating_mul, saturating_sub,
    i32_saturating_add, i32_saturating_sub, is_u64, is_u32, zlen in *.

(** [n.to_be_bytes()] for a [w]-byte integer. *)
Fixpoint be_bytes (w : nat) (n : Z) : list Z :=
  match w with
  | O => []
  | S w => (n / 256 ^ Z.of_nat w) mod 256 :: be_bytes w n
  end.

Lemma be_bytes_length w n : length (be_bytes w n) = w.
Proof. induction w; cbn; congruence. Qed.

Lemma be_bytes_inj w a b :
  0 <= a < 256 ^ Z.of_nat w -> 0 <= b < 256 ^ Z.of_nat w ->
  be_bytes w a = be_bytes w b -> a = b.
Proof.
  (* the list determines [n mod 256^w] *)
  assert (Hmod : forall w a b, be_bytes w a = be_bytes w b ->
            a mod 256 ^ Z.of_nat w = b mod 256 ^ Z.of_nat w).
  { clear; induction w as [|w IH]; intros a b H.
    - by rewrite !Z.mod_1_r.
    - injection H as Hd Ht. specialize (IH _ _ Ht).
      rewrite Nat2Z.inj_succ, Z.pow_succ_r by lia.
      rewrite (Z.mul_comm 256), !Z.rem_mul_r by lia.
      by rewrite IH, Hd. }
  intros Ha Hb H. apply Hmod in H. by rewrite !Z.mod_small in H.
Qed.

(** ** Sorting and extrema by a comparator *)

Section sort.
Context {A : Type} (c : A -> A -> comparison).

(** [slice::sort_by]: a stable sort (equal elements keep their order). *)
Fixpoint sort_insert (x : A) (l : list A) : list A :=
  match l with
  | [] => [x]
  | y :: l' => match c x y with Gt => y :: sort_insert x l' | _ => x :: l end
  end.
Definition sort_by (l : list A) : list A := foldr sort_insert [] l.

(** [Iterator::min_by] keeps the first of equal minima, [max_by] the last maximum. *)
Definition min_by (l : list A) : option A :=
  match l with
  | [] => None
  | x :: l => Some (fold_left (fun m y => match c m y with Gt => y | _ => m end) l x)
  end.
Definition max_by (l : list A) : option A :=
  match l with
  | [] => None
  | x :: l => Some (fold_left (fun m y => match c m y with Gt => m | _ => y end) l x)
  end.

Lemma sort_insert_perm x l : sort_insert x l ≡ₚ x :: l.
Proof.
  induction l as [|y l IH]; cbn; [done|]. destruct (c x y); try done.
  rewrite IH. apply perm_swap.
Qed.
Lemma sort_by_perm l : sort_by l ≡ₚ l.
Proof. induction l as [|x l IH]; cbn; [done|]. by rewrite sort_insert_perm, IH. Qed.
Lemma elem_of_sort_by x l : x ∈ sort_by l <-> x ∈ l.
Proof. by rewrite sort_by_perm. Qed.

Context (total : forall x y, c x y = Gt -> c y x <> Gt).
Context (trans : forall x y z, c x y <> Gt -> c y z <> Gt -> c x z <> Gt).

Lemma sort_insert_sorted x l :
  StronglySorted (fun x y => c x y <> Gt) l ->
  StronglySorted (fun x y => c x y <> Gt) (sort_insert x l).
Proof.
  induction 1 as [|y l Hs IH Hf]; cbn; [by repeat constructor|].
  assert (Hle : c x y <> Gt -> StronglySorted (fun x y => c x y <> Gt) (x :: y :: l)).
  { intros Hxy. repeat constructor; try done. eapply Forall_impl; [exact Hf|]. eauto. }
  destruct (c x y) eqn:E; [by apply Hle|by apply Hle|].
  constructor; [done|]. rewrite sort_insert_perm. constructor; eauto.
Qed.
Lemma sort_by_sorted l : StronglySorted (fun x y => c x y <> Gt) (sort_by l).
Proof. induction l; cbn; [constructor|]. by apply sort_insert_sorted. Qed.

Lemma min_by_spec l m :
  min_by l = Some m -> m ∈ l /\ forall y, y ∈ l -> c m y <> Gt.
Proof.
  destruct l as [|x l]; [done|]. cbn. intros [= <-].
  assert (Hrefl : forall x, c x x <> Gt).
  { intros z Hz. by apply (total z z). }
  revert x. induction l as [|y l IH]; intros x; cbn.
  { split; [by constructor|]. intros y Hy. apply list_elem_of_singleton in Hy as ->. apply Hrefl. }
  destruct (IH (match c x y with Gt => y | _ => x end)) as [Hin Hmin].
  split; [destruct (c x y); set_solver|].
  assert (Hbest := Hmin _ (list_elem_of_here _ _)).
  intros z Hz. apply elem_of_cons in Hz as [->|Hz]; [|apply elem_of_cons in Hz as [->|Hz]].
  - destruct (c x y) eqn:E; try done. apply (trans _ y); [done|]. by apply total.
  - destruct (c x y) eqn:E; try done; apply (trans _ x); try done; congruence.
  - apply Hmin. by right.
Qed.

Lemma min_by_None l : min_by l = None -> l = [].
Proof. by destruct l. Qed.
Lemma max_by_elem l m : max_by l = Some m -> m ∈ l.
Proof.
  destruct l as [|x l]; [done|]. cbn. intros [= <-]. revert x.
  induction l as [|y l IH]; intros x; cbn; [by constructor|].
  specialize (IH (match c x y with Gt => x | _ => y end)). destruct (c x y); set_solver.
Qed.
End sort.

(** A sorted list is determined by its elements. *)
Lemma sorted_perm_unique {A} (R : A -> A -> Prop) (l1 l2 : list A) :
  l1 ≡ₚ l2 -> StronglySorted R l1 -> StronglySorted R l2 ->
  (forall x y, x ∈ l1 -> y ∈ l1 -> R x y -> R y x -> x = y) -> l1 = l2.
Proof.
  intros Hp H1. revert l2 Hp. induction H1 as [|x l1 Hs1 IH Hf1]; intros l2 Hp H2 Hanti.
  { by apply Permutation_nil_l in Hp as ->. }
  destruct H2 as [|y l2 Hs2 Hf2]; [by apply Permutation_nil_r in Hp|].
  rewrite Forall_forall in Hf1, Hf2.
  assert (x = y) as <-.
  { assert (Hx : x ∈ y :: l2) by (rewrite <- Hp; by constructor).
    assert (Hy : y ∈ x :: l1) by (rewrite Hp; by constructor).
    apply elem_of_cons in Hx as [->|Hx]; [done|]. apply elem_of_cons in Hy as [->|Hy]; [done|].
    apply Hanti; [by constructor|by right|by apply Hf1|by apply Hf2]. }
  f_equal. apply Permutation_cons_inv in Hp. apply IH; [done|done|].
  intros a b Ha Hb. apply Hanti; by right.
Qed.

(** ** Bytes *)

(** [b"..."] literals. *)
Definition ascii_bytes (s : string) : list Z :=
  map (fun a => Z.of_nat (Ascii.nat_of_ascii a)) (String.list_ascii_of_string s).

(** [u64::from_le_bytes]. *)
Fixpoint from_le_bytes (l : list Z) : Z :=
  match l with [] => 0 | b :: l => b + 256 * from_le_bytes l end.
Fixpoint le_bytes (w : nat) (n : Z) : list Z :=
  match w with O => [] | S w => n mod 256 :: le_bytes w (n / 256) end.

(** Naming the final state of a run whose outcome is known. *)
Lemma run_ok {S E} (r : Result E unit * S) : is_ok r.1 = true -> r = (Ok tt, r.2).
Proof. by destruct r as [[[]|] s]. Qed.
Lemma run_err {S E A} (r : Result E A * S) e : r.1 = Err e -> r = (Err e, r.2).
Proof. destruct r as [x s]. by intros [= ->]. Qed.
