(* ===== verification/BTree.v ===== *)
(** Ordered keys and the ordered map.

    Rust's [Ord] as a class with its laws, and [std::collections::BTreeMap] as a
    key-sorted association list: iteration ([iter], [keys], [values]), the smallest key
    ([keys().next()]) and eviction order all depend on that order in the node. Sets
    ([BTreeSet<K>]) are maps to [unit]. *)
From Stdlib Require Import ZArith Lia Permutation Sorted.
From stdpp Require Import base numbers option list.
From S2P Require Import Prelude.
Open Scope Z_scope.

(** ** Orders *)

Class Ord (K : Type) := cmp : K -> K -> comparison.

Class OrdLaws (K : Type) `{Ord K} := {
  cmp_eq : forall a b : K, cmp a b = Eq <-> a = b;
  cmp_opp : forall a b : K, cmp b a = CompOpp (cmp a b);
  cmp_trans : forall a b c : K, cmp a b = Lt -> cmp b c = Lt -> cmp a c = Lt
}.

#[global] Instance Z_Ord : Ord Z := Z.compare.
#[global] Instance Z_OrdLaws : OrdLaws Z.
Proof.
  split; unfold cmp, Z_Ord.
  - intros a b; apply Z.compare_eq_iff.
  - intros a b; apply Z.compare_antisym.
  - intros a b c; rewrite !Z.compare_lt_iff; lia.
Qed.

#[global] Instance bool_Ord : Ord bool := fun a b =>
  match a, b with
  | false, true => Lt | true, false => Gt | _, _ => Eq
  end.
#[global] Instance bool_OrdLaws : OrdLaws bool.
Proof. split; intros [] []; try (intros []); cbn; try done; split; done. Qed.

(** Lexicographic order: [then_with], tuples and byte slices. *)
Definition then_with (c d : comparison) : comparison :=
  match c with Eq => d | _ => c end.

#[global] Instance prod_Ord {A B} `{Ord A, Ord B} : Ord (A * B) := fun x y =>
  then_with (cmp x.1 y.1) (cmp x.2 y.2).
#[global] Instance option_Ord {A} `{Ord A} : Ord (option A) := fun x y =>
  match x, y with
  | None, None => Eq | None, Some _ => Lt | Some _, None => Gt
  | Some a, Some b => cmp a b
  end.
Fixpoint list_cmp {A} `{Ord A} (x y : list A) : comparison :=
  match x, y with
  | [], [] => Eq | [], _ :: _ => Lt | _ :: _, [] => Gt
  | a :: x, b :: y => then_with (cmp a b) (list_cmp x y)
  end.
#[global] Instance list_Ord {A} `{Ord A} : Ord (list A) := list_cmp.

Section laws.
Context {K : Type} `{OrdLaws K}.

Lemma cmp_refl (a : K) : cmp a a = Eq.
Proof. by apply cmp_eq. Qed.
Lemma cmp_gt (a b : K) : cmp a b = Gt <-> cmp b a = Lt.
Proof. rewrite (cmp_opp a b). destruct (cmp a b); cbn; naive_solver. Qed.
Lemma cmp_total (a b : K) : cmp a b = Gt -> cmp b a <> Gt.
Proof. rewrite cmp_gt. by intros ->. Qed.
Lemma cmp_le_trans (a b c : K) : cmp a b <> Gt -> cmp b c <> Gt -> cmp a c <> Gt.
Proof.
  destruct (cmp a b) eqn:E1; [apply cmp_eq in E1 as ->; done|intros _|done].
  destruct (cmp b c) eqn:E2; [apply cmp_eq in E2 as ->; by rewrite E1|intros _|done].
  by rewrite (cmp_trans _ _ _ E1 E2).
Qed.
Lemma cmp_antisym (a b : K) : cmp a b <> Gt -> cmp b a <> Gt -> a = b.
Proof.
  rewrite (cmp_opp a b). destruct (cmp a b) eqn:E; cbn; try done. intros _ _. by apply cmp_eq.
Qed.
Lemma cmp_lt_irrefl (a : K) : cmp a a <> Lt.
Proof. by rewrite cmp_refl. Qed.
Lemma cmp_lt_ne (a b : K) : cmp a b = Lt -> a <> b.
Proof. intros Hc ->. by apply cmp_lt_irrefl in Hc. Qed.

(** Keys are decidable. *)
#[global] Instance ord_eq_decision : EqDecision K | 100.
Proof.
  intros a b. destruct (cmp a b) eqn:E.
  - left. by apply cmp_eq.
  - right. intros ->. by rewrite cmp_refl in E.
  - right. intros ->. by rewrite cmp_refl in E.
Defined.
End laws.

#[global] Instance prod_OrdLaws {A B} `{OrdLaws A, OrdLaws B} : OrdLaws (A * B).
Proof.
  split; unfold cmp, prod_Ord.
  - intros [a b] [a' b']; cbn. destruct (cmp a a') eqn:E; cbn.
    + apply cmp_eq in E as ->. rewrite cmp_eq. naive_solver.
    + split; [done|]. intros [= -> _]. by rewrite cmp_refl in E.
    + split; [done|]. intros [= -> _]. by rewrite cmp_refl in E.
  - intros [a b] [a' b']; cbn. rewrite (cmp_opp a a'), (cmp_opp b b').
    by destruct (cmp a a').
  - intros [a b] [a' b'] [a'' b'']; cbn; unfold then_with.
    destruct (cmp a a') eqn:E1; [|destruct (cmp a' a'') eqn:E2|]; try done.
    + apply cmp_eq in E1 as ->. destruct (cmp a' a'') eqn:E2; try done.
      by intros; eapply cmp_trans.
    + apply cmp_eq in E2 as ->. by rewrite E1.
    + intros _ _. by rewrite (cmp_trans _ _ _ E1 E2).
Qed.

#[global] Instance option_OrdLaws {A} `{OrdLaws A} : OrdLaws (option A).
Proof.
  split; unfold cmp, option_Ord.
  - intros [a|] [b|]; try done. rewrite cmp_eq. naive_solver.
  - intros [a|] [b|]; try done. apply cmp_opp.
  - intros [a|] [b|] [c|]; try done. apply cmp_trans.
Qed.

#[global] Instance list_OrdLaws {A} `{OrdLaws A} : OrdLaws (list A).
Proof.
  split; unfold cmp, list_Ord.
  - intros x; induction x as [|a x IH]; intros [|b y]; cbn; try done.
    destruct (cmp a b) eqn:E; cbn.
    + apply cmp_eq in E as ->. rewrite IH. naive_solver.
    + split; [done|]. intros [= -> _]. by rewrite cmp_refl in E.
    + split; [done|]. intros [= -> _]. by rewrite cmp_refl in E.
  - intros x; induction x as [|a x IH]; intros [|b y]; cbn; try done.
    rewrite (cmp_opp a b), IH. by destruct (cmp a b).
  - intros x; induction x as [|a x IH]; intros [|b y] [|c z]; cbn; try done.
    unfold then_with. destruct (cmp a b) eqn:E1; [|destruct (cmp b c) eqn:E2|]; try done.
    + apply cmp_eq in E1 as ->. destruct (cmp b c) eqn:E2; try done. apply IH.
    + apply cmp_eq in E2 as ->. by rewrite E1.
    + intros _ _. by rewrite (cmp_trans _ _ _ E1 E2).
Qed.

(** ** The map *)

Record BTreeMap (K V : Type) := BT { bt_list : list (K * V) }.
Arguments BT {K V} _.
Arguments bt_list {K V} _.
Abbreviation BTreeSet K := (BTreeMap K unit).

Section map.
Context {K V : Type} `{OrdLaws K}.
Implicit Types (m : BTreeMap K V) (l : list (K * V)) (k : K) (v : V).

Fixpoint al_get (k : K) (l : list (K * V)) : option V :=
  match l with
  | [] => None
  | (k', v) :: l => match cmp k k' with Eq => Some v | _ => al_get k l end
  end.
Fixpoint al_insert (k : K) (v : V) (l : list (K * V)) : list (K * V) :=
  match l with
  | [] => [(k, v)]
  | (k', v') :: l' =>
      match cmp k k' with
      | Lt => (k, v) :: l
      | Eq => (k, v) :: l'
      | Gt => (k', v') :: al_insert k v l'
      end
  end.
Definition al_remove (k : K) (l : list (K * V)) : list (K * V) :=
  List.filter (fun p => match cmp k p.1 with Eq => false | _ => true end) l.

#[global] Instance bt_empty : Empty (BTreeMap K V) := BT [].
#[global] Instance bt_lookup : Lookup K V (BTreeMap K V) := fun k m => al_get k (bt_list m).
#[global] Instance bt_insert : Insert K V (BTreeMap K V) := fun k v m =>
  BT (al_insert k v (bt_list m)).
#[global] Instance bt_delete : Delete K (BTreeMap K V) := fun k m =>
  BT (al_remove k (bt_list m)).

Definition bt_contains (k : K) m : bool :=
  match m !! k with Some _ => true | None => false end.
Definition bt_keys m : list K := (bt_list m).*1.
Definition bt_values m : list V := (bt_list m).*2.
Definition bt_len m : Z := zlen (bt_list m).
Definition bt_is_empty m : bool := match bt_list m with [] => true | _ => false end.
(** [keys().next()]: the smallest key. *)
Definition bt_first_key m : option K := head (bt_keys m).

Definition key_lt (p q : K * V) : Prop := cmp p.1 q.1 = Lt.
(** The representation invariant of the map: keys strictly increasing. *)
Definition bt_wf m : Prop := StronglySorted key_lt (bt_list m).

Lemma bt_lookup_empty k : (∅ : BTreeMap K V) !! k = None.
Proof. done. Qed.

Lemma bt_lookup_insert_eq m k v : <[k := v]> m !! k = Some v.
Proof.
  unfold lookup, bt_lookup, insert, bt_insert; cbn.
  induction (bt_list m) as [|[k' v'] l IH]; cbn; [by rewrite cmp_refl|].
  destruct (cmp k k') eqn:E; cbn; rewrite ?cmp_refl, ?E; done.
Qed.

Lemma bt_lookup_insert_ne m k k' v : k <> k' -> <[k := v]> m !! k' = m !! k'.
Proof.
  intros Hne. unfold lookup, bt_lookup, insert, bt_insert; cbn.
  assert (Hk : forall c : option V, match cmp k' k with Eq => Some v | _ => c end = c).
  { intros c. destruct (cmp k' k) eqn:E; [|done|done]. apply cmp_eq in E; congruence. }
  induction (bt_list m) as [|[k1 v1] l IH]; cbn; [by rewrite Hk|].
  destruct (cmp k k1) eqn:E; cbn.
  - rewrite Hk. apply cmp_eq in E as <-. destruct (cmp k' k) eqn:E'; [|done|done].
    apply cmp_eq in E'; congruence.
  - by rewrite Hk.
  - by rewrite IH.
Qed.

Lemma bt_lookup_insert m k k' v :
  <[k := v]> m !! k' = if decide (k = k') then Some v else m !! k'.
Proof.
  case_decide; [subst; apply bt_lookup_insert_eq | by apply bt_lookup_insert_ne].
Qed.

Lemma bt_lookup_delete_eq m k : delete k m !! k = None.
Proof.
  unfold lookup, bt_lookup, delete, bt_delete, al_remove; cbn.
  induction (bt_list m) as [|[k' v'] l IH]; cbn; [done|].
  destruct (cmp k k') eqn:E; cbn; rewrite ?E; done.
Qed.

Lemma bt_lookup_delete_ne m k k' : k <> k' -> delete k m !! k' = m !! k'.
Proof.
  intros Hne. unfold lookup, bt_lookup, delete, bt_delete, al_remove; cbn.
  induction (bt_list m) as [|[k1 v1] l IH]; cbn; [done|].
  destruct (cmp k k1) eqn:E; cbn; rewrite ?IH; try done.
  apply cmp_eq in E as <-. destruct (cmp k' k) eqn:E'; [|done|done].
  apply cmp_eq in E'; congruence.
Qed.

Lemma bt_lookup_delete m k k' :
  delete k m !! k' = if decide (k = k') then None else m !! k'.
Proof.
  case_decide; [subst; apply bt_lookup_delete_eq | by apply bt_lookup_delete_ne].
Qed.

Lemma bt_contains_true m k : bt_contains k m = true <-> is_Some (m !! k).
Proof.
  unfold bt_contains. destruct (m !! k); split; try done; intros Hs; by destruct Hs.
Qed.

(** *** Order and size *)

Lemma al_insert_Forall (P : K * V -> Prop) k v l :
  P (k, v) -> Forall P l -> Forall P (al_insert k v l).
Proof.
  intros Hk. induction 1 as [|[k' v'] l Hx Hl IH]; cbn; [by constructor|].
  destruct (cmp k k'); by repeat constructor.
Qed.

(** A key above all others goes last. *)
Lemma bt_insert_last m k v :
  Forall (fun p => cmp p.1 k = Lt) (bt_list m) -> bt_list (<[k := v]> m) = bt_list m ++ [(k, v)].
Proof.
  unfold insert, bt_insert. cbn. induction 1 as [|[k' v'] l Hx Hl IH]; cbn; [done|].
  apply cmp_gt in Hx. cbn in Hx. by rewrite Hx, IH.
Qed.

Lemma bt_wf_empty : bt_wf ∅.
Proof. constructor. Qed.

Lemma bt_wf_insert m k v : bt_wf m -> bt_wf (<[k := v]> m).
Proof.
  unfold bt_wf, insert, bt_insert; cbn.
  induction 1 as [|[k' v'] l Hs IH Hf]; cbn; [by repeat constructor|].
  destruct (cmp k k') eqn:E.
  - apply cmp_eq in E as <-. by constructor.
  - repeat constructor; try done. eapply Forall_impl; [exact Hf|].
    intros [a b] Hab; unfold key_lt in *; cbn in *. by eapply cmp_trans.
  - constructor; [done|]. apply al_insert_Forall; [by apply cmp_gt|done].
Qed.

Lemma bt_wf_delete m k : bt_wf m -> bt_wf (delete k m).
Proof.
  unfold bt_wf, delete, bt_delete, al_remove; cbn.
  induction 1 as [|[k' v'] l Hs IH Hf]; cbn; [constructor|].
  destruct (cmp k k'); cbn; try done; constructor; try done.
  all: apply Forall_forall; intros x Hx; rewrite Forall_forall in Hf; apply Hf.
  all: apply list_elem_of_In, List.filter_In in Hx as [Hx _]; by apply list_elem_of_In.
Qed.

Lemma bt_elem_lookup m k v : bt_wf m -> (k, v) ∈ bt_list m <-> m !! k = Some v.
Proof.
  unfold bt_wf, lookup, bt_lookup. induction 1 as [|[k' v'] l Hs IH Hf]; cbn.
  - split; [intros Hx; by inversion Hx | done].
  - rewrite elem_of_cons, IH. destruct (cmp k k') eqn:E.
    + apply cmp_eq in E as ->. split.
      * intros [[= <-]|Hk]; [done|]. apply IH in Hk.
        rewrite Forall_forall in Hf. apply Hf in Hk. by apply cmp_lt_irrefl in Hk.
      * intros [= ->]. by left.
    + split; [|by right]. intros [[= -> ->]|Hk]; [|done]. by rewrite cmp_refl in E.
    + split; [|by right]. intros [[= -> ->]|Hk]; [|done]. by rewrite cmp_refl in E.
Qed.

Lemma bt_elem_keys m k : bt_wf m -> k ∈ bt_keys m <-> is_Some (m !! k).
Proof.
  intros Hwf. unfold bt_keys. rewrite list_elem_of_fmap. split.
  - intros ([k' v] & -> & Hin). exists v. by apply bt_elem_lookup.
  - intros [v Hv]. exists (k, v). split; [done|]. by apply bt_elem_lookup.
Qed.

Lemma bt_elem_values m v : bt_wf m -> v ∈ bt_values m <-> exists k, m !! k = Some v.
Proof.
  intros Hwf. unfold bt_values. rewrite list_elem_of_fmap. split.
  - intros ([k' v'] & -> & Hin). exists k'. by apply bt_elem_lookup.
  - intros [k Hk]. exists (k, v). split; [done|]. by apply bt_elem_lookup.
Qed.

Lemma bt_keys_NoDup m : bt_wf m -> NoDup (bt_keys m).
Proof.
  unfold bt_wf, bt_keys. induction 1 as [|[k v] l Hs IH Hf]; cbn; constructor; [|done].
  rewrite list_elem_of_fmap. intros ([k' v'] & -> & Hin).
  rewrite Forall_forall in Hf. apply Hf in Hin. by apply cmp_lt_irrefl in Hin.
Qed.

(** The sum of a measure over the values: byte totals, counters. *)
Definition bt_sum (f : V -> Z) m : Z := foldr (fun p acc => f p.2 + acc) 0 (bt_list m).

Lemma bt_sum_insert f m k v :
  m !! k = None -> bt_sum f (<[k := v]> m) = f v + bt_sum f m.
Proof.
  unfold bt_sum, lookup, bt_lookup, insert, bt_insert; cbn.
  induction (bt_list m) as [|[k' v'] l IH]; cbn; [done|].
  destruct (cmp k k') eqn:E; cbn; try done. intros Hl. rewrite IH by done. lia.
Qed.

Lemma al_remove_notin k l :
  Forall (fun p => cmp k p.1 = Lt) l -> al_remove k l = l.
Proof.
  unfold al_remove. induction 1 as [|[k' v'] l Hk Hl IH]; cbn in *; [done|].
  by rewrite Hk, IH.
Qed.

Lemma bt_sum_delete f m k v :
  bt_wf m -> m !! k = Some v -> bt_sum f (delete k m) = bt_sum f m - f v.
Proof.
  unfold bt_wf, bt_sum, lookup, bt_lookup, delete, bt_delete; cbn.
  induction 1 as [|[k' v'] l Hs IH Hf]; cbn; [done|].
  destruct (cmp k k') eqn:E; cbn.
  - intros [= <-]. apply cmp_eq in E as ->.
    fold (al_remove k' l). rewrite al_remove_notin by done. lia.
  - intros Hk. fold (al_remove k l). rewrite IH by done. lia.
  - intros Hk. fold (al_remove k l). rewrite IH by done. lia.
Qed.

Lemma bt_sum_nonneg f m : (forall v, 0 <= f v) -> 0 <= bt_sum f m.
Proof. intros Hf. unfold bt_sum. induction (bt_list m); cbn; [lia|]. specialize (Hf a.2). lia. Qed.

Lemma bt_sum_ext_in f g m :
  bt_wf m -> (forall k v, m !! k = Some v -> f v = g v) -> bt_sum f m = bt_sum g m.
Proof.
  intros Hwf Hfg. assert (Hin : forall p, p ∈ bt_list m -> f p.2 = g p.2).
  { intros [k v] Hp. apply (Hfg k). by apply bt_elem_lookup. }
  unfold bt_sum. clear Hwf Hfg. induction (bt_list m) as [|p l IH]; cbn; [done|].
  rewrite (Hin p) by constructor. rewrite IH; [done|]. intros q Hq. apply Hin. by constructor.
Qed.

Lemma bt_len_sum m : bt_len m = bt_sum (fun _ => 1) m.
Proof. unfold bt_len, bt_sum, zlen. induction (bt_list m); cbn [length foldr]; lia. Qed.
Lemma bt_len_nonneg m : 0 <= bt_len m.
Proof. unfold bt_len, zlen. lia. Qed.
Lemma bt_len_insert_new m k v : m !! k = None -> bt_len (<[k := v]> m) = bt_len m + 1.
Proof. intros. rewrite !bt_len_sum, bt_sum_insert by done. lia. Qed.
Lemma bt_len_delete m k v : bt_wf m -> m !! k = Some v -> bt_len (delete k m) = bt_len m - 1.
Proof. intros. rewrite !bt_len_sum, (bt_sum_delete _ _ _ v) by done. lia. Qed.
Lemma bt_len_insert_le m k v : bt_len (<[k := v]> m) <= bt_len m + 1.
Proof.
  unfold bt_len, insert, bt_insert, zlen; cbn.
  induction (bt_list m) as [|[k' v'] l IH]; cbn [al_insert length]; [lia|].
  destruct (cmp k k'); cbn [length]; lia.
Qed.
Lemma bt_len_delete_le m k : bt_len (delete k m) <= bt_len m.
Proof.
  unfold bt_len, delete, bt_delete, al_remove, zlen; cbn.
  induction (bt_list m) as [|p l IH]; cbn [List.filter length]; [lia|].
  destruct (cmp k p.1); cbn [length]; lia.
Qed.

Lemma bt_delete_notin m k : m !! k = None -> delete k m = m.
Proof.
  unfold lookup, bt_lookup, delete, bt_delete. intros Hk. destruct m as [l]; cbn in *.
  f_equal. revert Hk. unfold al_remove. induction l as [|[k' v'] l IH]; cbn; [done|].
  destruct (cmp k k'); [done|..]; intros Hk; by rewrite IH.
Qed.

Lemma bt_first_key_Some m k : bt_wf m -> bt_first_key m = Some k -> is_Some (m !! k).
Proof.
  intros Hwf Hk. apply bt_elem_keys; [done|]. unfold bt_first_key in Hk.
  destruct (bt_keys m); [done|]. injection Hk as ->. by constructor.
Qed.

Lemma bt_first_key_None m : bt_first_key m = None -> m = ∅.
Proof.
  unfold bt_first_key, bt_keys. destruct m as [[|p l]]; cbn; done.
Qed.

(** Two maps with the same lookups are the same map. *)
Lemma bt_eq m1 m2 :
  bt_wf m1 -> bt_wf m2 -> (forall k, m1 !! k = m2 !! k) -> m1 = m2.
Proof.
  destruct m1 as [l1], m2 as [l2]. unfold bt_wf, lookup, bt_lookup; cbn.
  intros H1. revert l2. induction H1 as [|[k v] l1 Hs1 IH Hf1]; intros l2 H2 Heq.
  - destruct l2 as [|[k v] l2]; [done|]. specialize (Heq k); cbn in Heq. by rewrite cmp_refl in Heq.
  - destruct H2 as [|[k' v'] l2 Hs2 Hf2].
    { specialize (Heq k); cbn in Heq. by rewrite cmp_refl in Heq. }
    assert (Hget : forall l (x : K), Forall (key_lt (x, v)) l -> al_get x l = None).
    { clear. intros l x. induction 1 as [|[k1 v1] l Hx Hl IH]; cbn in *; [done|].
      unfold key_lt in Hx; cbn in Hx. by rewrite Hx. }
    assert (Hk : k = k' /\ v = v').
    { pose proof (Heq k) as Ek; pose proof (Heq k') as Ek'; cbn in Ek, Ek'.
      rewrite cmp_refl in Ek, Ek'. destruct (cmp k k') eqn:E.
      - apply cmp_eq in E; naive_solver.
      - rewrite Hget in Ek; [done|]. eapply Forall_impl; [exact Hf2|].
        intros [a b] Hab; unfold key_lt in *; cbn in *. by eapply cmp_trans.
      - apply cmp_gt in E. rewrite E in Ek'. rewrite Hget in Ek'; [done|].
        eapply Forall_impl; [exact Hf1|].
        intros [a b] Hab; unfold key_lt in *; cbn in *. by eapply cmp_trans. }
    destruct Hk as [<- <-]. f_equal.
    assert (Hl : forall x, al_get x l1 = al_get x l2).
    { intros x. specialize (Heq x); cbn in Heq. destruct (cmp x k) eqn:E; try done.
      apply cmp_eq in E as ->. rewrite !Hget; try done. }
    specialize (IH l2 Hs2 Hl). by injection IH as ->.
Qed.

Lemma bt_contains_false m k : bt_contains k m = false <-> m !! k = None.
Proof. unfold bt_contains. by destruct (m !! k). Qed.

(** Filing a list of values under a key that tells them apart. *)
Lemma bt_fold_insert (key : V -> K) (vs : list V) m k :
  (forall v v', v ∈ vs -> v' ∈ vs -> key v = key v' -> v = v') ->
  fold_left (fun m v => <[key v := v]> m) vs m !! k =
  match list_find (fun v => key v = k) vs with
  | Some (_, v) => Some v
  | None => m !! k
  end.
Proof.
  revert m. induction vs as [|a vs IH]; intros m Hu; cbn; [done|].
  rewrite IH by (intros x y Hx Hy; apply Hu; by right). rewrite bt_lookup_insert.
  destruct (decide (key a = k)) as [Hk|Hk].
  - destruct (list_find _ vs) as [[j a']|] eqn:E; [|done].
    apply list_find_Some in E as (Hj & Hk' & _). f_equal. symmetry.
    apply Hu; [by left|right; by eapply list_elem_of_lookup_2|congruence].
  - by destruct (list_find _ vs) as [[j a']|].
Qed.
Lemma bt_fold_insert_wf (key : V -> K) (vs : list V) m :
  bt_wf m -> bt_wf (fold_left (fun m v => <[key v := v]> m) vs m).
Proof. revert m. induction vs; intros m Hm; cbn; [done|]. by apply IHvs, bt_wf_insert. Qed.
Lemma bt_fold_insert_Some (key : V -> K) (vs : list V) k v :
  (forall v v', v ∈ vs -> v' ∈ vs -> key v = key v' -> v = v') ->
  fold_left (fun m v => <[key v := v]> m) vs ∅ !! k = Some v <-> v ∈ vs /\ key v = k.
Proof.
  intros Hu. rewrite bt_fold_insert by done. destruct (list_find _ vs) as [[j a]|] eqn:E.
  - apply list_find_Some in E as (Hj & Hk & _). apply list_elem_of_lookup_2 in Hj. split.
    + by intros [= <-].
    + intros [Hv Hkv]. f_equal. apply Hu; [done..|congruence].
  - apply list_find_None in E. rewrite Forall_forall in E. rewrite bt_lookup_empty.
    split; [done|]. intros [Hv Hkv]. by destruct (E v Hv).
Qed.

Lemma bt_refile (key : V -> K) m k :
  bt_wf m -> (forall k v, m !! k = Some v -> key v = k) ->
  fold_left (fun m v => <[key v := v]> m) (bt_values m) ∅ !! k = m !! k.
Proof.
  intros Hwf Hkey. apply option_eq. intros v. rewrite bt_fold_insert_Some.
  - rewrite bt_elem_values by done. split.
    + intros [[k' Hk'] <-]. by rewrite (Hkey _ _ Hk').
    + intros Hv. split; [by exists k|by apply Hkey].
  - intros v1 v2 Hv1 Hv2 E. apply bt_elem_values in Hv1 as [k1 H1'], Hv2 as [k2 H2']; [|done..].
    pose proof (Hkey _ _ H1'). pose proof (Hkey _ _ H2'). congruence.
Qed.

(** Deciding that a concrete map is well-formed and filed under a key. *)
Fixpoint al_sortedb (l : list (K * V)) : bool :=
  match l with
  | [] => true
  | p :: l => forallb (fun q => match cmp p.1 q.1 with Lt => true | _ => false end) l && al_sortedb l
  end.
Lemma al_sortedb_wf m : al_sortedb (bt_list m) = true -> bt_wf m.
Proof.
  unfold bt_wf. induction (bt_list m) as [|p l IH]; cbn; [constructor|].
  rewrite andb_true_iff. intros [Hp Hl]. constructor; [by apply IH|].
  apply List.Forall_forall. rewrite forallb_forall in Hp. intros q Hq. specialize (Hp q Hq).
  unfold key_lt. by destruct (cmp p.1 q.1).
Qed.
Lemma al_filed (key : V -> K) m :
  forallb (fun p => match cmp (key p.2) p.1 with Eq => true | _ => false end) (bt_list m) = true ->
  forall k v, m !! k = Some v -> key v = k.
Proof.
  unfold lookup, bt_lookup. induction (bt_list m) as [|[k' v'] l IH]; cbn; [done|].
  rewrite andb_true_iff. intros [Hp Hl] k v. destruct (cmp k k') eqn:E; [|by apply IH..].
  intros [= <-]. apply cmp_eq in E as ->. destruct (cmp (key v') k') eqn:E; [|done..]. by apply cmp_eq.
Qed.

(** Removing several keys, and changing every value in place. *)
Lemma bt_fold_delete (ks : list K) m k :
  fold_left (fun m k => delete k m) ks m !! k = if decide (k ∈ ks) then None else m !! k.
Proof.
  revert m. induction ks as [|k' ks IH]; intros m; cbn [fold_left].
  - destruct (decide _) as [Hin|]; [by apply elem_of_nil in Hin|done].
  - rewrite IH, bt_lookup_delete. destruct (decide (k ∈ ks)) as [Hk|Hk], (decide (k ∈ k' :: ks)) as [Hk'|Hk'];
      rewrite elem_of_cons in Hk'; destruct (decide (k' = k)); naive_solver.
Qed.
Lemma bt_fold_delete_wf (ks : list K) m :
  bt_wf m -> bt_wf (fold_left (fun m k => delete k m) ks m).
Proof. revert m. induction ks; intros m Hm; cbn; [done|]. by apply IHks, bt_wf_delete. Qed.
Lemma bt_map_lookup (f : V -> V) m k :
  BT (map (fun p : K * V => (p.1, f p.2)) (bt_list m)) !! k = f <$> m !! k.
Proof.
  unfold lookup, bt_lookup. cbn. induction (bt_list m) as [|[k' v] l IH]; cbn; [done|].
  by destruct (cmp k k').
Qed.
Lemma bt_map_wf (f : V -> V) m :
  bt_wf m -> bt_wf (BT (map (fun p : K * V => (p.1, f p.2)) (bt_list m))).
Proof.
  unfold bt_wf. cbn. induction 1 as [|p l Hs IH Hf]; cbn; constructor; [done|].
  apply List.Forall_map. eapply List.Forall_impl; [|exact Hf]. by intros [].
Qed.
End map.
