(* ===== verification/PaqusCore.v ===== *)
(** The interface of the [paqus] protocol crate.

    Consensus, ledger, transactions and fork choice live in the third-party crate
    [paqus] (Cargo.toml: paqus = "0.2.21"), which this repository only calls. Its types
    and functions are the fields of the classes below and stay abstract in every
    component; what a theorem needs to know of them is a named law class
    ([BlockLaws], [ForkLaws], ...). Shapes the node's own code spells out - the struct literal of
    [Block] in compact.rs, the exhaustive matches on the transaction enums - are records
    and inductive types with those fields and constructors. *)
From Stdlib Require Import ZArith Lia.
From stdpp Require Import base numbers option strings list.
From S2P Require Import Prelude BTree.
Open Scope Z_scope.

(** ** Byte strings and hashes: [Hash([u8; 32])], [Address([u8; 20])] *)

Abbreviation bytes := (list Z) (only parsing).
Abbreviation Hash := (list Z) (only parsing).
Abbreviation BlockHash := (list Z) (only parsing).
Abbreviation TransactionHash := (list Z) (only parsing).
Abbreviation Address := (list Z) (only parsing).
Abbreviation QCashCoinId := (list Z) (only parsing).
Abbreviation StateRoot := (list Z) (only parsing).
(** [Height(u64)], [Amount(u64)], [Nonce(u64)] *)
Abbreviation BlockHeight := Z (only parsing).
Abbreviation Amount := Z (only parsing).

Definition HASH_SIZE : nat := 32.
Definition ADDRESS_SIZE : nat := 20.
Definition zero_hash : Hash := replicate HASH_SIZE 0.

(** ** Error enums: the variants the node names, the others by number *)

Inductive CodecError := CodecInvalidBlock | EncodeFailed | CodecOther (n : Z).
Inductive TransactionError := ValidityExpired | TransactionErrorOther (n : Z).
Inductive BlockError :=
| BlockInvalidCoinbase | BlockInvalidTransaction | BlockInvalidStateRoot
| BlockInvalidGenesisAllocation | BlockErrorOther (n : Z).
Inductive ConsensusError :=
| ConsensusInvalidHeight | ConsensusInvalidPreviousHash
| ConsensusInvalidBlock (e : BlockError) | ConsensusSerialization (e : CodecError)
| ConsensusErrorOther (n : Z).
Inductive LedgerError :=
| LedgerDuplicateBlock | LedgerInvalidStateRoot | LedgerFinalityViolation
| LedgerInvalidConsensus (e : ConsensusError) | LedgerInvalidBlock (e : BlockError)
| LedgerInvalidBlockHeight | LedgerInvalidPreviousHash | LedgerInvalidParent
| LedgerInvalidTransaction (e : TransactionError) | LedgerErrorOther (n : Z).
Inductive ForkChoiceError := MissingParent | ForkDuplicateBlock | ForkChoiceOther (n : Z).
Inductive GenesisError :=
| GenesisCodec (e : CodecError) | GenesisLedger (e : LedgerError)
| GenesisHashMismatch (expected found : Hash) | GenesisErrorOther (n : Z).
Inductive RollbackProofError := RollbackProofErrorOther (n : Z).

(** The [Display] texts of the crate's errors. *)
Class ErrorDisplay := {
  show_codec : CodecError -> string;
  show_transaction : TransactionError -> string;
  show_block : BlockError -> string;
  show_consensus : ConsensusError -> string;
  show_ledger : LedgerError -> string;
  show_fork_choice : ForkChoiceError -> string;
  show_genesis : GenesisError -> string;
  show_rollback_proof : RollbackProofError -> string
}.

#[global] Instance codec_error_eq_dec : EqDecision CodecError.
Proof. solve_decision. Defined.

(** ** Transactions *)

Inductive OutputTarget := ToAddress (address : Address) | BlockMiner.
#[global] Instance output_target_eq_dec : EqDecision OutputTarget.
Proof. solve_decision. Defined.

(** [OutputTarget::address()] *)
Definition target_address (t : OutputTarget) : option Address :=
  match t with ToAddress a => Some a | BlockMiner => None end.

Record TransferOutput := { to : OutputTarget; amount : Amount }.

(** [QCashTransactionKind] with the fields the node reads; [inputs] are the coin ids of
    [metadata.inputs]. *)
Inductive QCashTransactionKind :=
| Withdraw (amount : Amount)
| Redeem (recipient : Address) (inputs : list QCashCoinId)
| RecoverRedeem (claimant : Address) (inputs : list QCashCoinId).

Inductive TransactionFamily := FamilyBatchTransfer | FamilyQCash.
#[global] Instance family_eq_dec : EqDecision TransactionFamily.
Proof. solve_decision. Defined.

(** The crate's opaque types. *)
Class PaqusTypes := {
  SignedBatchTransfer : Type;
  SignedQCashTransaction : Type;
  BlockHeader : Type;
  BlockProof : Type;
  GenesisAllocation : Type;
  CoinbaseTransaction : Type;
  Account : Type;
  Ledger : Type;
  ForkChoice : Type;
  Work : Type;
  Consensus : Type;
  MerkleInclusionProof : Type;
  QCashUtxoSet : Type;
  ProtocolEvent : Type;
  batch_eq_dec :: EqDecision SignedBatchTransfer;
  qcash_eq_dec :: EqDecision SignedQCashTransaction;
  header_eq_dec :: EqDecision BlockHeader
}.

Section types.
Context `{PaqusTypes}.

Inductive SignedProtocolTransaction :=
| BatchTransfer (transaction : SignedBatchTransfer)
| QCash (transaction : SignedQCashTransaction).

#[global] Instance tx_eq_dec : EqDecision SignedProtocolTransaction.
Proof. solve_decision. Defined.

Record BlockBody := {
  genesis_allocations : list GenesisAllocation;
  coinbase : option CoinbaseTransaction;
  transactions : list SignedProtocolTransaction
}.
Record Block := { header : BlockHeader; body : BlockBody; proof : BlockProof }.

(** An entry of the fork graph: [fork_choice.get(&hash)]. *)
Record ForkNode := {
  fork_hash : BlockHash;
  fork_height : BlockHeight;
  fork_parent : BlockHash;
  fork_block : Block;
  cumulative_work : Work
}.

(** [paqus::qcash::recovery]: the struct literal of [Node::rollback_proof_bundle] and
    the fields the node reads of its verification. *)
Record RollbackProofBundle := {
  bundle_version : Z;
  bundle_transaction : SignedProtocolTransaction;
  bundle_disconnected_block_header : BlockHeader;
  bundle_transaction_proof : MerkleInclusionProof;
  bundle_losing_headers : list BlockHeader;
  bundle_canonical_headers : list BlockHeader;
  bundle_common_ancestor : BlockHash
}.
Record VerifiedRollback := {
  verified_transaction_hash : TransactionHash;
  verified_disconnected_block_hash : BlockHash
}.
End types.

(** [ProtocolEventKind], with the addresses the node indexes. *)
Inductive ProtocolEventKind :=
| EventBatchTransfer (from to : Address)
| QCashWithdrawn (signer : Address)
| QCashRedeemed (signer recipient : Address)
| QCashRecoverRedeemed (signer claimant : Address)
| EventGenesisAllocation (recipient : Address)
| CoinbasePaid (miner : Address).

(** ** Operations *)

(** [paqus::transaction] *)
Class TxOps `{PaqusTypes} := {
  batch_from : SignedBatchTransfer -> Address;
  batch_outputs : SignedBatchTransfer -> list TransferOutput;
  batch_last_state : SignedBatchTransfer -> Hash;
  batch_total_amount : SignedBatchTransfer -> Result TransactionError Amount;
  qcash_signer : SignedQCashTransaction -> Address;
  qcash_last_state : SignedQCashTransaction -> Hash;
  qcash_kind : SignedQCashTransaction -> QCashTransactionKind;
  tx_to_bytes : SignedProtocolTransaction -> Result CodecError bytes;
  tx_hash : SignedProtocolTransaction -> Result CodecError TransactionHash;
  tx_signer : SignedProtocolTransaction -> Address;
  tx_virtual_size : SignedProtocolTransaction -> Result CodecError Z;
  tx_block_miner_bounty : SignedProtocolTransaction -> Z;
  tx_family : SignedProtocolTransaction -> TransactionFamily;
  (** [transaction.validity().validate_at(height)] *)
  tx_validate_at : SignedProtocolTransaction -> BlockHeight -> Result TransactionError unit
}.

(** [paqus::block], [paqus::codec], [paqus::crypto] *)
Class BlockOps `{PaqusTypes} := {
  MAX_BLOCK_SIZE : Z;
  MAX_BLOCK_WEIGHT : Z;
  MAX_BLOCK_DECODE_ITEMS : Z;
  header_hash : BlockHeader -> Result CodecError BlockHash;
  header_height : BlockHeader -> BlockHeight;
  header_previous_hash : BlockHeader -> Hash;
  header_state_root : BlockHeader -> StateRoot;
  header_difficulty : BlockHeader -> Z;
  BlockProof_new : Z -> BlockProof;
  block_hash : Block -> Result CodecError BlockHash;
  block_height : Block -> BlockHeight;
  block_previous_hash : Block -> Hash;
  block_state_root : Block -> StateRoot;
  block_difficulty : Block -> Z;
  block_transactions : Block -> list SignedProtocolTransaction;
  block_transaction_count : Block -> Z;
  block_genesis_allocations : Block -> list GenesisAllocation;
  block_coinbase : Block -> option CoinbaseTransaction;
  block_miner_address : Block -> Address;
  block_is_genesis : Block -> bool;
  (** [block_weight()] is already a [u64]/[usize] reading of the header. *)
  block_block_weight : Block -> Z;
  block_weight : Block -> Result CodecError Z;
  block_serialized_size : Block -> Result CodecError Z;
  (** [refresh_commitments(&mut self)] *)
  block_refresh_commitments : ST Block CodecError unit;
  block_set_state_root : StateRoot -> Block -> Block;
  block_set_difficulty : Z -> Block -> Block;
  (** [block.proof.nonce = n] *)
  block_set_nonce : Z -> Block -> Block;
  block_validate_structure : Block -> Result BlockError unit;
  (** [paqus::codec::{block_bytes, decode_block}] *)
  block_bytes : Block -> Result CodecError bytes;
  decode_block : bytes -> Result CodecError Block;
  CoinbaseTransaction_new : Address -> Amount -> CoinbaseTransaction;
  (** [Block::from_protocol_transactions(height, previous_hash, miner, difficulty, nonce,
      allocations, coinbase, transactions)] *)
  from_protocol_transactions :
    BlockHeight -> BlockHash -> Address -> Z -> Z -> list GenesisAllocation ->
    option CoinbaseTransaction -> list SignedProtocolTransaction -> Result ConsensusError Block;
  block_inclusion_proof : Block -> nat -> Result CodecError MerkleInclusionProof;
  proof_leaf_index : MerkleInclusionProof -> Z;
  (** [domain_hash(HashDomain::Raw, bytes)] and [hash_bytes(bytes)] *)
  domain_hash_raw : bytes -> Hash;
  hash_bytes : bytes -> Hash
}.

(** [paqus::ledger], [paqus::state] *)
Class LedgerOps `{PaqusTypes} := {
  FINALITY_DEPTH : Z;
  account_address : Account -> Address;
  account_balance : Account -> Amount;
  account_statement : Account -> Hash;
  account_available_balance_at : Account -> BlockHeight -> Amount;
  account_immature_balance_at : Account -> BlockHeight -> Amount;
  ledger_tip_height : Ledger -> option BlockHeight;
  ledger_tip_hash : Ledger -> option BlockHash;
  ledger_accounts : Ledger -> BTreeMap Address Account;
  ledger_account : Ledger -> Address -> option Account;
  ledger_confirmed_balance : Ledger -> Address -> option Amount;
  ledger_balance : Ledger -> Address -> option Amount;
  ledger_new : Ledger;
  ledger_qcash_utxos : Ledger -> QCashUtxoSet;
  ledger_events_by_block : Ledger -> BTreeMap BlockHash (list ProtocolEvent);
  (** [ledger.qcash_utxos = ..; ledger.events_by_block = ..] *)
  ledger_set_protocol_state :
    QCashUtxoSet -> BTreeMap BlockHash (list ProtocolEvent) -> Ledger -> Ledger;
  ledger_events_for_block : Ledger -> BlockHash -> list ProtocolEvent;
  ledger_replace_accounts : BTreeMap Address Account -> ST Ledger LedgerError unit;
  ledger_restore_authenticated_headers :
    list BlockHeader -> BlockHeight -> ST Ledger LedgerError unit;
  ledger_attach_stored_block_body : Block -> ST Ledger LedgerError unit;
  ledger_validate_supply : Ledger -> Result LedgerError unit;
  ledger_state_root : Ledger -> StateRoot;
  ledger_protocol_state_root : Ledger -> Result LedgerError StateRoot;
  ledger_block : Ledger -> BlockHeight -> option Block;
  (** [ledger.chain.block(&height)] *)
  chain_block : Ledger -> BlockHeight -> option Block;
  chain_blocks : Ledger -> BTreeMap BlockHeight Block;
  chain_headers : Ledger -> BTreeMap BlockHeight BlockHeader;
  chain_header : Ledger -> BlockHeight -> option BlockHeader;
  chain_checkpoint_height : Ledger -> option BlockHeight;
  apply_signed_transaction_at :
    SignedBatchTransfer -> BlockHeight -> ST Ledger LedgerError unit;
  apply_signed_qcash_transaction :
    SignedQCashTransaction -> BlockHeight -> ST Ledger LedgerError unit;
  ledger_apply_block : Block -> ST Ledger LedgerError unit;
  (** [execute_block]: the ledger after the block and its state root *)
  ledger_execute_block : Ledger -> Block -> Result LedgerError (Ledger * StateRoot);
  ledger_state_root_after_block : Ledger -> Block -> Result LedgerError StateRoot;
  ledger_expected_difficulty_after_tip : Ledger -> Result LedgerError Z;
  ledger_mintable_subsidy : Ledger -> BlockHeight -> Result LedgerError Amount;
  (** [Ledger::from_accounts_and_chain(accounts, Chain::new())] *)
  ledger_from_accounts : BTreeMap Address Account -> Result LedgerError Ledger;
  chain_insert_block : Block -> ST Ledger LedgerError unit
}.

(** [paqus::event] *)
Class EventOps `{PaqusTypes} := {
  event_validate : ProtocolEvent -> bool;
  event_id : ProtocolEvent -> Result CodecError Hash;
  event_block_hash : ProtocolEvent -> BlockHash;
  event_block_height : ProtocolEvent -> BlockHeight;
  event_transaction_hash : ProtocolEvent -> option TransactionHash;
  event_event_index : ProtocolEvent -> Z;
  event_kind : ProtocolEvent -> ProtocolEventKind
}.

(** [paqus::ledger::fork_choice] *)
Class ForkOps `{PaqusTypes} := {
  fork_new : ForkChoice;
  fork_insert_block : Block -> ST ForkChoice ForkChoiceError BlockHash;
  fork_insert_header : BlockHeader -> ST ForkChoice ForkChoiceError BlockHash;
  fork_contains : ForkChoice -> BlockHash -> bool;
  fork_get : ForkChoice -> BlockHash -> option ForkNode;
  fork_best_tip : ForkChoice -> option ForkNode;
  (** tip first, genesis last *)
  ancestor_hashes : ForkChoice -> BlockHash -> list BlockHash;
  (** the blocks after the ancestor, up to the tip *)
  branch_from_ancestor : ForkChoice -> BlockHash -> BlockHash -> option (list Block);
  ancestor_hash_at_height : ForkChoice -> BlockHash -> BlockHeight -> option BlockHash;
  fork_prune_finalized : BlockHash -> ST ForkChoice ForkChoiceError Z;
  reorg_crosses_finality_boundary : Ledger -> ForkChoice -> BlockHash -> bool;
  to_be_limbs : Work -> list Z;
  from_be_limbs : list Z -> Work;
  compare_chain_tips : Work -> BlockHash -> Work -> BlockHash -> comparison
}.

(** [paqus::consensus] *)
Class ConsensusOps `{PaqusTypes} := {
  MIN_DIFFICULTY : Z;
  WBDA_WINDOW : nat;
  is_wbda_epoch_boundary : Z -> bool;
  next_difficulty_from_window : Z -> list Z -> option Z;
  consensus_difficulty : Consensus -> Z;
  validate_genesis_block : Consensus -> Block -> Result ConsensusError unit;
  validate_next_block_with_tip : Consensus -> Block -> Block -> Result ConsensusError unit;
  proof_of_work_hash : Consensus -> Block -> Result ConsensusError Hash;
  validate_proof_of_work_hash_with_difficulty :
    Consensus -> Hash -> Z -> Result ConsensusError unit
}.

(** [paqus::genesis], [paqus::qcash::recovery], [paqus::codec::canonical_bytes] *)
Class GenesisOps `{PaqusTypes} := {
  GENESIS_HASH : Hash;
  genesis_ledger : Result GenesisError Ledger;
  create_genesis_block : Address -> Result GenesisError Block;
  snapshot_paqus_bytes : Ledger -> Result GenesisError bytes;
  artifact_payload_hash : bytes -> Hash;
  ledger_from_authenticated_snapshot :
    bytes -> list BlockHeader -> Result GenesisError (Ledger * Work);
  ROLLBACK_PROOF_VERSION : Z;
  bundle_verify : RollbackProofBundle -> Result RollbackProofError VerifiedRollback;
  (** the canonical encodings hashed into rollback identifiers *)
  canonical_issue_bytes : bytes -> BlockHash -> TransactionHash -> Result CodecError bytes;
  canonical_context_bytes :
    bytes -> list BlockHeader -> list BlockHeader -> BlockHash -> Result CodecError bytes
}.

(** [CURRENT_CHAIN_PARAMS] *)
Class ChainParams := {
  params_chain_id : Z;
  params_chain_name : string;
  params_protocol_stage : string;
  params_protocol_version : Z;
  params_pow_algorithm : string;
  params_difficulty_algorithm : string;
  params_network_magic : bytes
}.

(** ** What the node relies on *)

(** A refused transaction leaves the ledger as it was. *)
Class LedgerLaws `{PaqusTypes} `{!LedgerOps} : Prop := {
  apply_signed_atomic tx h l e l' :
    apply_signed_transaction_at tx h l = (Err e, l') -> l' = l;
  apply_qcash_atomic tx h l e l' :
    apply_signed_qcash_transaction tx h l = (Err e, l') -> l' = l
}.

(** Sizes and bounties are machine integers. *)
Class TxBounds `{PaqusTypes} `{!TxOps} : Prop := {
  virtual_size_bound tx n : tx_virtual_size tx = Ok n -> 0 <= n <= USIZE_MAX;
  bounty_bound tx : 0 <= tx_block_miner_bounty tx <= U64_MAX
}.

(** The block accessors read the fields the struct literal sets; a block's hash is its
    header's. *)
Class BlockLaws `{PaqusTypes} `{!BlockOps} : Prop := {
  block_transactions_body b : block_transactions b = transactions (body b);
  block_allocations_body b : block_genesis_allocations b = genesis_allocations (body b);
  block_coinbase_body b : block_coinbase b = coinbase (body b);
  block_hash_header b : block_hash b = header_hash (header b);
  block_height_header b : block_height b = header_height (header b);
  block_previous_hash_header b : block_previous_hash b = header_previous_hash (header b)
}.
