(* ===== verification/Toy.v ===== *)
(** A small executable protocol: a concrete instance of the [paqus] crate interface.

    It is an account-and-coin ledger with checksum hashes, rich enough to run every
    modelled operation of the node. Witnesses evaluate the general theorems on it; no
    theorem is stated for it alone except where an example of a behaviour is given. *)
From Stdlib Require Import ZArith Lia.
From stdpp Require Import base numbers option strings list sets.
From S2P Require Import Prelude BTree PaqusCore.
Open Scope Z_scope.

Module Toy.
(** ** Self-delimiting encodings *)

Class Ser (A : Type) := { ser : A -> list Z; des : list Z -> option (A * list Z) }.
Class SerLaw (A : Type) `{Ser A} : Prop := des_ser (a : A) r : des (ser a ++ r) = Some (a, r).

#[global] Instance Z_ser : Ser Z := {
  ser z := [z]; des l := match l with z :: l => Some (z, l) | [] => None end
}.
#[global] Instance Z_ser_law : SerLaw Z.
Proof. done. Qed.
#[global] Instance unit_ser : Ser unit := { ser _ := []; des l := Some (tt, l) }.
#[global] Instance unit_ser_law : SerLaw unit.
Proof. by intros []. Qed.

Section combinators.
Context {A B : Type} `{SerLaw A, SerLaw B}.

#[global] Instance prod_ser : Ser (A * B) := {
  ser p := ser p.1 ++ ser p.2;
  des l := match des l with
           | Some (a, l) => match des l with Some (b, l) => Some ((a, b), l) | None => None end
           | None => None
           end
}.
#[global] Instance prod_ser_law : SerLaw (A * B).
Proof. intros [a b] r; cbn. by rewrite <- app_assoc, !des_ser. Qed.

#[global] Instance sum_ser : Ser (A + B) := {
  ser s := match s with inl a => 0 :: ser a | inr b => 1 :: ser b end;
  des l := match l with
           | 0 :: l => option_map (fun p => (inl p.1, p.2)) (des l)
           | 1 :: l => option_map (fun p => (inr p.1, p.2)) (des l)
           | _ => None
           end
}.
#[global] Instance sum_ser_law : SerLaw (A + B).
Proof. intros [a|b] r; cbn; by rewrite des_ser. Qed.

Fixpoint des_n (n : nat) (l : list Z) : option (list A * list Z) :=
  match n with
  | O => Some ([], l)
  | S n => match des l with
           | Some (a, l) => option_map (fun p => (a :: p.1, p.2)) (des_n n l)
           | None => None
           end
  end.
#[global] Instance list_ser : Ser (list A) := {
  ser x := zlen x :: concat (map ser x);
  des l := match l with n :: l => des_n (Z.to_nat n) l | [] => None end
}.
#[global] Instance list_ser_law : SerLaw (list A).
Proof.
  intros x r; cbn. unfold zlen. rewrite Nat2Z.id. induction x as [|a x IH]; cbn; [done|].
  by rewrite <- app_assoc, des_ser, IH.
Qed.

(** Encoding through another type. *)
Definition ser_iso (f : B -> A) (g : A -> B) : Ser B := {|
  ser b := ser (f b); des l := option_map (fun p => (g p.1, p.2)) (des l)
|}.
Lemma ser_iso_law f g : (forall b, g (f b) = b) -> SerLaw (H := ser_iso f g) B.
Proof. intros Hgf b r. unfold des, ser; cbn. rewrite des_ser. cbn. by rewrite Hgf. Qed.
End combinators.

#[global] Instance option_ser {A} `{SerLaw A} : Ser (option A) :=
  ser_iso (A := unit + A)
    (fun o => match o with None => inl tt | Some a => inr a end)
    (fun s => match s with inl _ => None | inr a => Some a end).
#[global] Instance option_ser_law {A} `{SerLaw A} : SerLaw (option A).
Proof. apply ser_iso_law. by intros []. Qed.
#[global] Instance btree_ser {K V} `{SerLaw K, SerLaw V} : Ser (BTreeMap K V) :=
  ser_iso (A := list (K * V)) bt_list BT.
#[global] Instance btree_ser_law {K V} `{SerLaw K, SerLaw V} : SerLaw (BTreeMap K V).
Proof. apply ser_iso_law. by intros []. Qed.
#[global] Instance bool_ser : Ser bool :=
  ser_iso (A := Z) (fun b : bool => if b then 1 else 0) (fun z => z =? 1).
#[global] Instance bool_ser_law : SerLaw bool.
Proof. apply ser_iso_law. by intros []. Qed.
#[global] Instance string_ser : Ser string :=
  ser_iso (A := list Z)
    (fun s => map (fun a => Z.of_nat (Ascii.nat_of_ascii a)) (String.list_ascii_of_string s))
    (fun l => String.string_of_list_ascii (map (fun z => Ascii.ascii_of_nat (Z.to_nat z)) l)).
#[global] Instance string_ser_law : SerLaw string.
Proof.
  apply ser_iso_law. intros s. rewrite map_map, (map_ext _ id), map_id.
  - apply String.string_of_list_ascii_of_string.
  - intros a. by rewrite Nat2Z.id, Ascii.ascii_nat_embedding.
Qed.

(** A whole value, nothing left over. *)
Definition parse {A} `{Ser A} (l : list Z) : option A :=
  match des l with Some (a, []) => Some a | _ => None end.
Lemma parse_ser {A} `{SerLaw A} (a : A) : parse (ser a) = Some a.
Proof.
  unfold parse. pose proof (des_ser a []) as Hr. rewrite app_nil_r in Hr. by rewrite Hr.
Qed.

(** ** Types *)

(** A transfer is valid up to height [b_expiry]; 0 means always. *)
Record Batch := {
  b_from : list Z; b_outputs : list TransferOutput; b_state : list Z; b_expiry : Z
}.
Record Cash := { q_signer : list Z; q_state : list Z; q_kind : QCashTransactionKind }.
Record Header := {
  h_height : Z; h_prev : list Z; h_root : list Z; h_difficulty : Z; h_commit : list Z
}.
Record Acc := { a_address : list Z; a_balance : Z; a_statement : list Z }.

#[global] Instance output_eq_dec : EqDecision TransferOutput.
Proof. solve_decision. Defined.
#[global] Instance kind_eq_dec : EqDecision QCashTransactionKind.
Proof. solve_decision. Defined.
#[global] Instance batch_dec : EqDecision Batch.
Proof. solve_decision. Defined.
#[global] Instance cash_dec : EqDecision Cash.
Proof. solve_decision. Defined.
#[global] Instance header_dec : EqDecision Header.
Proof. solve_decision. Defined.

(** A block before the class gives [Block] its fields: header, allocations, coinbase
    address, transactions, nonce. *)
Definition RawBlock : Type :=
  Header * (list (list Z * Z) * option (list Z) * list (Batch + Cash)) * Z.
Record Led := {
  l_accounts : BTreeMap (list Z) Acc;
  l_blocks : BTreeMap Z RawBlock
}.
Record Fork := { f_nodes : list (list Z * RawBlock * Z) }.

#[global] Instance types : PaqusTypes := {
  SignedBatchTransfer := Batch;
  SignedQCashTransaction := Cash;
  BlockHeader := Header;
  BlockProof := Z;
  GenesisAllocation := list Z * Z;
  CoinbaseTransaction := list Z;
  Account := Acc;
  Ledger := Led;
  ForkChoice := Fork;
  Work := Z;
  Consensus := unit;
  MerkleInclusionProof := Z;
  QCashUtxoSet := unit;
  ProtocolEvent := Z
}.

Definition tx_of_raw (t : Batch + Cash) : SignedProtocolTransaction :=
  match t with inl b => BatchTransfer b | inr q => QCash q end.
Definition raw_of_tx (t : SignedProtocolTransaction) : Batch + Cash :=
  match t with BatchTransfer b => inl b | QCash q => inr q end.
Definition of_raw (r : RawBlock) : Block :=
  let '(h, (al, cb, txs), n) := r in
  {| header := h;
     body := {| genesis_allocations := al; coinbase := cb; transactions := map tx_of_raw txs |};
     proof := n |}.
Definition to_raw (b : Block) : RawBlock :=
  (header b, (genesis_allocations (body b), coinbase (body b),
    map raw_of_tx (transactions (body b))), proof b).

(** ** Encodings and hashes *)

(** A 64-bit rolling checksum, written at both ends of a 32-byte hash. *)
Definition checksum (b : list Z) : Z :=
  fold_left (fun acc x => Z.land (acc * 257 + x + 1) U64_MAX) b 7.
Definition checksum_bytes (n : Z) : list Z :=
  map (fun k => Z.land (Z.shiftr n k) 255) [56; 48; 40; 32; 24; 16; 8; 0].
Definition hash32 (b : list Z) : list Z :=
  let c := checksum_bytes (checksum b) in c ++ replicate 16 0 ++ c.
#[global] Instance target_ser : Ser OutputTarget :=
  ser_iso (A := option (list Z)) target_address
    (fun o => match o with Some a => ToAddress a | None => BlockMiner end).
#[global] Instance target_ser_law : SerLaw OutputTarget.
Proof. apply ser_iso_law. by intros []. Qed.
#[global] Instance output_ser : Ser TransferOutput :=
  ser_iso (A := OutputTarget * Z) (fun o => (to o, amount o))
    (fun p => {| to := p.1; amount := p.2 |}).
#[global] Instance output_ser_law : SerLaw TransferOutput.
Proof. apply ser_iso_law. by intros []. Qed.
#[global] Instance kind_ser : Ser QCashTransactionKind :=
  ser_iso (A := Z + ((list Z * list (list Z)) + (list Z * list (list Z))))
    (fun k => match k with
              | Withdraw a => inl a
              | Redeem a i => inr (inl (a, i))
              | RecoverRedeem a i => inr (inr (a, i))
              end)
    (fun s => match s with
              | inl a => Withdraw a
              | inr (inl p) => Redeem p.1 p.2
              | inr (inr p) => RecoverRedeem p.1 p.2
              end).
#[global] Instance kind_ser_law : SerLaw QCashTransactionKind.
Proof. apply ser_iso_law. by intros []. Qed.
#[global] Instance batch_ser : Ser Batch :=
  ser_iso (A := list Z * (list TransferOutput * (list Z * Z)))
    (fun b => (b_from b, (b_outputs b, (b_state b, b_expiry b))))
    (fun p => {| b_from := p.1; b_outputs := p.2.1; b_state := p.2.2.1; b_expiry := p.2.2.2 |}).
#[global] Instance batch_ser_law : SerLaw Batch.
Proof. apply ser_iso_law. by intros []. Qed.
#[global] Instance cash_ser : Ser Cash :=
  ser_iso (A := list Z * (list Z * QCashTransactionKind))
    (fun q => (q_signer q, (q_state q, q_kind q)))
    (fun p => {| q_signer := p.1; q_state := p.2.1; q_kind := p.2.2 |}).
#[global] Instance cash_ser_law : SerLaw Cash.
Proof. apply ser_iso_law. by intros []. Qed.
#[global] Instance tx_ser : Ser SignedProtocolTransaction :=
  ser_iso (A := Batch + Cash) raw_of_tx tx_of_raw.
#[global] Instance tx_ser_law : SerLaw SignedProtocolTransaction.
Proof. apply ser_iso_law. by intros []. Qed.
#[global] Instance header_ser : Ser Header :=
  ser_iso (A := Z * (list Z * (list Z * (Z * list Z))))
    (fun h => (h_height h, (h_prev h, (h_root h, (h_difficulty h, h_commit h)))))
    (fun p => {| h_height := p.1; h_prev := p.2.1; h_root := p.2.2.1;
                 h_difficulty := p.2.2.2.1; h_commit := p.2.2.2.2 |}).
#[global] Instance header_ser_law : SerLaw Header.
Proof. apply ser_iso_law. by intros []. Qed.
#[global] Instance account_ser : Ser Acc :=
  ser_iso (A := list Z * (Z * list Z))
    (fun a => (a_address a, (a_balance a, a_statement a)))
    (fun p => {| a_address := p.1; a_balance := p.2.1; a_statement := p.2.2 |}).
#[global] Instance account_ser_law : SerLaw Acc.
Proof. apply ser_iso_law. by intros []. Qed.
#[global] Instance raw_block_ser : Ser RawBlock := _.
#[global] Instance raw_block_ser_law : SerLaw RawBlock := _.
#[global] Instance block_ser : Ser Block := ser_iso (A := RawBlock) to_raw of_raw.
#[global] Instance block_ser_law : SerLaw Block.
Proof.
  apply ser_iso_law. intros [h [al cb txs] n]; cbn. do 2 f_equal.
  rewrite map_map, (map_ext _ id), map_id; [done|]. by intros [].
Qed.

Definition bounty (t : SignedProtocolTransaction) : Z :=
  match t with
  | BatchTransfer b =>
      Z.min U64_MAX (fold_left (fun acc o =>
        match to o with BlockMiner => acc + Z.max 0 (amount o) | _ => acc end)
        (b_outputs b) 0)
  | QCash _ => 0
  end.
Definition total (b : Batch) : Z := fold_left (fun acc o => acc + amount o) (b_outputs b) 0.

Definition expired (b : Batch) (height : Z) : bool :=
  negb (b_expiry b =? 0) && (b_expiry b <? height).

#[global] Instance txops : TxOps := {
  batch_from := b_from;
  batch_outputs := b_outputs;
  batch_last_state := b_state;
  batch_total_amount b := Ok (total b);
  qcash_signer := q_signer;
  qcash_last_state := q_state;
  qcash_kind := q_kind;
  tx_to_bytes t := Ok (ser t);
  tx_hash t := Ok (hash32 (ser t));
  tx_signer t := match t with BatchTransfer b => b_from b | QCash q => q_signer q end;
  tx_virtual_size t := Ok (Z.min USIZE_MAX (zlen (ser t)));
  tx_block_miner_bounty := bounty;
  tx_family t := match t with BatchTransfer _ => FamilyBatchTransfer | QCash _ => FamilyQCash end;
  tx_validate_at t h :=
    match t with
    | BatchTransfer b => if expired b h then Err (TransactionErrorOther 1) else Ok tt
    | QCash _ => Ok tt
    end
}.

(** ** Blocks *)

Definition commit (b : Block) : list Z := hash32 (ser (map raw_of_tx (transactions (body b)))).
Definition set_header (f : Header -> Header) (b : Block) : Block :=
  {| header := f (header b); body := body b; proof := proof b |}.
Definition block_size (b : Block) : Z := zlen (ser b).

#[global] Instance blockops : BlockOps := {
  MAX_BLOCK_SIZE := 4000;
  MAX_BLOCK_WEIGHT := 4000;
  MAX_BLOCK_DECODE_ITEMS := 64;
  header_hash h := Ok (hash32 (ser (h : Header)));
  header_height := h_height;
  header_previous_hash := h_prev;
  header_state_root := h_root;
  header_difficulty := h_difficulty;
  BlockProof_new n := n;
  block_hash b := Ok (hash32 (ser (header b : Header)));
  block_height b := h_height (header b);
  block_previous_hash b := h_prev (header b);
  block_state_root b := h_root (header b);
  block_difficulty b := h_difficulty (header b);
  block_transactions b := transactions (body b);
  block_transaction_count b := zlen (transactions (body b));
  block_genesis_allocations b := genesis_allocations (body b);
  block_coinbase b := coinbase (body b);
  block_miner_address b := match coinbase (body b) with Some a => a | None => [] end;
  block_is_genesis b := h_height (header b) =? 0;
  block_block_weight b := block_size b;
  block_weight b := Ok (block_size b);
  block_serialized_size b := Ok (block_size b);
  block_refresh_commitments b :=
    (Ok tt, set_header (fun h => {| h_height := h_height h; h_prev := h_prev h;
      h_root := h_root h; h_difficulty := h_difficulty h; h_commit := commit b |}) b);
  block_set_state_root r := set_header (fun h => {| h_height := h_height h; h_prev := h_prev h;
      h_root := r; h_difficulty := h_difficulty h; h_commit := h_commit h |});
  block_set_difficulty d := set_header (fun h => {| h_height := h_height h; h_prev := h_prev h;
      h_root := h_root h; h_difficulty := d; h_commit := h_commit h |});
  block_set_nonce n b := {| header := header b; body := body b; proof := n |};
  block_validate_structure _ := Ok tt;
  block_bytes b := Ok (ser b);
  decode_block l := ok_or (parse l) CodecInvalidBlock;
  CoinbaseTransaction_new a _ := a;
  from_protocol_transactions h prev miner d n al cb txs :=
    Ok {| header := {| h_height := h; h_prev := prev; h_root := []; h_difficulty := d;
                       h_commit := hash32 (ser (map raw_of_tx txs)) |};
          body := {| genesis_allocations := al; coinbase := cb; transactions := txs |};
          proof := n |};
  block_inclusion_proof _ i := Ok (Z.of_nat i);
  proof_leaf_index i := i;
  domain_hash_raw := hash32;
  hash_bytes := hash32
}.

#[global] Instance blocklaws : BlockLaws.
Proof. by split. Qed.

(** ** The ledger *)

Definition credit (a : list Z) (n : Z) (accs : BTreeMap (list Z) Acc) : BTreeMap (list Z) Acc :=
  match accs !! a with
  | Some x => <[a := {| a_address := a; a_balance := a_balance x + n;
                        a_statement := a_statement x |}]> accs
  | None => <[a := {| a_address := a; a_balance := n; a_statement := zero_hash |}]> accs
  end.
(** Spends [n] from the account in state [state] and moves it to the transaction's state. *)
Definition spend (a state : list Z) (n : Z) (t : SignedProtocolTransaction)
    (accs : BTreeMap (list Z) Acc) : option (BTreeMap (list Z) Acc) :=
  match accs !! a with
  | Some x =>
      if bool_decide (a_statement x = state) && (n <=? a_balance x) then
        Some (<[a := {| a_address := a; a_balance := a_balance x - n;
                        a_statement := hash32 (ser t) |}]> accs)
      else None
  | None => None
  end.
Definition apply_tx (t : SignedProtocolTransaction) (accs : BTreeMap (list Z) Acc)
    : option (BTreeMap (list Z) Acc) :=
  match t with
  | BatchTransfer b =>
      option_map (fun accs => fold_left (fun accs o =>
          match to o with ToAddress a => credit a (amount o) accs | BlockMiner => accs end)
        (b_outputs b) accs)
        (spend (b_from b) (b_state b) (total b) t accs)
  | QCash q =>
      match q_kind q with
      | Withdraw n => spend (q_signer q) (q_state q) n t accs
      | Redeem a ins | RecoverRedeem a ins =>
          option_map (credit a (zlen ins)) (spend (q_signer q) (q_state q) 0 t accs)
      end
  end.
Definition apply_txs (ts : list SignedProtocolTransaction) (accs : BTreeMap (list Z) Acc)
    : option (BTreeMap (list Z) Acc) :=
  fold_left (fun o t => match o with Some accs => apply_tx t accs | None => None end)
    ts (Some accs).
Definition with_accounts (l : Led) (o : option (BTreeMap (list Z) Acc))
    : Result LedgerError unit * Led :=
  match o with
  | Some accs => (Ok tt, {| l_accounts := accs; l_blocks := l_blocks l |})
  | None => (Err (LedgerErrorOther 1), l)
  end.

Definition last_block (l : Led) : option (Z * RawBlock) := last (bt_list (l_blocks l)).
Definition tip_height (l : Led) : option Z := option_map fst (last_block l).
Definition tip_hash (l : Led) : option (list Z) :=
  option_map (fun p => hash32 (ser (header (of_raw p.2) : Header))) (last_block l).

Definition execute (l : Led) (b : Block) : Result LedgerError (Led * list Z) :=
  let next := match tip_height l with Some h => h + 1 | None => 0 end in
  if negb (block_height b =? next) then Err LedgerInvalidBlockHeight else
  if negb (bool_decide (block_previous_hash b = unwrap_or zero_hash (tip_hash l)))
  then Err LedgerInvalidPreviousHash else
  let accs := fold_left (fun accs p => credit p.1 p.2 accs)
    (genesis_allocations (body b)) (l_accounts l) in
  match apply_txs (transactions (body b)) accs with
  | None => Err (LedgerErrorOther 1)
  | Some accs =>
      let paid := fold_left (fun n t => n + bounty t) (transactions (body b)) 0 in
      let accs := match coinbase (body b) with
                  | Some a => credit a (50 + paid) accs
                  | None => accs
                  end in
      Ok ({| l_accounts := accs; l_blocks := <[block_height b := to_raw b]> (l_blocks l) |},
          hash32 (ser accs))
  end.
Definition empty_ledger : Led := {| l_accounts := ∅; l_blocks := ∅ |}.
Definition add_block (b : Block) (l : Led) : Result LedgerError unit * Led :=
  (Ok tt, {| l_accounts := l_accounts l;
             l_blocks := <[block_height b := to_raw b]> (l_blocks l) |}).

#[global] Instance ledgerops : LedgerOps := {
  FINALITY_DEPTH := 6;
  account_address := a_address;
  account_balance := a_balance;
  account_statement := a_statement;
  account_available_balance_at a _ := a_balance a;
  account_immature_balance_at _ _ := 0;
  ledger_tip_height := tip_height;
  ledger_tip_hash := tip_hash;
  ledger_accounts := l_accounts;
  ledger_account l a := l_accounts l !! a;
  ledger_confirmed_balance l a := option_map a_balance (l_accounts l !! a);
  ledger_balance l a := option_map a_balance (l_accounts l !! a);
  ledger_new := empty_ledger;
  ledger_qcash_utxos _ := tt;
  ledger_events_by_block _ := ∅;
  ledger_set_protocol_state _ _ l := l;
  ledger_events_for_block _ _ := [];
  ledger_replace_accounts accs l :=
    (Ok tt, {| l_accounts := accs; l_blocks := l_blocks l |});
  ledger_restore_authenticated_headers _ _ l := (Ok tt, l);
  ledger_attach_stored_block_body := add_block;
  ledger_validate_supply _ := Ok tt;
  ledger_state_root l := hash32 (ser (l_accounts l));
  ledger_protocol_state_root l := Ok (hash32 (ser (l_accounts l)));
  ledger_block l h := option_map of_raw (l_blocks l !! h);
  chain_block l h := option_map of_raw (l_blocks l !! h);
  chain_blocks l := BT (map (fun p => (p.1, of_raw p.2)) (bt_list (l_blocks l)));
  chain_headers l := BT (map (fun p => (p.1, header (of_raw p.2))) (bt_list (l_blocks l)));
  chain_header l h := option_map (fun r => header (of_raw r)) (l_blocks l !! h);
  chain_checkpoint_height _ := None;
  apply_signed_transaction_at t h l :=
    with_accounts l (if expired t h then None else apply_tx (BatchTransfer t) (l_accounts l));
  apply_signed_qcash_transaction t _ l := with_accounts l (apply_tx (QCash t) (l_accounts l));
  ledger_apply_block b l :=
    match execute l b with
    | Ok (l', root) => if bool_decide (block_state_root b = root) then (Ok tt, l')
                       else (Err LedgerInvalidStateRoot, l)
    | Err e => (Err e, l)
    end;
  ledger_execute_block := execute;
  ledger_state_root_after_block l b := r ← execute l b; Ok r.2;
  ledger_expected_difficulty_after_tip _ := Ok 1;
  ledger_mintable_subsidy _ _ := Ok 50;
  ledger_from_accounts accs := Ok {| l_accounts := accs; l_blocks := ∅ |};
  chain_insert_block := add_block
}.

#[global] Instance ledgerlaws : LedgerLaws.
Proof.
  split; intros tx h l e l'; unfold apply_signed_transaction_at, apply_signed_qcash_transaction;
    cbn [ledgerops]; unfold with_accounts; [destruct (if expired _ _ then _ else _)|destruct (apply_tx _ _)]; congruence.
Qed.
Lemma bounty_fold outs n :
  n <= fold_left (fun acc o => match to o with BlockMiner => acc + Z.max 0 (amount o)
    | _ => acc end) outs n.
Proof.
  revert n; induction outs as [|o outs IH]; intros n; cbn; [lia|].
  destruct (to o); [apply IH|]. etransitivity; [|apply IH]. lia.
Qed.

#[global] Instance txbounds : TxBounds.
Proof.
  split; unfold tx_virtual_size, tx_block_miner_bounty; cbn [txops].
  - intros tx n [= <-]. unfold zlen, USIZE_MAX, U64_MAX. lia.
  - intros [b|q]; cbn; [|unfold U64_MAX; lia].
    pose proof (bounty_fold (b_outputs b) 0). unfold U64_MAX. lia.
Qed.

(** ** Events, fork choice, consensus, genesis *)

#[global] Instance eventops : EventOps := {
  event_validate _ := true;
  event_id e := Ok (hash32 [e]);
  event_block_hash _ := zero_hash;
  event_block_height _ := 0;
  event_transaction_hash _ := None;
  event_event_index e := e;
  event_kind _ := CoinbasePaid []
}.

Definition raw_hash (r : RawBlock) : list Z := hash32 (ser (header (of_raw r) : Header)).
Definition node_of (p : list Z * RawBlock * Z) : ForkNode := {|
  fork_hash := p.1.1;
  fork_height := block_height (of_raw p.1.2);
  fork_parent := block_previous_hash (of_raw p.1.2);
  fork_block := of_raw p.1.2;
  cumulative_work := p.2
|}.
Definition find_node (f : Fork) (h : list Z) : option (list Z * RawBlock * Z) :=
  List.find (fun p => bool_decide (p.1.1 = h)) (f_nodes f).
Definition insert_raw (r : RawBlock) (f : Fork) : Result ForkChoiceError (list Z) * Fork :=
  let h := raw_hash r in
  let b := of_raw r in
  if match find_node f h with Some _ => true | None => false end
  then (Err ForkDuplicateBlock, f)
  else if block_height b =? 0 then
    (Ok h, {| f_nodes := f_nodes f ++ [(h, r, block_difficulty b + 1)] |})
  else match find_node f (block_previous_hash b) with
       | Some p => (Ok h, {| f_nodes := f_nodes f ++ [(h, r, p.2 + block_difficulty b + 1)] |})
       | None => (Err MissingParent, f)
       end.
Definition best (f : Fork) : option (list Z * RawBlock * Z) :=
  max_by (fun x y => match Z.compare x.2 y.2 with Eq => Gt | c => c end) (f_nodes f).
Fixpoint walk (fuel : nat) (f : Fork) (h : list Z) : list (list Z) :=
  match find_node f h with
  | None => []
  | Some p =>
      h :: match fuel with O => [] | S n => walk n f (block_previous_hash (of_raw p.1.2)) end
  end.
Definition ancestors (f : Fork) (h : list Z) : list (list Z) := walk (length (f_nodes f)) f h.
Fixpoint take_until (a : list Z) (l : list (list Z)) : option (list (list Z)) :=
  match l with
  | [] => None
  | h :: l => if bool_decide (h = a) then Some [] else option_map (cons h) (take_until a l)
  end.

#[global] Instance forkops : ForkOps := {
  fork_new := {| f_nodes := [] |};
  fork_insert_block b f := insert_raw (to_raw b) f;
  fork_insert_header h f := insert_raw ((h, ([], None, []), 0) : RawBlock) f;
  fork_contains f h := match find_node f h with Some _ => true | None => false end;
  fork_get f h := option_map node_of (find_node f h);
  fork_best_tip f := option_map node_of (best f);
  ancestor_hashes := ancestors;
  branch_from_ancestor f a t :=
    match take_until a (ancestors f t) with
    | Some l => Some (map (fun p => of_raw p.1.2) (omap (find_node f) (reverse l)))
    | None => None
    end;
  ancestor_hash_at_height f t h :=
    List.find (fun x => match find_node f x with
                        | Some p => block_height (of_raw p.1.2) =? h
                        | None => false
                        end) (ancestors f t);
  fork_prune_finalized _ f := (Ok 0, f);
  reorg_crosses_finality_boundary l f a :=
    match find_node f a, tip_height l with
    | Some p, Some t => block_height (of_raw p.1.2) <? t - 6
    | _, _ => false
    end;
  to_be_limbs w := [0; 0; 0; 0; 0; 0; 0; w];
  from_be_limbs l := match l with [_; _; _; _; _; _; _; w] => w | _ => 0 end;
  compare_chain_tips w1 h1 w2 h2 := then_with (cmp (w1 : Z) (w2 : Z)) (cmp h2 h1)
}.

#[global] Instance consensusops : ConsensusOps := {
  MIN_DIFFICULTY := 1;
  WBDA_WINDOW := 2;
  is_wbda_epoch_boundary h := h mod 8 =? 0;
  next_difficulty_from_window d _ := Some d;
  consensus_difficulty _ := 1;
  validate_genesis_block _ _ := Ok tt;
  validate_next_block_with_tip _ b p :=
    if (block_height b =? block_height p + 1)
       && bool_decide (h_commit (header b) = commit b)
    then Ok tt else Err ConsensusInvalidHeight;
  proof_of_work_hash _ b := Ok (hash32 (ser b));
  validate_proof_of_work_hash_with_difficulty _ h d :=
    match List.rev h with
    | x :: _ => if x <? 256 / (d + 1) then Ok tt else Err (ConsensusErrorOther 1)
    | [] => Err (ConsensusErrorOther 1)
    end
}.

Definition alice : list Z := replicate 20 1.
Definition bob : list Z := replicate 20 2.
Definition miner : list Z := replicate 20 3.
Definition genesis_block : Block := {|
  header := {| h_height := 0; h_prev := zero_hash;
               h_root := hash32 (ser (credit bob 1000 (credit alice 1000 ∅)));
               h_difficulty := 1; h_commit := [] |};
  body := {| genesis_allocations := [(alice, 1000); (bob, 1000)]; coinbase := None;
             transactions := [] |};
  proof := 0
|}.

#[global] Instance genesisops : GenesisOps := {
  GENESIS_HASH := hash32 (ser (header genesis_block : Header));
  genesis_ledger :=
    match execute empty_ledger genesis_block with
    | Ok (l, _) => Ok l
    | Err e => Err (GenesisLedger e)
    end;
  create_genesis_block _ := Ok genesis_block;
  snapshot_paqus_bytes l := Ok (ser (l_accounts l));
  artifact_payload_hash := hash32;
  ledger_from_authenticated_snapshot snapshot headers :=
    match execute empty_ledger genesis_block with
    | Ok (l, _) =>
        if bool_decide (snapshot = ser (l_accounts l)) && bool_decide ((headers : list Header) = [header genesis_block])
        then Ok (l, 1) else Err (GenesisErrorOther 1)
    | Err e => Err (GenesisLedger e)
    end;
  ROLLBACK_PROOF_VERSION := 1;
  bundle_verify b :=
    Ok {| verified_transaction_hash := hash32 (ser (bundle_transaction b));
          verified_disconnected_block_hash :=
            hash32 (ser (bundle_disconnected_block_header b : Header)) |};
  canonical_issue_bytes t b x := Ok (ser (t, (b, x)));
  canonical_context_bytes t l c a := Ok (ser (t, ((l, c) : list Header * list Header, a)))
}.
#[global] Instance chainparams : ChainParams := {
  params_chain_id := 7;
  params_chain_name := "paqus";
  params_protocol_stage := "test";
  params_protocol_version := 1;
  params_pow_algorithm := "sha3";
  params_difficulty_algorithm := "wbda";
  params_network_magic := [80; 81; 85; 83]
}.
#[global] Instance display : ErrorDisplay := {
  show_codec _ := "codec"; show_transaction _ := "transaction"; show_block _ := "block";
  show_consensus _ := "consensus"; show_ledger _ := "ledger";
  show_fork_choice _ := "fork choice"; show_genesis _ := "genesis";
  show_rollback_proof _ := "rollback proof"
}.

(** ** Sample values *)

Definition ledger0 : Ledger :=
  match genesis_ledger with Ok l => l | Err _ => empty_ledger end.
(** A transfer of [n] to [dest] paying [fee], spending the sender's state [state], valid up
    to height [expiry]. *)
Definition transfer_until (expiry : Z) (from state dest : list Z) (n fee : Z)
    : SignedProtocolTransaction :=
  BatchTransfer {| b_from := from;
    b_outputs := [{| to := ToAddress dest; amount := n |}; {| to := BlockMiner; amount := fee |}];
    b_state := state; b_expiry := expiry |}.
Definition transfer := transfer_until 0.
(** A block on top of [l] with the given transactions and the state root they lead to. *)
Definition next_block (l : Led) (txs : list SignedProtocolTransaction) : Block :=
  let b := {|
    header := {| h_height := match tip_height l with Some h => h + 1 | None => 0 end;
                 h_prev := unwrap_or zero_hash (tip_hash l); h_root := []; h_difficulty := 1;
                 h_commit := hash32 (ser (map raw_of_tx txs)) |};
    body := {| genesis_allocations := []; coinbase := Some miner; transactions := txs |};
    proof := 0 |} in
  match execute l b with
  | Ok (_, root) => block_set_state_root root b
  | Err _ => b
  end.
Definition extend (l : Led) (b : Block) : Ledger :=
  match execute l b with Ok (l', _) => l' | Err _ => l end.
Definition redeem (signer state dest : list Z) (coins : list (list Z))
    : SignedProtocolTransaction :=
  QCash {| q_signer := signer; q_state := state; q_kind := Redeem dest coins |}.
End Toy.
