(* ===== verification/Mempool.v ===== *)
(** The mempool: node/src/runtime/mempool/extension.rs and mempool/error.rs.

    State: the pool, its signer-state and coin-reservation indexes, insertion times and
    byte total. Operations: admission ([insert_validated]) with fee-based eviction,
    removal, age eviction, the fee market, and block selection. The ledger is the crate's.
    [now] is the reading of the system clock an operation makes. *)
From Stdlib Require Import ZArith Lia Permutation Sorted.
From stdpp Require Import base numbers option list sets.
From S2P Require Import Prelude BTree PaqusCore.
Open Scope Z_scope.

Module params.
Definition LOW_FEE_EXPIRY_SECS : Z := 0.
Definition MEMPOOL_EXPIRY_SECS : Z := 0.
Definition MAX_MEMPOOL_TXS : Z := 1000.
Definition MAX_MEMPOOL_BYTES : Z := 10 * 1024 * 1024.
Definition FEE_RATE_UNIT_BYTES : Z := 1.
Definition MIN_RELAY_FEE_FLOOR : Z := 0.
Definition DEFAULT_MIN_RELAY_FEE : Z := MIN_RELAY_FEE_FLOOR.
Definition DEFAULT_MARKET_FEE : Z := 0.
Definition DYNAMIC_MARKET_FEE_MAX_MULTIPLIER : Z := 8.
End params.

Inductive MempoolError :=
| DuplicateTransaction
| FeeTooLow
| MempoolFull
| DuplicateBlockMinerFeeOutput
| InvalidTransaction (e : TransactionError)
| InvalidLedgerState (e : LedgerError)
| CashCoinReserved
| Serialization (e : CodecError)
| FeeOverflow.

Record MempoolConfig := {
  max_transactions : Z;
  max_bytes : Z;
  transaction_ttl_secs : Z;
  low_fee_ttl_secs : Z;
  min_relay_fee : Z;
  market_fee : Z
}.

Definition default_config : MempoolConfig := {|
  max_transactions := params.MAX_MEMPOOL_TXS;
  max_bytes := params.MAX_MEMPOOL_BYTES;
  transaction_ttl_secs := params.MEMPOOL_EXPIRY_SECS;
  low_fee_ttl_secs := params.LOW_FEE_EXPIRY_SECS;
  min_relay_fee := params.DEFAULT_MIN_RELAY_FEE;
  market_fee := params.DEFAULT_MARKET_FEE
|}.

Record FeeMarketSnapshot := {
  snap_min_relay_fee_rate : Z;
  snap_configured_market_fee_rate : Z;
  snap_recommended_fee_rate : Z;
  snap_pressure_bps : Z;
  snap_transaction_count : Z;
  snap_total_bytes : Z;
  snap_max_transactions : Z;
  snap_max_bytes : Z;
  snap_next_block_clearing_fee_rate : Z;
  snap_median_fee_rate : Z;
  snap_p75_fee_rate : Z;
  snap_p90_fee_rate : Z
}.

(** ** Fee arithmetic *)

Definition occupancy_bps (used capacity : Z) : Z :=
  if capacity =? 0 then 10000
  else Z.min (saturating_mul U128_MAX used 10000 / capacity) 10000.

Fixpoint clearing_scan (entries : list (Z * Z)) (target_weight accumulated last_rate : Z) : Z :=
  match entries with
  | [] => last_rate
  | (rate, virtual_size) :: entries =>
      let accumulated := saturating_add USIZE_MAX accumulated virtual_size in
      if target_weight <=? accumulated then rate
      else clearing_scan entries target_weight accumulated rate
  end.
Definition weighted_clearing_rate (entries : list (Z * Z)) (target_weight : Z) : option Z :=
  match entries with
  | [] => None
  | (rate, _) :: _ => Some (clearing_scan entries target_weight 0 rate)
  end.

Fixpoint percentile_scan (entries : list (Z * Z)) (target accumulated : Z) : option Z :=
  match entries with
  | [] => None
  | (rate, virtual_size) :: entries =>
      let accumulated := saturating_add USIZE_MAX accumulated virtual_size in
      if target <=? accumulated then Some rate else percentile_scan entries target accumulated
  end.
Definition weighted_percentile_rate (entries : list (Z * Z)) (percentile : Z) : option Z :=
  match entries with
  | [] => None
  | (first_rate, _) :: _ =>
      let total := fold_left (fun total e => saturating_add USIZE_MAX total e.2) entries 0 in
      if total =? 0 then Some first_rate
      else
        let target :=
          Z.max (saturating_add U128_MAX (saturating_mul U128_MAX total percentile) 99 / 100) 1
            mod 2 ^ 64 in
        match percentile_scan entries target 0 with
        | Some rate => Some rate
        | None => option_map fst (last entries)
        end
  end.

Definition fee_rate (fee virtual_size : Z) : Z :=
  if virtual_size =? 0 then U64_MAX
  else u64_mul fee params.FEE_RATE_UNIT_BYTES / virtual_size.

Section mempool.
Context `{PaqusTypes} `{!TxOps} `{!BlockOps} `{!LedgerOps}.

Record Mempool := {
  mp_transactions : BTreeMap TransactionHash SignedProtocolTransaction;
  by_signer_state : BTreeMap (Address * Hash) TransactionHash;
  reserved_coins : BTreeMap QCashCoinId TransactionHash;
  inserted_at : BTreeMap TransactionHash Z;
  total_bytes : Z;
  config : MempoolConfig
}.

Definition with_config (c : MempoolConfig) : Mempool := {|
  mp_transactions := ∅; by_signer_state := ∅; reserved_coins := ∅; inserted_at := ∅;
  total_bytes := 0; config := c
|}.
Definition mempool_new : Mempool := with_config default_config.

(** ** Views of a transaction *)

Definition miner_bounty_rate (tx : SignedProtocolTransaction) : Result MempoolError Z :=
  virtual_size ← map_err Serialization (tx_virtual_size tx);
  Ok (fee_rate (tx_block_miner_bounty tx) virtual_size).

Definition block_miner_output_count (tx : SignedProtocolTransaction) : Z :=
  match tx with
  | BatchTransfer tx =>
      zlen (List.filter (fun o => bool_decide (to o = BlockMiner)) (batch_outputs tx))
  | QCash _ => 0
  end.

Definition protocol_last_state (tx : SignedProtocolTransaction) : Hash :=
  match tx with
  | BatchTransfer tx => batch_last_state tx
  | QCash tx => qcash_last_state tx
  end.

Definition redeem_coin_ids (tx : SignedProtocolTransaction) : list QCashCoinId :=
  match tx with
  | QCash tx =>
      match qcash_kind tx with
      | Redeem _ inputs | RecoverRedeem _ inputs => inputs
      | Withdraw _ => []
      end
  | _ => []
  end.

Definition apply_extension (tx : SignedProtocolTransaction) (height : BlockHeight)
    : ST Ledger MempoolError unit :=
  match tx with
  | BatchTransfer tx => st_map_err InvalidLedgerState (apply_signed_transaction_at tx height)
  | QCash tx => st_map_err InvalidLedgerState (apply_signed_qcash_transaction tx height)
  end.

(** ** Removal and eviction *)

(** The loop of [remove] that frees the coins the transaction had reserved. *)
Definition release_coins (hash : TransactionHash) (coins : list QCashCoinId)
    (reserved : BTreeMap QCashCoinId TransactionHash)
    : BTreeMap QCashCoinId TransactionHash :=
  fold_left (fun r c => if bool_decide (r !! c = Some hash) then delete c r else r)
    coins reserved.

Definition remove (hash : TransactionHash)
    : ST Mempool MempoolError (option SignedProtocolTransaction) :=
  m ← st_get;
  match mp_transactions m !! hash with
  | None => mret None
  | Some tx =>
      st_modify (fun m => {|
        mp_transactions := delete hash (mp_transactions m);
        by_signer_state := by_signer_state m;
        reserved_coins := reserved_coins m;
        inserted_at := delete hash (inserted_at m);
        total_bytes := total_bytes m; config := config m |}) ;;
      b ← st_lift (map_err Serialization (tx_to_bytes tx));
      st_modify (fun m => {|
        mp_transactions := mp_transactions m;
        by_signer_state := delete (tx_signer tx, protocol_last_state tx) (by_signer_state m);
        reserved_coins := release_coins hash (redeem_coin_ids tx) (reserved_coins m);
        inserted_at := inserted_at m;
        total_bytes := saturating_sub (total_bytes m) (zlen b); config := config m |}) ;;
      mret (Some tx)
  end.

(** [(hash, rate, inserted_at)] of every pool entry with a computable rate, compared by
    rate, then age, then hash. *)
Definition candidate_cmp (l r : TransactionHash * Z * Z) : comparison :=
  then_with (cmp l.1.2 r.1.2) (then_with (cmp l.2 r.2) (cmp l.1.1 r.1.1)).
Definition fee_candidates (m : Mempool) : list (TransactionHash * Z * Z) :=
  omap (fun p =>
    match miner_bounty_rate p.2 with
    | Ok rate => Some (p.1, rate, unwrap_or 0 (inserted_at m !! p.1))
    | Err _ => None
    end) (bt_list (mp_transactions m)).
Definition lowest_fee_candidate (m : Mempool) : option (TransactionHash * Z * Z) :=
  min_by candidate_cmp (fee_candidates m).

Definition over_capacity (m : Mempool) (incoming_size : Z) : bool :=
  (max_transactions (config m) <=? bt_len (mp_transactions m))
  || (max_bytes (config m) <? saturating_add USIZE_MAX (total_bytes m) incoming_size).

(** The [while] of [evict_for_capacity]; a turn removes one transaction, so one more
    turn than there are transactions always reaches the exit. *)
Fixpoint evict_loop (fuel : nat) (incoming_rate incoming_size : Z)
    : ST Mempool MempoolError unit :=
  m ← st_get;
  if over_capacity m incoming_size then
    match lowest_fee_candidate m with
    | None => st_fail MempoolFull
    | Some (victim_hash, victim_rate, _) =>
        if incoming_rate <=? victim_rate then st_fail FeeTooLow
        else
          remove victim_hash ;;
          match fuel with
          | O => st_fail MempoolFull
          | S fuel => evict_loop fuel incoming_rate incoming_size
          end
    end
  else mret tt.

Definition evict_for_capacity (incoming : SignedProtocolTransaction) (incoming_size : Z)
    : ST Mempool MempoolError unit :=
  incoming_rate ← st_lift (miner_bounty_rate incoming);
  m ← st_get;
  evict_loop (length (bt_list (mp_transactions m))) incoming_rate incoming_size.

Definition evict_by_policy (now : Z) : ST Mempool MempoolError Z :=
  m ← st_get;
  let ttl := transaction_ttl_secs (config m) in
  if ttl =? 0 then mret 0
  else
    let evicted := List.filter (fun hash =>
        u64_add (unwrap_or now (inserted_at m !! hash)) ttl <=? now)
      (bt_keys (mp_transactions m)) in
    st_for (fun hash => remove hash ;; mret tt) evicted ;;
    mret (zlen evicted).

(** ** Admission *)

(** [sort_by_key(|tx| (tx.signer(), tx.hash().ok()))] *)
Definition pending_cmp (l r : SignedProtocolTransaction) : comparison :=
  cmp (tx_signer l, result_ok (tx_hash l)) (tx_signer r, result_ok (tx_hash r)).

(** Applies transactions one after the other to a ledger, stopping at the first error. *)
Definition apply_all (txs : list SignedProtocolTransaction) (height : BlockHeight)
    : ST Ledger MempoolError unit :=
  st_for (fun tx => apply_extension tx height) txs.

Definition next_height (ledger : Ledger) : BlockHeight :=
  match ledger_tip_height ledger with
  | Some height => u64_add height 1
  | None => 0
  end.

Definition insert_validated (ledger : Ledger) (now : Z) (tx : SignedProtocolTransaction)
    : ST Mempool MempoolError TransactionHash :=
  b ← st_lift (map_err Serialization (tx_to_bytes tx));
  let transaction_size := zlen b in
  m ← st_get;
  if max_bytes (config m) <? transaction_size then st_fail MempoolFull else
  hash ← st_lift (map_err Serialization (tx_hash tx));
  if 1 <? block_miner_output_count tx then st_fail DuplicateBlockMinerFeeOutput else
  let signer_state := (tx_signer tx, protocol_last_state tx) in
  if bt_contains hash (mp_transactions m) || bt_contains signer_state (by_signer_state m)
  then st_fail DuplicateTransaction else
  evict_for_capacity tx transaction_size ;;
  m ← st_get;
  let coin_ids := redeem_coin_ids tx in
  if existsb (fun coin_id => bt_contains coin_id (reserved_coins m)) coin_ids
  then st_fail CashCoinReserved else
  let pending := sort_by pending_cmp (bt_values (mp_transactions m) ++ [tx]) in
  st_lift (apply_all pending (next_height ledger) ledger).1 ;;
  st_modify (fun m => {|
    mp_transactions := <[hash := tx]> (mp_transactions m);
    by_signer_state := <[signer_state := hash]> (by_signer_state m);
    reserved_coins :=
      fold_left (fun r coin_id => <[coin_id := hash]> r) coin_ids (reserved_coins m);
    inserted_at := <[hash := now]> (inserted_at m);
    total_bytes := saturating_add USIZE_MAX (total_bytes m) transaction_size;
    config := config m |}) ;;
  mret hash.

Definition contains (m : Mempool) (hash : TransactionHash) : bool :=
  bt_contains hash (mp_transactions m).
Definition get (m : Mempool) (hash : TransactionHash) : option SignedProtocolTransaction :=
  mp_transactions m !! hash.
Definition pool_transactions (m : Mempool) : list SignedProtocolTransaction :=
  bt_values (mp_transactions m).
Definition transactions_for_family (m : Mempool) (family : TransactionFamily)
    : list SignedProtocolTransaction :=
  List.filter (fun tx => bool_decide (tx_family tx = family)) (pool_transactions m).

(** ** The fee market *)

Definition mempool_pressure_bps (m : Mempool) : Z :=
  Z.max (occupancy_bps (total_bytes m) (max_bytes (config m)))
    (occupancy_bps (bt_len (mp_transactions m)) (max_transactions (config m))).

(** [(rate, virtual_size)] of the pool, highest rate first. *)
Definition fee_entries (m : Mempool) : list (Z * Z) :=
  sort_by (fun l r => cmp r.1 l.1)
    (omap (fun tx =>
      match result_ok (tx_virtual_size tx), result_ok (miner_bounty_rate tx) with
      | Some virtual_size, Some rate => Some (rate, virtual_size)
      | _, _ => None
      end) (pool_transactions m)).

Definition fee_market_snapshot (m : Mempool) : FeeMarketSnapshot :=
  let base_rate := Z.max (market_fee (config m)) (min_relay_fee (config m)) in
  let pressure_bps := mempool_pressure_bps m in
  let premium :=
    u64_mul (u64_mul base_rate params.DYNAMIC_MARKET_FEE_MAX_MULTIPLIER) pressure_bps
      / 10000 in
  let pressure_rate := u64_add base_rate premium in
  let entries := fee_entries m in
  let next_block_clearing_fee_rate :=
    unwrap_or base_rate (weighted_clearing_rate entries MAX_BLOCK_WEIGHT) in
  let median_fee_rate := unwrap_or base_rate (weighted_percentile_rate entries 50) in
  let p75_fee_rate := unwrap_or base_rate (weighted_percentile_rate entries 75) in
  let p90_fee_rate := unwrap_or base_rate (weighted_percentile_rate entries 90) in
  let recommended_fee_rate :=
    Z.max base_rate (Z.max pressure_rate (Z.max next_block_clearing_fee_rate p75_fee_rate)) in
  {| snap_min_relay_fee_rate := min_relay_fee (config m);
     snap_configured_market_fee_rate := market_fee (config m);
     snap_recommended_fee_rate := recommended_fee_rate;
     snap_pressure_bps := pressure_bps;
     snap_transaction_count := bt_len (mp_transactions m);
     snap_total_bytes := total_bytes m;
     snap_max_transactions := max_transactions (config m);
     snap_max_bytes := max_bytes (config m);
     snap_next_block_clearing_fee_rate := next_block_clearing_fee_rate;
     snap_median_fee_rate := median_fee_rate;
     snap_p75_fee_rate := p75_fee_rate;
     snap_p90_fee_rate := p90_fee_rate |}.

Definition dynamic_market_fee_rate (m : Mempool) : Z :=
  snap_recommended_fee_rate (fee_market_snapshot m).

(** ** Block selection *)

(** Rate descending, then signer, then hash. *)
Definition select_cmp (l r : SignedProtocolTransaction) : comparison :=
  then_with (cmp (unwrap_or 0 (result_ok (miner_bounty_rate r)))
                 (unwrap_or 0 (result_ok (miner_bounty_rate l))))
    (then_with (cmp (tx_signer l) (tx_signer r))
      (cmp (result_ok (tx_hash l)) (result_ok (tx_hash r)))).

Record Selection := {
  sel_staged : Ledger;
  sel_candidates : list SignedProtocolTransaction;
  sel_progressed : bool;
  sel_deferred : list SignedProtocolTransaction
}.

(** The [for transaction in remaining] of [select_for_block]. *)
Fixpoint select_pass (height : BlockHeight) (limit min_bounty_rate : Z)
    (remaining : list SignedProtocolTransaction) (s : Selection)
    : Result MempoolError Selection :=
  match remaining with
  | [] => Ok s
  | tx :: remaining =>
      if zlen (sel_candidates s) =? limit then
        select_pass height limit min_bounty_rate remaining
          {| sel_staged := sel_staged s; sel_candidates := sel_candidates s;
             sel_progressed := sel_progressed s; sel_deferred := sel_deferred s ++ [tx] |}
      else
        rate ← miner_bounty_rate tx;
        if rate <? min_bounty_rate then
          select_pass height limit min_bounty_rate remaining s
        else if is_err (tx_validate_at tx height) then
          select_pass height limit min_bounty_rate remaining s
        else
          let '(r, staged) := apply_extension tx height (sel_staged s) in
          if is_err r then
            select_pass height limit min_bounty_rate remaining
              {| sel_staged := staged; sel_candidates := sel_candidates s;
                 sel_progressed := sel_progressed s; sel_deferred := sel_deferred s |}
          else
            select_pass height limit min_bounty_rate remaining
              {| sel_staged := staged; sel_candidates := sel_candidates s ++ [tx];
                 sel_progressed := true; sel_deferred := sel_deferred s |}
  end.

(** The outer [while]: every turn that does not end the loop adds a candidate. *)
Fixpoint select_loop (fuel : nat) (height : BlockHeight) (limit min_bounty_rate : Z)
    (remaining : list SignedProtocolTransaction) (staged : Ledger)
    (candidates : list SignedProtocolTransaction)
    : Result MempoolError (list SignedProtocolTransaction) :=
  match remaining with
  | [] => Ok candidates
  | _ =>
      if zlen candidates <? limit then
        s ← select_pass height limit min_bounty_rate remaining
          {| sel_staged := staged; sel_candidates := candidates;
             sel_progressed := false; sel_deferred := [] |};
        if sel_progressed s then
          match fuel with
          | O => Ok (sel_candidates s)
          | S fuel =>
              select_loop fuel height limit min_bounty_rate (sel_deferred s)
                (sel_staged s) (sel_candidates s)
          end
        else Ok (sel_candidates s)
      else Ok candidates
  end.

Definition select_for_block (m : Mempool) (ledger : Ledger) (height : BlockHeight)
    (limit min_bounty_rate : Z) : Result MempoolError (list SignedProtocolTransaction) :=
  let ordered := sort_by select_cmp (pool_transactions m) in
  select_loop (length ordered) height limit min_bounty_rate ordered ledger [].

Definition refresh_block_fees_and_commitments : ST Block MempoolError unit :=
  st_map_err Serialization block_refresh_commitments.

(** [block.body.transactions.push(tx)] and [.pop()] *)
Definition set_transactions (f : list SignedProtocolTransaction -> list SignedProtocolTransaction)
    (b : Block) : Block := {|
  header := header b;
  body := {| genesis_allocations := genesis_allocations (body b);
             coinbase := coinbase (body b);
             transactions := f (transactions (body b)) |};
  proof := proof b
|}.

Definition append_step (tx : SignedProtocolTransaction) : ST Block MempoolError unit :=
  st_modify (set_transactions (fun txs => txs ++ [tx])) ;;
  refresh_block_fees_and_commitments ;;
  b ← st_get;
  size ← st_lift (map_err Serialization (block_serialized_size b));
  over ← (if MAX_BLOCK_SIZE <? size then mret true
          else weight ← st_lift (map_err Serialization (block_weight b));
               mret (MAX_BLOCK_WEIGHT <? weight));
  if (over : bool) then
    st_modify (set_transactions (fun txs => removelast txs)) ;;
    refresh_block_fees_and_commitments
  else mret tt.

Definition append_selected_to_block (m : Mempool) (ledger : Ledger)
    (transaction_limit min_fee_rate : Z) : ST Block MempoolError unit :=
  b ← st_get;
  let remaining := saturating_sub transaction_limit (block_transaction_count b) in
  selected ← st_lift (select_for_block m ledger (block_height b) remaining min_fee_rate);
  st_for append_step selected ;;
  refresh_block_fees_and_commitments.

(** [BTreeSet] of the block's transaction hashes, each removed in order. *)
Definition remove_confirmed (b : Block) : ST Mempool MempoolError unit :=
  hashes ← st_lift (map_err Serialization (collect_result tx_hash (block_transactions b)));
  let set : BTreeSet TransactionHash := fold_left (fun s h => <[h := tt]> s) hashes ∅ in
  st_for (fun hash => remove hash ;; mret tt) (bt_keys set).
End mempool.
