(* ===== verification/MempoolInv.v ===== *)
(** The mempool's invariant and the correctness of admission, eviction and removal. *)
From Stdlib Require Import ZArith Lia Permutation Sorted.
From stdpp Require Import base numbers option list sets.
From S2P Require Import Prelude BTree PaqusCore Mempool.
Open Scope Z_scope.

Section invariant.
Context `{PaqusTypes} `{!TxOps} `{!BlockOps} `{!LedgerOps}.
Implicit Types (m : Mempool) (tx : SignedProtocolTransaction) (h : TransactionHash).

Definition signer_state tx : Address * Hash := (tx_signer tx, protocol_last_state tx).
Definition tx_size tx : Z :=
  match tx_to_bytes tx with Ok b => zlen b | Err _ => 0 end.

Definition config_ok (c : MempoolConfig) : Prop :=
  0 <= max_transactions c /\ 0 <= max_bytes c < USIZE_MAX.

Lemma default_config_ok : config_ok default_config.
Proof. split; [|split]; vm_compute; discriminate || reflexivity. Qed.

(** Every index agrees with the pool, the byte counter is the pool's size, and the
    configured capacity is respected. *)
Record mempool_wf m : Prop := {
  wf_txs : bt_wf (mp_transactions m);
  wf_reserved : bt_wf (reserved_coins m);
  wf_entry : forall h tx, mp_transactions m !! h = Some tx ->
    tx_hash tx = Ok h /\ (exists b, tx_to_bytes tx = Ok b) /\
    by_signer_state m !! signer_state tx = Some h /\
    is_Some (inserted_at m !! h) /\
    forall c, c ∈ redeem_coin_ids tx -> reserved_coins m !! c = Some h;
  wf_signer_inv : forall k h, by_signer_state m !! k = Some h ->
    exists tx, mp_transactions m !! h = Some tx /\ k = signer_state tx;
  wf_reserved_inv : forall c h, reserved_coins m !! c = Some h ->
    exists tx, mp_transactions m !! h = Some tx /\ c ∈ redeem_coin_ids tx;
  wf_inserted_inv : forall h, is_Some (inserted_at m !! h) -> is_Some (mp_transactions m !! h);
  wf_bytes : total_bytes m = bt_sum tx_size (mp_transactions m);
  wf_count_cap : bt_len (mp_transactions m) <= max_transactions (config m);
  wf_bytes_cap : total_bytes m <= max_bytes (config m);
  wf_config : config_ok (config m)
}.

Lemma tx_size_nonneg tx : 0 <= tx_size tx.
Proof. unfold tx_size. destruct (tx_to_bytes tx); unfold_int; lia. Qed.

Lemma with_config_wf c : config_ok c -> mempool_wf (with_config c).
Proof.
  intros Hc. pose proof Hc as [? [? ?]].
  split; cbn; try done; try apply bt_wf_empty; try lia; intros ? Hs; by destruct Hs.
Qed.

Lemma release_coins_lookup h coins r c :
  release_coins h coins r !! c =
  if decide (c ∈ coins /\ r !! c = Some h) then None else r !! c.
Proof.
  unfold release_coins. revert r. induction coins as [|d coins IH]; intros r; cbn.
  { case_decide as Hd; [|done]. destruct Hd as [Hd _]. by apply elem_of_nil in Hd. }
  rewrite IH. destruct (decide (c = d)) as [->|Hne].
  - case_bool_decide as E.
    + rewrite bt_lookup_delete_eq.
      rewrite (decide_False (P := d ∈ coins /\ _)) by (intros [_ ?]; done).
      rewrite decide_True; [done|]. split; [by constructor|done].
    + rewrite !decide_False; [done|..]; intros [_ ?]; done.
  - assert (Hl : (if bool_decide (r !! d = Some h) then delete d r else r) !! c = r !! c).
    { case_bool_decide; [|done]. by apply bt_lookup_delete_ne. }
    rewrite Hl. destruct (decide (c ∈ coins /\ r !! c = Some h)) as [[Hc Hr]|Hn].
    + rewrite decide_True; [done|]. split; [by constructor|done].
    + rewrite decide_False; [done|]. intros [Hc Hr]. apply Hn. split; [|done].
      apply elem_of_cons in Hc as [|]; done.
Qed.

Lemma release_coins_wf h coins r : bt_wf r -> bt_wf (release_coins h coins r).
Proof.
  unfold release_coins. revert r. induction coins as [|c coins IH]; intros r Hr; cbn; [done|].
  apply IH. case_bool_decide; [by apply bt_wf_delete|done].
Qed.

(** What [remove] does to a well-formed pool. *)
Definition removed h tx m : Mempool := {|
  mp_transactions := delete h (mp_transactions m);
  by_signer_state := delete (signer_state tx) (by_signer_state m);
  reserved_coins := release_coins h (redeem_coin_ids tx) (reserved_coins m);
  inserted_at := delete h (inserted_at m);
  total_bytes := total_bytes m - tx_size tx;
  config := config m
|}.

Lemma remove_absent h m : mp_transactions m !! h = None -> remove h m = (Ok None, m).
Proof. intros Hh. unfold remove. st_simpl. by rewrite Hh. Qed.

Lemma bt_sum_ge f (mm : BTreeMap TransactionHash SignedProtocolTransaction) h tx :
  bt_wf mm -> (forall v, 0 <= f v) -> mm !! h = Some tx -> f tx <= bt_sum f mm.
Proof.
  intros Hwf Hf Hl. pose proof (bt_sum_delete f mm h tx Hwf Hl).
  pose proof (bt_sum_nonneg f (delete h mm) Hf). lia.
Qed.

Lemma remove_present h tx m :
  mempool_wf m -> mp_transactions m !! h = Some tx ->
  remove h m = (Ok (Some tx), removed h tx m).
Proof.
  intros Hwf Hh. unfold remove. st_simpl. rewrite Hh. st_simpl.
  destruct (wf_entry m Hwf h tx Hh) as (_ & [b Hb] & _). rewrite Hb. cbn [map_err]. st_simpl.
  cbn [mp_transactions by_signer_state reserved_coins inserted_at total_bytes config].
  unfold mret, st_ret, removed, signer_state, tx_size. rewrite Hb. do 3 f_equal.
  assert (Hle : tx_size tx <= total_bytes m).
  { rewrite (wf_bytes m Hwf). apply (bt_sum_ge tx_size _ h); [apply Hwf | apply tx_size_nonneg | done]. }
  unfold tx_size in Hle. rewrite Hb in Hle. unfold_int. lia.
Qed.

Lemma removed_wf h tx m :
  mempool_wf m -> mp_transactions m !! h = Some tx -> mempool_wf (removed h tx m).
Proof.
  intros Hwf Hh. pose proof (wf_entry m Hwf h tx Hh) as (Hhash & Hb & Hss & Hins & Hres).
  split; cbn.
  - apply bt_wf_delete, Hwf.
  - apply release_coins_wf, Hwf.
  - intros h' tx' Hl. rewrite bt_lookup_delete in Hl. case_decide as Hne; [done|].
    destruct (wf_entry m Hwf h' tx' Hl) as (Hh' & Hb' & Hs' & Hi' & Hr').
    split_and!; try done.
    + rewrite bt_lookup_delete_ne; [done|]. intros E. rewrite <- E in Hs'. congruence.
    + by rewrite bt_lookup_delete_ne.
    + intros c Hc. rewrite release_coins_lookup, decide_False; [by apply Hr'|].
      intros [_ Hc']. rewrite (Hr' c Hc) in Hc'. congruence.
  - intros k h' Hl. rewrite bt_lookup_delete in Hl. case_decide as Hne; [done|].
    destruct (wf_signer_inv m Hwf k h' Hl) as (tx' & Ht' & ->).
    exists tx'. split; [|done]. rewrite bt_lookup_delete_ne; [done|].
    intros <-. rewrite Hh in Ht'. congruence.
  - intros c h' Hl. rewrite release_coins_lookup in Hl. case_decide as Hne; [done|].
    destruct (wf_reserved_inv m Hwf c h' Hl) as (tx' & Ht' & Hin).
    exists tx'. split; [|done]. rewrite bt_lookup_delete_ne; [done|].
    intros <-. apply Hne. rewrite Hh in Ht'. injection Ht' as ->. done.
  - intros h' Hl. rewrite bt_lookup_delete in Hl. case_decide as Hne; [by destruct Hl|].
    rewrite bt_lookup_delete_ne by done. by apply Hwf.
  - rewrite (bt_sum_delete _ _ _ tx), (wf_bytes m Hwf); [done|apply Hwf|done].
  - pose proof (wf_count_cap m Hwf). pose proof (bt_len_delete_le (mp_transactions m) h). lia.
  - pose proof (wf_bytes_cap m Hwf). pose proof (tx_size_nonneg tx). lia.
  - apply Hwf.
Qed.

Lemma remove_preserves h : st_preserves mempool_wf (remove h).
Proof.
  intros m Hwf. destruct (mp_transactions m !! h) as [tx|] eqn:Hh.
  - rewrite (remove_present h tx) by done. by apply removed_wf.
  - by rewrite remove_absent.
Qed.

(** ** Eviction *)

Lemma lowest_fee_candidate_spec m h rate at_ :
  mempool_wf m -> lowest_fee_candidate m = Some (h, rate, at_) ->
  exists tx, mp_transactions m !! h = Some tx /\ miner_bounty_rate tx = Ok rate /\
  forall h' tx' rate', mp_transactions m !! h' = Some tx' ->
    miner_bounty_rate tx' = Ok rate' -> rate <= rate'.
Proof.
  intros Hwf Hmin. unfold lowest_fee_candidate in Hmin.
  apply min_by_spec in Hmin as [Hin Hle].
  - unfold fee_candidates in *. apply list_elem_of_omap in Hin as ([h0 tx] & Hp & Hc). cbn in Hc.
    destruct (miner_bounty_rate tx) eqn:Hr; [|done]. injection Hc as <- <- <-.
    apply bt_elem_lookup in Hp; [|apply Hwf]. exists tx. split_and!; try done.
    intros h' tx' rate' Hl Hr'. assert (Hx := Hle (h', rate', unwrap_or 0 (inserted_at m !! h'))).
    unfold candidate_cmp, cmp, Z_Ord in Hx; cbn in Hx.
    destruct (Z.compare_spec a rate'); try lia. exfalso. apply Hx; [|done].
    apply list_elem_of_omap. exists (h', tx'). cbn. rewrite Hr'. split; [|done].
    apply bt_elem_lookup; [apply Hwf|done].
  - intros x y. exact (cmp_total (x.1.2, (x.2, x.1.1)) (y.1.2, (y.2, y.1.1))).
  - intros x y z. exact (cmp_le_trans (x.1.2, (x.2, x.1.1)) (y.1.2, (y.2, y.1.1))
      (z.1.2, (z.2, z.1.1))).
Qed.

(** [m'] is [m] after evicting only transactions that pay less than [rate]. *)
Record evicted_below (rate : Z) m m' : Prop := {
  eb_sub : forall h tx, mp_transactions m' !! h = Some tx -> mp_transactions m !! h = Some tx;
  eb_paid : forall h tx, mp_transactions m !! h = Some tx -> mp_transactions m' !! h = None ->
    exists r, miner_bounty_rate tx = Ok r /\ r < rate;
  eb_signer : forall k, by_signer_state m !! k = None -> by_signer_state m' !! k = None;
  eb_config : config m' = config m
}.

Lemma evicted_below_refl rate m : evicted_below rate m m.
Proof. split; try done. intros h tx H1' H2'. congruence. Qed.

Lemma evicted_below_step rate m m' h tx r :
  mp_transactions m !! h = Some tx -> miner_bounty_rate tx = Ok r -> r < rate ->
  evicted_below rate (removed h tx m) m' -> evicted_below rate m m'.
Proof.
  intros Hh Hr Hlt [Hsub Hpaid Hsig Hcfg]. split; cbn in *; [| | |done].
  - intros h' tx' Hl. apply Hsub in Hl. rewrite bt_lookup_delete in Hl. by case_decide.
  - intros h' tx' Hl Hn. destruct (decide (h = h')) as [<-|Hne]; [exists r; naive_solver|].
    apply (Hpaid h'); [by rewrite bt_lookup_delete_ne|done].
  - intros k Hk. apply Hsig. rewrite bt_lookup_delete. by case_decide.
Qed.

Lemma removed_length h tx m :
  mempool_wf m -> mp_transactions m !! h = Some tx ->
  S (length (bt_list (mp_transactions (removed h tx m)))) = length (bt_list (mp_transactions m)).
Proof.
  intros Hwf Hh. pose proof (bt_len_delete _ h tx (wf_txs m Hwf) Hh) as Hl.
  unfold bt_len, zlen in Hl. cbn [removed mp_transactions]. lia.
Qed.

Lemma evict_loop_spec fuel rate size m r m' :
  mempool_wf m -> (length (bt_list (mp_transactions m)) <= fuel)%nat ->
  evict_loop fuel rate size m = (r, m') ->
  mempool_wf m' /\ evicted_below rate m m' /\ (r = Ok tt -> over_capacity m' size = false).
Proof.
  revert m. induction fuel as [|fuel IH]; intros m Hwf Hlen; cbn [evict_loop]; st_simpl.
  all: destruct (over_capacity m size) eqn:Hcap; [|intros [= <- <-]; split_and!;
         auto using evicted_below_refl].
  all: destruct (lowest_fee_candidate m) as [[[h vr] at_]|] eqn:Hlow;
    [|intros [= <- <-]; split_and!; by auto using evicted_below_refl].
  all: destruct (lowest_fee_candidate_spec m h vr at_ Hwf Hlow) as (tx & Hh & Hr & _).
  all: destruct (rate <=? vr) eqn:Hrate;
    [intros [= <- <-]; split_and!; by auto using evicted_below_refl|].
  all: rewrite (st_bind_ok _ _ _ _ _ (remove_present h tx m Hwf Hh));
    pose proof (removed_length h tx m Hwf Hh).
  - lia.
  - intros Hrun. apply IH in Hrun as (Hwf' & Heb & Hok); [|by apply removed_wf|lia].
    split_and!; [done| |done]. apply (evicted_below_step rate m m' h tx vr); auto. lia.
Qed.

Lemma evict_loop_fuel fuel rate size m :
  mempool_wf m -> (length (bt_list (mp_transactions m)) <= fuel)%nat ->
  evict_loop (S fuel) rate size m = evict_loop fuel rate size m.
Proof.
  revert m. induction fuel as [|fuel IH]; intros m Hwf Hlen; cbn [evict_loop]; st_simpl.
  all: destruct (over_capacity m size) eqn:Hcap; [|done].
  all: destruct (lowest_fee_candidate m) as [[[h vr] at_]|] eqn:Hlow; [|done].
  all: destruct (lowest_fee_candidate_spec m h vr at_ Hwf Hlow) as (tx & Hh & Hr & _).
  all: destruct (rate <=? vr) eqn:Hrate; [done|].
  all: rewrite !(st_bind_ok _ _ _ _ _ (remove_present h tx m Hwf Hh));
    pose proof (removed_length h tx m Hwf Hh).
  - lia.
  - apply IH; [by apply removed_wf|lia].
Qed.

Lemma evict_for_capacity_spec tx size m r m' :
  mempool_wf m -> evict_for_capacity tx size m = (r, m') ->
  mempool_wf m' /\
  (m' = m \/ exists rate, miner_bounty_rate tx = Ok rate /\ evicted_below rate m m') /\
  (r = Ok tt -> over_capacity m' size = false).
Proof.
  intros Hwf. unfold evict_for_capacity.
  destruct (miner_bounty_rate tx) as [rate|e] eqn:Hrate; st_simpl.
  - intros Hrun. apply evict_loop_spec in Hrun as (Hwf' & Heb & Hok); [|done..].
    split_and!; [done| |done]. right. by exists rate.
  - intros [= <- <-]. split_and!; [done|by left|done].
Qed.

(** ** Admission *)

Definition reserve_coins h (coins : list QCashCoinId)
    (r : BTreeMap QCashCoinId TransactionHash) : BTreeMap QCashCoinId TransactionHash :=
  fold_left (fun r coin_id => <[coin_id := h]> r) coins r.

Lemma reserve_coins_lookup h coins r c :
  reserve_coins h coins r !! c = if decide (c ∈ coins) then Some h else r !! c.
Proof.
  unfold reserve_coins. revert r. induction coins as [|d coins IH]; intros r; cbn.
  { by rewrite decide_False by apply not_elem_of_nil. }
  rewrite IH, bt_lookup_insert. destruct (decide (c ∈ coins)).
  - by rewrite decide_True by by right.
  - destruct (decide (d = c)) as [->|]; [by rewrite decide_True by by left|].
    rewrite decide_False; [done|]. rewrite elem_of_cons. naive_solver.
Qed.
Lemma reserve_coins_wf h coins r : bt_wf r -> bt_wf (reserve_coins h coins r).
Proof.
  unfold reserve_coins. revert r. induction coins; intros r Hr; cbn; [done|].
  by apply IHcoins, bt_wf_insert.
Qed.

(** The pool after [tx] is admitted to [m] at time [now]. *)
Definition admitted h tx (now : Z) m : Mempool := {|
  mp_transactions := <[h := tx]> (mp_transactions m);
  by_signer_state := <[signer_state tx := h]> (by_signer_state m);
  reserved_coins := reserve_coins h (redeem_coin_ids tx) (reserved_coins m);
  inserted_at := <[h := now]> (inserted_at m);
  total_bytes := saturating_add USIZE_MAX (total_bytes m) (tx_size tx);
  config := config m
|}.

(** What a successful admission went through: [m1] is the pool after eviction. *)
Record admission (ledger : Ledger) (now : Z) tx m h m1 : Prop := {
  ad_hash : tx_hash tx = Ok h;
  ad_bytes : exists b, tx_to_bytes tx = Ok b;
  ad_bounty : block_miner_output_count tx <= 1;
  ad_wf : mempool_wf m1;
  ad_evicted : exists rate, miner_bounty_rate tx = Ok rate /\ evicted_below rate m m1;
  ad_room : over_capacity m1 (tx_size tx) = false;
  ad_new : mp_transactions m !! h = None;
  ad_signer : by_signer_state m !! signer_state tx = None;
  ad_coins : forall c, c ∈ redeem_coin_ids tx -> reserved_coins m1 !! c = None;
  ad_applies : (apply_all (sort_by pending_cmp (pool_transactions m1 ++ [tx]))
                  (next_height ledger) ledger).1 = Ok tt
}.

Lemma insert_validated_inv ledger now tx m r m' :
  mempool_wf m -> insert_validated ledger now tx m = (r, m') ->
  (exists e, r = Err e /\ mempool_wf m' /\
     (m' = m \/ exists rate, miner_bounty_rate tx = Ok rate /\ evicted_below rate m m')) \/
  (exists h m1, r = Ok h /\ admission ledger now tx m h m1 /\ m' = admitted h tx now m1).
Proof.
  intros Hwf. unfold insert_validated.
  assert (Hfail : forall e, (Err e, m) = (r, m') ->
    exists e, r = Err e /\ mempool_wf m' /\
     (m' = m \/ exists rate, miner_bounty_rate tx = Ok rate /\ evicted_below rate m m')).
  { intros e [= <- <-]. exists e. split_and!; [done|done|by left]. }
  destruct (tx_to_bytes tx) as [b|e] eqn:Hb; cbn [map_err]; st_simpl; [|left; eauto].
  destruct (_ <? zlen b); [left; by eapply Hfail|].
  destruct (tx_hash tx) as [h|e] eqn:Hh; cbn [map_err]; st_simpl; [|left; eauto].
  destruct (1 <? _) eqn:Hcnt; [left; by eapply Hfail|].
  destruct (bt_contains h _ || _) eqn:Hdup; [left; by eapply Hfail|].
  apply orb_false_iff in Hdup as [Hd1 Hd2].
  apply bt_contains_false in Hd1, Hd2.
  destruct (evict_for_capacity tx (zlen b) m) as [[[]|e] m1] eqn:Hev.
  2:{ apply evict_for_capacity_spec in Hev as Hev'; [|done]. destruct Hev' as (? & ? & _).
      rewrite (st_bind_err _ _ _ _ _ Hev). intros [= <- <-]. left. by exists e. }
  rewrite (st_bind_ok _ _ _ _ _ Hev). st_simpl.
  apply evict_for_capacity_spec in Hev as Hev'; [|done]. destruct Hev' as (Hwf1 & Heb & Hroom).
  destruct (existsb _ _) eqn:Hcoin; [intros [= <- <-]; left; eauto|].
  destruct (apply_all _ _ _) as [[[]|e] l'] eqn:Happ; cbn [fst]; st_simpl.
  2:{ intros [= <- <-]. left. eauto. }
  intros [= <- <-]. right. exists h, m1. split_and!; [done| |].
  - split; try done; [by exists b|lia| | | |].
    + destruct Heb as [->|?]; [|done]. destruct (miner_bounty_rate tx) as [rate|e] eqn:Hr.
      * exists rate. split; [done|apply evicted_below_refl].
      * revert Hev. unfold evict_for_capacity. rewrite Hr. by st_simpl.
    + unfold tx_size. rewrite Hb. by apply Hroom.
    + intros c Hc. apply bt_contains_false.
      destruct (bt_contains c _) eqn:E; [|done]. rewrite <- Hcoin. symmetry.
      apply existsb_exists. exists c. split; [by apply list_elem_of_In|done].
    + unfold pool_transactions. by rewrite Happ.
  - unfold admitted, reserve_coins, signer_state, tx_size. by rewrite Hb.
Qed.

Lemma admitted_wf ledger now tx m h m1 :
  admission ledger now tx m h m1 -> mempool_wf (admitted h tx now m1).
Proof.
  intros [Hh Hb _ Hwf (rate & _ & Heb) Hroom Hnew Hsig Hcoins _].
  assert (Hnew1 : mp_transactions m1 !! h = None).
  { destruct (mp_transactions m1 !! h) eqn:E; [|done].
    apply (eb_sub _ _ _ Heb) in E. congruence. }
  assert (Hsig1 : by_signer_state m1 !! signer_state tx = None) by by apply Heb.
  pose proof (wf_bytes_cap m1 Hwf) as Hcap1. pose proof (wf_config m1 Hwf) as (_ & _ & Hmax).
  apply orb_false_iff in Hroom as [Hr1 Hr2].
  apply Z.leb_gt in Hr1. apply Z.ltb_ge in Hr2.
  pose proof (tx_size_nonneg tx). unfold saturating_add in Hr2.
  split; cbn.
  - by apply bt_wf_insert, Hwf.
  - by apply reserve_coins_wf, Hwf.
  - intros h' tx' Hl. rewrite bt_lookup_insert in Hl. case_decide as Hd.
    + subst h'. injection Hl as <-. split_and!; try done.
      * apply bt_lookup_insert_eq.
      * rewrite bt_lookup_insert_eq. eauto.
      * intros c Hc. by rewrite reserve_coins_lookup, decide_True.
    + destruct (wf_entry m1 Hwf h' tx' Hl) as (Hh' & Hb' & Hs' & Hi' & Hr').
      split_and!; try done.
      * rewrite bt_lookup_insert_ne; [done|]. intros E. rewrite E in Hsig1. congruence.
      * by rewrite bt_lookup_insert_ne.
      * intros c Hc. rewrite reserve_coins_lookup, decide_False; [by apply Hr'|].
        intros Hin. specialize (Hcoins c Hin). specialize (Hr' c Hc). congruence.
  - intros k h' Hl. rewrite bt_lookup_insert in Hl. case_decide as Hd.
    + injection Hl as <-. exists tx. by rewrite bt_lookup_insert_eq.
    + destruct (wf_signer_inv m1 Hwf k h' Hl) as (tx' & Ht' & ->). exists tx'.
      rewrite bt_lookup_insert_ne; [done|]. intros <-. congruence.
  - intros c h' Hl. rewrite reserve_coins_lookup in Hl. case_decide as Hd.
    + injection Hl as <-. exists tx. by rewrite bt_lookup_insert_eq.
    + destruct (wf_reserved_inv m1 Hwf c h' Hl) as (tx' & Ht' & ?). exists tx'.
      rewrite bt_lookup_insert_ne; [done|]. intros <-. congruence.
  - intros h' Hl. rewrite bt_lookup_insert. case_decide as Hd; [by eexists|].
    rewrite bt_lookup_insert_ne in Hl by done. by apply Hwf.
  - rewrite bt_sum_insert by done. rewrite <- (wf_bytes m1 Hwf).
    unfold saturating_add. lia.
  - rewrite bt_len_insert_new by done. lia.
  - unfold saturating_add. lia.
  - apply Hwf.
Qed.

Lemma insert_validated_wf ledger now tx : st_preserves mempool_wf (insert_validated ledger now tx).
Proof.
  intros m Hwf. destruct (insert_validated ledger now tx m) as [r m'] eqn:Hrun.
  destruct (insert_validated_inv _ _ _ _ _ _ Hwf Hrun)
    as [(e & _ & ? & _)|(h & m1 & _ & Had & ->)]; [done|]. by apply admitted_wf in Had.
Qed.

Lemma evict_by_policy_wf now : st_preserves mempool_wf (evict_by_policy now).
Proof.
  apply st_preserves_bind; [apply st_preserves_get|]. intros m. cbn beta zeta.
  destruct (_ =? 0); eauto 8 using remove_preserves with st.
Qed.

Lemma remove_confirmed_wf b : st_preserves mempool_wf (remove_confirmed b).
Proof. unfold remove_confirmed. eauto 8 using remove_preserves with st. Qed.
End invariant.
