(* ===== verification/MempoolSpec.v ===== *)
(** What the mempool promises: its reachable states, admission, eviction, block selection
    and the fee market. *)
From Stdlib Require Import ZArith Lia Permutation Sorted.
From stdpp Require Import base numbers option list sets relations.
From S2P Require Import Prelude BTree PaqusCore Toy Mempool MempoolInv.
Open Scope Z_scope.

Section spec.
Context `{PaqusTypes} `{!TxOps} `{!BlockOps} `{!LedgerOps}.
Implicit Types (m : Mempool) (tx : SignedProtocolTransaction) (h : TransactionHash).

(** ** Reachable pools *)

(** The node's calls on its mempool, whatever they return. *)
Inductive mempool_step : Mempool -> Mempool -> Prop :=
| step_insert ledger now tx m : mempool_step m (insert_validated ledger now tx m).2
| step_remove h m : mempool_step m (remove h m).2
| step_evict_by_policy now m : mempool_step m (evict_by_policy now m).2
| step_remove_confirmed b m : mempool_step m (remove_confirmed b m).2.

Lemma mempool_step_wf m m' : mempool_step m m' -> mempool_wf m -> mempool_wf m'.
Proof.
  intros [] Hwf; [by apply insert_validated_wf|by apply remove_preserves|
    by apply evict_by_policy_wf|by apply remove_confirmed_wf].
Qed.

(** C1: in every pool reachable from the empty one by any sequence of admissions (also
    rejected ones), removals, age evictions and block confirmations, the signer-state and
    coin indexes, the insertion times and the byte counter agree with the stored
    transactions, and the configured count and byte limits are respected. *)
Theorem mempool_reachable_wf (c : MempoolConfig) m :
  config_ok c -> rtc mempool_step (with_config c) m -> mempool_wf m.
Proof.
  intros Hc Hrtc. assert (Hwf := with_config_wf c Hc).
  induction Hrtc as [|m1 m2 m3 Hstep _ IH]; [done|]. eauto using mempool_step_wf.
Qed.


(** ** Admission *)

Lemma pending_total tx1 tx2 : pending_cmp tx1 tx2 = Gt -> pending_cmp tx2 tx1 <> Gt.
Proof. apply cmp_total. Qed.
Lemma pending_trans tx1 tx2 tx3 :
  pending_cmp tx1 tx2 <> Gt -> pending_cmp tx2 tx3 <> Gt -> pending_cmp tx1 tx3 <> Gt.
Proof. apply cmp_le_trans. Qed.

Lemma pool_sort_unique m l :
  mempool_wf m -> l ≡ₚ pool_transactions m ->
  sort_by pending_cmp l = sort_by pending_cmp (pool_transactions m).
Proof.
  intros Hwf Hp. apply (sorted_perm_unique (fun x y => pending_cmp x y <> Gt)).
  - by rewrite !sort_by_perm.
  - apply sort_by_sorted; [apply pending_total|apply pending_trans].
  - apply sort_by_sorted; [apply pending_total|apply pending_trans].
  - intros x y Hx Hy Hxy Hyx. rewrite elem_of_sort_by, Hp in Hx, Hy.
    apply bt_elem_values in Hx as [hx Hx]; [|apply Hwf].
    apply bt_elem_values in Hy as [hy Hy]; [|apply Hwf].
    assert (Hk := cmp_antisym (_, _) (_, _) Hxy Hyx). injection Hk as _ Hh.
    rewrite (proj1 (wf_entry m Hwf hx x Hx)), (proj1 (wf_entry m Hwf hy y Hy)) in Hh.
    cbn in Hh. naive_solver.
Qed.

Lemma values_insert (mm : BTreeMap TransactionHash SignedProtocolTransaction) h tx :
  mm !! h = None -> bt_values (<[h := tx]> mm) ≡ₚ tx :: bt_values mm.
Proof.
  unfold bt_values, lookup, bt_lookup, insert, bt_insert. cbn.
  induction (bt_list mm) as [|[k v] l IH]; cbn; [done|].
  destruct (cmp h k); cbn; [done|done|]. intros Hl. rewrite IH by done. apply perm_swap.
Qed.

(** after a successful admission the pool holds the transaction under its hash, every
    transaction evicted for it pays a strictly lower bounty rate, and the whole new pool
    applies to the ledger at the next height in (signer, hash) order. *)
Theorem insert_validated_ok ledger now tx m h m' :
  mempool_wf m -> insert_validated ledger now tx m = (Ok h, m') ->
  tx_hash tx = Ok h /\ mp_transactions m' !! h = Some tx /\
  (forall h' tx', mp_transactions m' !! h' = Some tx' -> h' <> h ->
     mp_transactions m !! h' = Some tx') /\
  (forall h' tx', mp_transactions m !! h' = Some tx' -> mp_transactions m' !! h' = None ->
     exists r rate, miner_bounty_rate tx' = Ok r /\ miner_bounty_rate tx = Ok rate /\ r < rate) /\
  (apply_all (sort_by pending_cmp (pool_transactions m')) (next_height ledger) ledger).1 = Ok tt.
Proof.
  intros Hwf Hrun. destruct (insert_validated_inv _ _ _ _ _ _ Hwf Hrun)
    as [(e & [=] & _)|(h1 & m1 & [= <-] & Had & ->)].
  pose proof (admitted_wf _ _ _ _ _ _ Had) as Hwf'.
  destruct Had as [Hh _ _ Hwf1 (rate & Hrate & Heb) _ Hnew _ _ Happ].
  assert (Hnew1 : mp_transactions m1 !! h = None).
  { destruct (mp_transactions m1 !! h) eqn:E; [|done]. apply (eb_sub _ _ _ Heb) in E. congruence. }
  split_and!; [done| | | |].
  - apply bt_lookup_insert_eq.
  - intros h' tx' Hl Hne. cbn in Hl. rewrite bt_lookup_insert_ne in Hl by done.
    by apply (eb_sub _ _ _ Heb).
  - intros h' tx' Hl Hn. cbn in Hn. rewrite bt_lookup_insert in Hn. case_decide; [done|].
    destruct (eb_paid _ _ _ Heb h' tx' Hl Hn) as (r & ? & ?). by exists r, rate.
  - rewrite <- (pool_sort_unique _ (pool_transactions m1 ++ [tx]) Hwf'); [done|].
    unfold pool_transactions at 2; cbn [admitted mp_transactions].
    rewrite values_insert by done. by rewrite Permutation_app_comm.
Qed.

(** a rejected admission never adds a transaction; all it can have done is evict
    transactions that pay less than the rejected one. *)
Theorem insert_validated_err ledger now tx m e m' :
  mempool_wf m -> insert_validated ledger now tx m = (Err e, m') ->
  (forall h tx', mp_transactions m' !! h = Some tx' -> mp_transactions m !! h = Some tx') /\
  (forall h tx', mp_transactions m !! h = Some tx' -> mp_transactions m' !! h = None ->
     exists r rate, miner_bounty_rate tx' = Ok r /\ miner_bounty_rate tx = Ok rate /\ r < rate).
Proof.
  intros Hwf Hrun. destruct (insert_validated_inv _ _ _ _ _ _ Hwf Hrun)
    as [(e' & [= <-] & _ & [->|(rate & Hrate & Heb)])|(h1 & m1 & [=] & _)].
  - split; [done|]. intros. congruence.
  - split; [apply Heb|]. intros h tx' Hl Hn.
    destruct (eb_paid _ _ _ Heb h tx' Hl Hn) as (r & ? & ?). by exists r, rate.
Qed.

Lemma apply_all_stuck txs height tx ledger :
  tx ∈ txs -> (forall l, is_err (apply_extension tx height l).1 = true) ->
  is_err (apply_all txs height ledger).1 = true.
Proof.
  intros Hin Hstuck. revert ledger. induction txs as [|tx0 txs IH]; intros ledger; cbn.
  { by apply elem_of_nil in Hin. }
  unfold mbind, st_bind. apply elem_of_cons in Hin as [<-|Hin].
  - specialize (Hstuck ledger). by destruct (apply_extension tx height ledger) as [[]].
  - destruct (apply_extension _ _ ledger) as [[] l]; [|done]. by apply IH.
Qed.

(** one pooled transaction that no longer applies blocks every admission: while it
    stays in a pool with room, [insert_validated] refuses every transaction and changes
    nothing. *)
Theorem stale_transaction_blocks_admission ledger now tx stale h m :
  mempool_wf m -> mp_transactions m !! h = Some stale ->
  (forall l, is_err (apply_extension stale (next_height ledger) l).1 = true) ->
  over_capacity m (tx_size tx) = false ->
  is_err (insert_validated ledger now tx m).1 = true /\
  (insert_validated ledger now tx m).2 = m.
Proof.
  intros Hwf Hh Hstuck Hroom.
  assert (Hev : evict_for_capacity tx (tx_size tx) m =
    (match miner_bounty_rate tx with Ok _ => Ok tt | Err e => Err e end, m)).
  { unfold evict_for_capacity. destruct (miner_bounty_rate tx); st_simpl; [|done].
    destruct (length _); cbn [evict_loop]; st_simpl; by rewrite Hroom. }
  unfold insert_validated. unfold tx_size in Hev, Hroom.
  destruct (tx_to_bytes tx) as [b|]; cbn [map_err]; st_simpl; [|done].
  destruct (_ <? _); [done|].
  destruct (tx_hash tx); cbn [map_err]; st_simpl; [|done].
  destruct (1 <? _); [done|]. destruct (_ || _); [done|].
  destruct (miner_bounty_rate tx).
  2:{ by rewrite (st_bind_err _ _ _ _ _ Hev). }
  rewrite (st_bind_ok _ _ _ _ _ Hev). st_simpl. destruct (existsb _ _); [done|].
  match goal with |- context [apply_all ?l ?n ?g] =>
    assert (Hs : is_err (apply_all l n g).1 = true) end.
  { apply (apply_all_stuck _ _ stale); [|done]. rewrite elem_of_sort_by, elem_of_app. left.
    apply bt_elem_values; [apply Hwf|]. by exists h. }
  destruct (apply_all _ _ _) as [[] ?]; cbn [fst] in *; st_simpl; [done|done].
Qed.
End spec.

(** ** Concrete pools *)

Module MempoolExamples.
Import Toy.

Definition t_alice : SignedProtocolTransaction := transfer alice zero_hash bob 10 1.
Definition t_bob : SignedProtocolTransaction := transfer bob zero_hash alice 10 2000.
Definition h_alice : TransactionHash := hash32 (ser t_alice).
Definition h_bob : TransactionHash := hash32 (ser t_bob).
(** Room for one transaction. *)
Definition small : MempoolConfig := {|
  max_transactions := 1; max_bytes := 1000; transaction_ttl_secs := 0;
  low_fee_ttl_secs := 0; min_relay_fee := 0; market_fee := 0
|}.
Definition pool0 : Mempool := with_config small.
Definition pool1 : Mempool := (insert_validated ledger0 5 t_alice pool0).2.

Lemma small_ok : config_ok small.
Proof. repeat split; cbn; unfold USIZE_MAX, U64_MAX; lia. Qed.
Lemma pool1_wf : mempool_wf pool1.
Proof. apply insert_validated_wf, with_config_wf, small_ok. Qed.

Lemma mempool_reachable_wf_witness :
  rtc mempool_step (with_config small) pool1 /\ mempool_wf pool1.
Proof.
  assert (Hs : rtc mempool_step (with_config small) pool1)
    by (eapply rtc_l; [apply step_insert|apply rtc_refl]).
  split; [exact Hs|]. exact (mempool_reachable_wf small pool1 small_ok Hs).
Defined.


Lemma insert_validated_ok_witness : mp_transactions pool1 !! h_alice = Some t_alice.
Proof.
  refine (proj1 (proj2 (insert_validated_ok ledger0 5 t_alice pool0 h_alice pool1 _ _))).
  - apply with_config_wf, small_ok.
  - vm_compute; reflexivity.
Defined.

(** A high-fee transaction of bob that spends a state he is not in. *)
Definition t_bad : SignedProtocolTransaction := transfer bob [9] alice 10 2000.
Definition pool_bad : Mempool := (insert_validated ledger0 6 t_bad pool1).2.

(** A transaction that the ledger refuses evicts a valid one from a full pool: the room
    is made before the ledger is asked. *)
Theorem rejected_admission_evicts :
  mp_transactions pool1 !! h_alice = Some t_alice /\
  insert_validated ledger0 6 t_bad pool1 =
    (Err (InvalidLedgerState (LedgerErrorOther 1)), pool_bad) /\
  mp_transactions pool_bad !! h_alice = None.
Proof. vm_compute. repeat split. Qed.

Lemma insert_validated_err_witness :
  exists r rate, miner_bounty_rate t_alice = Ok r /\ miner_bounty_rate t_bad = Ok rate /\ r < rate.
Proof.
  refine (proj2 (insert_validated_err ledger0 6 t_bad pool1
    (InvalidLedgerState (LedgerErrorOther 1)) pool_bad _ _) h_alice t_alice _ _).
  - exact pool1_wf.
  - vm_compute; reflexivity.
  - vm_compute; reflexivity.
  - vm_compute; reflexivity.
Defined.

(** Two places; alice's transaction was pooled, then its validity ended. *)
Definition wide : MempoolConfig := {|
  max_transactions := 2; max_bytes := 1000; transaction_ttl_secs := 0;
  low_fee_ttl_secs := 0; min_relay_fee := 0; market_fee := 0
|}.
Definition t_stale : SignedProtocolTransaction := transfer_until 1 alice zero_hash bob 10 1.
Definition pool_stale : Mempool := (insert_validated ledger0 5 t_stale (with_config wide)).2.
Definition ledger1 : Ledger := extend ledger0 (next_block ledger0 []).

Lemma stale_transaction_blocks_admission_witness :
  is_err (insert_validated ledger1 6 t_bob pool_stale).1 = true /\
  (insert_validated ledger1 6 t_bob pool_stale).2 = pool_stale.
Proof.
  apply (stale_transaction_blocks_admission ledger1 6 t_bob t_stale (hash32 (ser t_stale))).
  - apply insert_validated_wf, with_config_wf.
    repeat split; cbn; unfold USIZE_MAX, U64_MAX; lia.
  - vm_compute; reflexivity.
  - intros l. vm_compute; reflexivity.
  - vm_compute; reflexivity.
Defined.
End MempoolExamples.
