(* ===== verification/MempoolSelect.v ===== *)
(** Filling a block from the mempool: [select_for_block] is a single greedy pass over the
    pool in bounty order, and [append_selected_to_block] never outgrows the block limits. *)
From Stdlib Require Import ZArith Lia Permutation Sorted.
From stdpp Require Import base numbers option list sets.
From S2P Require Import Prelude BTree PaqusCore Toy Mempool MempoolInv.
Open Scope Z_scope.

(** [refresh_commitments] recomputes the header from the body: it keeps the body, and what
    the header held before does not matter. *)
Class RefreshLaws `{PaqusTypes} `{!BlockOps} : Prop := {
  refresh_body (b : Block) : body (block_refresh_commitments b).2 = body b;
  refresh_absorb (f : list SignedProtocolTransaction -> list SignedProtocolTransaction)
    (b b1 : Block) :
    block_refresh_commitments b = (Ok tt, b1) ->
    block_refresh_commitments (set_transactions f b1) =
    block_refresh_commitments (set_transactions f b)
}.

Section select.
Context `{PaqusTypes} `{!TxOps} `{!BlockOps} `{!LedgerOps}.
Implicit Types (m : Mempool) (tx : SignedProtocolTransaction) (staged : Ledger).

(** The reference: walk the ordered pool once, take every transaction that pays the rate,
    is valid at the height and applies to what was taken before, until [room] is used up. *)
Fixpoint greedy_fill (height : BlockHeight) (min_rate : Z) (room : nat)
    (ordered : list SignedProtocolTransaction) staged
    : Result MempoolError (list SignedProtocolTransaction) :=
  match ordered, room with
  | [], _ | _, O => Ok []
  | tx :: ordered, S room' =>
      rate ← miner_bounty_rate tx;
      if (rate <? min_rate) || is_err (tx_validate_at tx height) then
        greedy_fill height min_rate room ordered staged
      else
        let '(r, staged') := apply_extension tx height staged in
        if is_err r then greedy_fill height min_rate room ordered staged'
        else taken ← greedy_fill height min_rate room' ordered staged'; Ok (tx :: taken)
  end.

Lemma greedy_fill_full height min_rate ordered staged :
  greedy_fill height min_rate 0 ordered staged = Ok [].
Proof. by destruct ordered. Qed.

(** A pass that starts with the limit reached defers everything. *)
Lemma select_pass_full height limit min_rate ordered s :
  zlen (sel_candidates s) = limit ->
  select_pass height limit min_rate ordered s =
  Ok {| sel_staged := sel_staged s; sel_candidates := sel_candidates s;
        sel_progressed := sel_progressed s; sel_deferred := sel_deferred s ++ ordered |}.
Proof.
  revert s. induction ordered as [|tx ordered IH]; intros s Hlen; cbn.
  - rewrite app_nil_r. by destruct s.
  - rewrite Hlen, Z.eqb_refl, IH by done. cbn. by rewrite <- app_assoc.
Qed.

(** What a pass computes, in terms of the reference. *)
Definition pass_result (limit : Z) (s : Selection)
    (r : Result MempoolError (list SignedProtocolTransaction))
    (out : Result MempoolError Selection) : Prop :=
  match r with
  | Err e => out = Err e
  | Ok taken => exists staged' deferred,
      out = Ok {| sel_staged := staged'; sel_candidates := sel_candidates s ++ taken;
                  sel_progressed := sel_progressed s || negb (bool_decide (taken = []));
                  sel_deferred := deferred |} /\
      (deferred = sel_deferred s \/ zlen (sel_candidates s ++ taken) = limit)
  end.

Lemma select_pass_greedy height limit min_rate ordered s (room : nat) :
  zlen (sel_candidates s) + Z.of_nat room = limit ->
  pass_result limit s (greedy_fill height min_rate room ordered (sel_staged s))
    (select_pass height limit min_rate ordered s).
Proof.
  revert s room. induction ordered as [|tx ordered IH]; intros s room Hroom.
  { cbn. exists (sel_staged s), (sel_deferred s). split; [|by left].
    rewrite app_nil_r, orb_false_r. by destruct s. }
  destruct room as [|room].
  { rewrite greedy_fill_full. cbn [pass_result]. rewrite select_pass_full by lia.
    exists (sel_staged s), (sel_deferred s ++ tx :: ordered).
    rewrite app_nil_r. split; [by rewrite orb_false_r|right; lia]. }
  cbn [greedy_fill select_pass]. destruct (Z.eqb_spec (zlen (sel_candidates s)) limit); [lia|].
  destruct (miner_bounty_rate tx) as [rate|e]; [|done]. unfold mbind, result_bind.
  destruct (rate <? min_rate); cbn [orb]; [by apply IH|].
  destruct (is_err (tx_validate_at tx height)); [by apply IH|].
  destruct (apply_extension tx height (sel_staged s)) as [r staged'] eqn:Happ.
  destruct (is_err r); [by apply (IH {| sel_staged := staged' |})|].
  specialize (IH {| sel_staged := staged'; sel_candidates := sel_candidates s ++ [tx];
    sel_progressed := true; sel_deferred := sel_deferred s |} room).
  cbn [sel_staged sel_candidates sel_progressed sel_deferred] in IH.
  assert (Hlen : zlen (sel_candidates s ++ [tx]) + Z.of_nat room = limit)
    by (unfold zlen in *; rewrite length_app; cbn; lia).
  specialize (IH Hlen). destruct (greedy_fill _ _ room ordered staged') as [taken|e]; [|done].
  destruct IH as (st & d & Heq & Hd). exists st, d. cbn [sel_candidates] in *.
  rewrite <- app_assoc in Heq, Hd. split; [|done]. rewrite Heq. by rewrite orb_true_r.
Qed.

Lemma select_for_block_eq m (ledger : Ledger) (height : BlockHeight) (limit : nat)
    (min_rate : Z) :
  select_for_block m ledger height (Z.of_nat limit) min_rate =
  greedy_fill height min_rate limit (sort_by select_cmp (pool_transactions m)) ledger.
Proof.
  unfold select_for_block. set (ordered := sort_by select_cmp (pool_transactions m)).
  destruct ordered as [|tx ordered'] eqn:Hord; [by destruct limit|]. rewrite <- Hord.
  assert (Hpos : exists fuel, length ordered = S fuel) by (rewrite Hord; by eexists).
  destruct Hpos as [fuel ->]. cbn [select_loop].
  rewrite Hord at 1. cbn [zlen length]. destruct limit as [|limit].
  { rewrite greedy_fill_full. done. }
  destruct (Z.ltb_spec (zlen (@nil SignedProtocolTransaction)) (Z.of_nat (S limit)));
    [|unfold zlen in *; cbn in *; lia].
  pose proof (select_pass_greedy height (Z.of_nat (S limit)) min_rate ordered
    {| sel_staged := ledger; sel_candidates := []; sel_progressed := false;
       sel_deferred := [] |} (S limit) eq_refl) as Hpass.
  cbn [sel_staged] in Hpass.
  destruct (greedy_fill _ _ (S limit) ordered ledger) as [taken|e]; cbn [pass_result] in Hpass.
  2:{ by rewrite Hpass. }
  destruct Hpass as (st & d & Heq & Hd). rewrite Heq. cbn.
  destruct (bool_decide (taken = [])); [done|]. cbn in Hd.
  destruct Hd as [->|Hfull]; [by destruct fuel|].
  destruct d as [|tx' d]; [by destruct fuel|].
  destruct fuel; cbn [select_loop]; destruct (Z.ltb_spec (zlen taken) (Z.of_nat (S limit)));
    done || lia.
Qed.

Definition select_key tx : Z * (Address * option TransactionHash) :=
  (- unwrap_or 0 (result_ok (miner_bounty_rate tx)), (tx_signer tx, result_ok (tx_hash tx))).
Lemma select_cmp_key tx1 tx2 : select_cmp tx1 tx2 = cmp (select_key tx1) (select_key tx2).
Proof.
  unfold select_cmp, select_key, cmp at 4, prod_Ord; cbn. f_equal.
  unfold cmp, Z_Ord. rewrite Z.compare_opp. done.
Qed.

(** C40: [select_for_block] computes exactly one greedy pass over the pool, ordered by falling
    bounty rate, then signer, then hash; its outer loop never finds anything more to take. *)
Theorem select_for_block_greedy m (ledger : Ledger) (height : BlockHeight) (limit : nat)
    (min_rate : Z) :
  exists ordered,
    ordered ≡ₚ pool_transactions m /\
    StronglySorted (fun tx1 tx2 => cmp (select_key tx1) (select_key tx2) <> Gt) ordered /\
    select_for_block m ledger height (Z.of_nat limit) min_rate =
    greedy_fill height min_rate limit ordered ledger.
Proof.
  exists (sort_by select_cmp (pool_transactions m)).
  split_and!; [apply sort_by_perm| |apply select_for_block_eq].
  eapply StronglySorted_ind with (P := StronglySorted _); [constructor| |apply sort_by_sorted].
  - intros tx l _ IH Hf. constructor; [done|]. eapply Forall_impl; [exact Hf|].
    intros tx2 Hle. cbn in Hle. by rewrite <- select_cmp_key.
  - intros x y. rewrite !select_cmp_key. apply cmp_total.
  - intros x y z. rewrite !select_cmp_key. apply cmp_le_trans.
Qed.

Lemma apply_extension_atomic `{!LedgerLaws} tx height staged r staged' :
  apply_extension tx height staged = (r, staged') -> is_err r = true -> staged' = staged.
Proof.
  unfold apply_extension, st_map_err. destruct tx as [t|t].
  - destruct (apply_signed_transaction_at t height staged) as [[?|e] l] eqn:E; intros [= <- <-];
      [done|]. by apply apply_signed_atomic in E.
  - destruct (apply_signed_qcash_transaction t height staged) as [[?|e] l] eqn:E;
      intros [= <- <-]; [done|]. by apply apply_qcash_atomic in E.
Qed.

Lemma greedy_fill_sound `{!LedgerLaws} height min_rate room ordered staged taken :
  greedy_fill height min_rate room ordered staged = Ok taken ->
  taken `sublist_of` ordered /\ (length taken <= room)%nat /\
  Forall (fun tx => (exists rate, miner_bounty_rate tx = Ok rate /\ min_rate <= rate) /\
                    is_ok (tx_validate_at tx height) = true) taken /\
  (apply_all taken height staged).1 = Ok tt.
Proof.
  revert room staged taken. induction ordered as [|tx ordered IH]; intros room staged taken.
  { cbn. intros [= <-]. split_and!; [constructor|cbn; lia|constructor|done]. }
  destruct room as [|room].
  { cbn. intros [= <-]. split_and!; [apply sublist_nil_l|done|constructor|done]. }
  cbn [greedy_fill]. destruct (miner_bounty_rate tx) as [rate|e] eqn:Hrate; [|done].
  unfold mbind at 1, result_bind at 1.
  destruct (Z.ltb_spec rate min_rate) as [|Hge]; cbn [orb].
  { intros Hg. apply IH in Hg as (? & ? & ? & ?). split_and!; try done. by constructor. }
  destruct (is_err (tx_validate_at tx height)) eqn:Hval.
  { intros Hg. apply IH in Hg as (? & ? & ? & ?). split_and!; try done. by constructor. }
  destruct (apply_extension tx height staged) as [r staged'] eqn:Happ.
  destruct (is_err r) eqn:Hr.
  { apply apply_extension_atomic in Happ as ->; [|done].
    intros Hg. apply IH in Hg as (? & ? & ? & ?). split_and!; try done. by constructor. }
  rewrite bind_Ok. intros (rest & Hrest & [= <-]).
  apply IH in Hrest as (Hsub & Hlen & Hall & Hok). destruct r as [[]|]; [|done].
  split_and!.
  - by constructor.
  - cbn. lia.
  - constructor; [|done]. split; [by exists rate|]. unfold is_err in Hval. by apply negb_false_iff.
  - cbn. by rewrite (st_bind_ok _ _ _ _ _ Happ).
Qed.

(** what [select_for_block] returns is a subsequence of the ordered pool, no longer than
    the limit, every member pays the asked rate and is valid at the height, and the whole
    selection applies to the ledger in that order. *)
Theorem select_for_block_sound `{!LedgerLaws} m (ledger : Ledger) (height : BlockHeight)
    (limit : nat) (min_rate : Z) selected :
  select_for_block m ledger height (Z.of_nat limit) min_rate = Ok selected ->
  selected `sublist_of` sort_by select_cmp (pool_transactions m) /\
  (length selected <= limit)%nat /\
  Forall (fun tx => (exists rate, miner_bounty_rate tx = Ok rate /\ min_rate <= rate) /\
                    is_ok (tx_validate_at tx height) = true) selected /\
  (apply_all selected height ledger).1 = Ok tt.
Proof.
  rewrite select_for_block_eq. apply greedy_fill_sound.
Qed.

(** ** Appending to the block *)

(** The commitments are up to date and the block is within both limits. *)
Record block_fits (b : Block) : Prop := {
  fits_refreshed : block_refresh_commitments b = (Ok tt, b);
  fits_size : exists n, block_serialized_size b = Ok n /\ n <= MAX_BLOCK_SIZE;
  fits_weight : exists n, block_weight b = Ok n /\ n <= MAX_BLOCK_WEIGHT
}.

Lemma refresh_ok (b b1 : Block) :
  refresh_block_fees_and_commitments b = (Ok tt, b1) -> block_refresh_commitments b = (Ok tt, b1).
Proof.
  unfold refresh_block_fees_and_commitments, st_map_err.
  destruct (block_refresh_commitments b) as [[[]|] b2]; cbn; naive_solver.
Qed.
Lemma set_transactions_id (b : Block) : set_transactions (fun txs => txs) b = b.
Proof. by destruct b as [? [] ?]. Qed.
Lemma set_transactions_comp f g (b : Block) :
  set_transactions f (set_transactions g b) = set_transactions (fun txs => f (g txs)) b.
Proof. done. Qed.

Lemma set_transactions_ext f g (b : Block) :
  (forall txs, f txs = g txs) -> set_transactions f b = set_transactions g b.
Proof. intros Hfg. unfold set_transactions. by rewrite Hfg. Qed.

Lemma append_step_fits `{!RefreshLaws} tx (b b' : Block) :
  block_fits b -> append_step tx b = (Ok tt, b') ->
  block_fits b' /\
  (body b' = body b \/ body b' = body (set_transactions (fun txs => txs ++ [tx]) b)).
Proof.
  intros Hfit. unfold append_step. st_simpl. set (pushed := set_transactions _ b).
  intros Hrun. apply st_bind_inv in Hrun as [(e & _ & [=])|([] & b1 & Hr1 & Hrun)].
  apply refresh_ok in Hr1. st_simpl_in Hrun.
  assert (Hpop : forall b2, refresh_block_fees_and_commitments
      (set_transactions (fun txs => removelast txs) b1) = (Ok tt, b2) -> b2 = b).
  { intros b2 Hr2. apply refresh_ok in Hr2. rewrite (refresh_absorb _ _ _ Hr1) in Hr2.
    subst pushed. rewrite set_transactions_comp in Hr2.
    rewrite (set_transactions_ext _ (fun txs => txs)), set_transactions_id in Hr2
      by (intros; apply removelast_last).
    rewrite (fits_refreshed b Hfit) in Hr2. by injection Hr2. }
  destruct (block_serialized_size b1) as [n|] eqn:Hn; cbn [map_err] in Hrun; st_simpl_in Hrun;
    [|done].
  destruct (Z.ltb_spec MAX_BLOCK_SIZE n) as [|Hle]; st_simpl_in Hrun.
  { apply Hpop in Hrun as ->. eauto. }
  destruct (block_weight b1) as [w|] eqn:Hw; cbn [map_err] in Hrun.
  2:{ rewrite st_bind_err with (e := Serialization e) (s1 := b1) in Hrun by done. done. }
  rewrite st_bind_ok with (a := MAX_BLOCK_WEIGHT <? w) (s1 := b1) in Hrun by done.
  destruct (Z.ltb_spec MAX_BLOCK_WEIGHT w) as [|Hlew]; st_simpl_in Hrun.
  { apply Hpop in Hrun as ->. eauto. }
  injection Hrun as <-. split; [split; eauto|right].
  - pose proof (refresh_absorb (fun txs => txs) _ _ Hr1) as Ha.
    rewrite !set_transactions_id in Ha. congruence.
  - change (body b1) with (body ((Ok (E := CodecError) tt, b1).2)). rewrite <- Hr1.
    apply refresh_body.
Qed.

Lemma append_all_fits `{!RefreshLaws} selected (b b' : Block) :
  block_fits b -> st_for append_step selected b = (Ok tt, b') ->
  block_fits b' /\ exists picked, picked `sublist_of` selected /\
    body b' = body (set_transactions (fun txs => txs ++ picked) b).
Proof.
  revert b. induction selected as [|tx selected IH]; intros b Hfit; cbn [st_for].
  { intros [= <-]. split; [done|]. exists []. split; [constructor|].
    rewrite (set_transactions_ext _ (fun txs => txs)), set_transactions_id; [done|].
    intros; apply app_nil_r. }
  intros Hrun. apply st_bind_inv in Hrun as [(e & _ & [=])|([] & b1 & Hstep & Hrun)].
  apply append_step_fits in Hstep as [Hfit1 Hbody]; [|done].
  apply IH in Hrun as (Hfit' & picked & Hsub & Hb'); [|done]. split; [done|].
  destruct Hbody as [Hb1|Hb1].
  - exists picked. split; [by constructor|]. rewrite Hb'. unfold set_transactions. by rewrite Hb1.
  - exists (tx :: picked). split; [by constructor|]. rewrite Hb'.
    unfold set_transactions. cbn. rewrite Hb1. cbn. by rewrite <- app_assoc.
Qed.

(** filling a block that is within the size and weight limits keeps it within them, with
    fresh commitments, and only appends a subsequence of the selection to its
    transactions. *)
Theorem append_selected_to_block_fits `{!RefreshLaws} m (ledger : Ledger) (limit min_rate : Z)
    (b b' : Block) :
  block_fits b -> append_selected_to_block m ledger limit min_rate b = (Ok tt, b') ->
  block_fits b' /\
  exists selected picked,
    select_for_block m ledger (block_height b)
      (saturating_sub limit (block_transaction_count b)) min_rate = Ok selected /\
    picked `sublist_of` selected /\
    body b' = body (set_transactions (fun txs => txs ++ picked) b).
Proof.
  intros Hfit. unfold append_selected_to_block. st_simpl.
  destruct (select_for_block _ _ _ _ _) as [selected|e] eqn:Hsel; st_simpl; [|done].
  intros Hrun. apply st_bind_inv in Hrun as [(e & _ & [=])|([] & b1 & Hall & Hrun)].
  apply append_all_fits in Hall as (Hfit1 & picked & Hsub & Hbody); [|done].
  apply refresh_ok in Hrun. rewrite (fits_refreshed b1 Hfit1) in Hrun. injection Hrun as <-.
  eauto 6.
Qed.
End select.

Module SelectExamples.
Import Toy.

#[global] Instance toy_refresh : RefreshLaws.
Proof. split; [done|]. intros f b b1 [= <-]. done. Qed.

Definition config1 : MempoolConfig := {|
  max_transactions := 4; max_bytes := 1000; transaction_ttl_secs := 0;
  low_fee_ttl_secs := 0; min_relay_fee := 0; market_fee := 0
|}.
Definition t1 : SignedProtocolTransaction := transfer alice zero_hash bob 10 100.
Definition t2 : SignedProtocolTransaction := transfer bob zero_hash alice 10 900.
Definition pool : Mempool :=
  (insert_validated ledger0 6 t2 (insert_validated ledger0 5 t1 (with_config config1)).2).2.

Lemma select_for_block_sound_witness :
  select_for_block pool ledger0 1 (Z.of_nat 8) 1 = Ok [t2; t1] /\
  (apply_all [t2; t1] 1 ledger0).1 = Ok tt.
Proof.
  assert (Hs : select_for_block pool ledger0 1 (Z.of_nat 8) 1 = Ok [t2; t1])
    by (vm_compute; reflexivity).
  split; [exact Hs|]. apply (select_for_block_sound pool ledger0 1 8 1 [t2; t1] Hs).
Defined.

Definition empty_block : Block := (block_refresh_commitments (next_block ledger0 [])).2.
Definition full_block : Block := (append_selected_to_block pool ledger0 8 1 empty_block).2.

Lemma append_selected_to_block_fits_witness :
  block_fits full_block /\ transactions (body full_block) = [t2; t1].
Proof.
  split; [|vm_compute; reflexivity].
  refine (proj1 (append_selected_to_block_fits pool ledger0 8 1 empty_block full_block _ _)).
  - split; [vm_compute; reflexivity|..];
      (exists (block_size empty_block); split; vm_compute; [reflexivity|discriminate]).
  - vm_compute; reflexivity.
Defined.
End SelectExamples.
