(* ===== verification/MempoolMarket.v ===== *)
(** The fee market: what the recommended rate, the clearing rate and the reported
    percentiles of [fee_market_snapshot] are. *)
From Stdlib Require Import ZArith Lia Permutation Sorted.
From stdpp Require Import base numbers option list sets.
From S2P Require Import Prelude BTree PaqusCore Toy Mempool.
Open Scope Z_scope.

(** ** Entry lists *)

Definition weight_of (entries : list (Z * Z)) : Z := foldr (fun e acc => e.2 + acc) 0 entries.
Definition sizes_ok (entries : list (Z * Z)) : Prop := Forall (fun e => 0 <= e.2) entries.
(** Highest rate first. *)
Definition rates_fall (entries : list (Z * Z)) : Prop :=
  StronglySorted (fun e1 e2 => e2.1 <= e1.1) entries.

Lemma weight_of_app l1 l2 : weight_of (l1 ++ l2) = weight_of l1 + weight_of l2.
Proof. unfold weight_of. induction l1 as [|e l1 IH]; cbn; [done|]. rewrite IH. lia. Qed.
Lemma weight_of_nonneg l : sizes_ok l -> 0 <= weight_of l.
Proof. unfold weight_of. induction 1; cbn; lia. Qed.

Lemma saturating_weight entries acc :
  sizes_ok entries -> 0 <= acc ->
  fold_left (fun total e => saturating_add USIZE_MAX total e.2) entries (Z.min acc USIZE_MAX) =
  Z.min (acc + weight_of entries) USIZE_MAX.
Proof.
  intros Hs. revert acc. induction Hs as [|[r z] l Hz Hl IH]; intros acc Hacc; cbn in *.
  { lia. }
  replace (saturating_add USIZE_MAX (Z.min acc USIZE_MAX) z) with (Z.min (acc + z) USIZE_MAX)
    by (unfold saturating_add; lia).
  rewrite IH by lia. unfold weight_of. cbn. lia.
Qed.

(** The scan stops at the entry whose weight reaches the target. *)
Lemma clearing_scan_spec entries target acc rate0 :
  sizes_ok entries -> 0 <= acc -> acc < target <= USIZE_MAX -> entries <> [] ->
  exists before rate size after,
    entries = before ++ (rate, size) :: after /\
    clearing_scan entries target acc rate0 = rate /\
    acc + weight_of before < target /\
    (after = [] \/ target <= acc + weight_of before + size).
Proof.
  intros Hs. revert acc rate0. induction Hs as [|[r z] l Hz Hl IH]; intros acc rate0 Hacc Ht Hne;
    [done|]. cbn in Hz. cbn [clearing_scan].
  destruct (Z.leb_spec target (saturating_add USIZE_MAX acc z)) as [Hle|Hgt].
  { exists [], r, z, l. cbn. split_and!; try done; [lia|]. right. unfold saturating_add in Hle. lia. }
  unfold saturating_add in *. rewrite Z.min_l in * by lia.
  destruct l as [|e l].
  { exists [], r, z, []. cbn. split_and!; [done|done|lia|by left]. }
  destruct (IH (acc + z) r ltac:(lia) ltac:(lia) ltac:(done)) as (b & r' & z' & a & Heq & Hc & Hlt & Hor).
  exists ((r, z) :: b), r', z', a.
  split_and!; [by rewrite Heq|exact Hc|cbn; fold (weight_of b); lia|].
  destruct Hor; [by left|right; cbn; fold (weight_of b); lia].
Qed.

Definition percentile_or_last (entries : list (Z * Z)) (target acc : Z) : option Z :=
  match percentile_scan entries target acc with
  | Some rate => Some rate
  | None => option_map fst (last entries)
  end.

Lemma percentile_or_last_elem entries target acc rate :
  percentile_or_last entries target acc = Some rate -> exists size, (rate, size) ∈ entries.
Proof.
  unfold percentile_or_last. revert acc. induction entries as [|[r z] l IH]; intros acc; cbn; [done|].
  destruct (_ <=? _); [intros [= <-]; exists z; by constructor|].
  destruct (percentile_scan l target _) eqn:E.
  - intros [= ->]. specialize (IH (saturating_add USIZE_MAX acc z)). rewrite E in IH.
    destruct IH as [size Hin]; [done|]. exists size. by right.
  - destruct l as [|e l]; cbn.
    + intros [= <-]. exists z. by constructor.
    + specialize (IH (saturating_add USIZE_MAX acc z)). rewrite E in IH. cbn in IH.
      intros Hl. destruct (IH Hl) as [size Hin]. exists size. by right.
Qed.

Lemma percentile_or_last_antitone entries t1 t2 acc r1 r2 :
  rates_fall entries -> t1 <= t2 ->
  percentile_or_last entries t1 acc = Some r1 -> percentile_or_last entries t2 acc = Some r2 ->
  r2 <= r1.
Proof.
  intros Hs Ht. revert acc. induction Hs as [|[r z] l Hl IH Hf]; intros acc; [done|].
  intros H1 H2. pose proof (percentile_or_last_elem _ _ _ _ H2) as [size2 Hin2].
  unfold percentile_or_last in H1. cbn [percentile_scan] in H1.
  destruct (Z.leb_spec t1 (saturating_add USIZE_MAX acc z)).
  { injection H1 as <-. apply elem_of_cons in Hin2 as [[= -> _]|Hin2]; [lia|].
    rewrite Forall_forall in Hf. by apply (Hf (r2, size2)). }
  unfold percentile_or_last in H2. cbn [percentile_scan] in H2.
  destruct (Z.leb_spec t2 (saturating_add USIZE_MAX acc z)); [lia|].
  destruct l as [|e l]; [cbn in *; naive_solver lia|].
  apply (IH (saturating_add USIZE_MAX acc z)); done.
Qed.

Definition percentile_target (total percentile : Z) : Z :=
  Z.max (saturating_add U128_MAX (saturating_mul U128_MAX total percentile) 99 / 100) 1 mod 2 ^ 64.

Lemma percentile_target_le total p1 p2 :
  0 <= total <= USIZE_MAX -> 0 <= p1 <= p2 -> p2 <= 100 ->
  percentile_target total p1 <= percentile_target total p2.
Proof.
  intros Ht H1 H2. unfold percentile_target, saturating_add, saturating_mul.
  assert (Hb : forall p, 0 <= p <= 100 ->
    Z.min (Z.min (total * p) U128_MAX + 99) U128_MAX = total * p + 99).
  { intros p Hp. unfold USIZE_MAX, U64_MAX, U128_MAX in *. nia. }
  rewrite !Hb by lia.
  assert (Hq : forall p, 0 <= p <= 100 -> 0 <= (total * p + 99) / 100 <= USIZE_MAX).
  { intros p Hp. split; [apply Z.div_pos; nia|].
    assert ((total * p + 99) / 100 < total + 1); [|lia]. apply Z.div_lt_upper_bound; nia. }
  assert (Hmono : (total * p1 + 99) / 100 <= (total * p2 + 99) / 100) by (apply Z.div_le_mono; nia).
  pose proof (Hq p1 ltac:(lia)). pose proof (Hq p2 ltac:(lia)).
  unfold USIZE_MAX, U64_MAX in *. rewrite !Z.mod_small by lia. lia.
Qed.

Lemma weighted_percentile_antitone entries p1 p2 d :
  rates_fall entries -> sizes_ok entries -> 0 <= p1 <= p2 -> p2 <= 100 ->
  unwrap_or d (weighted_percentile_rate entries p2) <=
  unwrap_or d (weighted_percentile_rate entries p1).
Proof.
  intros Hf Hs H1 H2. destruct entries as [|[r z] l]; [done|]. unfold weighted_percentile_rate.
  set (entries := (r, z) :: l) in *.
  pose proof (saturating_weight entries 0 Hs ltac:(lia)) as Ht. cbn [Z.min] in Ht.
  change (Z.min 0 USIZE_MAX) with 0 in Ht. rewrite Ht. clear Ht.
  pose proof (weight_of_nonneg entries Hs). set (total := Z.min (0 + weight_of entries) USIZE_MAX).
  assert (0 <= total <= USIZE_MAX) by (subst total; unfold USIZE_MAX, U64_MAX; lia).
  destruct (total =? 0); [done|].
  change (match percentile_scan entries _ 0 with Some _ => _ | None => _ end)
    with (percentile_or_last entries (percentile_target total p2) 0) at 1.
  change (match percentile_scan entries _ 0 with Some _ => _ | None => _ end)
    with (percentile_or_last entries (percentile_target total p1) 0) at 1.
  assert (Hsome : forall t, is_Some (percentile_or_last entries t 0)).
  { intros t. unfold percentile_or_last. destruct (percentile_scan entries t 0); [done|].
    subst entries. destruct (last ((r, z) :: l)) eqn:E; [done|]. by apply last_None in E. }
  destruct (Hsome (percentile_target total p1)) as [r1 E1].
  destruct (Hsome (percentile_target total p2)) as [r2 E2]. rewrite E1, E2. cbn.
  eapply percentile_or_last_antitone; [done| |exact E1|exact E2]. by apply percentile_target_le.
Qed.

Lemma occupancy_bounds used capacity :
  0 <= used -> 0 <= capacity -> 0 <= occupancy_bps used capacity <= 10000.
Proof.
  intros Hu Hc. unfold occupancy_bps, saturating_mul.
  destruct (Z.eqb_spec capacity 0); [lia|].
  assert (0 <= Z.min (used * 10000) U128_MAX / capacity)
    by (apply Z.div_pos; [unfold U128_MAX|]; lia).
  lia.
Qed.

Section market.
Context `{PaqusTypes} `{!TxOps} `{!BlockOps} `{!LedgerOps}.
Implicit Types (m : Mempool).

Lemma fee_entries_fall m : rates_fall (fee_entries m).
Proof.
  unfold fee_entries, rates_fall.
  eapply StronglySorted_ind with (P := StronglySorted _); [constructor| |apply sort_by_sorted].
  - intros e l _ IH Hf. constructor; [done|]. eapply Forall_impl; [exact Hf|].
    intros e2 Hle. unfold cmp, Z_Ord in Hle. cbn in Hle. destruct (Z.compare_spec e2.1 e.1); lia || done.
  - intros x y. apply cmp_total.
  - intros x y z Hxy Hyz. eapply cmp_le_trans; done.
Qed.

Lemma fee_entries_elem m rate size :
  (rate, size) ∈ fee_entries m <->
  exists tx, tx ∈ pool_transactions m /\ tx_virtual_size tx = Ok size /\
             miner_bounty_rate tx = Ok rate.
Proof.
  unfold fee_entries. rewrite elem_of_sort_by, list_elem_of_omap. split.
  - intros (tx & Hin & Hs). exists tx. split; [done|].
    destruct (tx_virtual_size tx) as [n|], (miner_bounty_rate tx) as [r|]; cbn in Hs; naive_solver.
  - intros (tx & Hin & Hs & Hr). exists tx. split; [done|]. by rewrite Hs, Hr.
Qed.

Lemma fee_entries_sizes `{!TxBounds} m : sizes_ok (fee_entries m).
Proof.
  apply Forall_forall. intros [rate size] Hin. apply fee_entries_elem in Hin as (tx & _ & Hs & _).
  by apply virtual_size_bound in Hs as [? _].
Qed.

(** the percentiles the node reports run backwards: the entries are walked from the
    highest rate down, so the "p90" rate is never above the "p75" rate, and that one never
    above the median. *)
Theorem fee_percentiles_fall `{!TxBounds} m :
  snap_p90_fee_rate (fee_market_snapshot m) <= snap_p75_fee_rate (fee_market_snapshot m) <=
  snap_median_fee_rate (fee_market_snapshot m).
Proof.
  unfold fee_market_snapshot; cbn.
  pose proof (fee_entries_fall m). pose proof (fee_entries_sizes m).
  split; apply weighted_percentile_antitone; done || lia.
Qed.

(** The rate from which on pool weight no longer fits the next block. *)
Definition is_clearing_rate (entries : list (Z * Z)) (target rate : Z) : Prop :=
  exists before size after, entries = before ++ (rate, size) :: after /\
    weight_of before < target /\ (after = [] \/ target <= weight_of before + size).

(** with a non-empty market the reported clearing rate is the rate of the transaction
    at which the pool, taken from the highest rate down, fills a block (or of its last
    transaction when everything fits); the recommended rate is at least the configured
    base, the clearing rate and the 75th reported rate, and the pressure premium at most
    multiplies the base by nine. *)
Theorem fee_market_recommendation `{!TxBounds} m :
  0 < MAX_BLOCK_WEIGHT <= USIZE_MAX ->
  is_u64 (market_fee (config m)) -> is_u64 (min_relay_fee (config m)) ->
  0 <= total_bytes m -> 0 <= max_bytes (config m) -> 0 <= max_transactions (config m) ->
  let s := fee_market_snapshot m in
  let base := Z.max (market_fee (config m)) (min_relay_fee (config m)) in
  (fee_entries m <> [] ->
   is_clearing_rate (fee_entries m) MAX_BLOCK_WEIGHT (snap_next_block_clearing_fee_rate s)) /\
  0 <= snap_pressure_bps s <= 10000 /\
  base <= snap_recommended_fee_rate s /\
  snap_next_block_clearing_fee_rate s <= snap_recommended_fee_rate s /\
  snap_p75_fee_rate s <= snap_recommended_fee_rate s /\
  snap_recommended_fee_rate s <=
    Z.max (9 * base) (Z.max (snap_next_block_clearing_fee_rate s) (snap_p75_fee_rate s)).
Proof.
  intros Hw Hmf Hmr Htb Hmb Hmt s base. subst s. unfold fee_market_snapshot; cbn. fold base.
  assert (Hp : 0 <= mempool_pressure_bps m <= 10000).
  { unfold mempool_pressure_bps. pose proof (bt_len_nonneg (mp_transactions m)).
    pose proof (occupancy_bounds (total_bytes m) (max_bytes (config m)) Htb Hmb).
    pose proof (occupancy_bounds (bt_len (mp_transactions m)) (max_transactions (config m))). lia. }
  assert (Hbase : 0 <= base) by (subst base; unfold is_u64 in *; lia).
  assert (Hprem : u64_add base (u64_mul (u64_mul base params.DYNAMIC_MARKET_FEE_MAX_MULTIPLIER)
      (mempool_pressure_bps m) / 10000) <= 9 * base).
  { unfold_int. unfold params.DYNAMIC_MARKET_FEE_MAX_MULTIPLIER.
    set (p := mempool_pressure_bps m) in *. set (x := Z.min (base * 8) U64_MAX).
    assert (Z.min (x * p) U64_MAX / 10000 <= base * 8); [|lia].
    apply Z.div_le_upper_bound; [lia|]. subst x. nia. }
  split_and!; try lia. intros Hne.
  destruct (fee_entries m) as [|[r z] l] eqn:E; [done|]. unfold weighted_clearing_rate. cbn [unwrap_or].
  pose proof (fee_entries_sizes m) as Hs. rewrite E in Hs.
  destruct (clearing_scan_spec ((r, z) :: l) MAX_BLOCK_WEIGHT 0 r Hs)
    as (b & rate & size & a & Heq & Hc & Hlt & Hor); [lia|lia|done|].
  rewrite Hc. exists b, size, a. split_and!; [done|lia|]. destruct Hor; [by left|right; lia].
Qed.
End market.

Module MarketExamples.
Import Toy.

Definition t1 : SignedProtocolTransaction := transfer alice zero_hash bob 10 500.
Definition t2 : SignedProtocolTransaction := transfer bob zero_hash alice 10 900.
Definition pool : Mempool :=
  (insert_validated ledger0 6 t2 (insert_validated ledger0 5 t1 mempool_new).2).2.

Lemma fee_percentiles_fall_witness :
  snap_p90_fee_rate (fee_market_snapshot pool) <= snap_median_fee_rate (fee_market_snapshot pool).
Proof. exact (Z.le_trans _ _ _ (proj1 (fee_percentiles_fall pool)) (proj2 (fee_percentiles_fall pool))). Defined.

Lemma fee_market_recommendation_witness :
  snap_next_block_clearing_fee_rate (fee_market_snapshot pool) <=
  snap_recommended_fee_rate (fee_market_snapshot pool).
Proof.
  refine (proj1 (proj2 (proj2 (proj2 (fee_market_recommendation pool _ _ _ _ _ _)))));
    vm_compute; try split; discriminate || reflexivity.
Defined.
End MarketExamples.
