(* ===== verification/Compact.v ===== *)
(** Compact block relay: node/src/runtime/network/compact.rs.

    A compact block carries the header, the allocations, the coinbase and one 64-bit short
    id per transaction; the receiver rebuilds the block from its mempool and from
    transactions supplied by index. *)
From Stdlib Require Import ZArith Lia.
From stdpp Require Import base numbers option strings list sets.
From S2P Require Import Prelude BTree PaqusCore Toy Mempool MempoolInv.
Open Scope Z_scope.

Section compact.
Context `{PaqusTypes} `{!TxOps} `{!BlockOps} `{!LedgerOps}.

Definition COMPACT_SHORT_ID_BYTES : nat := 8.
Definition MAX_COMPACT_MISSING_TRANSACTIONS : Z := MAX_BLOCK_DECODE_ITEMS.
Definition MAX_COMPACT_RECOVERY_TRANSACTIONS : Z := 1024.

Record CompactBlock := {
  c_header : BlockHeader;
  c_genesis_allocations : list GenesisAllocation;
  c_coinbase : option CoinbaseTransaction;
  short_ids : list Z
}.
Record IndexedBlockTransaction := {
  it_index : Z;
  it_transaction : SignedProtocolTransaction
}.
Inductive CompactBlockReconstruction :=
| Complete (b : Block)
| Missing (indexes : list Z).
Inductive CompactBlockError :=
| TooManyTransactions
| InvalidTransactionIndex
| DuplicateTransactionIndex
| ShortIdCollision
| TransactionShortIdMismatch
| CompactSerialization.
Definition show_compact_error (e : CompactBlockError) : string :=
  match e with
  | TooManyTransactions => "compact block transaction count exceeds limit"
  | InvalidTransactionIndex => "compact block transaction index is invalid"
  | DuplicateTransactionIndex => "compact block transaction index is duplicated"
  | ShortIdCollision => "compact block short transaction ID collision"
  | TransactionShortIdMismatch => "compact block transaction does not match its short ID"
  | CompactSerialization => "compact block hashing failed"
  end.

Definition compact_short_id (hash : BlockHash) (transaction_hash : TransactionHash) : Z :=
  let b := ascii_bytes "PAQUS_COMPACT_BLOCK_V1" ++ hash ++ transaction_hash in
  from_le_bytes (take COMPACT_SHORT_ID_BYTES (domain_hash_raw b)).

#[local] Arguments compact_short_id : simpl never.

(** [iter().copied().collect::<BTreeSet<_>>()] *)
Definition id_set (ids : list Z) : BTreeSet Z := fold_left (fun s i => <[i := tt]> s) ids ∅.

Definition from_block (b : Block) : Result CompactBlockError CompactBlock :=
  if MAX_BLOCK_DECODE_ITEMS <? zlen (block_transactions b) then Err TooManyTransactions else
  hash ← map_err (fun _ => CompactSerialization) (block_hash b);
  ids ← collect_result (fun tx =>
      h ← map_err (fun _ => CompactSerialization) (tx_hash tx); Ok (compact_short_id hash h))
    (block_transactions b);
  if negb (bt_len (id_set ids) =? zlen ids) then Err ShortIdCollision else
  Ok {| c_header := header b; c_genesis_allocations := block_genesis_allocations b;
        c_coinbase := block_coinbase b; short_ids := ids |}.

Definition compact_block_hash (c : CompactBlock) : Result CompactBlockError BlockHash :=
  map_err (fun _ => CompactSerialization) (header_hash (c_header c)).

(** The loop over [supplied]. *)
Fixpoint index_supplied (hash : BlockHash) (ids : list Z)
    (supplied : list IndexedBlockTransaction) (by_index : BTreeMap Z SignedProtocolTransaction)
    : Result CompactBlockError (BTreeMap Z SignedProtocolTransaction) :=
  match supplied with
  | [] => Ok by_index
  | item :: supplied =>
      expected ← ok_or (ids !! Z.to_nat (it_index item)) InvalidTransactionIndex;
      h ← map_err (fun _ => CompactSerialization) (tx_hash (it_transaction item));
      if negb (compact_short_id hash h =? expected) then Err TransactionShortIdMismatch else
      if bt_contains (it_index item) by_index then Err DuplicateTransactionIndex else
      index_supplied hash ids supplied (<[it_index item := it_transaction item]> by_index)
  end.

(** The loop over the mempool, keeping only wanted ids. *)
Fixpoint index_mempool (hash : BlockHash) (wanted : BTreeSet Z)
    (txs : list SignedProtocolTransaction) (by_id : BTreeMap Z SignedProtocolTransaction)
    : Result CompactBlockError (BTreeMap Z SignedProtocolTransaction) :=
  match txs with
  | [] => Ok by_id
  | tx :: txs =>
      h ← map_err (fun _ => CompactSerialization) (tx_hash tx);
      let short_id := compact_short_id hash h in
      if negb (bt_contains short_id wanted) then index_mempool hash wanted txs by_id else
      if bt_contains short_id by_id then Err ShortIdCollision else
      index_mempool hash wanted txs (<[short_id := tx]> by_id)
  end.

(** The loop over [short_ids.iter().enumerate()]: transactions found and indexes missing. *)
Fixpoint assemble (index : Z) (ids : list Z)
    (supplied_by_index by_id : BTreeMap Z SignedProtocolTransaction)
    : list SignedProtocolTransaction * list Z :=
  match ids with
  | [] => ([], [])
  | short_id :: ids =>
      let '(txs, missing) := assemble (index + 1) ids (delete index supplied_by_index) by_id in
      match supplied_by_index !! index with
      | Some tx => (tx :: txs, missing)
      | None =>
          match by_id !! short_id with
          | Some tx => (tx :: txs, missing)
          | None => (txs, index mod 2 ^ 32 :: missing)
          end
      end
  end.

Definition reconstruct (c : CompactBlock) (m : Mempool) (supplied : list IndexedBlockTransaction)
    : Result CompactBlockError CompactBlockReconstruction :=
  if (MAX_BLOCK_DECODE_ITEMS <? zlen (short_ids c))
     || (MAX_COMPACT_MISSING_TRANSACTIONS <? zlen supplied)
  then Err TooManyTransactions else
  if negb (bt_len (id_set (short_ids c)) =? zlen (short_ids c)) then Err ShortIdCollision else
  hash ← compact_block_hash c;
  supplied_by_index ← index_supplied hash (short_ids c) supplied ∅;
  by_id ← index_mempool hash (id_set (short_ids c)) (pool_transactions m) ∅;
  let '(txs, missing) := assemble 0 (short_ids c) supplied_by_index by_id in
  match missing with
  | [] =>
      Ok (Complete {|
        header := c_header c;
        body := {| genesis_allocations := c_genesis_allocations c; coinbase := c_coinbase c;
                   transactions := txs |};
        proof := BlockProof_new 0 |})
  | _ => Ok (Missing missing)
  end.

(** ** What reconstruction yields *)

(** [tx] is announced by [id] in the block with this hash. *)
Definition announced (hash : BlockHash) (tx : SignedProtocolTransaction) (id : Z) : Prop :=
  exists h, tx_hash tx = Ok h /\ compact_short_id hash h = id.

Lemma id_set_contains ids id : bt_contains id (id_set ids) = true <-> id ∈ ids.
Proof.
  unfold id_set. assert (Hgen : forall s : BTreeSet Z,
    bt_contains id (fold_left (fun s i => <[i := tt]> s) ids s) = true <->
    id ∈ ids \/ bt_contains id s = true); [|rewrite Hgen; set_solver].
  induction ids as [|i ids IH]; intros s; cbn; [set_solver|].
  rewrite IH, !bt_contains_true, bt_lookup_insert, elem_of_cons.
  case_decide; subst; [|naive_solver].
  split; intros _; [by left; left|right; by eexists].
Qed.

Lemma index_supplied_ok hash ids supplied acc out :
  index_supplied hash ids supplied acc = Ok out ->
  (forall i tx, acc !! i = Some tx -> exists id, ids !! Z.to_nat i = Some id /\ announced hash tx id) ->
  forall i tx, out !! i = Some tx -> exists id, ids !! Z.to_nat i = Some id /\ announced hash tx id.
Proof.
  revert acc. induction supplied as [|item supplied IH]; intros acc; cbn.
  { by intros [= ->]. }
  rewrite bind_Ok. intros (expected & Hexp & Hrun) Hacc. apply ok_or_Ok in Hexp.
  apply bind_Ok in Hrun as (h & Hh & Hrun). apply map_err_Ok in Hh.
  destruct (Z.eqb_spec (compact_short_id hash h) expected) as [Heq|]; [|done]. cbn in Hrun.
  destruct (bt_contains _ acc); [done|]. apply (IH _ Hrun).
  intros i tx. rewrite bt_lookup_insert. case_decide; [|apply Hacc].
  intros [= <-]. subst. exists (compact_short_id hash h). split; [done|]. by exists h.
Qed.

Lemma index_mempool_ok hash wanted txs acc out :
  index_mempool hash wanted txs acc = Ok out ->
  (forall id tx, acc !! id = Some tx -> announced hash tx id) ->
  forall id tx, out !! id = Some tx -> announced hash tx id.
Proof.
  revert acc. induction txs as [|tx0 txs IH]; intros acc; cbn; [by intros [= ->]|].
  rewrite bind_Ok. intros (h & Hh & Hrun) Hacc. apply map_err_Ok in Hh.
  destruct (bt_contains _ wanted); cbn in Hrun; [|by apply (IH _ Hrun)].
  destruct (bt_contains _ acc); [done|]. apply (IH _ Hrun).
  intros id tx. rewrite bt_lookup_insert. case_decide; [|apply Hacc].
  intros [= <-]. by exists h.
Qed.

Lemma assemble_ok hash index ids sup by_id txs :
  assemble index ids sup by_id = (txs, []) ->
  (forall (j : nat) id tx, ids !! j = Some id -> sup !! (index + Z.of_nat j) = Some tx ->
     announced hash tx id) ->
  (forall id tx, by_id !! id = Some tx -> announced hash tx id) ->
  Forall2 (announced hash) txs ids.
Proof.
  revert index sup txs. induction ids as [|id ids IH]; intros index sup txs; cbn.
  { intros [= <-] _ _. constructor. }
  intros Hrun Hsup Hid. destruct (assemble (index + 1) ids _ by_id) as [txs' missing] eqn:E.
  assert (Hrest : missing = [] -> Forall2 (announced hash) txs' ids).
  { intros ->. apply (IH _ _ _ E); [|done]. intros j id' tx Hj Hl.
    rewrite bt_lookup_delete_ne in Hl by lia.
    apply (Hsup (S j) id' tx); [done|]. by replace (index + Z.of_nat (S j)) with (index + 1 + Z.of_nat j) by lia. }
  destruct (sup !! index) as [tx|] eqn:Es.
  { injection Hrun as <- ->. constructor; [|by apply Hrest].
    apply (Hsup 0%nat id tx); [done|]. by rewrite Z.add_0_r. }
  destruct (by_id !! id) as [tx|] eqn:Ei; [|done].
  injection Hrun as <- ->. constructor; [by apply Hid|by apply Hrest].
Qed.

(** whatever the mempool holds and whatever a peer supplies, a completed block has the
    announced header, allocations and coinbase, and its transactions carry the announced
    short ids, in order; its proof is always the zero-nonce proof. *)
Theorem reconstruct_sound (c : CompactBlock) (m : Mempool) supplied (b : Block) :
  reconstruct c m supplied = Ok (Complete b) ->
  header b = c_header c /\ genesis_allocations (body b) = c_genesis_allocations c /\
  coinbase (body b) = c_coinbase c /\ proof b = BlockProof_new 0 /\
  exists hash, header_hash (c_header c) = Ok hash /\
    Forall2 (announced hash) (transactions (body b)) (short_ids c).
Proof.
  unfold reconstruct. destruct (_ || _); [done|]. destruct (negb _); [done|].
  rewrite bind_Ok. intros (hash & Hhash & Hrun). apply map_err_Ok in Hhash.
  apply bind_Ok in Hrun as (sup & Hsup & Hrun). apply bind_Ok in Hrun as (by_id & Hid & Hrun).
  destruct (assemble _ _ _ _) as [txs [|i missing]] eqn:E; [|done]. injection Hrun as <-.
  split_and!; try done. exists hash. split; [done|]. cbn.
  apply (assemble_ok _ _ _ _ _ _ E).
  - intros j id tx Hj Hl.
    destruct (index_supplied_ok _ _ _ _ _ Hsup ltac:(done) _ _ Hl) as (id' & Hj' & Ha).
    rewrite Z.add_0_l, Nat2Z.id in Hj'. naive_solver.
  - apply (index_mempool_ok _ _ _ _ _ Hid). done.
Qed.
End compact.

(** ** The relay of one block *)

Section relay.
Context `{PaqusTypes} `{!TxOps} `{!BlockOps} `{!LedgerOps} `{!BlockLaws}.
Implicit Types (tx : SignedProtocolTransaction).
#[local] Arguments compact_short_id : simpl never.

(** The block a receiver rebuilds: everything but the proof. *)
Definition zero_nonce (b : Block) : Block :=
  {| header := header b; body := body b; proof := BlockProof_new 0 |}.

(** The indexes of the transactions a pool lacks. *)
Fixpoint absent_from (index : Z) (txs pool : list SignedProtocolTransaction) : list Z :=
  match txs with
  | [] => []
  | tx :: txs =>
      if decide (tx ∈ pool) then absent_from (index + 1) txs pool
      else index :: absent_from (index + 1) txs pool
  end.

(** What the holder of the block answers to [GetCompactBlockTransactions]. *)
Definition answer (b : Block) (indexes : list Z) : list IndexedBlockTransaction :=
  omap (fun i => option_map (fun tx => {| it_index := i; it_transaction := tx |})
    (block_transactions b !! Z.to_nat i)) indexes.

(** A pool transaction with a block transaction's short id is that transaction. *)
Definition no_collision (hash : BlockHash) (pool txs : list SignedProtocolTransaction) : Prop :=
  forall tx tx' id, tx ∈ pool -> tx' ∈ txs ->
    announced hash tx id -> announced hash tx' id -> tx = tx'.

Lemma absent_from_elem index txs pool i :
  i ∈ absent_from index txs pool <->
  exists (j : nat) tx, i = index + Z.of_nat j /\ txs !! j = Some tx /\ tx ∉ pool.
Proof.
  revert index. induction txs as [|tx txs IH]; intros index; cbn.
  { split; [set_solver|]. intros (j & tx & _ & Hj & _). by destruct j. }
  assert (Hsplit : (exists (j : nat) tx', i = index + Z.of_nat j /\ (tx :: txs) !! j = Some tx' /\ tx' ∉ pool)
    <-> (i = index /\ tx ∉ pool) \/ i ∈ absent_from (index + 1) txs pool).
  { rewrite IH. split.
    - intros ([|j] & tx' & -> & Hj & Hn).
      + injection Hj as <-. left. split; [lia|done].
      + right. exists j, tx'. split; [lia|done].
    - intros [[-> Hn]|(j & tx' & -> & Hj & Hn)].
      + exists 0%nat, tx. split; [lia|done].
      + exists (S j), tx'. split; [lia|done]. }
  rewrite Hsplit. case_decide; [naive_solver|]. rewrite elem_of_cons. naive_solver.
Qed.

Lemma absent_from_NoDup index txs pool : NoDup (absent_from index txs pool).
Proof.
  revert index. induction txs as [|tx txs IH]; intros index; cbn; [constructor|].
  case_decide; [apply IH|]. constructor; [|apply IH].
  rewrite absent_from_elem. intros (j & tx' & ? & _). lia.
Qed.

(** The pool pass finds exactly the wanted pool transactions. *)
Lemma index_mempool_total hash ids pool acc :
  NoDup pool -> Forall (fun tx => exists h, tx_hash tx = Ok h) pool ->
  (forall tx tx' id, tx ∈ pool -> tx' ∈ pool -> id ∈ ids ->
     announced hash tx id -> announced hash tx' id -> tx = tx') ->
  (forall tx id, tx ∈ pool -> announced hash tx id -> id ∈ ids -> acc !! id = None) ->
  exists out, index_mempool hash (id_set ids) pool acc = Ok out /\
    forall id tx, out !! id = Some tx <->
      acc !! id = Some tx \/ (tx ∈ pool /\ announced hash tx id /\ id ∈ ids).
Proof.
  revert acc. induction pool as [|tx0 pool IH]; intros acc Hnd Hh Huniq Hacc; cbn.
  { exists acc. split; [done|]. intros id tx. set_solver. }
  apply NoDup_cons in Hnd as [Hnotin Hnd]. apply Forall_cons in Hh as [[h Hh0] Hh].
  rewrite Hh0. cbn. assert (Ha0 : announced hash tx0 (compact_short_id hash h)) by by exists h.
  assert (Hfun : forall id, announced hash tx0 id -> id = compact_short_id hash h).
  { intros id (h' & Hh' & <-). congruence. }
  destruct (bt_contains _ (id_set ids)) eqn:Hw; cbn.
  - apply id_set_contains in Hw. pose proof (Hacc tx0 _ ltac:(by left) Ha0 Hw) as Hnone.
    apply bt_contains_false in Hnone as Hc. rewrite Hc.
    destruct (IH (<[compact_short_id hash h := tx0]> acc)) as (out & Hout & Hspec); [done|done| | |].
    + intros tx tx' id Hin Hin'. apply Huniq; by right.
    + intros tx id Hin Ha Hid. rewrite bt_lookup_insert_ne; [apply (Hacc tx); [by right|done..]|].
      intros <-. apply Hnotin. by rewrite (Huniq tx0 tx (compact_short_id hash h)); [|left|right|..].
    + exists out. split; [done|]. intros id tx. rewrite Hspec, bt_lookup_insert. case_decide as Hd.
      * subst id. rewrite Hnone. split.
        -- intros [[= <-]|(? & ? & ?)]; [|naive_solver set_solver]. right. split; [by left|done].
        -- intros [[=]|(Hin & Ha & Hid)]. left. f_equal. symmetry.
           apply (Huniq tx tx0 (compact_short_id hash h)); [done|by left|done..].
      * rewrite elem_of_cons. split; [naive_solver|].
        intros [?|([->|?] & Ha & ?)]; [by left| |by right]. by apply Hfun in Ha.
  - assert (Hnw : compact_short_id hash h ∉ ids).
    { intros Hin. apply id_set_contains in Hin. congruence. }
    destruct (IH acc Hnd Hh) as (out & Hout & Hspec).
    + intros tx tx' id Hin Hin'. apply Huniq; by right.
    + intros tx id Hin. apply Hacc. by right.
    + exists out. split; [done|]. intros id tx. rewrite Hspec, elem_of_cons. split; [naive_solver|].
      intros [?|([->|?] & Ha & Hid)]; [by left| |by right]. apply Hfun in Ha as ->. done.
Qed.

(** Supplying listed transactions at fresh, matching indexes succeeds. *)
Lemma index_supplied_total hash ids items acc :
  NoDup (it_index <$> items) ->
  Forall (fun it => exists id, ids !! Z.to_nat (it_index it) = Some id /\
                               announced hash (it_transaction it) id) items ->
  Forall (fun it => acc !! it_index it = None) items ->
  exists out, index_supplied hash ids items acc = Ok out /\
    forall i tx, out !! i = Some tx <->
      acc !! i = Some tx \/ {| it_index := i; it_transaction := tx |} ∈ items.
Proof.
  revert acc. induction items as [|it items IH]; intros acc Hnd Hok Hfresh; cbn.
  { exists acc. split; [done|]. set_solver. }
  cbn in Hnd. apply NoDup_cons in Hnd as [Hnotin Hnd].
  apply Forall_cons in Hok as [(id & Hid & h & Hh & Hsid) Hok].
  apply Forall_cons in Hfresh as [Hf0 Hfresh].
  rewrite Hid. cbn. rewrite Hh. cbn. rewrite Hsid, Z.eqb_refl. cbn.
  apply bt_contains_false in Hf0 as Hc. rewrite Hc.
  destruct (IH (<[it_index it := it_transaction it]> acc) Hnd Hok) as (out & Hout & Hspec).
  { rewrite Forall_forall in *. intros x Hx. rewrite bt_lookup_insert_ne; [by apply Hfresh|].
    intros E. apply Hnotin. rewrite E. by apply list_elem_of_fmap_2. }
  exists out. split; [done|]. intros i tx. rewrite Hspec, bt_lookup_insert, elem_of_cons.
  destruct it as [i0 tx0]; cbn in *. case_decide as Hd.
  - subst i0. rewrite Hf0. split; [naive_solver|]. intros [[=]|[[= ->]|Hin]]; [by left|].
    exfalso. apply Hnotin. by apply (list_elem_of_fmap_2 it_index) in Hin.
  - naive_solver.
Qed.

(** With every transaction at hand, assembly yields them all. *)
Lemma assemble_total index ids sup by_id txs :
  length txs = length ids ->
  (forall (j : nat) id tx, ids !! j = Some id -> txs !! j = Some tx ->
     sup !! (index + Z.of_nat j) = Some tx \/
     (sup !! (index + Z.of_nat j) = None /\ by_id !! id = Some tx)) ->
  assemble index ids sup by_id = (txs, []).
Proof.
  revert index sup txs. induction ids as [|id ids IH]; intros index sup txs Hlen Hall.
  { by destruct txs. }
  destruct txs as [|tx txs]; [done|]. cbn.
  rewrite (IH (index + 1) (delete index sup) txs); [|cbn in Hlen; lia|].
  2:{ intros j id' tx' Hj Hj'. rewrite bt_lookup_delete_ne by lia.
      specialize (Hall (S j) id' tx' Hj Hj').
      by replace (index + 1 + Z.of_nat j) with (index + Z.of_nat (S j)) by lia. }
  specialize (Hall 0%nat id tx eq_refl eq_refl). rewrite Z.add_0_r in Hall.
  destruct Hall as [->|[-> ->]]; done.
Qed.

(** With nothing supplied, assembly reports the absent indexes. *)
Lemma assemble_missing index ids by_id txs pool :
  length txs = length ids -> 0 <= index -> index + zlen txs <= 2 ^ 32 ->
  (forall (j : nat) id tx, ids !! j = Some id -> txs !! j = Some tx ->
     by_id !! id = if decide (tx ∈ pool) then Some tx else None) ->
  (assemble index ids ∅ by_id).2 = absent_from index txs pool /\
  (absent_from index txs pool = [] -> (assemble index ids ∅ by_id).1 = txs).
Proof.
  revert index txs. induction ids as [|id ids IH]; intros index txs Hlen Hpos Hlt Hall.
  { by destruct txs. }
  destruct txs as [|tx txs]; [done|]. cbn. cbn in Hlen.
  change (delete index ∅) with (∅ : BTreeMap Z SignedProtocolTransaction).
  destruct (IH (index + 1) txs) as [IH1 IH2]; [lia|lia|unfold zlen in *; cbn in *; lia|..].
  { intros j id' tx' Hj Hj'. by apply (Hall (S j)). }
  specialize (Hall 0%nat id tx eq_refl eq_refl).
  destruct (assemble (index + 1) ids ∅ by_id) as [txs' missing]; cbn in *.
  rewrite bt_lookup_empty, Hall. case_decide; cbn; [|split; [|done]].
  - split; [done|]. intros Hnil. by rewrite IH2.
  - rewrite IH1. f_equal. apply Z.mod_small. unfold zlen in Hlt. cbn in Hlt. lia.
Qed.

Lemma from_block_inv (b : Block) (c : CompactBlock) hash :
  from_block b = Ok c -> block_hash b = Ok hash ->
  zlen (block_transactions b) <= MAX_BLOCK_DECODE_ITEMS /\
  Forall2 (announced hash) (block_transactions b) (short_ids c) /\
  bt_len (id_set (short_ids c)) = zlen (short_ids c) /\
  c = {| c_header := header b; c_genesis_allocations := genesis_allocations (body b);
         c_coinbase := coinbase (body b); short_ids := short_ids c |}.
Proof.
  unfold from_block. intros Hrun Hhash.
  destruct (Z.ltb_spec MAX_BLOCK_DECODE_ITEMS (zlen (block_transactions b))); [done|].
  rewrite Hhash in Hrun. cbn in Hrun. apply bind_Ok in Hrun as (ids & Hids & Hrun).
  destruct (Z.eqb_spec (bt_len (id_set ids)) (zlen ids)); [|done]. injection Hrun as <-. cbn.
  split_and!; [done| |done|by rewrite block_allocations_body, block_coinbase_body].
  apply collect_result_Ok in Hids. eapply Forall2_impl; [exact Hids|].
  intros tx id Hid. apply bind_Ok in Hid as (h & Hh & [= <-]). apply map_err_Ok in Hh. by exists h.
Qed.

Lemma pool_NoDup (m : Mempool) : mempool_wf m -> NoDup (pool_transactions m).
Proof.
  intros Hwf. apply (NoDup_fmap_1 (fun tx => result_ok (tx_hash tx))).
  replace ((fun tx => result_ok (tx_hash tx)) <$> pool_transactions m)
    with (Some <$> bt_keys (mp_transactions m)).
  - apply NoDup_fmap_2; [apply _|]. by apply bt_keys_NoDup, wf_txs.
  - unfold pool_transactions, bt_values, bt_keys. rewrite <- !list_fmap_compose.
    apply list_fmap_ext. intros j [h tx] Hj. cbn.
    apply list_elem_of_lookup_2, bt_elem_lookup in Hj; [|by apply wf_txs].
    by rewrite (proj1 (wf_entry m Hwf h tx Hj)).
Qed.
Lemma pool_hashes (m : Mempool) :
  mempool_wf m -> Forall (fun tx => exists h, tx_hash tx = Ok h) (pool_transactions m).
Proof.
  intros Hwf. apply Forall_forall. intros tx Hin.
  apply bt_elem_values in Hin as [h Hh]; [|by apply wf_txs]. exists h. by apply (wf_entry m Hwf).
Qed.

(** The pool index of a receiver, for the ids of a relayed block. *)
Lemma relay_pool_index (m : Mempool) hash txs ids :
  mempool_wf m -> Forall2 (announced hash) txs ids -> no_collision hash (pool_transactions m) txs ->
  exists by_id, index_mempool hash (id_set ids) (pool_transactions m) ∅ = Ok by_id /\
    forall (j : nat) id tx, ids !! j = Some id -> txs !! j = Some tx ->
      by_id !! id = if decide (tx ∈ pool_transactions m) then Some tx else None.
Proof.
  intros Hwf Hids Hcol.
  assert (Htx : forall id, id ∈ ids -> exists tx, tx ∈ txs /\ announced hash tx id).
  { intros id Hin. apply list_elem_of_lookup in Hin as [j Hj].
    destruct (Forall2_lookup_r _ _ _ _ _ Hids Hj) as (tx & Htx & Ha).
    exists tx. split; [by eapply list_elem_of_lookup_2|done]. }
  destruct (index_mempool_total hash ids (pool_transactions m) ∅) as (by_id & Hrun & Hspec);
    [by apply pool_NoDup|by apply pool_hashes| |done|].
  { intros tx tx' id Hin Hin' Hid Ha Ha'. destruct (Htx id Hid) as (tx0 & Hin0 & Ha0).
    transitivity tx0; [|symmetry]; by eapply Hcol. }
  exists by_id. split; [done|]. intros j id tx Hj Hj'.
  pose proof (Forall2_lookup_lr _ _ _ _ _ _ Hids Hj' Hj) as Ha.
  assert (Hid : id ∈ ids) by by eapply list_elem_of_lookup_2.
  case_decide as Hin; [apply Hspec; by right|].
  destruct (by_id !! id) as [tx'|] eqn:E; [|done]. apply Hspec in E as [[=]|(Hin' & Ha' & _)].
  exfalso. apply Hin. rewrite <- (Hcol tx' tx id); try done. by eapply list_elem_of_lookup_2.
Qed.

Lemma answer_elem (b : Block) indexes i tx :
  {| it_index := i; it_transaction := tx |} ∈ answer b indexes <->
  i ∈ indexes /\ block_transactions b !! Z.to_nat i = Some tx.
Proof.
  unfold answer. rewrite list_elem_of_omap. split.
  - intros (i' & Hin & Hs). destruct (block_transactions b !! Z.to_nat i') eqn:E; naive_solver.
  - intros [Hin Hs]. exists i. split; [done|]. by rewrite Hs.
Qed.

Lemma answer_indexes (b : Block) indexes :
  NoDup indexes -> NoDup (it_index <$> answer b indexes) /\ zlen (answer b indexes) <= zlen indexes.
Proof.
  assert (Hsub : it_index <$> answer b indexes `sublist_of` indexes).
  { unfold answer. induction indexes as [|i indexes IH]; cbn; [constructor|].
    destruct (block_transactions b !! Z.to_nat i); cbn; by constructor. }
  intros Hnd. split.
  - by eapply sublist_NoDup.
  - apply sublist_length in Hsub. rewrite length_fmap in Hsub. unfold zlen. lia.
Qed.

Lemma absent_from_length index txs pool : zlen (absent_from index txs pool) <= zlen txs.
Proof.
  unfold zlen. revert index. induction txs as [|tx txs IH]; intros index; cbn; [lia|].
  specialize (IH (index + 1)). case_decide; cbn; lia.
Qed.

(** The holder's answer for the absent indexes is accepted. *)
Lemma relay_answer_index (b : Block) hash ids pool :
  Forall2 (announced hash) (block_transactions b) ids ->
  exists sup, index_supplied hash ids (answer b (absent_from 0 (block_transactions b) pool)) ∅ = Ok sup /\
    forall (j : nat) tx, block_transactions b !! j = Some tx ->
      sup !! Z.of_nat j = if decide (tx ∈ pool) then None else Some tx.
Proof.
  intros Hids. set (idx := absent_from 0 (block_transactions b) pool).
  destruct (index_supplied_total hash ids (answer b idx) ∅) as (sup & Hrun & Hspec).
  - apply answer_indexes, absent_from_NoDup.
  - apply Forall_forall. intros [i tx] Hin. apply answer_elem in Hin as [_ Hl]. cbn.
    by apply (Forall2_lookup_l _ _ _ _ _ Hids).
  - by apply Forall_forall.
  - exists sup. split; [done|]. intros j tx Hj. case_decide as Hin.
    + destruct (sup !! Z.of_nat j) as [tx'|] eqn:E; [|done].
      apply Hspec in E as [[=]|E]. apply answer_elem in E as [E _].
      apply absent_from_elem in E as (j' & tx1 & Hj' & Hl & Hn).
      replace j' with j in Hl by lia. naive_solver.
    + apply Hspec. right. apply answer_elem. rewrite Nat2Z.id. split; [|done].
      apply absent_from_elem. by exists j, tx.
Qed.

(** Relaying a block needs at most one more round trip. From the compact form of [b], a
    receiver first obtains exactly the indexes of the transactions its pool lacks (or, when
    none is lacking, the block); given the holder's answer for those indexes it rebuilds the
    block's header and body. The proof of work is not transmitted: the rebuilt block always
    has nonce 0. *)
Lemma compact_relay (b : Block) (c : CompactBlock) (m : Mempool) (hash : BlockHash) :
  from_block b = Ok c -> block_hash b = Ok hash -> mempool_wf m ->
  MAX_BLOCK_DECODE_ITEMS <= 2 ^ 32 ->
  no_collision hash (pool_transactions m) (block_transactions b) ->
  let absent := absent_from 0 (block_transactions b) (pool_transactions m) in
  reconstruct c m [] =
    Ok (match absent with [] => Complete (zero_nonce b) | _ => Missing absent end) /\
  reconstruct c m (answer b absent) = Ok (Complete (zero_nonce b)).
Proof.
  intros Hfrom Hhash Hwf Hmax Hcol absent.
  destruct (from_block_inv b c hash Hfrom Hhash) as (Hlen & Hids & Hset & Hc).
  subst absent. rewrite block_transactions_body in *.
  destruct (relay_pool_index m hash _ _ Hwf Hids Hcol) as (by_id & Hidx & Hby).
  assert (Hlen2 : length (transactions (body b)) = length (short_ids c))
    by by eapply Forall2_length.
  destruct (relay_answer_index b hash (short_ids c) (pool_transactions m)) as (sup & Hsup & Hget);
    [by rewrite block_transactions_body|]. rewrite block_transactions_body in Hsup, Hget.
  set (absent := absent_from 0 _ _) in *.
  assert (Hpre : forall supplied, zlen supplied <= MAX_BLOCK_DECODE_ITEMS ->
    reconstruct c m supplied =
    (sup ← index_supplied hash (short_ids c) supplied ∅;
     let '(txs, missing) := assemble 0 (short_ids c) sup by_id in
     match missing with
     | [] => Ok (Complete {| header := header b;
          body := {| genesis_allocations := genesis_allocations (body b);
                     coinbase := coinbase (body b); transactions := txs |};
          proof := BlockProof_new 0 |})
     | _ => Ok (Missing missing)
     end)).
  { intros supplied Hs. unfold reconstruct, compact_block_hash, MAX_COMPACT_MISSING_TRANSACTIONS.
    destruct (Z.ltb_spec MAX_BLOCK_DECODE_ITEMS (zlen (short_ids c)));
      [unfold zlen in *; lia|].
    destruct (Z.ltb_spec MAX_BLOCK_DECODE_ITEMS (zlen supplied)); [lia|]. cbn [orb].
    rewrite Hset, Z.eqb_refl. cbn [negb]. rewrite Hc at 1. cbn [c_header].
    rewrite <- block_hash_header, Hhash. cbn [map_err mbind result_bind].
    destruct (index_supplied _ _ _ _); [|done]. cbn. rewrite Hidx. cbn. by rewrite Hc. }
  split.
  - rewrite Hpre by (unfold zlen in *; cbn; lia). cbn [index_supplied]. cbn.
    destruct (assemble_missing 0 (short_ids c) by_id (transactions (body b)) (pool_transactions m))
      as [Hm1 Hm2]; [done|lia|unfold zlen in *; lia|done|].
    destruct (assemble 0 _ ∅ by_id) as [txs missing]; cbn in Hm1, Hm2. subst missing.
    fold absent in Hm2 |- *. clearbody absent. destruct absent; [|done]. rewrite Hm2 by done.
    unfold zero_nonce. by destruct (body b).
  - rewrite Hpre.
    2:{ pose proof (answer_indexes b absent (absent_from_NoDup _ _ _)) as [_ ?].
        pose proof (absent_from_length 0 (transactions (body b)) (pool_transactions m)) as Hal.
        fold absent in Hal. lia. }
    rewrite Hsup. cbn. rewrite (assemble_total _ _ _ _ (transactions (body b))); [|done|].
    + unfold zero_nonce. by destruct (body b).
    + intros j id tx Hj Hj'. rewrite Z.add_0_l, (Hget j tx Hj').
      pose proof (Hby j id tx Hj Hj') as Hb. case_decide; [by right|by left].
Qed.
End relay.

Module CompactExamples.
Import Toy.

Definition t1 : SignedProtocolTransaction := transfer alice zero_hash bob 10 100.
Definition t2 : SignedProtocolTransaction := transfer bob zero_hash alice 10 900.
(** The receiver knows the first transaction of the block only; the block has nonce 42. *)
Definition pool : Mempool := (insert_validated ledger0 5 t1 mempool_new).2.
Definition mined : Block := block_set_nonce 42 (next_block ledger0 [t1; t2]).
Definition compact : CompactBlock :=
  match from_block mined with
  | Ok c => c
  | Err _ => {| c_header := header mined; c_genesis_allocations := []; c_coinbase := None;
                short_ids := [] |}
  end.
Definition mined_hash : BlockHash := hash32 (ser (header mined : Header)).

Lemma reconstruct_sound_witness :
  reconstruct compact pool (answer mined [1]) = Ok (Complete (zero_nonce mined)) /\
  header (zero_nonce mined) = c_header compact.
Proof.
  assert (Hr : reconstruct compact pool (answer mined [1]) = Ok (Complete (zero_nonce mined)))
    by (vm_compute; reflexivity).
  split; [exact Hr|]. exact (proj1 (reconstruct_sound compact pool _ _ Hr)).
Defined.

Lemma pool_is : pool_transactions pool = [t1].
Proof. vm_compute. reflexivity. Qed.
Lemma mined_is : block_transactions mined = [t1; t2].
Proof. vm_compute. reflexivity. Qed.
Lemma ids_differ : ~ (exists id, announced mined_hash t1 id /\ announced mined_hash t2 id).
Proof.
  intros (id & (h1 & [= <-] & Hid1) & (h2 & [= <-] & Hid2)). rewrite <- Hid1 in Hid2.
  revert Hid2. vm_compute. discriminate.
Qed.

Lemma no_collisions : no_collision mined_hash (pool_transactions pool) (block_transactions mined).
Proof.
  rewrite pool_is, mined_is. intros tx tx' id Hin Hin' H1 H2.
  apply list_elem_of_singleton in Hin as ->.
  apply elem_of_cons in Hin' as [->|Hin']; [reflexivity|].
  apply list_elem_of_singleton in Hin' as ->.
  exfalso. exact (ids_differ (ex_intro _ id (conj H1 H2))).
Qed.
End CompactExamples.
