(* ===== verification/Snapshot.v ===== *)
(** Snapshot transfer: node/src/snapshot.rs.

    The run-length coding of snapshot chunks and the fast-sync bundle. Messages of
    [Err(String)] are kept as strings. Writing and renaming the database directory
    ([export_to_file], [import_file_atomic]) is file I/O and not modelled. *)
From Stdlib Require Import ZArith Lia.
From stdpp Require Import base numbers option strings list.
From S2P Require Import Prelude BTree PaqusCore Toy.
Open Scope Z_scope.

Inductive SnapshotCompression := CompressionNone | Rle.

(** handler.rs *)
Definition SNAPSHOT_CHUNK_SIZE : Z := 4 * 1024 * 1024.
Definition FAST_SYNC_BUNDLE_VERSION : Z := 1.
Definition MAX_FAST_SYNC_BUNDLE_SIZE : Z := 300 * 1024 * 1024.

(** The inner [while]: extends the run of [value], [count] long so far. *)
Fixpoint scan_run (value count : Z) (rest : list Z) : Z * list Z :=
  match rest with
  | b :: rest' =>
      if (b =? value) && (count <? 255) then scan_run value (count + 1) rest' else (count, rest)
  | [] => (count, rest)
  end.

(** The outer [while]: every turn consumes at least one byte. *)
Fixpoint rle_loop (fuel : nat) (remaining : list Z) : list Z :=
  match remaining with
  | [] => []
  | value :: rest =>
      let '(count, rest') := scan_run value 1 rest in
      count mod 256 :: value ::
        match fuel with O => [] | S fuel => rle_loop fuel rest' end
  end.

Definition compress_chunk (b : list Z) : SnapshotCompression * list Z :=
  let encoded := rle_loop (length b) b in
  if zlen encoded <? zlen b then (Rle, encoded) else (CompressionNone, b).

(** The [for pair in bytes.chunks_exact(2)]. *)
Fixpoint expand_pairs (b decoded : list Z) (expected_length : Z) : Result string (list Z) :=
  match b with
  | count :: value :: b =>
      if (count =? 0)
         || (expected_length <? saturating_add USIZE_MAX (zlen decoded) count)
      then Err "invalid RLE snapshot expansion"%string
      else expand_pairs b (decoded ++ replicate (Z.to_nat count) value) expected_length
  | _ => Ok decoded
  end.

Definition decompress_chunk (compression : SnapshotCompression) (b : list Z)
    (expected_length : Z) : Result string (list Z) :=
  if SNAPSHOT_CHUNK_SIZE <? expected_length
  then Err "snapshot chunk decompressed size exceeds limit"%string else
  match compression with
  | CompressionNone =>
      if negb (zlen b =? expected_length) then Err "snapshot chunk length mismatch"%string
      else Ok b
  | Rle =>
      if negb (zlen b mod 2 =? 0) then Err "invalid RLE snapshot chunk"%string else
      decoded ← expand_pairs b [] expected_length;
      if negb (zlen decoded =? expected_length)
      then Err "snapshot chunk decompressed length mismatch"%string
      else Ok decoded
  end.

(** ** Round trip *)

Lemma scan_run_spec value count rest :
  1 <= count <= 255 ->
  let '(count', rest') := scan_run value count rest in
  count <= count' <= 255 /\
  rest = replicate (Z.to_nat (count' - count)) value ++ rest'.
Proof.
  revert count. induction rest as [|b rest IH]; intros count Hc; cbn.
  { rewrite Z.sub_diag. split; [lia|done]. }
  destruct (Z.eqb_spec b value) as [->|]; cbn.
  2:{ rewrite Z.sub_diag. split; [lia|done]. }
  destruct (Z.ltb_spec count 255); [|rewrite Z.sub_diag; split; [lia|done]].
  specialize (IH (count + 1) ltac:(lia)).
  destruct (scan_run value (count + 1) rest) as [count' rest']. destruct IH as [Hb ->].
  split; [lia|]. replace (Z.to_nat (count' - count)) with (S (Z.to_nat (count' - (count + 1)))) by lia.
  done.
Qed.

(** The encoding of every non-empty input starts with its maximal first run. *)
Lemma rle_loop_cons fuel value rest :
  (length rest <= fuel)%nat ->
  exists count rest', 1 <= count <= 255 /\
    value :: rest = replicate (Z.to_nat count) value ++ rest' /\
    (length rest' <= fuel)%nat /\ (length rest' <= length rest)%nat /\
    rle_loop (S fuel) (value :: rest) = count :: value :: rle_loop fuel rest'.
Proof.
  intros Hlen. cbn [rle_loop]. pose proof (scan_run_spec value 1 rest ltac:(lia)) as Hs.
  destruct (scan_run value 1 rest) as [count rest']. destruct Hs as [Hc Hrest].
  exists count, rest'. assert (length rest' <= length rest)%nat
    by (rewrite Hrest, length_app; lia).
  split_and!; [lia|lia| |lia|lia|].
  - replace (Z.to_nat count) with (S (Z.to_nat (count - 1))) by lia. cbn. by rewrite <- Hrest.
  - by rewrite Z.mod_small by lia.
Qed.

Lemma expand_rle fuel b decoded expected :
  (length b <= fuel)%nat -> zlen decoded + zlen b <= expected <= USIZE_MAX ->
  expand_pairs (rle_loop fuel b) decoded expected = Ok (decoded ++ b) /\
  zlen (rle_loop fuel b) mod 2 = 0.
Proof.
  revert b decoded. induction fuel as [|fuel IH]; intros b decoded Hlen Hexp.
  { destruct b; [|cbn in Hlen; lia]. cbn. by rewrite app_nil_r. }
  destruct b as [|value rest]; [cbn; by rewrite app_nil_r|].
  cbn in Hlen. destruct (rle_loop_cons fuel value rest ltac:(lia))
    as (count & rest' & Hc & Hb & Hl & _ & ->).
  assert (Hz : zlen (value :: rest) = count + zlen rest').
  { rewrite Hb. unfold zlen. rewrite length_app, length_replicate. lia. }
  assert (Hz0 : 0 <= zlen rest') by (unfold zlen; lia).
  assert (Hd0 : 0 <= zlen decoded) by (unfold zlen; lia).
  destruct (IH rest' (decoded ++ replicate (Z.to_nat count) value) Hl) as [IH1 IH2].
  { unfold zlen in *. rewrite length_app, length_replicate in *. lia. }
  cbn [expand_pairs]. destruct (Z.eqb_spec count 0); [lia|].
  destruct (Z.ltb_spec expected (saturating_add USIZE_MAX (zlen decoded) count)) as [Hlt|_].
  { unfold saturating_add in Hlt. lia. }
  cbn [orb]. split.
  - rewrite IH1, Hb. by rewrite <- app_assoc.
  - replace (zlen (count :: value :: rle_loop fuel rest')) with (zlen (rle_loop fuel rest') + 1 * 2)
      by (unfold zlen; cbn [length]; lia).
    by rewrite Z.mod_add.
Qed.

(** A chunk of at most the chunk size is decompressed to exactly the bytes that were
    compressed, and its compressed form is never longer than the chunk. *)
Lemma chunk_roundtrip (b : list Z) :
  zlen b <= SNAPSHOT_CHUNK_SIZE ->
  let '(compression, compressed) := compress_chunk b in
  decompress_chunk compression compressed (zlen b) = Ok b /\ zlen compressed <= zlen b.
Proof.
  intros Hlen. unfold compress_chunk.
  destruct (Z.ltb_spec (zlen (rle_loop (length b) b)) (zlen b)) as [Hshort|Hlong];
    unfold decompress_chunk.
  all: destruct (Z.ltb_spec SNAPSHOT_CHUNK_SIZE (zlen b)); [lia|].
  - destruct (expand_rle (length b) b [] (zlen b) ltac:(lia)) as [Hexp Heven].
    { unfold zlen, SNAPSHOT_CHUNK_SIZE, USIZE_MAX, U64_MAX in *. cbn [length] in *. lia. }
    rewrite Heven. cbn [Z.eqb negb]. rewrite Hexp. cbn. rewrite Z.eqb_refl. split; [done|lia].
  - rewrite Z.eqb_refl. split; [done|lia].
Qed.

(** The bytes a run-length encoding stands for. *)
Fixpoint rle_expand (b : list Z) : list Z :=
  match b with
  | count :: value :: b => replicate (Z.to_nat count) value ++ rle_expand b
  | _ => []
  end.

Lemma expand_pairs_expand n b decoded expected out :
  (length b <= n)%nat -> expand_pairs b decoded expected = Ok out -> out = decoded ++ rle_expand b.
Proof.
  revert b decoded. induction n as [|n IH]; intros b decoded Hn.
  { destruct b; [|cbn in Hn; lia]. intros [= <-]. by rewrite app_nil_r. }
  destruct b as [|count [|value b]]; cbn; [intros [= <-]; by rewrite app_nil_r..|].
  destruct (_ || _); [done|]. intros Hrun. cbn in Hn. apply IH in Hrun; [|lia].
  by rewrite Hrun, <- app_assoc.
Qed.

(** Whatever a peer sends, decompression either fails or yields exactly the announced
    number of bytes, never more than the chunk size: the sent bytes themselves or, for
    run-length coding, the expansion of the sent pairs. *)
Lemma decompress_bounded compression (b : list Z) (expected_length : Z) out :
  decompress_chunk compression b expected_length = Ok out ->
  zlen out = expected_length /\ expected_length <= SNAPSHOT_CHUNK_SIZE /\
  out = match compression with CompressionNone => b | Rle => rle_expand b end.
Proof.
  unfold decompress_chunk.
  destruct (Z.ltb_spec SNAPSHOT_CHUNK_SIZE expected_length); [done|].
  destruct compression.
  - destruct (Z.eqb_spec (zlen b) expected_length); [|done]. intros [= <-]. split_and!; done || lia.
  - destruct (negb (_ =? 0)); [done|]. rewrite bind_Ok. intros (decoded & Hexp & Hrun).
    destruct (Z.eqb_spec (zlen decoded) expected_length); [|done]. injection Hrun as <-.
    split_and!; [done|lia|]. by apply (expand_pairs_expand (length b)) in Hexp.
Qed.

Module ChunkExamples.
Definition chunk : list Z := replicate 300 7 ++ [1; 2; 2].
Lemma chunk_example :
  zlen chunk <= SNAPSHOT_CHUNK_SIZE /\
  compress_chunk chunk = (Rle, [255; 7; 45; 7; 1; 1; 2; 2]) /\
  decompress_chunk Rle [255; 7; 45; 7; 1; 1; 2; 2] 303 = Ok chunk.
Proof.
  assert (Hl : zlen chunk <= SNAPSHOT_CHUNK_SIZE) by (vm_compute; discriminate).
  split; [exact Hl|]. split; [vm_compute; reflexivity|]. exact (proj1 (chunk_roundtrip chunk Hl)).
Defined.
Lemma expansion_example : zlen [9; 9; 9] = 3.
Proof. apply (decompress_bounded Rle [3; 9] 3 [9; 9; 9]). vm_compute. reflexivity. Defined.
End ChunkExamples.

(** ** The fast-sync bundle *)

Section bundle.
Context `{PaqusTypes} `{!BlockOps} `{!LedgerOps} `{!GenesisOps} `{!ErrorDisplay}.

Record FastSyncBundle := {
  fs_version : Z;
  fs_headers : list BlockHeader;
  fs_snapshot : list Z
}.

(** borsh of the bundle; an [io::Error] is its text. *)
Context (to_vec : FastSyncBundle -> Result string (list Z)).
Context (try_from_slice : list Z -> Result string FastSyncBundle).

Definition bundle_from_ledger (ledger : Ledger) : Result string FastSyncBundle :=
  let headers := bt_values (chain_headers ledger) in
  match headers with
  | [] => Err "cannot export a snapshot without a canonical header chain"%string
  | _ =>
      snapshot ← map_err (fun error => String.append "failed to create snapshot: "
          (show_genesis error)) (snapshot_paqus_bytes ledger);
      Ok {| fs_version := FAST_SYNC_BUNDLE_VERSION; fs_headers := headers;
            fs_snapshot := snapshot |}
  end.

Definition bundle_validate (show_u8 : Z -> string) (b : FastSyncBundle)
    : Result string (Ledger * Work) :=
  if negb (fs_version b =? FAST_SYNC_BUNDLE_VERSION)
  then Err (String.append "unsupported fast-sync bundle version " (show_u8 (fs_version b)))
  else map_err (fun error => String.append "authenticated snapshot rejected: "
         (show_genesis error)) (ledger_from_authenticated_snapshot (fs_snapshot b) (fs_headers b)).

Definition bundle_encode (b : FastSyncBundle) : Result string (list Z) :=
  raw ← map_err (fun error => String.append "failed to encode snapshot: " error) (to_vec b);
  if MAX_FAST_SYNC_BUNDLE_SIZE <? zlen raw
  then Err "fast-sync bundle exceeds the local size limit"%string
  else Ok raw.

Definition bundle_decode (raw : list Z) : Result string FastSyncBundle :=
  if MAX_FAST_SYNC_BUNDLE_SIZE <? zlen raw
  then Err "fast-sync bundle exceeds the local size limit"%string
  else map_err (fun error => String.append "failed to decode fast-sync bundle: " error)
         (try_from_slice raw).

Context (borsh_roundtrip : forall b raw, to_vec b = Ok raw -> try_from_slice raw = Ok b).

(** an exported bundle is read back as it was, and importing it validates exactly the
    exporter's headers and snapshot. *)
Theorem bundle_roundtrip (show_u8 : Z -> string) (ledger : Ledger) b raw :
  bundle_from_ledger ledger = Ok b -> bundle_encode b = Ok raw ->
  bundle_decode raw = Ok b /\
  exists snapshot, snapshot_paqus_bytes ledger = Ok snapshot /\
    bundle_validate show_u8 b =
    map_err (fun error => String.append "authenticated snapshot rejected: " (show_genesis error))
      (ledger_from_authenticated_snapshot snapshot (bt_values (chain_headers ledger))).
Proof.
  unfold bundle_from_ledger, bundle_encode, bundle_decode, bundle_validate.
  intros Hfrom Henc. apply bind_Ok in Henc as (raw' & Hraw & Henc). apply map_err_Ok in Hraw.
  destruct (Z.ltb_spec MAX_FAST_SYNC_BUNDLE_SIZE (zlen raw')) as [|Hle]; [done|].
  injection Henc as <-. destruct (Z.ltb_spec MAX_FAST_SYNC_BUNDLE_SIZE (zlen raw')); [lia|].
  rewrite (borsh_roundtrip _ _ Hraw). split; [done|].
  destruct (bt_values (chain_headers ledger)) as [|h hs]; [done|].
  apply bind_Ok in Hfrom as (snapshot & Hsnap & [= <-]). apply map_err_Ok in Hsnap.
  by exists snapshot.
Qed.
End bundle.

Module BundleExamples.
Import Toy.

#[global] Instance bundle_ser : Ser FastSyncBundle :=
  ser_iso (A := Z * (list Header * list Z)) (fun b => (fs_version b, (fs_headers b, fs_snapshot b)))
    (fun p => {| fs_version := p.1; fs_headers := p.2.1; fs_snapshot := p.2.2 |}).
#[global] Instance bundle_ser_law : SerLaw FastSyncBundle.
Proof. apply ser_iso_law. by intros []. Qed.

Definition to_vec (b : FastSyncBundle) : Result string (list Z) := Ok (ser b).
Definition from_slice (raw : list Z) : Result string FastSyncBundle :=
  ok_or (parse raw) "eof"%string.
Definition exported : FastSyncBundle :=
  {| fs_version := 1; fs_headers := [header genesis_block]; fs_snapshot := ser (l_accounts ledger0) |}.

Lemma bundle_roundtrip_witness : bundle_decode from_slice (ser exported) = Ok exported.
Proof.
  refine (proj1 (bundle_roundtrip to_vec from_slice _ (fun _ => "?"%string) ledger0 exported
    (ser exported) _ _)).
  - intros b raw Hb. assert (raw = ser b) as -> by (unfold to_vec in Hb; congruence).
    unfold from_slice. by rewrite parse_ser.
  - vm_compute. reflexivity.
  - vm_compute. reflexivity.
Defined.
End BundleExamples.
