(* ===== verification/Gossip.v ===== *)
(** Gossip: node/src/p2p/gossip.rs and [dedupe_peers] of p2p/mod.rs.

    [GossipDedupe] remembers the last [capacity] hashes in a hash set plus a queue. Its
    contract is a bounded first-in first-out memory; [mark_seen] refines it. A
    [HashSet<T>] is a [gset T]. *)
From Stdlib Require Import ZArith Lia.
From stdpp Require Import base numbers option strings list gmap.
From S2P Require Import Prelude BTree.
Open Scope Z_scope.

Section mark_seen.
Context {T : Type} `{Countable T}.
Implicit Types (seen : gset T) (order : list T).

(** [while seen.len() > capacity { if let Some(e) = order.pop_front() { seen.remove(&e) } }]:
    with an empty queue the loop would spin, so running out of fuel is [None]. *)
Fixpoint trim_loop (fuel : nat) (capacity : Z) seen order : option (gset T * list T) :=
  if capacity <? Z.of_nat (size seen) then
    match fuel with
    | O => None
    | S fuel =>
        match order with
        | evicted :: order => trim_loop fuel capacity (seen ∖ {[evicted]}) order
        | [] => trim_loop fuel capacity seen []
        end
    end
  else Some (seen, order).

Definition mark_seen (fuel : nat) (capacity : Z) (value : T) seen order
    : option (bool * (gset T * list T)) :=
  if decide (value ∈ seen) then Some (false, (seen, order)) else
  if capacity =? 0 then Some (true, (seen, order)) else
  st ← trim_loop fuel capacity ({[value]} ∪ seen) (order ++ [value]);
  Some (true, st).

(** ** The bounded memory it implements *)

Definition remember (capacity : nat) (value : T) (memory : list T) : bool * list T :=
  if decide (value ∈ memory) then (false, memory)
  else (true, drop (length memory + 1 - capacity) (memory ++ [value])).

Definition represents (capacity : nat) (memory : list T) seen order : Prop :=
  order = memory /\ NoDup memory /\ seen = list_to_set memory /\ (length memory <= capacity)%nat.

Lemma trim_loop_spec fuel (capacity : nat) memory :
  NoDup memory -> (length memory - capacity <= fuel)%nat ->
  trim_loop fuel (Z.of_nat capacity) (list_to_set memory) memory =
  Some (list_to_set (drop (length memory - capacity) memory),
        drop (length memory - capacity) memory).
Proof.
  revert memory. induction fuel as [|fuel IH]; intros memory Hnd Hfuel; cbn [trim_loop].
  all: rewrite size_list_to_set by done.
  all: destruct (Z.ltb_spec (Z.of_nat capacity) (Z.of_nat (length memory)));
    [|by replace (length memory - capacity)%nat with 0%nat by lia].
  - lia.
  - destruct memory as [|x memory]; [cbn in *; lia|]. apply NoDup_cons in Hnd as [Hx Hnd].
    replace (list_to_set (x :: memory) ∖ {[x]}) with (list_to_set memory : gset T)
      by (rewrite list_to_set_cons; set_solver).
    cbn [length] in *. rewrite IH by (done || lia).
    by replace (S (length memory) - capacity)%nat with (S (length memory - capacity)) by lia.
Qed.

(** [mark_seen] terminates and is a bounded FIFO memory: it answers whether the value
    is new, keeps set and queue in agreement, never keeps more than [capacity] values, and
    when it is full forgets exactly the oldest one. *)
Theorem mark_seen_refines (capacity : nat) (value : T) (memory : list T) seen order :
  represents capacity memory seen order ->
  exists seen' order',
    mark_seen 1 (Z.of_nat capacity) value seen order =
      Some (fst (remember capacity value memory), (seen', order')) /\
    represents capacity (snd (remember capacity value memory)) seen' order'.
Proof.
  intros (-> & Hnd & -> & Hlen). unfold mark_seen, remember.
  destruct (decide (value ∈ memory)) as [Hin|Hnew].
  { rewrite decide_True by by apply elem_of_list_to_set. by exists (list_to_set memory), memory. }
  rewrite decide_False by by rewrite elem_of_list_to_set.
  destruct (Z.eqb_spec (Z.of_nat capacity) 0) as [Hz|Hnz].
  { destruct memory; [|cbn in Hlen; lia]. exists ∅, []. split; [done|].
    replace capacity with 0%nat by lia. cbn. repeat split; [constructor|lia]. }
  replace ({[value]} ∪ list_to_set memory) with (list_to_set (memory ++ [value]) : gset T)
    by (rewrite list_to_set_app_L; set_solver).
  assert (Hnd' : NoDup (memory ++ [value])).
  { apply NoDup_app. split_and!; [done|set_solver|apply NoDup_singleton]. }
  rewrite trim_loop_spec; [|done|rewrite length_app; cbn; lia].
  rewrite length_app. cbn [length snd fst mbind option_bind].
  eexists _, _. split; [done|]. split_and!; [done| |done|].
  - by eapply sublist_NoDup; [|apply sublist_drop].
  - rewrite length_drop, length_app. cbn. lia.
Qed.
End mark_seen.

(** The memory keeps the most recent values: a hash is still known until [capacity] other
    new ones have arrived. *)
Lemma remember_recent {T} `{Countable T} capacity (value : T) (memory : list T) :
  (0 < capacity)%nat -> value ∈ (remember capacity value memory).2.
Proof.
  intros Hc. unfold remember. destruct (decide (value ∈ memory)); [done|]. cbn.
  rewrite drop_app_le by lia. set_solver.
Qed.

Abbreviation GossipHash := (list Z) (only parsing).

Record GossipDedupe := {
  capacity : Z;
  blocks : gset GossipHash;
  block_order : list GossipHash;
  gossip_transactions : gset GossipHash;
  transaction_order : list GossipHash
}.

Definition gossip_new (capacity : Z) : GossipDedupe := {|
  capacity := capacity; blocks := ∅; block_order := []; gossip_transactions := ∅;
  transaction_order := []
|}.

Definition mark_block_seen (fuel : nat) (g : GossipDedupe) (hash : GossipHash)
    : option (bool * GossipDedupe) :=
  '(fresh, (seen, order)) ← mark_seen fuel (capacity g) hash (blocks g) (block_order g);
  Some (fresh, {| capacity := capacity g; blocks := seen; block_order := order;
    gossip_transactions := gossip_transactions g; transaction_order := transaction_order g |}).

Definition mark_transaction_seen (fuel : nat) (g : GossipDedupe) (hash : GossipHash)
    : option (bool * GossipDedupe) :=
  '(fresh, (seen, order)) ←
    mark_seen fuel (capacity g) hash (gossip_transactions g) (transaction_order g);
  Some (fresh, {| capacity := capacity g; blocks := blocks g; block_order := block_order g;
    gossip_transactions := seen; transaction_order := order |}).

(** [dedupe_peers]: [peers.retain(|peer| seen.insert( *peer))]. *)
Fixpoint retain_new {A} `{Countable A} (seen : gset A) (peers : list A) : list A :=
  match peers with
  | [] => []
  | p :: peers =>
      if decide (p ∈ seen) then retain_new seen peers else p :: retain_new ({[p]} ∪ seen) peers
  end.
Definition dedupe_peers {A} `{Countable A} (peers : list A) : list A := retain_new ∅ peers.

Lemma retain_new_spec {A} `{Countable A} (seen : gset A) peers :
  NoDup (retain_new seen peers) /\ retain_new seen peers `sublist_of` peers /\
  forall p, p ∈ retain_new seen peers <-> p ∈ peers /\ p ∉ seen.
Proof.
  revert seen. induction peers as [|p peers IH]; intros seen; cbn.
  { split_and!; [constructor|constructor|set_solver]. }
  case_decide as Hin.
  - destruct (IH seen) as (Hnd & Hsub & Hel). split_and!; [done|by constructor|].
    intros q. rewrite Hel. set_solver.
  - destruct (IH ({[p]} ∪ seen)) as (Hnd & Hsub & Hel). split_and!; [|by constructor|].
    + constructor; [|done]. rewrite Hel. set_solver.
    + intros q. rewrite elem_of_cons, Hel. destruct (decide (q = p)); set_solver.
Qed.

(** ** Broadcast *)

Record BroadcastReport := { attempted : Z; sent : Z; failed : Z }.
Definition report_default : BroadcastReport := {| attempted := 0; sent := 0; failed := 0 |}.

Section broadcast.
Context {Addr Conn Msg : Type} `{Countable Addr}.
(** Opening a connection and writing to it are I/O. *)
Context (connect : Addr -> Result string Conn).
Context (send : Msg -> ST Conn string unit).

(** One outbound peer: connect if there is no connection yet, then send; a failure drops
    the connection. [None] is a poisoned connection lock. *)
Definition broadcast_outbound (poisoned : bool) (message : Msg) (peer : Addr)
    (st : BroadcastReport * gmap Addr Conn) : BroadcastReport * gmap Addr Conn :=
  let '(report, conns) := st in
  let fail := {| attempted := attempted report; sent := sent report; failed := failed report + 1 |} in
  if poisoned then (fail, conns) else
  let '(connect_result, conns) :=
    match conns !! peer with
    | Some _ => (Ok tt, conns)
    | None =>
        match connect peer with
        | Ok c => (Ok tt, <[peer := c]> conns)
        | Err e => (Err e, conns)
        end
    end in
  let '(result, conns) :=
    match connect_result with
    | Err e => (Err e, conns)
    | Ok _ =>
        match conns !! peer with
        | None => (Err "missing peer connection"%string, conns)
        | Some c => let '(r, c') := send message c in (r, <[peer := c']> conns)
        end
    end in
  match result with
  | Ok _ => ({| attempted := attempted report; sent := sent report + 1;
                failed := failed report |}, conns)
  | Err _ => (fail, delete peer conns)
  end.

(** One inbound peer: peers that are also outbound are skipped. *)
Definition broadcast_inbound (poisoned : bool) (known_peers : gset Addr) (message : Msg)
    (peer : Addr) (st : BroadcastReport * gmap Addr Conn) : BroadcastReport * gmap Addr Conn :=
  let '(report, conns) := st in
  if decide (peer ∈ known_peers) then st else
  let report := {| attempted := attempted report + 1; sent := sent report;
                   failed := failed report |} in
  let fail := {| attempted := attempted report; sent := sent report; failed := failed report + 1 |} in
  if poisoned then (fail, conns) else
  let '(result, conns) :=
    match conns !! peer with
    | None => (Err "missing inbound connection"%string, conns)
    | Some c => let '(r, c') := send message c in (r, <[peer := c']> conns)
    end in
  match result with
  | Ok _ => ({| attempted := attempted report; sent := sent report + 1;
                failed := failed report |}, conns)
  | Err _ => (fail, delete peer conns)
  end.

(** [peers] and [inbound_peers] are the maps' keys in iteration order. *)
Definition broadcast_to_peers (peers_poisoned conns_poisoned inbound_poisoned : bool)
    (peers : list Addr) (message : Msg) (conns inbound : gmap Addr Conn)
    : BroadcastReport * gmap Addr Conn * gmap Addr Conn :=
  if peers_poisoned then (report_default, conns, inbound) else
  let report := {| attempted := zlen peers; sent := 0; failed := 0 |} in
  let known_peers : gset Addr := list_to_set peers in
  let '(report, conns) :=
    fold_left (fun st peer => broadcast_outbound conns_poisoned message peer st)
      peers (report, conns) in
  let inbound_peers := if inbound_poisoned then [] else (map_to_list inbound).*1 in
  let '(report, inbound) :=
    fold_left (fun st peer => broadcast_inbound inbound_poisoned known_peers message peer st)
      inbound_peers (report, inbound) in
  (report, conns, inbound).

Lemma outbound_step poisoned message peer report conns :
  let '(report', _) := broadcast_outbound poisoned message peer (report, conns) in
  attempted report' = attempted report /\
  sent report' + failed report' = sent report + failed report + 1.
Proof.
  unfold broadcast_outbound. destruct poisoned; cbn; [lia|].
  destruct (conns !! peer) as [c|] eqn:E.
  - rewrite E. destruct (send message c) as [[]]; cbn; lia.
  - destruct (connect peer) as [c|]; cbn; [|lia]. rewrite lookup_insert_eq.
    destruct (send message c) as [[]]; cbn; lia.
Qed.

Lemma inbound_step poisoned known message peer report conns :
  let '(report', _) := broadcast_inbound poisoned known message peer (report, conns) in
  attempted report' = attempted report + (if decide (peer ∉ known) then 1 else 0) /\
  attempted report' - sent report' - failed report' =
  attempted report - sent report - failed report.
Proof.
  unfold broadcast_inbound. destruct (decide (peer ∈ known)).
  { rewrite decide_False by auto. split; lia. }
  rewrite decide_True by done. destruct poisoned; cbn; [lia|].
  destruct (conns !! peer) as [c|]; [|cbn; lia]. destruct (send message c) as [[]]; cbn; lia.
Qed.

Lemma outbound_fold poisoned message l report conns :
  let '(report', _) := fold_left (fun st peer => broadcast_outbound poisoned message peer st)
    l (report, conns) in
  attempted report' = attempted report /\
  sent report' + failed report' = sent report + failed report + zlen l.
Proof.
  revert report conns. induction l as [|p l IH]; intros report conns; cbn [fold_left].
  { unfold zlen; cbn; lia. }
  pose proof (outbound_step poisoned message p report conns) as Hs.
  destruct (broadcast_outbound _ _ _ _) as [r1 c1].
  specialize (IH r1 c1). destruct (fold_left _ l _). unfold zlen in *. cbn [length]. lia.
Qed.

Lemma inbound_fold poisoned known message l report conns :
  let '(report', _) := fold_left (fun st peer => broadcast_inbound poisoned known message peer st)
    l (report, conns) in
  attempted report' = attempted report + zlen (filter (fun p => p ∉ known) l) /\
  attempted report' - sent report' - failed report' =
  attempted report - sent report - failed report.
Proof.
  revert report conns. induction l as [|p l IH]; intros report conns; cbn [fold_left].
  { unfold zlen; cbn; lia. }
  pose proof (inbound_step poisoned known message p report conns) as Hs.
  destruct (broadcast_inbound _ _ _ _ _) as [r1 c1].
  specialize (IH r1 c1). destruct (fold_left _ l _). rewrite filter_cons.
  unfold zlen in *. case_decide; cbn [length]; lia.
Qed.

(** a broadcast accounts for every peer: it tries each outbound peer once and each
    inbound one that is not outbound once, and attempted = sent + failed whatever
    connections fail. *)
Theorem broadcast_accounts conns_poisoned inbound_poisoned peers message conns inbound :
  let '(report, _, _) :=
    broadcast_to_peers false conns_poisoned inbound_poisoned peers message conns inbound in
  attempted report = sent report + failed report /\
  attempted report = zlen peers +
    (if inbound_poisoned then 0
     else zlen (filter (fun p => p ∉ (list_to_set peers : gset Addr)) (map_to_list inbound).*1)).
Proof.
  unfold broadcast_to_peers.
  pose proof (outbound_fold conns_poisoned message peers
    {| attempted := zlen peers; sent := 0; failed := 0 |} conns) as Hout.
  destruct (fold_left (fun st peer => broadcast_outbound _ _ _ _) _ _) as [r1 c1].
  pose proof (inbound_fold inbound_poisoned (list_to_set peers) message
    (if inbound_poisoned then [] else (map_to_list inbound).*1) r1 inbound) as Hin.
  destruct (fold_left _ _ _) as [r2 c2]. cbn in Hout.
  destruct inbound_poisoned; cbn in Hin; unfold zlen in *; cbn in *; lia.
Qed.
End broadcast.

Module GossipExamples.
Lemma mark_seen_refines_witness :
  remember 2 9 [7; 8] = (true, [8; 9]) /\
  exists (seen' : gset Z) (order' : list Z),
    mark_seen 1 (Z.of_nat 2) 9 (list_to_set [7; 8]) [7; 8] =
      Some ((remember 2 9 [7; 8]).1, (seen', order')) /\
    represents 2 (remember 2 9 [7; 8]).2 seen' order'.
Proof.
  split; [vm_compute; reflexivity|].
  apply (mark_seen_refines 2 9 [7; 8] (list_to_set [7; 8]) [7; 8]).
  split_and!; [reflexivity| |reflexivity|cbn; lia].
  apply NoDup_cons; split; [set_solver|]. apply NoDup_singleton.
Defined.
End GossipExamples.
