(* ===== verification/Net.v ===== *)
(** Internet addresses: std's [IpAddr] and [SocketAddr], as the node keeps them in its peer
    table and its configuration. *)
From Stdlib Require Import ZArith Lia.
From stdpp Require Import base numbers option list countable.
From S2P Require Import Prelude.
Open Scope Z_scope.

Inductive IpAddr :=
| V4 (a b c d : Z)
| V6 (segments : list Z).
#[global] Instance ip_addr_eq_dec : EqDecision IpAddr.
Proof. solve_decision. Defined.
#[global] Instance ip_addr_countable : Countable IpAddr.
Proof.
  refine (inj_countable' (fun i => match i with V4 a b c d => inl (a, b, c, d) | V6 l => inr l end)
    (fun x => match x with inl (a, b, c, d) => V4 a b c d | inr l => V6 l end) _).
  by intros [|].
Defined.
Record SocketAddr := { ip : IpAddr; port : Z }.
#[global] Instance socket_addr_eq_dec : EqDecision SocketAddr.
Proof. solve_decision. Defined.
#[global] Instance socket_addr_countable : Countable SocketAddr.
Proof.
  refine (inj_countable' (fun a => (ip a, port a)) (fun x => {| ip := x.1; port := x.2 |}) _).
  by intros [].
Defined.

(** [IpAddr::is_loopback]: 127.0.0.0/8 and ::1 *)
Definition is_loopback (i : IpAddr) : bool :=
  match i with
  | V4 a _ _ _ => a =? 127
  | V6 segments => bool_decide (segments = [0; 0; 0; 0; 0; 0; 0; 1])
  end.
