(* ===== verification/Peer.v ===== *)
(** Peer reputation and request budget: [PeerState] and
    [PeerConnection::check_request_budget] of node/src/p2p/mod.rs.

    [Instant], [SystemTime] and [Duration] are milliseconds; every clock reading an operation
    makes is an argument. *)
From Stdlib Require Import ZArith Lia.
From stdpp Require Import base numbers option strings list gmap relations.
From S2P Require Import Prelude PaqusCore Net.
Open Scope Z_scope.

Definition secs (n : Z) : Z := n * 1000.
Definition DEFAULT_SYNC_INTERVAL : Z := secs 5.
Definition PEER_RETRY_BASE_SECS : Z := 2.
Definition PEER_RETRY_MAX_SECS : Z := 60.
Definition PEER_BAN_SCORE_THRESHOLD : Z := 100.
Definition PEER_FAILURE_PENALTY : Z := 20.
Definition PEER_SUCCESS_REWARD : Z := 2.
Definition PEER_SYNC_REWARD : Z := 5.
Definition PEER_BAN_DURATION : Z := secs (10 * 60).
Definition PEER_REQUEST_WINDOW : Z := secs 10.
Definition MAX_PEER_REQUESTS_PER_WINDOW : Z := 64.
Definition MIN_BLOCKS_PER_SYNC : Z := 32.
Definition INITIAL_BLOCKS_PER_SYNC : Z := 64.
Definition MAX_BLOCKS_PER_SYNC : Z := 256.

Record PeerState := {
  addr : SocketAddr;
  failures : Z;
  next_attempt : Z;
  last_tip : option BlockHeight;
  sync_window : Z;
  score : Z;
  ban_until : option Z;
  last_seen : option Z;
  last_success : option Z;
  latency : option Z
}.

(** [now] is the [Instant] read, [wall] the [SystemTime]. *)
Definition peer_new (a : SocketAddr) (now wall : Z) : PeerState := {|
  addr := a; failures := 0; next_attempt := now; last_tip := None;
  sync_window := INITIAL_BLOCKS_PER_SYNC; score := 0; ban_until := None;
  last_seen := Some wall; last_success := None; latency := None
|}.

Definition mark_ok (tip : option BlockHeight) (now wall : Z) (p : PeerState) : PeerState := {|
  addr := addr p; failures := 0; next_attempt := now + DEFAULT_SYNC_INTERVAL; last_tip := tip;
  sync_window := sync_window p;
  score := Z.max (i32_saturating_sub (score p) PEER_SUCCESS_REWARD) 0;
  ban_until := ban_until p; last_seen := Some wall; last_success := Some wall;
  latency := latency p
|}.

Definition mark_synced (tip : BlockHeight) (synced_blocks : Z) (now wall : Z) (p : PeerState)
    : PeerState := {|
  addr := addr p; failures := 0; next_attempt := now + DEFAULT_SYNC_INTERVAL;
  last_tip := Some tip;
  sync_window :=
    if sync_window p <=? synced_blocks
    then Z.min (u64_mul (sync_window p) 2) MAX_BLOCKS_PER_SYNC
    else sync_window p;
  score := Z.max (i32_saturating_sub (score p) PEER_SYNC_REWARD) 0;
  ban_until := ban_until p; last_seen := Some wall; last_success := Some wall;
  latency := latency p
|}.

(** [ban_now] and [now] are the two [Instant] readings. *)
Definition mark_failed (ban_now now wall : Z) (p : PeerState) : PeerState :=
  let failures' := saturating_add U32_MAX (failures p) 1 in
  let score' := i32_saturating_add (score p) PEER_FAILURE_PENALTY in
  let shift := Z.min (saturating_sub failures' 1) 5 in
  let delay := Z.min (u64_mul PEER_RETRY_BASE_SECS (Z.shiftl 1 shift)) PEER_RETRY_MAX_SECS in
  {| addr := addr p; failures := failures'; next_attempt := now + secs delay;
     last_tip := last_tip p;
     sync_window := Z.max (sync_window p / 2) MIN_BLOCKS_PER_SYNC;
     score := score';
     ban_until := if PEER_BAN_SCORE_THRESHOLD <=? score'
                  then Some (ban_now + PEER_BAN_DURATION) else ban_until p;
     last_seen := Some wall; last_success := last_success p; latency := latency p |}.

Definition is_banned (now : Z) (p : PeerState) : bool :=
  match ban_until p with Some until => now <? until | None => false end.

Definition set_latency (l wall : Z) (p : PeerState) : PeerState := {|
  addr := addr p; failures := failures p; next_attempt := next_attempt p;
  last_tip := last_tip p; sync_window := sync_window p; score := score p;
  ban_until := ban_until p; last_seen := Some wall; last_success := last_success p;
  latency := Some l
|}.

(** ** Reachable peer states *)

Inductive peer_step : PeerState -> PeerState -> Prop :=
| peer_step_ok tip now wall p : peer_step p (mark_ok tip now wall p)
| peer_step_synced tip n now wall p : peer_step p (mark_synced tip n now wall p)
| peer_step_failed ban_now now wall p : peer_step p (mark_failed ban_now now wall p)
| peer_step_latency l wall p : peer_step p (set_latency l wall p).

Record peer_wf (p : PeerState) : Prop := {
  peer_window : MIN_BLOCKS_PER_SYNC <= sync_window p <= MAX_BLOCKS_PER_SYNC;
  peer_score : 0 <= score p <= I32_MAX;
  peer_failures : is_u32 (failures p);
  (** a peer at the threshold has been banned at some point *)
  peer_ban : PEER_BAN_SCORE_THRESHOLD <= score p -> is_Some (ban_until p)
}.

Ltac peer_arith :=
  unfold_int;
  unfold MIN_BLOCKS_PER_SYNC, MAX_BLOCKS_PER_SYNC, INITIAL_BLOCKS_PER_SYNC,
    PEER_BAN_SCORE_THRESHOLD, PEER_FAILURE_PENALTY, PEER_SUCCESS_REWARD, PEER_SYNC_REWARD,
    PEER_RETRY_BASE_SECS, PEER_RETRY_MAX_SECS, PEER_BAN_DURATION, secs,
    I32_MAX, I32_MIN, U32_MAX, U64_MAX in *;
  cbn in *; try lia.

Lemma peer_step_wf p p' : peer_step p p' -> peer_wf p -> peer_wf p'.
Proof.
  intros [] [Hw Hs Hf Hb]; split; cbn; try done; peer_arith.
  - intros ?. apply Hb. lia.
  - destruct (Z.leb_spec (sync_window p0) n); lia.
  - intros ?. apply Hb. lia.
  - split; [|]; Z.to_euclidean_division_equations; lia.
  - intros Hle. match goal with |- context [?a <=? ?b] => destruct (Z.leb_spec a b) end;
      [by eexists|lia].
Qed.

Lemma peer_new_wf a now wall : peer_wf (peer_new a now wall).
Proof. split; cbn; peer_arith. Qed.

(** Each peer is filed under its address, and its score and bans are in bounds. *)
Definition peer_table_wf (peers : gmap SocketAddr PeerState) : Prop :=
  map_Forall (fun a p => addr p = a /\ peer_wf p) peers.
Lemma peer_table_insert peers a p :
  addr p = a -> peer_wf p -> peer_table_wf peers -> peer_table_wf (<[a := p]> peers).
Proof. intros Ha Hp Ht. by apply map_Forall_insert_2. Qed.
Lemma peer_table_alter peers a f :
  (forall p, addr (f p) = addr p) -> (forall p, peer_wf p -> peer_wf (f p)) ->
  peer_table_wf peers -> peer_table_wf (alter f a peers).
Proof.
  intros Ha Hf Ht b p. rewrite lookup_alter_Some. intros [(<- & q & Hq & ->)|[_ Hb]]; [|by apply Ht].
  destruct (Ht _ _ Hq) as [<- Hwf]. auto.
Qed.
Lemma peer_table_delete peers a : peer_table_wf peers -> peer_table_wf (delete a peers).
Proof. apply map_Forall_delete. Qed.

(** along every history of successes, syncs, failures and latency updates of a peer, the
    sync window stays between 32 and 256 blocks, the score stays a non-negative [i32], and a
    peer whose score is at the ban threshold has a ban deadline set. *)
Theorem peer_reachable_wf a now wall p :
  rtc peer_step (peer_new a now wall) p -> peer_wf p.
Proof.
  intros Hr. pose proof (peer_new_wf a now wall) as Hwf.
  induction Hr as [|p1 p2 p3 Hs _ IH]; [done|]. eauto using peer_step_wf.
Qed.

(** Consecutive failures at the given times. *)
Definition fail_all (times : list Z) (p : PeerState) : PeerState :=
  fold_left (fun p t => mark_failed t t t p) times p.

Lemma fail_all_score times p :
  peer_wf p -> peer_wf (fail_all times p) /\
  score (fail_all times p) = Z.min I32_MAX (score p + 20 * zlen times).
Proof.
  unfold fail_all. revert p. induction times as [|t times IH]; intros p Hwf; cbn [fold_left].
  { split; [done|]. destruct Hwf as [_ Hs _ _]. unfold zlen; cbn. lia. }
  destruct (IH (mark_failed t t t p)) as [Hwf' Hsc].
  { eapply peer_step_wf; [constructor|done]. }
  split; [done|]. rewrite Hsc. destruct Hwf as [_ Hs _ _]. cbn. peer_arith.
Qed.

(** five failures in a row ban a peer, whatever its state was before: during the ten
    minutes after the fifth failure it is banned; and each failure postpones the next
    attempt by between 2 and 60 seconds. *)
Theorem five_failures_ban p t1 t2 t3 t4 t5 t :
  peer_wf p -> t < t5 + PEER_BAN_DURATION ->
  let p' := fail_all [t1; t2; t3; t4; t5] p in
  is_banned t p' = true /\ t5 + secs 2 <= next_attempt p' <= t5 + secs 60.
Proof.
  intros Hwf Ht p'. subst p'.
  change (fail_all [t1; t2; t3; t4; t5] p) with (mark_failed t5 t5 t5 (fail_all [t1; t2; t3; t4] p)).
  destruct (fail_all_score [t1; t2; t3; t4] p Hwf) as [Hwf4 Hsc].
  set (q := fail_all [t1; t2; t3; t4] p) in *. destruct Hwf as [_ Hs _ _]. destruct Hwf4 as [_ Hs4 Hf4 _].
  unfold is_banned, mark_failed; cbn [ban_until next_attempt]. split.
  - destruct (Z.leb_spec PEER_BAN_SCORE_THRESHOLD (i32_saturating_add (score q) PEER_FAILURE_PENALTY)) as [_|Hlt].
    + by apply Z.ltb_lt.
    + exfalso. rewrite Hsc in Hlt. peer_arith.
  - set (f := saturating_add U32_MAX (failures q) 1).
    assert (Hshift : exists n, Z.min (saturating_sub f 1) 5 = n /\ 0 <= n <= 5).
    { eexists. split; [done|]. unfold_int. lia. }
    destruct Hshift as (n & -> & Hn).
    assert (Hpow : 1 <= Z.shiftl 1 n <= 32).
    { rewrite Z.shiftl_1_l. split; [apply (Z.pow_le_mono_r 2 0 n); lia|].
      change 32 with (2 ^ 5). apply Z.pow_le_mono_r; lia. }
    unfold u64_mul, saturating_mul, PEER_RETRY_BASE_SECS, PEER_RETRY_MAX_SECS, secs, U64_MAX. lia.
Qed.

(** ** The request budget *)

Record RequestWindow := { request_window_started : Z; request_count : Z }.

(** [now1] is the reading behind [elapsed()], [now2] the one that restarts the window. *)
Definition check_request_budget (now1 now2 : Z) : ST RequestWindow string unit :=
  w ← st_get;
  (if PEER_REQUEST_WINDOW <=? saturating_sub now1 (request_window_started w) then
     st_put {| request_window_started := now2; request_count := 0 |}
   else mret tt) ;;
  st_modify (fun w => {| request_window_started := request_window_started w;
    request_count := saturating_add U32_MAX (request_count w) 1 |}) ;;
  w ← st_get;
  if MAX_PEER_REQUESTS_PER_WINDOW <? request_count w
  then st_fail "peer request rate limit exceeded"%string
  else mret tt.

(** How many of the requests made at these times are let through. *)
Fixpoint admitted_requests (times : list Z) (w : RequestWindow) : Z :=
  match times with
  | [] => 0
  | t :: times =>
      let '(r, w') := check_request_budget t t w in
      (if is_ok r then 1 else 0) + admitted_requests times w'
  end.

Lemma check_request_budget_eq t w :
  check_request_budget t t w =
  let w' := if PEER_REQUEST_WINDOW <=? saturating_sub t (request_window_started w)
            then {| request_window_started := t; request_count := 1 |}
            else {| request_window_started := request_window_started w;
                    request_count := saturating_add U32_MAX (request_count w) 1 |} in
  (if MAX_PEER_REQUESTS_PER_WINDOW <? request_count w'
   then Err "peer request rate limit exceeded"%string else Ok tt, w').
Proof.
  unfold check_request_budget. st_simpl.
  unfold mbind, st_bind, st_put, st_modify, st_get, st_fail, mret, st_ret.
  destruct (PEER_REQUEST_WINDOW <=? _); cbn [request_count request_window_started];
    by destruct (_ <? _).
Qed.

(** within one window exactly the requests up to the limit pass: of any requests made
    less than ten seconds after the window started, the first [64 - count] are let through
    and every later one is refused. *)
Theorem request_window_limit times w :
  is_u32 (request_count w) ->
  Forall (fun t => t - request_window_started w < PEER_REQUEST_WINDOW) times ->
  zlen times <= U32_MAX - request_count w ->
  admitted_requests times w =
  Z.min (zlen times) (Z.max 0 (MAX_PEER_REQUESTS_PER_WINDOW - request_count w)).
Proof.
  revert w. induction times as [|t times IH]; intros w Hc Ht Hlen; cbn [admitted_requests].
  { unfold zlen, MAX_PEER_REQUESTS_PER_WINDOW. cbn. lia. }
  apply Forall_cons in Ht as [Ht Hts]. rewrite check_request_budget_eq.
  assert (Hz : zlen (t :: times) = zlen times + 1) by (unfold zlen; cbn; lia).
  assert (0 <= zlen times) by (unfold zlen; lia).
  destruct (Z.leb_spec PEER_REQUEST_WINDOW (saturating_sub t (request_window_started w))) as [Hle|_].
  { unfold saturating_sub in Hle. unfold PEER_REQUEST_WINDOW, secs in *. lia. }
  cbv zeta. cbn [request_count]. unfold is_u32 in *. unfold saturating_add.
  replace (Z.min (request_count w + 1) U32_MAX) with (request_count w + 1) by lia.
  rewrite IH; cbn [request_count request_window_started]; [|split; lia|done|lia].
  rewrite Hz. unfold MAX_PEER_REQUESTS_PER_WINDOW in *.
  destruct (Z.ltb_spec 64 (request_count w + 1)); cbn [is_ok]; lia.
Qed.

Module PeerExamples.
Definition home : SocketAddr := {| ip := V4 127 0 0 1; port := 5555 |}.
Definition fresh : PeerState := peer_new home 0 0.

Lemma peer_reachable_wf_witness : peer_wf (mark_failed 5 5 5 fresh).
Proof.
  apply (peer_reachable_wf home 0 0). eapply rtc_l; [apply peer_step_failed|apply rtc_refl].
Defined.

Lemma five_failures_ban_witness :
  is_banned 1000 (fail_all [1; 2; 3; 4; 5] fresh) = true.
Proof.
  refine (proj1 (five_failures_ban fresh 1 2 3 4 5 1000 _ _)).
  - split; cbn; peer_arith.
  - vm_compute. reflexivity.
Defined.

Lemma request_window_limit_witness :
  admitted_requests (replicate 70 1) {| request_window_started := 0; request_count := 0 |} = 64.
Proof.
  rewrite request_window_limit.
  - reflexivity.
  - cbv. split; discriminate.
  - apply Forall_replicate. reflexivity.
  - vm_compute. discriminate.
Defined.
End PeerExamples.
