(* ===== verification/Float.v ===== *)
(** [f64]: binary64 arithmetic with rounding to nearest even, from the Standard Library's
    executable [SpecFloat]. The rate limiter counts in it. Integers below [2^53] are exact:
    [exact k] is the float of [k], and adding zero, taking one away and comparing floats of
    this form do what they do on integers. *)
From Stdlib Require Import ZArith Lia SpecFloat.
From stdpp Require Import base numbers.
From S2P Require Import Prelude.
Open Scope Z_scope.

Abbreviation f64 := spec_float (only parsing).
Definition f64_add : f64 -> f64 -> f64 := SFadd 53 1024.
Definition f64_sub : f64 -> f64 -> f64 := SFsub 53 1024.
Definition f64_mul : f64 -> f64 -> f64 := SFmul 53 1024.
Definition f64_div : f64 -> f64 -> f64 := SFdiv 53 1024.
Definition f64_lt : f64 -> f64 -> bool := SFltb.
(** [f64::min]: the smaller one, the other one when one is not a number *)
Definition f64_min (x y : f64) : f64 :=
  match x, y with
  | S754_nan, _ => y
  | _, S754_nan => x
  | _, _ => if f64_lt y x then y else x
  end.
(** [n as f64] of a [u64] *)
Definition f64_of_u64 (n : Z) : f64 := binary_normalize 53 1024 n 0 false.
(** [Duration::as_secs_f64] of a duration in nanoseconds *)
Definition as_secs_f64 (nanos : Z) : f64 :=
  f64_add (f64_of_u64 (nanos / 1000000000))
    (f64_div (f64_of_u64 (nanos mod 1000000000)) (f64_of_u64 1000000000)).

(** ** Small integers *)

Definition width (k : Z) : Z := Z.log2 k + 1.
(** The float with the value of [k]: a mantissa of 53 bits. *)
Definition exact (k : Z) : f64 :=
  if k =? 0 then S754_zero false
  else S754_finite false (Z.to_pos (k * 2 ^ (53 - width k))) (width k - 53).

Lemma digits2_width p : Z.pos (digits2_pos p) = width (Z.pos p).
Proof.
  unfold width. induction p as [p IH|p IH|]; cbn [digits2_pos]; [| |done].
  - rewrite Pos2Z.inj_succ, IH, (Pos2Z.inj_xI p), Z.log2_succ_double by done. lia.
  - rewrite Pos2Z.inj_succ, IH, (Pos2Z.inj_xO p), Z.log2_double by done. lia.
Qed.

Lemma width_shift k j : 0 < k -> 0 <= j -> width (k * 2 ^ j) = width k + j.
Proof. intros Hk Hj. unfold width. rewrite Z.log2_mul_pow2 by done. lia. Qed.
Lemma width_bound k : 0 < k < 2 ^ 53 -> 1 <= width k <= 53.
Proof.
  intros [Hk Hlt]. unfold width. pose proof (Z.log2_nonneg k).
  apply Z.log2_lt_pow2 in Hlt; lia.
Qed.

Lemma iter_xO (m d : positive) : Z.pos (Pos.iter xO m d) = Z.pos m * 2 ^ Z.pos d.
Proof.
  revert m. induction d as [|d IH] using Pos.peano_ind; intros m.
  - cbn. lia.
  - rewrite Pos.iter_succ, (Pos2Z.inj_xO _), IH, Pos2Z.inj_succ, Z.pow_succ_r by lia. lia.
Qed.
(** Aligning to a smaller exponent keeps the value. *)
Lemma shl_align_spec m e e' :
  e' <= e -> shl_align m e e' = (Z.to_pos (Z.pos m * 2 ^ (e - e')), e').
Proof.
  intros He. unfold shl_align. destruct (Z.eq_dec e' e) as [->|Hne].
  { rewrite Z.sub_diag. cbn. f_equal. lia. }
  destruct (e' - e) as [|d|d] eqn:E; [lia|lia|]. f_equal. apply Pos2Z.inj.
  rewrite iter_xO, Z2Pos.id by (apply Z.mul_pos_pos; [lia|apply Z.pow_pos_nonneg; lia]).
  do 2 f_equal. lia.
Qed.

(** A mantissa of 53 bits at an exponent in range is not rounded. *)
Lemma shr_canonical m e :
  width (Z.pos m) = 53 -> -1074 <= e ->
  shr_fexp 53 1024 (Z.pos m) e loc_Exact =
  ({| shr_m := Z.pos m; shr_r := false; shr_s := false |}, e).
Proof.
  intros Hw He. unfold shr_fexp, fexp, emin. cbn [Zdigits2]. rewrite digits2_width, Hw.
  by replace (Z.max (53 + e - 53) (3 - 1024 - 53) - e) with 0 by lia.
Qed.
Lemma round_canonical m e :
  width (Z.pos m) = 53 -> -1074 <= e <= 971 ->
  binary_round_aux 53 1024 false (Z.pos m) e loc_Exact = S754_finite false m e.
Proof.
  intros Hw He. unfold binary_round_aux. rewrite shr_canonical by lia.
  cbn [loc_of_shr_record round_nearest_even shr_m]. rewrite shr_canonical by lia. cbn [shr_m].
  by destruct (Z.leb_spec e (1024 - 53)); [|lia].
Qed.

(** Shifting out zeros is exact. *)
Lemma shr_exact p q : 0 < q ->
  SpecFloat.iter_pos shr_1 p {| shr_m := q * 2 ^ Z.pos p; shr_r := false; shr_s := false |} =
  {| shr_m := q; shr_r := false; shr_s := false |}.
Proof.
  revert q. induction p as [p IH|p IH|]; intros q Hq; cbn [SpecFloat.iter_pos].
  - rewrite (Pos2Z.inj_xI p).
    replace (q * 2 ^ (2 * Z.pos p + 1)) with (2 * (q * 2 ^ Z.pos p * 2 ^ Z.pos p))
      by (replace (2 * Z.pos p + 1) with (Z.pos p + Z.pos p + 1) by lia;
          rewrite !Z.pow_add_r by lia; lia).
    assert (H1 : forall m, 0 < m ->
      shr_1 {| shr_m := 2 * m; shr_r := false; shr_s := false |} =
      {| shr_m := m; shr_r := false; shr_s := false |}) by (by intros [|m|m]; try lia).
    rewrite H1, IH, IH; [done|done|apply Z.mul_pos_pos; [done|lia]|nia].
  - rewrite (Pos2Z.inj_xO p).
    replace (q * 2 ^ (2 * Z.pos p)) with (q * 2 ^ Z.pos p * 2 ^ Z.pos p)
      by (replace (2 * Z.pos p) with (Z.pos p + Z.pos p) by lia; rewrite Z.pow_add_r by lia; lia).
    rewrite IH, IH; [done|done|nia].
  - replace (q * 2 ^ 1) with (2 * q) by lia. by destruct q; try lia.
Qed.

(** Every way to write [k] normalises to [exact k]. *)
Lemma normalize_exact k j :
  0 <= k < 2 ^ 53 -> 0 <= j <= 1000 ->
  binary_normalize 53 1024 (k * 2 ^ j) (- j) false = exact k.
Proof.
  intros Hk Hj. unfold exact. destruct (Z.eqb_spec k 0) as [->|Hne]; [done|].
  pose proof (Z.pow_pos_nonneg 2 j ltac:(lia) ltac:(lia)) as Hp.
  assert (Hpos : 0 < k * 2 ^ j) by nia. pose proof (width_bound k ltac:(lia)) as Hwk.
  assert (Hm0 : 0 < k * 2 ^ (53 - width k)).
  { apply Z.mul_pos_pos; [lia|]. apply Z.pow_pos_nonneg; lia. }
  unfold binary_normalize. destruct (k * 2 ^ j) as [|m|m] eqn:Em; [lia| |lia].
  assert (Hm : width (Z.pos m) = width k + j) by (rewrite <-Em; apply width_shift; lia).
  unfold binary_round, fexp, emin. rewrite digits2_width, Hm.
  replace (Z.max (width k + j + - j - 53) (3 - 1024 - 53)) with (width k - 53) by lia.
  destruct (Z.le_gt_cases (width k - 53) (- j)) as [Hshl|Hshr].
  - rewrite shl_align_spec by lia.
    replace (Z.pos m * 2 ^ (- j - (width k - 53))) with (k * 2 ^ (53 - width k))
      by (rewrite <-Em, <-Z.mul_assoc, <-Z.pow_add_r by lia; do 2 f_equal; lia).
    apply round_canonical; [|lia]. rewrite Z2Pos.id, width_shift by lia. lia.
  - destruct (width k - 53 - - j) as [|d|d] eqn:Ed; [lia| |lia].
    unfold shl_align. rewrite Ed.
    unfold binary_round_aux. unfold shr_fexp at 1. unfold fexp, emin. cbn [Zdigits2]. rewrite digits2_width, Hm.
    replace (Z.max (width k + j + - j - 53) (3 - 1024 - 53) - - j) with (Z.pos d) by lia.
    cbn [shr shr_record_of_loc].
    replace (Z.pos m) with (k * 2 ^ (53 - width k) * 2 ^ Z.pos d)
      by (rewrite <-Em, <-Z.mul_assoc, <-Z.pow_add_r by lia; do 2 f_equal; lia).
    rewrite shr_exact by done. cbn [shr_m loc_of_shr_record round_nearest_even].
    replace (- j + Z.pos d) with (width k - 53) by lia.
    rewrite <-(Z2Pos.id (k * 2 ^ (53 - width k))) at 1 by done.
    rewrite shr_canonical by (rewrite ?Z2Pos.id, ?width_shift by lia; lia). cbn [shr_m].
    by destruct (Z.leb_spec (width k - 53) (1024 - 53)); [|lia].
Qed.

Lemma of_u64_exact k : 0 <= k < 2 ^ 53 -> f64_of_u64 k = exact k.
Proof.
  intros Hk. unfold f64_of_u64. rewrite <-(normalize_exact k 0) by lia. f_equal. lia.
Qed.

Lemma exact_pos k : 0 < k ->
  exact k = S754_finite false (Z.to_pos (k * 2 ^ (53 - width k))) (width k - 53).
Proof. intros Hk. unfold exact. by destruct (Z.eqb_spec k 0); [lia|]. Qed.

Lemma width_mono a b : 0 < a <= b -> width a <= width b.
Proof. intros [Ha Hb]. unfold width. pose proof (Z.log2_le_mono a b Hb). lia. Qed.

(** Comparing floats of integers compares the integers. *)
Lemma exact_lt a b : 0 <= a < 2 ^ 53 -> 0 <= b < 2 ^ 53 -> f64_lt (exact a) (exact b) = (a <? b).
Proof.
  intros Ha Hb. unfold f64_lt, SFltb.
  destruct (Z.eq_dec a 0) as [->|Ha0], (Z.eq_dec b 0) as [->|Hb0]; [done| | |].
  - rewrite (exact_pos b) by lia. cbn. by destruct b; try lia.
  - rewrite (exact_pos a) by lia. cbn. by destruct a; try lia.
  - rewrite (exact_pos a), (exact_pos b) by lia. cbn [SFcompare].
    pose proof (width_bound a ltac:(lia)). pose proof (width_bound b ltac:(lia)).
    destruct (Z.compare_spec (width a - 53) (width b - 53)) as [E|Hlt|Hgt].
    + assert (Hp : 0 < 2 ^ (53 - width b)) by (apply Z.pow_pos_nonneg; lia).
      replace (width a) with (width b) by lia. 
      change (Pos.compare_cont Eq ?x ?y) with (Z.pos x ?= Z.pos y).
      rewrite !Z2Pos.id by nia.
      by rewrite <-(Zmult_compare_compat_r a b (2 ^ (53 - width b))) by lia.
    + destruct (Z.ltb_spec a b); [done|]. pose proof (width_mono b a ltac:(lia)). lia.
    + destruct (Z.ltb_spec a b); [|done]. pose proof (width_mono a b ltac:(lia)). lia.
Qed.

(** Taking one away is exact. *)
Lemma exact_pred k : 1 <= k < 2 ^ 53 -> f64_sub (exact k) (exact 1) = exact (k - 1).
Proof.
  intros Hk. pose proof (width_bound k ltac:(lia)) as Hw.
  rewrite (exact_pos k), (exact_pos 1) by lia. unfold f64_sub, SFsub.
  change (width 1) with 1. replace (Z.min (width k - 53) (1 - 53)) with (-52) by lia.
  assert (Hp : 0 < k * 2 ^ (53 - width k)).
  { apply Z.mul_pos_pos; [lia|]. apply Z.pow_pos_nonneg; lia. }
  rewrite !shl_align_spec by lia. cbn [fst cond_Zopp].
  rewrite !(Z2Pos.id (_ * _)) by (repeat (first [lia|apply Z.mul_pos_pos|apply Z.pow_pos_nonneg])).
  rewrite <-(normalize_exact (k - 1) 52) by lia. f_equal.
  rewrite <-!Z.mul_assoc, <-!Z.pow_add_r by lia.
  replace (53 - width k + (width k - 53 - -52)) with 52 by lia. change (53 - 1 + (1 - 53 - -52)) with 52. lia.
Qed.

Lemma exact_add_zero k : 0 <= k -> f64_add (exact k) (S754_zero false) = exact k.
Proof. intros Hk. unfold exact. by destruct (Z.eqb_spec k 0). Qed.
Lemma zero_mul_exact k : 0 <= k -> f64_mul (S754_zero false) (exact k) = S754_zero false.
Proof. intros Hk. unfold exact. by destruct (Z.eqb_spec k 0). Qed.
Lemma exact_min a b :
  0 <= a < 2 ^ 53 -> 0 <= b < 2 ^ 53 -> f64_min (exact a) (exact b) = exact (Z.min a b).
Proof.
  intros Ha Hb.
  assert (E : f64_min (exact a) (exact b) = if f64_lt (exact b) (exact a) then exact b else exact a).
  { unfold exact. by destruct (a =? 0), (b =? 0). }
  rewrite E, exact_lt by done. destruct (Z.ltb_spec b a); f_equal; lia.
Qed.
