(* ===== verification/Recovery.v ===== *)
(** Rollback recovery records: node/src/runtime/recovery.rs.

    When a reorganisation disconnects a block, each of its transactions becomes a
    [RollbackIssue], identified by a hash of the block and transaction hashes, with the proof
    context of the reorganisation. *)
From Stdlib Require Import ZArith Lia.
From stdpp Require Import base numbers option strings list sets.
From S2P Require Import Prelude BTree PaqusCore Toy.
Open Scope Z_scope.

Abbreviation RollbackIssueId := (list Z) (only parsing).
Abbreviation RollbackProofContextId := (list Z) (only parsing).

(** [BTreeSet::from(..)] / [extend] and [into_iter().collect()]. *)
Definition set_of (l : list Address) : BTreeSet Address :=
  fold_left (fun s a => <[a := tt]> s) l ∅.

Lemma set_of_wf l : bt_wf (set_of l).
Proof.
  unfold set_of. assert (Hgen : forall s : BTreeSet Address, bt_wf s ->
    bt_wf (fold_left (fun s a => <[a := tt]> s) l s)); [|apply Hgen, bt_wf_empty].
  induction l; intros s Hs; cbn; [done|]. by apply IHl, bt_wf_insert.
Qed.
Lemma set_of_elem l a : a ∈ bt_keys (set_of l) <-> a ∈ l.
Proof.
  rewrite bt_elem_keys by apply set_of_wf. unfold set_of.
  assert (Hgen : forall s : BTreeSet Address,
    is_Some (fold_left (fun s a => <[a := tt]> s) l s !! a) <-> a ∈ l \/ is_Some (s !! a)).
  { induction l as [|b l IH]; intros s; cbn; [set_solver|].
    rewrite IH, bt_lookup_insert, elem_of_cons. case_decide; subst; [|naive_solver].
    split; intros _; [by left; left|right; by eexists]. }
  rewrite Hgen, bt_lookup_empty. split; [|by left]. intros [?|[? [=]]]; done.
Qed.

Section recovery.
Context `{PaqusTypes} `{!TxOps} `{!BlockOps} `{!GenesisOps}.

Record RollbackProofContext := {
  ctx_id : RollbackProofContextId;
  losing_headers : list BlockHeader;
  canonical_headers : list BlockHeader;
  common_ancestor : BlockHash
}.

Definition RollbackProofContext_new (losing canonical : list BlockHeader) (ancestor : BlockHash)
    : Result CodecError RollbackProofContext :=
  b ← canonical_context_bytes (ascii_bytes "PAQUS_ROLLBACK_PROOF_CONTEXT_V1")
        losing canonical ancestor;
  Ok {| ctx_id := hash_bytes b; losing_headers := losing; canonical_headers := canonical;
        common_ancestor := ancestor |}.

Definition issue_id_for_transaction (hash : BlockHash) (tx : TransactionHash)
    : Result CodecError RollbackIssueId :=
  b ← canonical_issue_bytes (ascii_bytes "PAQUS_ROLLBACK_ISSUE_V1") hash tx;
  Ok (hash_bytes b).

Inductive RollbackRecoveryStatus :=
| Detected
| Requeued
| Reconfirmed (height : BlockHeight) (hash : BlockHash)
| Conflict.

Record RollbackIssue := {
  issue_id : RollbackIssueId;
  disconnected_block_height : BlockHeight;
  disconnected_block_hash : BlockHash;
  transaction_index : Z;
  issue_transaction_hash : TransactionHash;
  family : TransactionFamily;
  issue_affected_accounts : list Address;
  issue_transaction : SignedProtocolTransaction;
  proof_context_id : RollbackProofContextId;
  transaction_proof : MerkleInclusionProof;
  status : RollbackRecoveryStatus;
  detected_at : Z;
  retry_attempts : Z;
  last_error : option string
}.

Definition affected_accounts (tx : SignedProtocolTransaction) : list Address :=
  bt_keys (set_of (tx_signer tx ::
    match tx with
    | BatchTransfer t => omap (fun o => target_address (to o)) (batch_outputs t)
    | QCash t =>
        match qcash_kind t with
        | Redeem recipient _ => [recipient]
        | _ => []
        end
    end)).

Definition RollbackIssue_new (height : BlockHeight) (hash : BlockHash) (index : Z)
    (tx : SignedProtocolTransaction) (ctx : RollbackProofContextId)
    (tx_proof : MerkleInclusionProof) (at_ : Z) : Result CodecError RollbackIssue :=
  h ← tx_hash tx;
  if proof_leaf_index tx_proof <? index then Err CodecInvalidBlock else
  id ← issue_id_for_transaction hash h;
  Ok {| issue_id := id; disconnected_block_height := height; disconnected_block_hash := hash;
        transaction_index := index; issue_transaction_hash := h; family := tx_family tx;
        issue_affected_accounts := affected_accounts tx; issue_transaction := tx;
        proof_context_id := ctx; transaction_proof := tx_proof; status := Detected;
        detected_at := at_; retry_attempts := 0; last_error := None |}.

Definition is_reconfirmed (i : RollbackIssue) : bool :=
  match status i with Reconfirmed _ _ => true | _ => false end.

(** The updates [Node] makes to an issue. *)
Definition set_status (s : RollbackRecoveryStatus) (e : option string) (i : RollbackIssue)
    : RollbackIssue :=
  {| issue_id := issue_id i; disconnected_block_height := disconnected_block_height i;
     disconnected_block_hash := disconnected_block_hash i;
     transaction_index := transaction_index i;
     issue_transaction_hash := issue_transaction_hash i; family := family i;
     issue_affected_accounts := issue_affected_accounts i;
     issue_transaction := issue_transaction i; proof_context_id := proof_context_id i;
     transaction_proof := transaction_proof i; status := s; detected_at := detected_at i;
     retry_attempts := retry_attempts i; last_error := e |}.
Definition count_attempt (i : RollbackIssue) : RollbackIssue :=
  {| issue_id := issue_id i; disconnected_block_height := disconnected_block_height i;
     disconnected_block_hash := disconnected_block_hash i;
     transaction_index := transaction_index i;
     issue_transaction_hash := issue_transaction_hash i; family := family i;
     issue_affected_accounts := issue_affected_accounts i;
     issue_transaction := issue_transaction i; proof_context_id := proof_context_id i;
     transaction_proof := transaction_proof i; status := status i; detected_at := detected_at i;
     retry_attempts := saturating_add U32_MAX (retry_attempts i) 1;
     last_error := last_error i |}.

Lemma affected_accounts_elem tx a :
  a ∈ affected_accounts tx <->
  a = tx_signer tx \/
  match tx with
  | BatchTransfer t => exists o, o ∈ batch_outputs t /\ to o = ToAddress a
  | QCash t => exists ins, qcash_kind t = Redeem a ins
  end.
Proof.
  unfold affected_accounts. rewrite set_of_elem, elem_of_cons. f_equiv. destruct tx as [t|t].
  - rewrite list_elem_of_omap. split.
    + intros (o & Ho & Hs). exists o. split; [done|]. destruct (to o); cbn in Hs; congruence.
    + intros (o & Ho & Hs). exists o. by rewrite Hs.
  - destruct (qcash_kind t); rewrite ?list_elem_of_singleton; split; try set_solver; naive_solver.
Qed.
End recovery.
