(* ===== verification/Lmdb.v ===== *)
(** The key-value store under the node's storage: the [lmdb] crate as an interface.

    LMDB is third-party code: [Lmdb] lists the calls storage.rs makes, and [LmdbModel] states
    the documented behaviour they rely on (snapshot isolation, transactions that take effect
    at commit or not at all, cursors in key order). Every call may fail. [MapStore] is a
    concrete store that satisfies the interface. *)
From Stdlib Require Import ZArith Lia Sorted Permutation.
From stdpp Require Import base numbers option strings list gmap.
From S2P Require Import Prelude BTree PaqusCore.
Open Scope Z_scope.

(** The databases of [Storage]. *)
Inductive Db :=
| blocks_by_height | blocks_by_hash | headers_by_height | accounts | genesis_accounts
| tx_index | wtx_index | address_tx_index | miner_block_index | protocol_state | events_by_id
| block_event_index | transaction_event_index | address_event_index | rollback_issues
| rollback_proof_contexts | meta.
#[global] Instance db_eq_dec : EqDecision Db.
Proof. solve_decision. Defined.

Inductive LmdbError := LmdbNotFound | LmdbOther (n : Z).

Class Lmdb := {
  LmdbEnv : Type;
  RoTransaction : Type;
  RwTransaction : Type;
  begin_ro_txn : LmdbEnv -> Result LmdbError RoTransaction;
  begin_rw_txn : LmdbEnv -> Result LmdbError RwTransaction;
  txn_get : RoTransaction -> Db -> bytes -> Result LmdbError bytes;
  (** [open_ro_cursor(db)] and the items its [iter()] yields *)
  cursor_iter : RoTransaction -> Db -> Result LmdbError (list (Result LmdbError (bytes * bytes)));
  txn_put : Db -> bytes -> bytes -> ST RwTransaction LmdbError unit;
  txn_del : Db -> bytes -> ST RwTransaction LmdbError unit;
  txn_clear_db : Db -> ST RwTransaction LmdbError unit;
  txn_commit : RwTransaction -> ST LmdbEnv LmdbError unit;
  env_sync : LmdbEnv -> Result LmdbError unit
}.

Definition key_sorted (l : list (bytes * bytes)) : Prop :=
  StronglySorted (fun p q => cmp p.1 q.1 = Lt) l.

Class LmdbModel `{Lmdb} := {
  env_view : LmdbEnv -> Db -> bytes -> option bytes;
  ro_view : RoTransaction -> Db -> bytes -> option bytes;
  rw_view : RwTransaction -> Db -> bytes -> option bytes;
  begin_ro_ok e t : begin_ro_txn e = Ok t -> forall d k, ro_view t d k = env_view e d k;
  begin_rw_ok e t : begin_rw_txn e = Ok t -> forall d k, rw_view t d k = env_view e d k;
  get_found t d k v : txn_get t d k = Ok v -> ro_view t d k = Some v;
  get_not_found t d k : txn_get t d k = Err LmdbNotFound -> ro_view t d k = None;
  (** a cursor yields an initial part of the database in key order, all of it unless it fails *)
  cursor_items t d items : cursor_iter t d = Ok items ->
    exists full, key_sorted full /\ (forall k v, (k, v) ∈ full <-> ro_view t d k = Some v) /\
      forall l rest, items = map Ok l ++ rest ->
        l `prefix_of` full /\ (rest = [] -> l = full);
  put_ok d k v t t' : txn_put d k v t = (Ok tt, t') -> forall d' k',
    rw_view t' d' k' = if decide (d = d' /\ k = k') then Some v else rw_view t d' k';
  del_ok d k t t' : txn_del d k t = (Ok tt, t') -> forall d' k',
    rw_view t' d' k' = if decide (d = d' /\ k = k') then None else rw_view t d' k';
  del_err d k e t t' : txn_del d k t = (Err e, t') -> forall d' k',
    rw_view t' d' k' = rw_view t d' k' /\ (e = LmdbNotFound -> rw_view t d k = None);
  clear_ok d t t' : txn_clear_db d t = (Ok tt, t') -> forall d' k,
    rw_view t' d' k = if decide (d = d') then None else rw_view t d' k;
  commit_ok t e e' : txn_commit t e = (Ok tt, e') -> forall d k, env_view e' d k = rw_view t d k;
  commit_err t e er e' : txn_commit t e = (Err er, e') -> forall d k, env_view e' d k = env_view e d k
}.

(** Two environments hold the same data. *)
Definition same_data `{LmdbModel} (e1 e2 : LmdbEnv) : Prop :=
  forall d k, env_view e1 d k = env_view e2 d k.
#[global] Instance same_data_equiv `{LmdbModel} : Equivalence same_data.
Proof.
  split; [by intros e d k|by intros e1 e2 Heq d k|]. intros e1 e2 e3 H12 H23 d k. by rewrite H12.
Qed.

(** ** A store in memory *)

Module MapStore.
Definition Store : Type := Db -> gmap (list Z) (list Z).
Definition upd (d : Db) (f : gmap (list Z) (list Z) -> gmap (list Z) (list Z)) (s : Store) : Store :=
  fun d' => if decide (d = d') then f (s d') else s d'.
Definition listing (m : gmap (list Z) (list Z)) : list (list Z * list Z) :=
  sort_by (fun p q => cmp p.1 q.1) (map_to_list m).

#[global] Instance store : Lmdb := {
  LmdbEnv := Store;
  RoTransaction := Store;
  RwTransaction := Store;
  begin_ro_txn s := Ok s;
  begin_rw_txn s := Ok s;
  txn_get s d k := ok_or (s d !! k) LmdbNotFound;
  cursor_iter s d := Ok (map Ok (listing (s d)));
  txn_put d k v s := (Ok tt, upd d (insert k v) s);
  txn_del d k s :=
    match s d !! k with
    | Some _ => (Ok tt, upd d (delete k) s)
    | None => (Err LmdbNotFound, s)
    end;
  txn_clear_db d s := (Ok tt, upd d (fun _ => ∅) s);
  txn_commit t _ := (Ok tt, t);
  env_sync _ := Ok tt
}.

Lemma listing_elem m k v : (k, v) ∈ listing m <-> m !! k = Some v.
Proof. unfold listing. by rewrite elem_of_sort_by, elem_of_map_to_list. Qed.

Lemma listing_sorted m : key_sorted (listing m).
Proof.
  assert (Hnd : NoDup (listing m).*1).
  { unfold listing. rewrite sort_by_perm. apply NoDup_fst_map_to_list. }
  assert (Hs : StronglySorted (fun p q => cmp p.1 q.1 <> Gt) (listing m)).
  { apply sort_by_sorted; [intros x y; apply cmp_total|intros x y z; apply cmp_le_trans]. }
  unfold key_sorted. induction Hs as [|p l Hs IH Hf]; constructor.
  - apply IH. by apply NoDup_cons in Hnd as [_ ?].
  - apply NoDup_cons in Hnd as [Hn _]. rewrite Forall_forall in *. intros q Hq.
    destruct (cmp p.1 q.1) eqn:E; [|done|by apply Hf in Hq].
    apply cmp_eq in E. exfalso. apply Hn. rewrite E. by apply list_elem_of_fmap_2.
Qed.

Lemma map_Ok_app {E A} (l1 l2 : list A) (rest : list (Result E A)) :
  map Ok l1 = map Ok l2 ++ rest -> l2 `prefix_of` l1 /\ (rest = [] -> l2 = l1).
Proof.
  revert l1. induction l2 as [|x l2 IH]; intros l1; cbn.
  { intros <-. split; [apply prefix_nil|]. by destruct l1. }
  destruct l1 as [|y l1]; [done|]. cbn. intros [= -> Hl]. destruct (IH l1 Hl) as [Hp He].
  split; [by apply prefix_cons|]. intros Hr. by rewrite He.
Qed.

#[global] Instance store_model : LmdbModel.
Proof.
  refine (Build_LmdbModel store (fun s d k => s d !! k) (fun s d k => s d !! k)
    (fun s d k => s d !! k) _ _ _ _ _ _ _ _ _ _ _).
  - by intros e t [= <-].
  - by intros e t [= <-].
  - intros t d k v Hg. by apply ok_or_Ok in Hg.
  - intros t d k. cbn. by destruct (t d !! k).
  - intros t d items [= <-]. exists (listing (t d)). split_and!.
    + apply listing_sorted.
    + apply listing_elem.
    + intros l rest. apply map_Ok_app.
  - intros d k v t t' [= <-] d' k'. unfold upd. destruct (decide (d = d')) as [<-|Hd].
    + rewrite lookup_insert. destruct (decide (k = k')) as [<-|Hk].
      * by rewrite decide_True.
      * rewrite decide_False; [done|naive_solver].
    + rewrite decide_False; [done|naive_solver].
  - intros d k t t'. cbn. destruct (t d !! k); [|done]. intros [= <-] d' k'.
    unfold upd. destruct (decide (d = d')) as [<-|Hd].
    + rewrite lookup_delete. destruct (decide (k = k')) as [<-|Hk].
      * by rewrite decide_True.
      * rewrite decide_False; [done|naive_solver].
    + rewrite decide_False; [done|naive_solver].
  - intros d k e t t'. cbn. destruct (t d !! k) eqn:E; [done|]. by intros [= <- <-] d' k'.
  - intros d t t' [= <-] d' k. unfold upd. by destruct (decide (d = d')).
  - by intros t e e' [= <-].
  - done.
Defined.
End MapStore.
