(* ===== verification/Storage.v ===== *)
(** Persistent storage: node/src/runtime/storage/storage.rs and storage/error.rs.

    The state is the LMDB environment. A read opens a read-only transaction; a write runs in
    a read-write transaction that is committed at the end and dropped at the first error.
    [borsh] encodings are a parameter with one code ([Wire]) per stored type. *)
From Stdlib Require Import ZArith Lia Sorted.
From stdpp Require Import base numbers option strings list sets.
From S2P Require Import Prelude BTree PaqusCore Toy Recovery Lmdb.
Open Scope Z_scope.

Definition STORAGE_VERSION : Z := 1.
Definition PROTOCOL_STATE_KEY : bytes := ascii_bytes "current".
Definition TIP_HEIGHT_KEY : bytes := ascii_bytes "tip_height".
Definition TIP_HASH_KEY : bytes := ascii_bytes "tip_hash".
Definition STORAGE_VERSION_KEY : bytes := ascii_bytes "storage_version".
Definition CHECKPOINT_HEIGHT_KEY : bytes := ascii_bytes "checkpoint_height".
Definition GENESIS_ACCOUNTS_KEY : bytes := ascii_bytes "accounts".

Inductive StorageError :=
| Database (e : LmdbError)
| Io (e : IoError)
| StorageSerialization (e : IoError)
| StorageCodec (e : CodecError)
| Integrity (message : string)
| MissingStorageVersion
| UnsupportedStorageVersion (expected found : Z).

Record TransactionLocation := {
  tl_block_height : BlockHeight;
  tl_block_hash : BlockHash;
  tl_tx_index : Z;
  tl_family : TransactionFamily
}.
Record AddressTransactionLocation := {
  al_tx_hash : TransactionHash;
  al_block_height : BlockHeight;
  al_block_hash : BlockHash;
  al_tx_index : Z;
  al_sent : bool;
  al_family : TransactionFamily
}.
Record MinerBlockLocation := { ml_block_height : BlockHeight; ml_block_hash : BlockHash }.

(** ** Keys *)

Definition height_key (h : BlockHeight) : bytes := be_bytes 8 h.
Definition address_tx_key (a : Address) (h : BlockHeight) (tx_index : Z) (sent : bool) : bytes :=
  a ++ be_bytes 8 h ++ be_bytes 4 tx_index ++ [if sent then 1 else 0].
Definition block_event_key (hash : BlockHash) (event_index : Z) : bytes :=
  hash ++ be_bytes 4 event_index.
Definition transaction_event_key (hash : TransactionHash) (event_index : Z) : bytes :=
  hash ++ be_bytes 4 event_index.
Definition address_event_key (a : Address) (h : BlockHeight) (event_index : Z) : bytes :=
  a ++ be_bytes 8 h ++ be_bytes 4 event_index.
Definition miner_block_key (a : Address) (h : BlockHeight) : bytes := a ++ be_bytes 8 h.

(** [key.starts_with(prefix)] *)
Definition starts_with (key prefix : bytes) : bool :=
  bool_decide (take (length prefix) key = prefix).

Section types.
Context `{PaqusTypes}.

Record StoredProtocolState := {
  sp_qcash_utxos : QCashUtxoSet;
  sp_events_by_block : BTreeMap BlockHash (list ProtocolEvent)
}.

(** The types storage.rs encodes with borsh. *)
Inductive Wire : Type -> Type :=
| WVersion : Wire Z
| WHeight : Wire Z
| WHeader : Wire BlockHeader
| WAccount : Wire Account
| WTransactionLocation : Wire TransactionLocation
| WAddressLocation : Wire AddressTransactionLocation
| WMinerLocation : Wire MinerBlockLocation
| WProtocolState : Wire StoredProtocolState
| WEvent : Wire ProtocolEvent
| WEventId : Wire (list Z)
| WIssue : Wire RollbackIssue
| WContext : Wire RollbackProofContext
| WAccounts : Wire (BTreeMap Address Account).
End types.

Class Borsh `{PaqusTypes} := {
  borsh_to_vec : forall {T : Type}, Wire T -> T -> Result IoError bytes;
  try_from_slice : forall {T : Type}, Wire T -> bytes -> Result IoError T
}.
(** What is encoded decodes to the same value. *)
Class BorshLaws `{PaqusTypes} `{!Borsh} : Prop :=
  borsh_roundtrip T (w : Wire T) (v : T) b : borsh_to_vec w v = Ok b -> try_from_slice w b = Ok v.
(** The canonical block encoding of a structurally valid block decodes to it. *)
Class BlockCodecLaws `{PaqusTypes} `{!BlockOps} : Prop :=
  block_codec_roundtrip b raw :
    block_validate_structure b = Ok tt -> block_bytes b = Ok raw -> decode_block raw = Ok b.

Section storage.
Context `{PaqusTypes} `{!TxOps} `{!BlockOps} `{!LedgerOps} `{!EventOps} `{!GenesisOps}.
Context `{!Borsh} `{!Lmdb}.

Definition integrity {A} (m : string) : Result StorageError A := Err (Integrity m).

(** ** Helpers *)

Definition encode {T} (w : Wire T) (v : T) : Result StorageError bytes :=
  map_err StorageSerialization (borsh_to_vec w v).
Definition decode {T} (w : Wire T) (b : bytes) : Result StorageError T :=
  map_err StorageSerialization (try_from_slice w b).

Definition read_bytes (t : RoTransaction) (db : Db) (key : bytes)
    : Result StorageError (option bytes) :=
  match txn_get t db key with
  | Ok b => Ok (Some b)
  | Err LmdbNotFound => Ok None
  | Err e => Err (Database e)
  end.
Definition read_value {T} (w : Wire T) (t : RoTransaction) (db : Db) (key : bytes)
    : Result StorageError (option T) :=
  o ← read_bytes t db key;
  match o with
  | Some b => v ← decode w b; Ok (Some v)
  | None => Ok None
  end.

(** [txn.put(db, key, bytes, ..)?] *)
Definition put_bytes (db : Db) (key b : bytes) : ST RwTransaction StorageError unit :=
  st_map_err Database (txn_put db key b).
Definition put_value {T} (w : Wire T) (db : Db) (key : bytes) (v : T)
    : ST RwTransaction StorageError unit :=
  b ← st_lift (encode w v);
  put_bytes db key b.

Definition with_ro {A} (f : RoTransaction -> Result StorageError A) (env : LmdbEnv)
    : Result StorageError A :=
  t ← map_err Database (begin_ro_txn env);
  f t.
(** [let mut txn = env.begin_rw_txn()?; ..; txn.commit()?]: an error drops the transaction. *)
Definition with_rw (f : ST RwTransaction StorageError unit) : ST LmdbEnv StorageError unit :=
  env ← st_get;
  t ← st_lift (map_err Database (begin_rw_txn env));
  let '(r, t') := f t in
  st_lift r ;;
  st_map_err Database (txn_commit t').

Definition is_db_empty (t : RoTransaction) (db : Db) : Result StorageError bool :=
  items ← map_err Database (cursor_iter t db);
  Ok (match items with [] => true | _ => false end).

(** Consumes a cursor, [item?] first; [f] decides to skip, stop or keep the entry. *)
Inductive Scan (A : Type) := Skip | Stop | Keep (a : A).
Arguments Skip {A}.
Arguments Stop {A}.
Arguments Keep {A} a.
Fixpoint scan_items {A} (f : bytes -> bytes -> Result StorageError (Scan A))
    (items : list (Result LmdbError (bytes * bytes))) : Result StorageError (list A) :=
  match items with
  | [] => Ok []
  | item :: items =>
      kv ← map_err Database item;
      s ← f kv.1 kv.2;
      match s with
      | Skip => scan_items f items
      | Stop => Ok []
      | Keep a => rest ← scan_items f items; Ok (a :: rest)
      end
  end.

(** [if key < prefix { continue } if !key.starts_with(prefix) { break }] *)
Definition scan_prefix {A} (prefix : bytes) (g : bytes -> Result StorageError A)
    (key b : bytes) : Result StorageError (Scan A) :=
  match cmp key prefix with
  | Lt => Ok Skip
  | _ => if starts_with key prefix then a ← g b; Ok (Keep a) else Ok Stop
  end.

Definition validate_block_for_storage (b : Block) : Result StorageError unit :=
  map_err (fun _ => Integrity "refusing to store an invalid block") (block_validate_structure b).
Definition decode_stored_block (b : bytes) : Result StorageError Block :=
  map_err (fun _ => Integrity "stored block failed validation") (decode_block b).
Definition invalid_data (message : string) : StorageError :=
  StorageSerialization {| io_kind := InvalidData; io_text := message |}.
Definition protocol_transactions (b : Block) : list SignedProtocolTransaction :=
  block_transactions b.
(** [block.hash()?] *)
Definition stored_hash (b : Block) : Result StorageError BlockHash :=
  map_err StorageCodec (block_hash b).

Definition transaction_addresses (tx : SignedProtocolTransaction) : list (Address * bool) :=
  let signer := tx_signer tx in
  let recipients :=
    match tx with
    | BatchTransfer t => omap (fun o => target_address (to o)) (batch_outputs t)
    | QCash t =>
        match qcash_kind t with
        | Redeem recipient _ => [recipient]
        | RecoverRedeem claimant _ => [claimant]
        | _ => []
        end
    end in
  (signer, true) ::
    map (fun r => (r, false)) (List.filter (fun r => negb (bool_decide (r = signer))) recipients).

Definition event_addresses (kind : ProtocolEventKind) : list Address :=
  bt_keys (set_of
    match kind with
    | EventBatchTransfer from to => [from; to]
    | QCashWithdrawn signer => [signer]
    | QCashRedeemed signer recipient => [signer; recipient]
    | QCashRecoverRedeemed signer claimant => [signer; claimant]
    | EventGenesisAllocation recipient => [recipient]
    | CoinbasePaid miner => [miner]
    end).

Definition validate_rollback_issue (i : RollbackIssue) (expected_id : option RollbackIssueId)
    : Result StorageError unit :=
  h ← map_err StorageCodec (tx_hash (issue_transaction i));
  id ← map_err StorageCodec (issue_id_for_transaction (disconnected_block_hash i) h);
  if negb (bool_decide (issue_transaction_hash i = h))
     || negb (bool_decide (issue_id i = id))
     || match expected_id with Some e => negb (bool_decide (e = id)) | None => false end
  then integrity "stored rollback issue transaction identity is invalid"
  else Ok tt.

Definition genesis_accounts_from_ledger (ledger : Ledger) (b : Block)
    : Result StorageError (BTreeMap Address Account) :=
  if negb (block_height b =? 0) then integrity "genesis account source block is not height 0" else
  let '(r, genesis_ledger) := ledger_apply_block b ledger_new in
  if is_err r then
    if bool_decide (ledger_tip_height ledger = Some 0) then Ok (ledger_accounts ledger)
    else integrity "stored genesis block is invalid"
  else Ok (ledger_accounts genesis_ledger).

(** ** Version *)

Definition load_storage_version (env : LmdbEnv) : Result StorageError (option Z) :=
  with_ro (fun t => read_value WVersion t meta STORAGE_VERSION_KEY) env.
Definition save_storage_version (version : Z) : ST LmdbEnv StorageError unit :=
  with_rw (put_value WVersion meta STORAGE_VERSION_KEY version).
Definition flush (env : LmdbEnv) : Result StorageError unit :=
  map_err Database (env_sync env).

(** Lazy conjunction of fallible tests. *)
Fixpoint all_empty (t : RoTransaction) (dbs : list Db) : Result StorageError bool :=
  match dbs with
  | [] => Ok true
  | db :: dbs => e ← is_db_empty t db; if (e : bool) then all_empty t dbs else Ok false
  end.
Definition is_empty_database (env : LmdbEnv) : Result StorageError bool :=
  with_ro (fun t => all_empty t
    [blocks_by_height; blocks_by_hash; headers_by_height; accounts; genesis_accounts; tx_index;
     wtx_index; address_tx_index; miner_block_index; events_by_id; block_event_index;
     transaction_event_index; address_event_index; rollback_issues; rollback_proof_contexts]) env.

Definition ensure_storage_version : ST LmdbEnv StorageError unit :=
  env ← st_get;
  v ← st_lift (load_storage_version env);
  match v with
  | Some found =>
      if found =? STORAGE_VERSION then mret tt
      else st_fail (UnsupportedStorageVersion STORAGE_VERSION found)
  | None =>
      e ← st_lift (is_empty_database env);
      if (e : bool) then
        save_storage_version STORAGE_VERSION ;;
        env ← st_get;
        st_lift (flush env)
      else st_fail MissingStorageVersion
  end.

(** ** Blocks and their indexes *)

Definition index_miner_block (b : Block) : ST RwTransaction StorageError unit :=
  match block_coinbase b with
  | None => mret tt
  | Some _ =>
      h ← st_lift (stored_hash b);
      put_value WMinerLocation miner_block_index
        (miner_block_key (block_miner_address b) (block_height b))
        {| ml_block_height := block_height b; ml_block_hash := h |}
  end.

(** One turn of the loop of [index_block_transactions]. *)
Definition index_transaction (b : Block) (hash : BlockHash)
    (p : nat * SignedProtocolTransaction) : ST RwTransaction StorageError unit :=
  let '(index, tx) := p in
  let i := Z.of_nat index in
  if U32_MAX <? i then st_fail (Integrity "transaction index exceeds u32") else
  h ← st_lift (map_err StorageCodec (tx_hash tx));
  let location := {| tl_block_height := block_height b; tl_block_hash := hash;
                     tl_tx_index := i; tl_family := tx_family tx |} in
  put_value WTransactionLocation tx_index h location ;;
  put_value WTransactionLocation wtx_index h location ;;
  st_for (fun a : Address * bool =>
    put_value WAddressLocation address_tx_index
      (address_tx_key a.1 (block_height b) i a.2)
      {| al_tx_hash := h; al_block_height := block_height b; al_block_hash := hash;
         al_tx_index := i; al_sent := a.2; al_family := tx_family tx |})
    (transaction_addresses tx).

(** [iter().enumerate()] *)
Definition enumerate {A} (l : list A) : list (nat * A) := imap pair l.

Definition index_block_transactions (b : Block) : ST RwTransaction StorageError unit :=
  h ← st_lift (stored_hash b);
  st_for (index_transaction b h) (enumerate (protocol_transactions b)).

Definition index_event (e : ProtocolEvent) : ST RwTransaction StorageError unit :=
  if negb (event_validate e) then st_fail (Integrity "invalid protocol event") else
  id ← st_lift (map_err StorageCodec (event_id e));
  put_value WEvent events_by_id id e ;;
  put_value WEventId block_event_index
    (block_event_key (event_block_hash e) (event_event_index e)) id ;;
  match event_transaction_hash e with
  | Some h => put_value WEventId transaction_event_index
                (transaction_event_key h (event_event_index e)) id
  | None => mret tt
  end ;;
  st_for (fun a => put_value WEventId address_event_index
      (address_event_key a (event_block_height e) (event_event_index e)) id)
    (event_addresses (event_kind e)).
Definition index_protocol_events (events : list ProtocolEvent)
    : ST RwTransaction StorageError unit :=
  st_for index_event events.

Definition save_block (b : Block) : ST LmdbEnv StorageError unit :=
  st_lift (validate_block_for_storage b) ;;
  raw ← st_lift (map_err StorageCodec (block_bytes b));
  h ← st_lift (stored_hash b);
  with_rw (
    put_bytes blocks_by_height (height_key (block_height b)) raw ;;
    put_bytes blocks_by_hash h raw ;;
    put_value WHeader headers_by_height (height_key (block_height b)) (header b) ;;
    index_block_transactions b ;;
    index_miner_block b).

Definition save_side_block (b : Block) : ST LmdbEnv StorageError unit :=
  st_lift (validate_block_for_storage b) ;;
  raw ← st_lift (map_err StorageCodec (block_bytes b));
  h ← st_lift (stored_hash b);
  with_rw (put_bytes blocks_by_hash h raw).

(** ** Reading *)

Definition load_block_by_height (height : BlockHeight) (env : LmdbEnv)
    : Result StorageError (option Block) :=
  with_ro (fun t =>
    o ← read_bytes t blocks_by_height (height_key height);
    match o with
    | Some raw =>
        b ← decode_stored_block raw;
        if negb (block_height b =? height)
        then integrity "stored block height does not match height key"
        else Ok (Some b)
    | None => Ok None
    end) env.

Definition load_header_by_height (height : BlockHeight) (env : LmdbEnv)
    : Result StorageError (option BlockHeader) :=
  stored ← with_ro (fun t => read_value WHeader t headers_by_height (height_key height)) env;
  header ← match stored with
           | Some h => Ok (Some h)
           | None => o ← load_block_by_height height env; Ok (option_map header o)
           end;
  match header with
  | Some h =>
      if negb (header_height h =? height)
      then integrity "stored header height does not match height key"
      else Ok (Some h)
  | None => Ok None
  end.

Definition load_block_by_hash (hash : BlockHash) (env : LmdbEnv)
    : Result StorageError (option Block) :=
  with_ro (fun t =>
    o ← read_bytes t blocks_by_hash hash;
    match o with
    | Some raw =>
        b ← decode_stored_block raw;
        h ← stored_hash b;
        if negb (bool_decide (h = hash)) then integrity "stored block hash does not match hash key"
        else Ok (Some b)
    | None => Ok None
    end) env.

Definition load_blocks_by_hash (env : LmdbEnv) : Result StorageError (list Block) :=
  with_ro (fun t =>
    items ← map_err Database (cursor_iter t blocks_by_hash);
    scan_items (fun _ raw => b ← decode_stored_block raw; Ok (Keep b)) items) env.

Definition load_transaction_location (hash : TransactionHash) (env : LmdbEnv)
    : Result StorageError (option TransactionLocation) :=
  with_ro (fun t => read_value WTransactionLocation t tx_index hash) env.
Definition load_auth_transaction_location (hash : TransactionHash) (env : LmdbEnv)
    : Result StorageError (option TransactionLocation) :=
  with_ro (fun t => read_value WTransactionLocation t wtx_index hash) env.

(** The body [load_protocol_transaction] and [.._by_auth_hash] share, up to messages. *)
Definition load_located (missing mismatch position different : string)
    (location : option TransactionLocation) (hash : TransactionHash) (env : LmdbEnv)
    : Result StorageError (option (TransactionLocation * SignedProtocolTransaction)) :=
  match location with
  | None => Ok None
  | Some location =>
      o ← load_block_by_height (tl_block_height location) env;
      match o with
      | None => integrity missing
      | Some b =>
          h ← stored_hash b;
          if negb (bool_decide (h = tl_block_hash location)) then integrity mismatch else
          tx ← ok_or (protocol_transactions b !! Z.to_nat (tl_tx_index location))
                 (Integrity position);
          th ← map_err StorageCodec (tx_hash tx);
          if negb (bool_decide (th = hash))
             || negb (bool_decide (tx_family tx = tl_family location))
          then integrity different
          else Ok (Some (location, tx))
      end
  end.
Definition load_protocol_transaction (hash : TransactionHash) (env : LmdbEnv)
    : Result StorageError (option (TransactionLocation * SignedProtocolTransaction)) :=
  location ← load_transaction_location hash env;
  load_located "indexed transaction block is missing" "indexed transaction block hash mismatch"
    "indexed transaction position is missing" "indexed transaction does not match its location"
    location hash env.
Definition load_protocol_transaction_by_auth_hash (hash : TransactionHash) (env : LmdbEnv)
    : Result StorageError (option (TransactionLocation * SignedProtocolTransaction)) :=
  location ← load_auth_transaction_location hash env;
  load_located "indexed authorization transaction block is missing"
    "indexed authorization transaction block hash mismatch"
    "indexed authorization transaction position is missing"
    "indexed authorization transaction does not match its location"
    location hash env.
Definition load_transaction (hash : TransactionHash) (env : LmdbEnv)
    : Result StorageError (option (TransactionLocation * SignedBatchTransfer)) :=
  o ← load_protocol_transaction hash env;
  Ok (match o with
      | Some (location, BatchTransfer t) => Some (location, t)
      | _ => None
      end).

Definition load_address_transaction_locations (a : Address) (env : LmdbEnv)
    : Result StorageError (list AddressTransactionLocation) :=
  with_ro (fun t =>
    items ← map_err Database (cursor_iter t address_tx_index);
    locations ← scan_items (scan_prefix a (decode WAddressLocation)) items;
    Ok (sort_by (fun l r => cmp (al_block_height l, (al_tx_index l, al_sent l))
                                (al_block_height r, (al_tx_index r, al_sent r))) locations)) env.
Definition load_miner_block_locations (a : Address) (env : LmdbEnv)
    : Result StorageError (list MinerBlockLocation) :=
  with_ro (fun t =>
    items ← map_err Database (cursor_iter t miner_block_index);
    locations ← scan_items (scan_prefix a (decode WMinerLocation)) items;
    Ok (sort_by (fun l r => cmp (ml_block_height l) (ml_block_height r)) locations)) env.

(** ** Events *)

Definition load_protocol_event (id : Hash) (env : LmdbEnv)
    : Result StorageError (option ProtocolEvent) :=
  with_ro (fun t =>
    o ← read_value WEvent t events_by_id id;
    match o with
    | Some e =>
        if negb (event_validate e)
           || negb (match event_id e with Ok i => bool_decide (i = id) | Err _ => false end)
        then integrity "stored protocol event is invalid"
        else Ok (Some e)
    | None => Ok None
    end) env.

Definition load_indexed_events (db : Db) (prefix : bytes) (env : LmdbEnv)
    : Result StorageError (list ProtocolEvent) :=
  with_ro (fun t =>
    items ← map_err Database (cursor_iter t db);
    events ← scan_items (scan_prefix prefix (fun raw =>
      id ← decode WEventId raw;
      o ← read_value WEvent t events_by_id id;
      e ← ok_or o (Integrity "indexed protocol event is missing");
      if negb (event_validate e) then integrity "indexed protocol event is invalid" else
      i ← map_err StorageCodec (event_id e);
      if negb (bool_decide (i = id)) then integrity "indexed protocol event is invalid"
      else Ok e)) items;
    Ok (sort_by (fun l r => cmp (event_block_height l, event_event_index l)
                                (event_block_height r, event_event_index r)) events)) env.
Definition load_block_events (hash : BlockHash) := load_indexed_events block_event_index hash.
Definition load_transaction_events (hash : TransactionHash) :=
  load_indexed_events transaction_event_index hash.
Definition load_address_events (a : Address) := load_indexed_events address_event_index a.

(** ** Accounts, rollback records, tip *)

Definition save_account (a : Account) : ST LmdbEnv StorageError unit :=
  with_rw (put_value WAccount accounts (account_address a) a).
Definition load_account (a : Address) (env : LmdbEnv) : Result StorageError (option Account) :=
  with_ro (fun t => read_value WAccount t accounts a) env.

Definition save_rollback_issue (i : RollbackIssue) : ST LmdbEnv StorageError unit :=
  st_lift (validate_rollback_issue i None) ;;
  with_rw (put_value WIssue rollback_issues (issue_id i) i).
Definition load_rollback_issue (id : RollbackIssueId) (env : LmdbEnv)
    : Result StorageError (option RollbackIssue) :=
  with_ro (fun t =>
    o ← read_value WIssue t rollback_issues id;
    match o with
    | Some i => validate_rollback_issue i (Some id) ;; Ok (Some i)
    | None => Ok None
    end) env.
Definition load_rollback_issues (env : LmdbEnv) : Result StorageError (list RollbackIssue) :=
  with_ro (fun t =>
    items ← map_err Database (cursor_iter t rollback_issues);
    issues ← scan_items (fun key raw =>
      i ← decode WIssue raw;
      validate_rollback_issue i None ;;
      if negb (bool_decide (key = issue_id i))
      then integrity "stored rollback issue key is invalid"
      else Ok (Keep i)) items;
    Ok (sort_by (fun l r =>
          cmp (disconnected_block_height l, (transaction_index l, issue_id l))
              (disconnected_block_height r, (transaction_index r, issue_id r))) issues)) env.

Definition context_expected (c : RollbackProofContext)
    : Result StorageError RollbackProofContext :=
  map_err StorageCodec
    (RollbackProofContext_new (losing_headers c) (canonical_headers c) (common_ancestor c)).
Definition save_rollback_proof_context (c : RollbackProofContext)
    : ST LmdbEnv StorageError unit :=
  expected ← st_lift (context_expected c);
  if negb (bool_decide (ctx_id expected = ctx_id c))
  then st_fail (Integrity "rollback proof context id is invalid")
  else with_rw (put_value WContext rollback_proof_contexts (ctx_id c) c).
Definition load_rollback_proof_context (id : RollbackProofContextId) (env : LmdbEnv)
    : Result StorageError (option RollbackProofContext) :=
  with_ro (fun t =>
    o ← read_value WContext t rollback_proof_contexts id;
    match o with
    | Some c =>
        expected ← context_expected c;
        if negb (bool_decide (ctx_id expected = id)) || negb (bool_decide (ctx_id c = id))
        then integrity "stored rollback proof context id is invalid"
        else Ok (Some c)
    | None => Ok None
    end) env.

Definition save_genesis_accounts (accs : BTreeMap Address Account)
    : ST LmdbEnv StorageError unit :=
  with_rw (put_value WAccounts genesis_accounts GENESIS_ACCOUNTS_KEY accs).
Definition load_genesis_accounts (env : LmdbEnv)
    : Result StorageError (option (BTreeMap Address Account)) :=
  with_ro (fun t => read_value WAccounts t genesis_accounts GENESIS_ACCOUNTS_KEY) env.

Definition put_tip (height : BlockHeight) (hash : BlockHash)
    : ST RwTransaction StorageError unit :=
  put_value WHeight meta TIP_HEIGHT_KEY height ;;
  put_bytes meta TIP_HASH_KEY hash.
Definition save_tip (height : BlockHeight) (hash : BlockHash) : ST LmdbEnv StorageError unit :=
  with_rw (put_tip height hash).
Definition load_tip (env : LmdbEnv) : Result StorageError (option (BlockHeight * BlockHash)) :=
  with_ro (fun t =>
    ho ← read_bytes t meta TIP_HEIGHT_KEY;
    match ho with
    | None => Ok None
    | Some height_bytes =>
        bo ← read_bytes t meta TIP_HASH_KEY;
        match bo with
        | None => Ok None
        | Some hash =>
            height ← decode WHeight height_bytes;
            if negb (length hash =? HASH_SIZE)%nat
            then Err (invalid_data "stored tip hash has invalid length")
            else Ok (Some (height, hash))
        end
    end) env.

(** ** The whole ledger *)

Definition clear (db : Db) : ST RwTransaction StorageError unit :=
  st_map_err Database (txn_clear_db db).

(** One block of the loop of [save_ledger]. *)
Definition put_chain_block (ledger : Ledger) (b : Block) : ST RwTransaction StorageError unit :=
  st_lift (validate_block_for_storage b) ;;
  raw ← st_lift (map_err StorageCodec (block_bytes b));
  h ← st_lift (stored_hash b);
  put_bytes blocks_by_height (height_key (block_height b)) raw ;;
  put_bytes blocks_by_hash h raw ;;
  index_block_transactions b ;;
  index_miner_block b ;;
  index_protocol_events (ledger_events_for_block ledger h).

Definition ledger_tables : list Db :=
  [blocks_by_height; headers_by_height; accounts; tx_index; wtx_index; address_tx_index;
   miner_block_index; events_by_id; block_event_index; transaction_event_index;
   address_event_index].

(** The transaction of [save_ledger]. *)
Definition write_ledger (ledger : Ledger) (genesis : option (BTreeMap Address Account))
    : ST RwTransaction StorageError unit :=
  st_for clear ledger_tables ;;
  st_for (fun a => put_value WAccount accounts (account_address a) a)
    (bt_values (ledger_accounts ledger)) ;;
  st_for (fun h => put_value WHeader headers_by_height (height_key (header_height h)) h)
    (bt_values (chain_headers ledger)) ;;
  st_for (put_chain_block ledger) (bt_values (chain_blocks ledger)) ;;
  match ledger_tip_height ledger, ledger_tip_hash ledger with
  | Some height, Some hash => put_tip height hash
  | _, _ => mret tt
  end ;;
  match chain_checkpoint_height ledger with
  | Some height => put_value WHeight meta CHECKPOINT_HEIGHT_KEY height
  | None =>
      (* [let _ = txn.del(..)]: the outcome is ignored *)
      fun t => (Ok tt, (txn_del meta CHECKPOINT_HEIGHT_KEY t).2)
  end ;;
  put_value WProtocolState protocol_state PROTOCOL_STATE_KEY
    {| sp_qcash_utxos := ledger_qcash_utxos ledger;
       sp_events_by_block := ledger_events_by_block ledger |} ;;
  match genesis with
  | Some accs => put_value WAccounts genesis_accounts GENESIS_ACCOUNTS_KEY accs
  | None => mret tt
  end.

Definition save_ledger (ledger : Ledger) : ST LmdbEnv StorageError unit :=
  genesis ← st_lift (match chain_block ledger 0 with
                     | Some b => accs ← genesis_accounts_from_ledger ledger b; Ok (Some accs)
                     | None => Ok None
                     end);
  with_rw (write_ledger ledger genesis) ;;
  env ← st_get;
  st_lift (flush env).

Definition load_accounts (env : LmdbEnv) : Result StorageError (BTreeMap Address Account) :=
  with_ro (fun t =>
    items ← map_err Database (cursor_iter t accounts);
    l ← scan_items (fun key raw =>
      a ← decode WAccount raw;
      if negb (bool_decide (account_address a = key))
      then integrity "stored account address does not match account key"
      else Ok (Keep a)) items;
    Ok (fold_left (fun m a => <[account_address a := a]> m) l ∅)) env.

Definition load_checkpoint_height (env : LmdbEnv) : Result StorageError (option BlockHeight) :=
  with_ro (fun t => read_value WHeight t meta CHECKPOINT_HEIGHT_KEY) env.

Definition heights_to (tip : BlockHeight) : list BlockHeight :=
  map Z.of_nat (seq 0 (S (Z.to_nat tip))).

Definition difficulty_window (tip_height : BlockHeight) (window : Z) (env : LmdbEnv)
    : Result StorageError (option (Z * Z * Z * Z)) :=
  if (window =? 0) || (tip_height <? window) then Ok None else
  tip ← load_header_by_height tip_height env;
  match tip with
  | None => Ok None
  | Some tip =>
      let first_height := tip_height - window in
      first ← load_header_by_height first_height env;
      match first with
      | None => Ok None
      | Some first =>
          Ok (Some (header_height first, header_height tip,
            saturating_sub tip_height first_height, header_difficulty tip))
      end
  end.

(** The loop [for height in (0..=tip_height.0).rev()] over blocks, from height [n]. *)
Fixpoint check_block_chain (n : nat) (expected_hash : BlockHash) (env : LmdbEnv)
    : Result StorageError unit :=
  o ← load_block_by_height (Z.of_nat n) env;
  b ← ok_or o (Integrity "stored chain block is missing");
  h ← stored_hash b;
  if negb (bool_decide (h = expected_hash))
  then integrity "stored chain block hash does not match expected hash" else
  match n with
  | O =>
      if negb (bool_decide (block_previous_hash b = zero_hash))
      then integrity "stored genesis block previous hash is not zero"
      else Ok tt
  | S n' =>
      o ← load_block_by_height (Z.of_nat n') env;
      previous ← ok_or o (Integrity "stored previous chain block is missing");
      ph ← stored_hash previous;
      if negb (bool_decide (block_previous_hash b = ph))
      then integrity "stored chain block previous hash is broken"
      else check_block_chain n' ph env
  end.

(** The same loop over headers, for a chain with a checkpoint. *)
Fixpoint check_header_chain (n : nat) (expected_hash : BlockHash) (env : LmdbEnv)
    : Result StorageError unit :=
  o ← load_header_by_height (Z.of_nat n) env;
  hd ← ok_or o (Integrity "stored chain header is missing");
  h ← map_err StorageCodec (header_hash hd);
  if negb (bool_decide (h = expected_hash))
  then integrity "stored chain header hash does not match expected hash" else
  match n with
  | O =>
      if negb (bool_decide (header_previous_hash hd = zero_hash))
      then integrity "stored genesis block previous hash is not zero"
      else Ok tt
  | S n' =>
      o ← load_header_by_height (Z.of_nat n') env;
      previous ← ok_or o (Integrity "stored previous chain header is missing");
      ph ← map_err StorageCodec (header_hash previous);
      if negb (bool_decide (header_previous_hash hd = ph))
      then integrity "stored chain block previous hash is broken"
      else check_header_chain n' ph env
  end.

Definition validate_chain_integrity (env : LmdbEnv) : Result StorageError unit :=
  tip ← load_tip env;
  match tip with
  | None => Ok tt
  | Some (tip_height, tip_hash) =>
      checkpoint ← load_checkpoint_height env;
      match checkpoint with
      | None =>
          o ← load_block_by_height tip_height env;
          tip_block ← ok_or o (Integrity "stored tip height block is missing");
          h ← stored_hash tip_block;
          if negb (bool_decide (h = tip_hash))
          then integrity "stored tip hash does not match tip height block"
          else check_block_chain (Z.to_nat tip_height) tip_hash env
      | Some _ =>
          o ← load_header_by_height tip_height env;
          tip_header ← ok_or o (Integrity "stored tip height header is missing");
          h ← map_err StorageCodec (header_hash tip_header);
          if negb (bool_decide (h = tip_hash))
          then integrity "stored tip hash does not match tip height header"
          else check_header_chain (Z.to_nat tip_height) tip_hash env
      end
  end.

(** [..map_err(|_| StorageError::Integrity(m))] on a ledger call *)
Definition or_integrity {A} (m : string) (f : ST Ledger LedgerError A) : ST Ledger StorageError A :=
  st_map_err (fun _ => Integrity m) f.

(** The chain part of [load_ledger]. *)
Definition restore_chain (env : LmdbEnv) : ST Ledger StorageError unit :=
  tip ← st_lift (load_tip env);
  match tip with
  | None => mret tt
  | Some (tip_height, _) =>
      checkpoint ← st_lift (load_checkpoint_height env);
      match checkpoint with
      | Some checkpoint_height =>
          headers ← st_lift (collect_result (fun height =>
              o ← load_header_by_height height env;
              ok_or o (Integrity "stored chain header is missing")) (heights_to tip_height));
          or_integrity "stored authenticated header chain is invalid"
            (ledger_restore_authenticated_headers headers checkpoint_height) ;;
          st_for (fun height =>
            o ← st_lift (load_block_by_height height env);
            match o with
            | Some b => or_integrity "stored block body does not match its header"
                          (ledger_attach_stored_block_body b)
            | None => mret tt
            end) (heights_to tip_height)
      | None =>
          st_for (fun height =>
            o ← st_lift (load_block_by_height height env);
            b ← st_lift (ok_or o (Integrity "stored chain block is missing"));
            or_integrity "stored chain block is invalid" (chain_insert_block b))
            (heights_to tip_height)
      end
  end.

(** The last check of [load_ledger]: the state root of the rebuilt ledger. *)
Definition check_tip_root (ledger : Ledger) : Result StorageError unit :=
  match ledger_tip_height ledger with
  | None => Ok tt
  | Some tip_height =>
      tip ← ok_or (chain_header ledger tip_height) (Integrity "stored canonical tip is missing");
      expected ←
        (if header_height tip =? 0 then Ok (ledger_state_root ledger)
         else map_err (fun _ => Integrity "failed to rebuild stored protocol state root")
                (ledger_protocol_state_root ledger));
      if negb (bool_decide (header_state_root tip = expected))
      then integrity "stored ledger state root does not match canonical tip"
      else Ok tt
  end.

(** What [load_ledger] rebuilds from the environment. *)
Definition rebuild_ledger (env : LmdbEnv) : Result StorageError Ledger :=
  validate_chain_integrity env ;;
  accs ← load_accounts env;
  let '(r, ledger) :=
    or_integrity "failed to rebuild account state tree" (ledger_replace_accounts accs) ledger_new in
  r ;;
  state ← with_ro (fun t => read_value WProtocolState t protocol_state PROTOCOL_STATE_KEY) env;
  let ledger := match state with
                | Some s => ledger_set_protocol_state (sp_qcash_utxos s) (sp_events_by_block s) ledger
                | None => ledger
                end in
  let '(r, ledger) := restore_chain env ledger in
  r ;;
  map_err (fun _ => Integrity "stored ledger supply is invalid") (ledger_validate_supply ledger) ;;
  check_tip_root ledger ;;
  Ok ledger.
Definition load_ledger : ST LmdbEnv StorageError Ledger :=
  ensure_storage_version ;;
  env ← st_get;
  st_lift (rebuild_ledger env).
End storage.
Arguments Skip {A}.
Arguments Stop {A}.
Arguments Keep {A} a.
