(* ===== verification/StorageLogic.v ===== *)
(** A small logic for storage transactions: which entries a program may change ([writes]),
    sets ([sets]) and keeps ([keeps]), and what a commit or a failure leaves behind. *)
From Stdlib Require Import ZArith Lia Sorted.
From stdpp Require Import base numbers option strings list sets.
From S2P Require Import Prelude BTree PaqusCore Recovery Lmdb Storage.
Open Scope Z_scope.

Section logic.
Context `{PaqusTypes} `{!Borsh} `{!Lmdb} `{!LmdbModel}.
Abbreviation Program := (ST RwTransaction StorageError unit).

(** Where [m] succeeds, every entry is as before or one [W] allows. *)
Definition writes (W : Db -> bytes -> option bytes -> Prop) (m : Program) : Prop :=
  forall t t', m t = (Ok tt, t') -> forall d k,
    rw_view t' d k = rw_view t d k \/ W d k (rw_view t' d k).
(** Where [m] succeeds, the entry satisfies [Q]. *)
Definition sets (d : Db) (k : bytes) (Q : option bytes -> Prop) (m : Program) : Prop :=
  forall t t', m t = (Ok tt, t') -> Q (rw_view t' d k).
Definition keeps (d : Db) (k : bytes) (Q : option bytes -> Prop) (m : Program) : Prop :=
  forall t t', m t = (Ok tt, t') -> Q (rw_view t d k) -> Q (rw_view t' d k).

Lemma program_bind_inv (m1 m2 : Program) t t' :
  (m1 ;; m2) t = (Ok tt, t') -> exists t1, m1 t = (Ok tt, t1) /\ m2 t1 = (Ok tt, t').
Proof. intros Hr. apply st_bind_inv in Hr as [(e & _ & [=])|([] & t1 & ? & ?)]. eauto. Qed.

Lemma writes_weaken W1 W2 m : writes W1 m -> (forall d k o, W1 d k o -> W2 d k o) -> writes W2 m.
Proof. intros Hw Hi t t' Hr d k. destruct (Hw t t' Hr d k); auto. Qed.
Lemma writes_ret W : writes W (mret tt).
Proof. intros t t' [= <-] d k. by left. Qed.
Lemma writes_fail W e : writes W (st_fail e).
Proof. intros t t' [=]. Qed.
Lemma writes_lift W {A} (r : Result StorageError A) (k : A -> Program) :
  (forall a, r = Ok a -> writes W (k a)) -> writes W (st_lift r ≫= k).
Proof.
  intros Hk t t' Hr. destruct r as [a|e]; [|by rewrite st_bind_lift_err in Hr].
  rewrite st_bind_lift_ok in Hr. by apply (Hk a).
Qed.
Lemma writes_bind W (m1 m2 : Program) : writes W m1 -> writes W m2 -> writes W (m1 ;; m2).
Proof.
  intros Hm1 Hm2 t t' Hr d k. apply program_bind_inv in Hr as (t1 & Hr1 & Hr2).
  destruct (Hm2 _ _ Hr2 d k) as [Heq|]; [|by right]. rewrite Heq. by apply Hm1.
Qed.
Lemma writes_for W {A} (f : A -> Program) l :
  (forall x, x ∈ l -> writes W (f x)) -> writes W (st_for f l).
Proof.
  induction l as [|x l IH]; intros Hf; cbn [st_for]; [apply writes_ret|].
  apply writes_bind; [apply Hf; by left|]. apply IH. intros y Hy. apply Hf. by right.
Qed.
Lemma put_bytes_inv d k v t t' :
  put_bytes d k v t = (Ok tt, t') -> txn_put d k v t = (Ok tt, t').
Proof. unfold put_bytes, st_map_err. destruct (txn_put d k v t) as [[[]|]]; cbn; congruence. Qed.
Lemma writes_put_bytes (W : Db -> bytes -> option bytes -> Prop) d k v :
  W d k (Some v) -> writes W (put_bytes d k v).
Proof.
  intros Hw t t' Hr d' k'. apply put_bytes_inv in Hr. rewrite (put_ok _ _ _ _ _ Hr d' k').
  case_decide as Hd; [|by left]. destruct Hd as [<- <-]. by right.
Qed.
Lemma writes_put_value {T} (W : Db -> bytes -> option bytes -> Prop) (w : Wire T) d k v :
  (forall raw, borsh_to_vec w v = Ok raw -> W d k (Some raw)) -> writes W (put_value w d k v).
Proof.
  intros Hw. apply writes_lift. intros raw Hraw. apply map_err_Ok in Hraw.
  apply writes_put_bytes. auto.
Qed.

(** What [m] cannot touch, it keeps. *)
Lemma keeps_writes W d k Q m : writes W m -> (forall o, W d k o -> Q o) -> keeps d k Q m.
Proof. intros Hw Hq t t' Hr Hk. destruct (Hw t t' Hr d k) as [->|]; auto. Qed.

Lemma sets_bind_l d k Q (m1 m2 : Program) : sets d k Q m1 -> keeps d k Q m2 -> sets d k Q (m1 ;; m2).
Proof. intros Hm1 Hm2 t t' Hr. apply program_bind_inv in Hr as (t1 & ? & ?). eauto. Qed.
Lemma sets_bind_r d k Q (m1 m2 : Program) : sets d k Q m2 -> sets d k Q (m1 ;; m2).
Proof. intros Hm2 t t' Hr. apply program_bind_inv in Hr as (t1 & ? & ?). eauto. Qed.
Lemma sets_lift d k Q {A} (r : Result StorageError A) (f : A -> Program) :
  (forall a, r = Ok a -> sets d k Q (f a)) -> sets d k Q (st_lift r ≫= f).
Proof.
  intros Hf t t' Hr. destruct r as [a|e]; [|by rewrite st_bind_lift_err in Hr].
  rewrite st_bind_lift_ok in Hr. by apply (Hf a) in Hr.
Qed.
Lemma sets_for d k Q {A} (f : A -> Program) l x :
  x ∈ l -> sets d k Q (f x) -> (forall y, y ∈ l -> keeps d k Q (f y)) -> sets d k Q (st_for f l).
Proof.
  intros Hx Hs Hk. induction l as [|y l IH]; [by apply elem_of_nil in Hx|]. cbn [st_for].
  apply elem_of_cons in Hx as [<-|Hx].
  - apply sets_bind_l; [done|]. intros t t' Hr.
    assert (Hks : forall y, y ∈ l -> keeps d k Q (f y)) by (intros z Hz; apply Hk; by right).
    clear IH Hk Hs. revert t t' Hr. induction l as [|z l IH]; intros t t' Hr Hq; cbn [st_for] in Hr.
    { by injection Hr as <-. }
    apply program_bind_inv in Hr as (t1 & Hr1 & Hr2).
    eapply IH; [|exact Hr2|]; [intros; apply Hks; by right|]. eapply Hks; [by left|exact Hr1|done].
  - apply sets_bind_r, IH; [done|]. intros z Hz. apply Hk. by right.
Qed.
Lemma sets_put_bytes d k v (Q : option bytes -> Prop) : Q (Some v) -> sets d k Q (put_bytes d k v).
Proof.
  intros Hq t t' Hr. apply put_bytes_inv in Hr. rewrite (put_ok _ _ _ _ _ Hr d k).
  by rewrite decide_True.
Qed.
Lemma sets_put_value {T} (w : Wire T) d k v (Q : option bytes -> Prop) :
  (forall raw, borsh_to_vec w v = Ok raw -> Q (Some raw)) -> sets d k Q (put_value w d k v).
Proof.
  intros Hq. apply sets_lift. intros raw Hraw. apply map_err_Ok in Hraw.
  apply sets_put_bytes. auto.
Qed.

(** ** Committing *)

Lemma with_rw_inv (f : Program) env r env' :
  with_rw f env = (r, env') ->
  (exists e, r = Err e /\ same_data env' env) \/
  (exists t t', begin_rw_txn env = Ok t /\ f t = (Ok tt, t') /\ r = Ok tt /\
     forall d k, env_view env' d k = rw_view t' d k).
Proof.
  unfold with_rw. st_simpl. destruct (begin_rw_txn env) as [t|e] eqn:Hb; cbn [map_err]; st_simpl.
  2:{ intros [= <- <-]. left. eexists. split; [done|]. by intros d k. }
  destruct (f t) as [[[]|e] t'] eqn:Hf; st_simpl.
  2:{ intros [= <- <-]. left. eexists. split; [done|]. by intros d k. }
  unfold st_map_err. destruct (txn_commit t' env) as [[[]|e] env1] eqn:Hc; cbn [map_err];
    intros [= <- <-].
  - right. exists t, t'. split_and!; try done. apply (commit_ok _ _ _ Hc).
  - left. eexists. split; [done|]. intros d k. apply (commit_err _ _ _ _ Hc).
Qed.

Lemma with_rw_writes W f env env' :
  writes W f -> with_rw f env = (Ok tt, env') ->
  forall d k, env_view env' d k = env_view env d k \/ W d k (env_view env' d k).
Proof.
  intros Hw Hr. apply with_rw_inv in Hr as [(e & [=] & _)|(t & t' & Hb & Hf & _ & Hv)].
  intros d k. rewrite Hv, <- (begin_rw_ok _ _ Hb). by apply (Hw t t').
Qed.
Lemma with_rw_sets d k Q f env env' :
  sets d k Q f -> with_rw f env = (Ok tt, env') -> Q (env_view env' d k).
Proof.
  intros Hs Hr. apply with_rw_inv in Hr as [(e & [=] & _)|(t & t' & Hb & Hf & _ & Hv)].
  rewrite Hv. by apply (Hs t t').
Qed.

(** ** Reading *)

(** A read either fails in LMDB or sees the committed entry. *)
Lemma read_bytes_view env t db key r :
  begin_ro_txn env = Ok t -> read_bytes t db key = r ->
  (exists e, r = Err (Database e)) \/ r = Ok (env_view env db key).
Proof.
  intros Hb <-. unfold read_bytes. destruct (txn_get t db key) as [v|[|n]] eqn:Hg.
  - right. f_equal. rewrite <- (begin_ro_ok _ _ Hb). symmetry. by apply get_found.
  - right. f_equal. rewrite <- (begin_ro_ok _ _ Hb). symmetry. by apply get_not_found.
  - left. by eexists.
Qed.

Lemma with_ro_inv {A} (f : RoTransaction -> Result StorageError A) env :
  (exists e, with_ro f env = Err (Database e)) \/
  (exists t, begin_ro_txn env = Ok t /\ with_ro f env = f t).
Proof.
  unfold with_ro. destruct (begin_ro_txn env) as [t|e]; cbn; [right; eauto|left; eauto].
Qed.

Lemma read_value_view {T} (w : Wire T) env db key :
  let r := with_ro (fun t => read_value w t db key) env in
  (exists e, r = Err (Database e)) \/
  r = match env_view env db key with
      | Some raw => v ← decode w raw; Ok (Some v)
      | None => Ok None
      end.
Proof.
  cbv zeta. destruct (with_ro_inv (fun t => read_value w t db key) env) as [?|(t & Hb & ->)];
    [by left|]. unfold read_value.
  destruct (read_bytes_view env t db key _ Hb eq_refl) as [[e ->]| ->]; [left; by exists e|].
  right. cbn. by destruct (env_view env db key).
Qed.
End logic.
Create HintDb storage discriminated.
#[export] Hint Resolve writes_ret writes_fail writes_lift writes_bind writes_for
  writes_put_bytes writes_put_value : storage.
