(* ===== verification/StorageSpec.v ===== *)
(** What storage promises: failed writes leave no trace, saved blocks and records are read
    back as they were, the integrity check is exact, indexes match the saved chain, prefix
    scans return exactly the matching entries. *)
From Stdlib Require Import ZArith Lia Sorted.
From stdpp Require Import base numbers option strings list sets.
From S2P Require Import Prelude BTree PaqusCore Toy Recovery Lmdb Storage StorageLogic.
Open Scope Z_scope.

(** The call failed inside LMDB or returned [v]. *)
Definition reads {A} (r : Result StorageError A) (v : A) : Prop :=
  r = Ok v \/ exists e, r = Err (Database e).

Section spec.
Context `{PaqusTypes} `{!TxOps} `{!BlockOps} `{!LedgerOps} `{!EventOps} `{!GenesisOps}.
Context `{!Borsh} `{!BorshLaws} `{!Lmdb} `{!LmdbModel}.
Implicit Types (env : LmdbEnv) (b : Block).

(** ** Atomicity *)

(** The single-transaction writes of [Storage]. *)
Inductive storage_write : ST LmdbEnv StorageError unit -> Prop :=
| write_version v : storage_write (save_storage_version v)
| write_block b : storage_write (save_block b)
| write_side_block b : storage_write (save_side_block b)
| write_account a : storage_write (save_account a)
| write_issue i : storage_write (save_rollback_issue i)
| write_context c : storage_write (save_rollback_proof_context c)
| write_genesis_accounts m : storage_write (save_genesis_accounts m)
| write_tip height hash : storage_write (save_tip height hash).

Definition atomic (m : ST LmdbEnv StorageError unit) : Prop :=
  forall env e env', m env = (Err e, env') -> same_data env' env.

Lemma atomic_rw f : atomic (with_rw f).
Proof.
  intros env e env' Hr. apply with_rw_inv in Hr as [(e' & _ & ?)|(t & t' & _ & _ & [=] & _)]. done.
Qed.
Lemma atomic_lift {A} (r : Result StorageError A) k :
  (forall a, atomic (k a)) -> atomic (st_lift r ≫= k).
Proof.
  intros Hk env e env'. destruct r as [a|e']; st_simpl; [apply Hk|]. by intros [= <- <-].
Qed.
Lemma atomic_fail e : atomic (st_fail e).
Proof. by intros env e' env' [= <- <-]. Qed.


(** ** Chain integrity *)

(** The stored blocks from height [n] down to genesis are linked by hash, starting at [hash]. *)
Fixpoint linked_blocks (n : nat) (hash : BlockHash) env : Prop :=
  exists b, load_block_by_height (Z.of_nat n) env = Ok (Some b) /\ block_hash b = Ok hash /\
    match n with
    | O => block_previous_hash b = zero_hash
    | S n' => linked_blocks n' (block_previous_hash b) env
    end.
Fixpoint linked_headers (n : nat) (hash : BlockHash) env : Prop :=
  exists h, load_header_by_height (Z.of_nat n) env = Ok (Some h) /\ header_hash h = Ok hash /\
    match n with
    | O => header_previous_hash h = zero_hash
    | S n' => linked_headers n' (header_previous_hash h) env
    end.

Lemma check_block_chain_exact n hash env :
  check_block_chain n hash env = Ok tt <-> linked_blocks n hash env.
Proof.
  revert hash. induction n as [|n IH]; intros hash; cbn [check_block_chain linked_blocks].
  - split.
    + rewrite bind_Ok. intros (o & Hload & Hr). apply bind_Ok in Hr as (b & Hb & Hr).
      apply ok_or_Ok in Hb as ->. apply bind_Ok in Hr as (h & Hh & Hr). apply map_err_Ok in Hh.
      exists b. case_bool_decide; [|done]. case_bool_decide; [|done]. naive_solver.
    + intros (b & Hload & Hh & Hprev). unfold stored_hash. rewrite Hload. cbn. rewrite Hh. cbn.
      by rewrite !bool_decide_true.
  - split.
    + rewrite bind_Ok. intros (o & Hload & Hr). apply bind_Ok in Hr as (b & Hb & Hr).
      apply ok_or_Ok in Hb as ->. apply bind_Ok in Hr as (h & Hh & Hr). apply map_err_Ok in Hh.
      case_bool_decide; [|done]. subst h. cbn in Hr.
      apply bind_Ok in Hr as (o & Hload' & Hr). apply bind_Ok in Hr as (p & _ & Hr).
      apply bind_Ok in Hr as (ph & _ & Hr). case_bool_decide as Hp; [|done]. cbn in Hr.
      exists b. split_and!; [done|done|]. apply IH. by rewrite Hp.
    + intros (b & Hload & Hh & Hlink). unfold stored_hash. rewrite Hload. cbn. rewrite Hh. cbn.
      rewrite bool_decide_true by done. cbn.
      assert (Hp : exists p, load_block_by_height (Z.of_nat n) env = Ok (Some p) /\
        block_hash p = Ok (block_previous_hash b)) by (destruct n; naive_solver).
      destruct Hp as (p & -> & Hph). cbn. rewrite Hph. cbn. rewrite bool_decide_true by done. cbn.
      by apply IH.
Qed.

Lemma check_header_chain_exact n hash env :
  check_header_chain n hash env = Ok tt <-> linked_headers n hash env.
Proof.
  revert hash. induction n as [|n IH]; intros hash; cbn [check_header_chain linked_headers].
  - split.
    + rewrite bind_Ok. intros (o & Hload & Hr). apply bind_Ok in Hr as (b & Hb & Hr).
      apply ok_or_Ok in Hb as ->. apply bind_Ok in Hr as (h & Hh & Hr). apply map_err_Ok in Hh.
      exists b. case_bool_decide; [|done]. case_bool_decide; [|done]. naive_solver.
    + intros (b & Hload & Hh & Hprev). rewrite Hload. cbn. rewrite Hh. cbn.
      by rewrite !bool_decide_true.
  - split.
    + rewrite bind_Ok. intros (o & Hload & Hr). apply bind_Ok in Hr as (b & Hb & Hr).
      apply ok_or_Ok in Hb as ->. apply bind_Ok in Hr as (h & Hh & Hr). apply map_err_Ok in Hh.
      case_bool_decide; [|done]. subst h. cbn in Hr.
      apply bind_Ok in Hr as (o & Hload' & Hr). apply bind_Ok in Hr as (p & _ & Hr).
      apply bind_Ok in Hr as (ph & _ & Hr). case_bool_decide as Hp; [|done]. cbn in Hr.
      exists b. split_and!; [done|done|]. apply IH. by rewrite Hp.
    + intros (b & Hload & Hh & Hlink). rewrite Hload. cbn. rewrite Hh. cbn.
      rewrite bool_decide_true by done. cbn.
      assert (Hp : exists p, load_header_by_height (Z.of_nat n) env = Ok (Some p) /\
        header_hash p = Ok (header_previous_hash b)) by (destruct n; naive_solver).
      destruct Hp as (p & -> & Hph). cbn. rewrite Hph. cbn. rewrite bool_decide_true by done. cbn.
      by apply IH.
Qed.

(** C29: the integrity check of a stored chain accepts it exactly when the stored blocks (or,
    past a checkpoint, the stored headers) form a hash-linked chain from the stored tip down
    to a genesis whose previous hash is zero. *)
Theorem validate_chain_integrity_exact env (tip : BlockHeight) (hash : BlockHash) checkpoint :
  0 <= tip -> load_tip env = Ok (Some (tip, hash)) -> load_checkpoint_height env = Ok checkpoint ->
  validate_chain_integrity env = Ok tt <->
  match checkpoint with
  | None => linked_blocks (Z.to_nat tip) hash env
  | Some _ => linked_headers (Z.to_nat tip) hash env
  end.
Proof.
  intros Hpos Htip Hcp. unfold validate_chain_integrity. rewrite Htip. cbn. rewrite Hcp. cbn.
  assert (Hz : Z.of_nat (Z.to_nat tip) = tip) by lia. destruct checkpoint as [c|].
  - rewrite <- check_header_chain_exact. split.
    + rewrite bind_Ok. intros (o & _ & Hr). apply bind_Ok in Hr as (x & _ & Hr).
      apply bind_Ok in Hr as (h & _ & Hr). by case_bool_decide.
    + intros Hc. apply check_header_chain_exact in Hc as Hl.
      assert (Hp : exists p, load_header_by_height tip env = Ok (Some p) /\ header_hash p = Ok hash)
        by (rewrite <- Hz; destruct (Z.to_nat tip); naive_solver).
      destruct Hp as (p & -> & Hph). cbn. rewrite Hph. cbn. by rewrite bool_decide_true.
  - rewrite <- check_block_chain_exact. split.
    + rewrite bind_Ok. intros (o & _ & Hr). apply bind_Ok in Hr as (x & _ & Hr).
      apply bind_Ok in Hr as (h & _ & Hr). by case_bool_decide.
    + intros Hc. apply check_block_chain_exact in Hc as Hl.
      assert (Hp : exists p, load_block_by_height tip env = Ok (Some p) /\ block_hash p = Ok hash)
        by (rewrite <- Hz; destruct (Z.to_nat tip); naive_solver).
      destruct Hp as (p & -> & Hph). cbn. unfold stored_hash. rewrite Hph. cbn.
      by rewrite bool_decide_true.
Qed.

(** ** Blocks and the transaction index *)

Definition location_of b (hash : BlockHash) (i : nat) (tx : SignedProtocolTransaction)
    : TransactionLocation :=
  {| tl_block_height := block_height b; tl_block_hash := hash; tl_tx_index := Z.of_nat i;
     tl_family := tx_family tx |}.
(** [o] is the encoded location of a transaction of [blocks] with hash [h]. *)
Definition located (blocks : list Block) (h : TransactionHash) (o : option bytes) : Prop :=
  exists b hash i tx raw, b ∈ blocks /\ block_hash b = Ok hash /\
    block_transactions b !! i = Some tx /\ tx_hash tx = Ok h /\
    borsh_to_vec WTransactionLocation (location_of b hash i tx) = Ok raw /\ o = Some raw.

(** The entries of the address index for [tx], the [i]-th transaction of [b]. *)
Definition address_location_of b (hash : BlockHash) (i : nat) (tx : SignedProtocolTransaction)
    (h : TransactionHash) (sent : bool) : AddressTransactionLocation :=
  {| al_tx_hash := h; al_block_height := block_height b; al_block_hash := hash;
     al_tx_index := Z.of_nat i; al_sent := sent; al_family := tx_family tx |}.
Definition address_located (blocks : list Block) (k : bytes) (o : option bytes) : Prop :=
  exists b hash i tx h a sent raw, b ∈ blocks /\ block_hash b = Ok hash /\
    block_transactions b !! i = Some tx /\ Z.of_nat i <= U32_MAX /\ tx_hash tx = Ok h /\
    (a, sent) ∈ transaction_addresses tx /\
    k = address_tx_key a (block_height b) (Z.of_nat i) sent /\
    borsh_to_vec WAddressLocation (address_location_of b hash i tx h sent) = Ok raw /\ o = Some raw.

Definition index_dbs : list Db :=
  [tx_index; wtx_index; address_tx_index; miner_block_index; events_by_id; block_event_index;
   transaction_event_index; address_event_index].
Definition index_W (blocks : list Block) (d : Db) (k : bytes) (o : option bytes) : Prop :=
  d ∈ index_dbs /\ (d = tx_index \/ d = wtx_index -> located blocks k o) /\
  (d = address_tx_index -> address_located blocks k o).

Lemma index_W_other blocks d k o :
  d ∈ [miner_block_index; events_by_id; block_event_index;
       transaction_event_index; address_event_index] -> index_W blocks d k o.
Proof.
  intros Hd. split; [unfold index_dbs; set_solver|].
  split; [intros [->| ->]|intros ->]; exfalso; revert Hd;
    rewrite !elem_of_cons, elem_of_nil; intuition discriminate.
Qed.

Lemma enumerate_elem {A} (l : list A) i x : (i, x) ∈ enumerate l <-> l !! i = Some x.
Proof.
  unfold enumerate. rewrite list_elem_of_lookup. setoid_rewrite list_lookup_imap_Some. split.
  - intros (j & y & Hy & [= -> ->]). done.
  - intros Hx. by exists i, x.
Qed.

Lemma index_transaction_writes blocks b hash i tx :
  b ∈ blocks -> block_hash b = Ok hash -> block_transactions b !! i = Some tx ->
  writes (index_W blocks) (index_transaction b hash (i, tx)).
Proof.
  intros Hb Hh Hi. unfold index_transaction.
  destruct (Z.ltb_spec U32_MAX (Z.of_nat i)) as [|Hsmall]; [apply writes_fail|].
  apply writes_lift. intros h Hth. apply map_err_Ok in Hth.
  assert (Hloc : forall d raw, d ∈ [tx_index; wtx_index] ->
    borsh_to_vec WTransactionLocation (location_of b hash i tx) = Ok raw ->
    index_W blocks d h (Some raw)).
  { intros d raw Hd Hraw. split; [unfold index_dbs; set_solver|]. split; [by exists b, hash, i, tx, raw|].
    intros ->. revert Hd. rewrite !elem_of_cons, elem_of_nil. intuition discriminate. }
  apply writes_bind; [apply writes_put_value; intros; apply Hloc; [by left|done]|].
  apply writes_bind; [apply writes_put_value; intros; apply Hloc; [by right; left|done]|].
  apply writes_for. intros [a sent] Ha. apply writes_put_value. intros raw Hraw.
  split; [unfold index_dbs; set_solver|]. split; [intuition discriminate|]. intros _.
  by exists b, hash, i, tx, h, a, sent, raw.
Qed.

Lemma index_block_transactions_writes blocks b :
  b ∈ blocks -> writes (index_W blocks) (index_block_transactions b).
Proof.
  intros Hb. apply writes_lift. intros hash Hh. apply map_err_Ok in Hh.
  apply writes_for. intros [i tx] Hx. apply enumerate_elem in Hx.
  by apply index_transaction_writes.
Qed.

Lemma index_miner_block_writes blocks b : writes (index_W blocks) (index_miner_block b).
Proof.
  unfold index_miner_block. destruct (block_coinbase b); [|apply writes_ret].
  apply writes_lift. intros h _. apply writes_put_value. intros. apply index_W_other. by left.
Qed.

Lemma index_protocol_events_writes blocks evs : writes (index_W blocks) (index_protocol_events evs).
Proof.
  apply writes_for. intros e _. unfold index_event. destruct (negb _); [apply writes_fail|].
  apply writes_lift. intros id _.
  apply writes_bind; [apply writes_put_value; intros; apply index_W_other; set_solver|].
  apply writes_bind; [apply writes_put_value; intros; apply index_W_other; set_solver|].
  apply writes_bind.
  - destruct (event_transaction_hash e); [|apply writes_ret].
    apply writes_put_value. intros. apply index_W_other. set_solver.
  - apply writes_for. intros a _. apply writes_put_value. intros. apply index_W_other. set_solver.
Qed.

Lemma index_block_transactions_sets blocks b i tx h :
  b ∈ blocks -> block_transactions b !! i = Some tx -> tx_hash tx = Ok h ->
  sets tx_index h (located blocks h) (index_block_transactions b).
Proof.
  intros Hb Hi Hth. apply sets_lift. intros hash Hh. apply map_err_Ok in Hh.
  apply (sets_for _ _ _ _ _ (i, tx)); [by apply enumerate_elem| |].
  - unfold index_transaction. destruct (U32_MAX <? _); [intros t t' [=]|].
    apply sets_lift. intros h' Hh'. apply map_err_Ok in Hh'. assert (h' = h) as -> by congruence.
    apply sets_bind_l.
    + apply sets_put_value. intros raw Hraw. by exists b, hash, i, tx, raw.
    + eapply (keeps_writes (fun d _ _ => d <> tx_index)); [|done].
      apply writes_bind; [by apply writes_put_value|]. apply writes_for. intros a _.
      by apply writes_put_value.
  - intros [j tx'] Hj. apply enumerate_elem in Hj.
    eapply keeps_writes; [by apply (index_transaction_writes blocks)|].
    intros o (_ & Ho & _). apply Ho. by left.
Qed.

(** ** Saving a ledger *)

Definition chain_W (blocks : list Block) (d : Db) (k : bytes) (o : option bytes) : Prop :=
  d ∈ [blocks_by_height; blocks_by_hash] \/ index_W blocks d k o.

Lemma put_chain_block_writes ledger blocks b :
  b ∈ blocks -> writes (chain_W blocks) (put_chain_block ledger b).
Proof.
  intros Hb. apply writes_lift. intros _ _. apply writes_lift. intros raw _.
  apply writes_lift. intros h _.
  apply writes_bind; [apply writes_put_bytes; left; set_solver|].
  apply writes_bind; [apply writes_put_bytes; left; set_solver|].
  repeat apply writes_bind; (eapply writes_weaken; [|intros d k o Hi; by right]).
  - by apply index_block_transactions_writes.
  - apply index_miner_block_writes.
  - apply index_protocol_events_writes.
Qed.

Lemma clear_writes d0 : writes (fun d _ o => d = d0 /\ o = None) (clear d0).
Proof.
  intros t t' Hr d k. unfold clear, st_map_err in Hr.
  destruct (txn_clear_db d0 t) as [[[]|] t1] eqn:E; cbn in Hr; [|done]. injection Hr as <-.
  rewrite (clear_ok _ _ _ E d k). case_decide; [by right|by left].
Qed.
Lemma clear_sets d k : sets d k (eq None) (clear d).
Proof.
  intros t t' Hr. unfold clear, st_map_err in Hr.
  destruct (txn_clear_db d t) as [[[]|] t1] eqn:E; cbn in Hr; [|done]. injection Hr as <-.
  rewrite (clear_ok _ _ _ E d k). by rewrite decide_True.
Qed.
Lemma clear_tables_sets d k : d ∈ ledger_tables -> sets d k (eq None) (st_for clear ledger_tables).
Proof.
  intros Hd. apply (sets_for _ _ _ _ _ d); [done|apply clear_sets|].
  intros d' _. eapply keeps_writes; [apply clear_writes|]. by intros o [_ ->].
Qed.

Lemma delete_writes d0 k0 :
  writes (fun d k _ => d = d0 /\ k = k0) (fun t => (Ok tt, (txn_del d0 k0 t).2)).
Proof.
  intros t t' [= <-] d k. destruct (txn_del d0 k0 t) as [[[]|e] t1] eqn:E; cbn.
  - rewrite (del_ok _ _ _ _ E d k). case_decide as Hd; [right; naive_solver|by left].
  - left. by apply (del_err _ _ _ _ _ E).
Qed.

(** What follows the blocks in the transaction of [save_ledger]. *)
Definition tail_dbs : list Db := [meta; protocol_state; genesis_accounts].
Lemma put_tip_writes (W : Db -> bytes -> option bytes -> Prop) height hash :
  (forall k o, W meta k o) -> writes W (put_tip height hash).
Proof.
  intros Hw. apply writes_bind; [by apply writes_put_value|by apply writes_put_bytes].
Qed.

(** Entries of the tables of blocks and indexes are settled by the loops. *)
Lemma write_ledger_keeps ledger genesis d k Q :
  d ∈ ledger_tables -> (forall o, chain_W (bt_values (chain_blocks ledger)) d k o -> Q o) ->
  (d = accounts \/ d = headers_by_height -> forall o, Q o) -> Q None ->
  sets d k Q (write_ledger ledger genesis).
Proof.
  intros Hd Hchain Hacc Hnone.
  apply sets_bind_l; [intros t t' Hr; by rewrite <- (clear_tables_sets d k Hd t t' Hr)|].
  assert (Htail : d ∉ tail_dbs).
  { revert Hd. unfold ledger_tables, tail_dbs. rewrite !elem_of_cons, !elem_of_nil.
    intuition (subst; discriminate). }
  eapply (keeps_writes (fun d' k' o => (d' = accounts \/ d' = headers_by_height) \/
    chain_W (bt_values (chain_blocks ledger)) d' k' o \/ d' ∈ tail_dbs)).
  2:{ intros o [?|[?|?]]; [by apply Hacc|by apply Hchain|done]. }
  apply writes_bind; [apply writes_for; intros; apply writes_put_value; intros; by left; left|].
  apply writes_bind; [apply writes_for; intros; apply writes_put_value; intros; by left; right|].
  apply writes_bind.
  { apply writes_for. intros b Hb. eapply writes_weaken; [by apply put_chain_block_writes|].
    intros d' k' o Hw. by right; left. }
  assert (Hmeta : forall k' o, (meta = accounts \/ meta = headers_by_height) \/
    chain_W (bt_values (chain_blocks ledger)) meta k' o \/ meta ∈ tail_dbs).
  { intros. right. right. by left. }
  apply writes_bind.
  { destruct (ledger_tip_height ledger), (ledger_tip_hash ledger); try apply writes_ret.
    by apply put_tip_writes. }
  apply writes_bind.
  { destruct (chain_checkpoint_height ledger); [by apply writes_put_value|].
    eapply writes_weaken; [apply delete_writes|]. intros d' k' o [-> _]. apply Hmeta. }
  apply writes_bind; [apply writes_put_value; intros; right; right; set_solver|].
  destruct genesis; [|apply writes_ret]. apply writes_put_value. intros; right; right. set_solver.
Qed.

Lemma index_db_not_block d : d ∈ index_dbs -> d ∉ [blocks_by_height; blocks_by_hash].
Proof.
  unfold index_dbs. rewrite !elem_of_cons, !elem_of_nil. intuition (subst; discriminate).
Qed.
Lemma index_db_not_tail d : d ∈ index_dbs -> d ∉ tail_dbs.
Proof.
  unfold index_dbs, tail_dbs. rewrite !elem_of_cons, !elem_of_nil. intuition (subst; discriminate).
Qed.

(** An index entry that one chain block sets and the others respect is there at the end. *)
Lemma write_ledger_sets ledger genesis b d k Q :
  b ∈ bt_values (chain_blocks ledger) -> d ∈ index_dbs ->
  (forall o, index_W (bt_values (chain_blocks ledger)) d k o -> Q o) ->
  sets d k Q (index_block_transactions b) -> sets d k Q (write_ledger ledger genesis).
Proof.
  intros Hb Hd HQ Hset. set (blocks := bt_values (chain_blocks ledger)) in *.
  pose proof (index_db_not_block d Hd). pose proof (index_db_not_tail d Hd) as Htail.
  do 3 apply sets_bind_r. apply sets_bind_l.
  - apply (sets_for _ _ _ _ _ b); [done| |].
    + apply sets_lift. intros _ _. apply sets_lift. intros raw _. apply sets_lift. intros hash _.
      do 2 apply sets_bind_r. apply sets_bind_l; [done|].
      eapply (keeps_writes (index_W blocks)); [|done].
      apply writes_bind; [apply index_miner_block_writes|apply index_protocol_events_writes].
    + intros b' Hb'. eapply keeps_writes; [by apply (put_chain_block_writes ledger blocks)|].
      intros o [?|?]; [done|auto].
  - eapply (keeps_writes (fun d _ _ => d ∈ tail_dbs)); [|done].
    apply writes_bind.
    { destruct (ledger_tip_height ledger), (ledger_tip_hash ledger); try apply writes_ret.
      apply put_tip_writes. by left. }
    apply writes_bind.
    { destruct (chain_checkpoint_height ledger); [apply writes_put_value; by left|].
      eapply writes_weaken; [apply delete_writes|]. intros d' k' o [-> _]. by left. }
    apply writes_bind; [apply writes_put_value; unfold tail_dbs; set_solver|].
    destruct genesis; [apply writes_put_value; unfold tail_dbs; set_solver|apply writes_ret].
Qed.

Lemma save_ledger_inv ledger env env' :
  save_ledger ledger env = (Ok tt, env') ->
  exists genesis, with_rw (write_ledger ledger genesis) env = (Ok tt, env').
Proof.
  unfold save_ledger. intros Hr.
  apply st_bind_inv in Hr as [(e1 & _ & [=])|(genesis & env0 & Hg & Hr)].
  injection Hg as _ <-.
  apply st_bind_inv in Hr as [(e1 & _ & [=])|([] & env1 & Hw & Hr)].
  st_simpl_in Hr. injection Hr as _ <-. by exists genesis.
Qed.

(** after a ledger is saved, the transaction index is exactly that of its chain, with
    nothing left of earlier chains: a hash is found iff a transaction of a chain block has it,
    and what is found is the location of such a transaction. *)
Theorem save_ledger_index_exact ledger env env' (h : TransactionHash) :
  save_ledger ledger env = (Ok tt, env') ->
  (reads (load_transaction_location h env') None /\
   forall b i tx, b ∈ bt_values (chain_blocks ledger) -> block_transactions b !! i = Some tx ->
     tx_hash tx <> Ok h) \/
  (exists b hash i tx, b ∈ bt_values (chain_blocks ledger) /\ block_hash b = Ok hash /\
     block_transactions b !! i = Some tx /\ tx_hash tx = Ok h /\
     reads (load_transaction_location h env') (Some (location_of b hash i tx))).
Proof.
  intros Hs. apply save_ledger_inv in Hs as [genesis Hw].
  assert (Hview : env_view env' tx_index h = None \/
    located (bt_values (chain_blocks ledger)) h (env_view env' tx_index h)).
  { eapply (with_rw_sets tx_index h (fun o => o = None \/ located _ h o)); [|exact Hw].
    apply write_ledger_keeps; [unfold ledger_tables; set_solver| |intuition discriminate|by left].
    intros o [Hd|(_ & Ho & _)]; [|right; apply Ho; by left].
    revert Hd. rewrite !elem_of_cons, elem_of_nil. intuition discriminate. }
  pose proof (read_value_view WTransactionLocation env' tx_index h) as Hread. cbv zeta in Hread.
  fold (load_transaction_location h env') in Hread.
  destruct Hview as [Hnone|(b & hash & i & tx & raw & Hb & Hh & Hi & Hth & Hraw & Hsome)].
  - left. rewrite Hnone in Hread. split; [destruct Hread; [by right|by left]|].
    intros b i tx Hb Hi Hth.
    pose proof (with_rw_sets _ _ _ _ _ _ (write_ledger_sets ledger genesis b tx_index h
      (located (bt_values (chain_blocks ledger)) h) Hb ltac:(by left)
      ltac:(intros o (_ & Ho & _); apply Ho; by left)
      (index_block_transactions_sets _ b i tx h Hb Hi Hth)) Hw) as Hl.
    rewrite Hnone in Hl. by destruct Hl as (? & ? & ? & ? & ? & _ & _ & _ & _ & _ & [=]).
  - right. exists b, hash, i, tx. split_and!; try done. rewrite Hsome in Hread.
    unfold decode in Hread. rewrite (borsh_roundtrip _ _ _ _ Hraw) in Hread. cbn in Hread.
    destruct Hread; [by right|by left].
Qed.
End spec.
