(* ===== verification/StorageRead.v ===== *)
(** Reading back what was stored: blocks and their transactions, rollback records, accounts,
    prefix scans and the schema version. *)
From Stdlib Require Import ZArith Lia Sorted Permutation.
From stdpp Require Import base numbers option strings list sets.
From S2P Require Import Prelude BTree PaqusCore Toy Recovery Lmdb Storage StorageLogic StorageSpec.
Open Scope Z_scope.

(** ** Lexicographic prefixes *)

Lemma starts_with_spec (key prefix : list Z) :
  starts_with key prefix = true <-> exists rest, key = prefix ++ rest.
Proof.
  unfold starts_with. rewrite bool_decide_eq_true. split.
  - intros Ht. exists (drop (length prefix) key). by rewrite <- Ht at 1; rewrite take_drop.
  - intros [rest ->]. apply take_app_length.
Qed.

Lemma prefix_not_lt (prefix rest : list Z) : cmp (prefix ++ rest) prefix <> Lt.
Proof.
  unfold cmp, list_Ord. induction prefix as [|x prefix IH]; cbn; [by destruct rest|].
  unfold then_with. by rewrite cmp_refl.
Qed.

(** Between a prefix and a key with that prefix there are only keys with the prefix. *)
Lemma prefix_interval (prefix key rest : list Z) :
  cmp key prefix <> Lt -> cmp key (prefix ++ rest) = Lt -> exists rest', key = prefix ++ rest'.
Proof.
  revert key. unfold cmp at 1 2, list_Ord.
  induction prefix as [|x prefix IH]; intros key; cbn; [by exists key|].
  destruct key as [|y key]; cbn; [done|]. unfold then_with.
  destruct (cmp y x) eqn:E; [|done|done].
  apply cmp_eq in E as ->. intros Hge Hlt. destruct (IH key Hge Hlt) as [rest' ->]. by exists rest'.
Qed.

Section read.
Context `{PaqusTypes} `{!TxOps} `{!BlockOps} `{!LedgerOps} `{!EventOps} `{!GenesisOps}.
Context `{!Borsh} `{!BorshLaws} `{!Lmdb} `{!LmdbModel}.
Implicit Types (env : LmdbEnv) (b : Block).

(** ** Prefix scans *)

Lemma prefix_stop prefix (k : bytes) (l : list (bytes * bytes)) :
  cmp k prefix <> Lt -> starts_with k prefix = false -> Forall (fun p => cmp k p.1 = Lt) l ->
  List.filter (fun p => starts_with p.1 prefix) l = [].
Proof.
  intros Hge Hno. induction 1 as [|[k2 v2] l Hlt _ IH]; cbn in *; [done|].
  destruct (starts_with k2 prefix) eqn:E; [|done].
  apply starts_with_spec in E as [r ->].
  destruct (prefix_interval prefix k r Hge Hlt) as [r' ->].
  assert (starts_with (prefix ++ r') prefix = true) by (apply starts_with_spec; by exists r').
  congruence.
Qed.

(** A completed prefix scan decoded exactly the entries with the prefix. *)
Lemma scan_prefix_exact {A} prefix (g : bytes -> Result StorageError A) items out full :
  scan_items (scan_prefix prefix g) items = Ok out -> key_sorted full ->
  (forall l rest, items = map Ok l ++ rest -> l `prefix_of` full /\ (rest = [] -> l = full)) ->
  Forall2 (fun p a => g p.2 = Ok a) (List.filter (fun p => starts_with p.1 prefix) full) out.
Proof.
  revert out full. induction items as [|item items IH]; intros out full Hscan Hs Hfull; cbn in Hscan.
  { injection Hscan as <-. destruct (Hfull [] [] eq_refl) as [_ Hf]. rewrite <- Hf by done. constructor. }
  apply bind_Ok in Hscan as ([k v] & Hitem & Hscan). apply map_err_Ok in Hitem as ->.
  destruct (Hfull [(k, v)] items eq_refl) as [[full' ->] _].
  apply StronglySorted_inv in Hs as [Hs Hlt]. cbn in Hlt.
  assert (Hrest : forall l rest, items = map Ok l ++ rest ->
    l `prefix_of` full' /\ (rest = [] -> l = full')).
  { intros l rest ->. destruct (Hfull ((k, v) :: l) rest eq_refl) as [Hp He]. cbn in Hp, He.
    split; [by apply prefix_cons_inv_2 in Hp|]. intros Hn. specialize (He Hn). by injection He. }
  apply bind_Ok in Hscan as (sc & Hsc & Hscan). unfold scan_prefix in Hsc. cbn in Hsc.
  cbn [app List.filter fst]. destruct (cmp k prefix) eqn:Hcmp.
  2:{ injection Hsc as <-. assert (starts_with k prefix = false) as ->; [|by apply IH].
      destruct (starts_with k prefix) eqn:E; [|done]. apply starts_with_spec in E as [r ->].
      by apply prefix_not_lt in Hcmp. }
  all: destruct (starts_with k prefix) eqn:Hpre.
  1,3: apply bind_Ok in Hsc as (x & Hx & [= <-]);
    apply bind_Ok in Hscan as (rest & Hr & [= <-]); constructor; [done|by apply IH].
  all: injection Hsc as <-; injection Hscan as <-.
  all: rewrite (prefix_stop prefix k) by (rewrite ?Hcmp; done); constructor.
Qed.

(** ** The history of an address *)

Lemma index_block_addresses_sets blocks b i tx h a sent :
  b ∈ blocks -> block_transactions b !! i = Some tx -> tx_hash tx = Ok h ->
  (a, sent) ∈ transaction_addresses tx ->
  sets address_tx_index (address_tx_key a (block_height b) (Z.of_nat i) sent)
    (address_located blocks (address_tx_key a (block_height b) (Z.of_nat i) sent))
    (index_block_transactions b).
Proof.
  intros Hb Hi Hth Ha. apply sets_lift. intros hash Hh. apply map_err_Ok in Hh.
  apply (sets_for _ _ _ _ _ (i, tx)); [by apply enumerate_elem| |].
  - unfold index_transaction. destruct (Z.ltb_spec U32_MAX (Z.of_nat i)); [intros t t' [=]|].
    apply sets_lift. intros h' Hh'. apply map_err_Ok in Hh'. assert (h' = h) as -> by congruence.
    do 2 apply sets_bind_r. apply (sets_for _ _ _ _ _ (a, sent)); [done| |].
    + apply sets_put_value. intros raw Hraw. by exists b, hash, i, tx, h, a, sent, raw.
    + intros [a' sent'] Ha'. eapply (keeps_writes
        (fun d k o => address_located blocks k o)); [|done].
      apply writes_put_value. intros raw Hraw. by exists b, hash, i, tx, h, a', sent', raw.
  - intros [j tx'] Hj. apply enumerate_elem in Hj.
    eapply keeps_writes; [by apply (index_transaction_writes blocks)|].
    intros o (_ & _ & Ho). by apply Ho.
Qed.

(** Heights are [u64] and unique in the chain; an [Address] is 20 bytes. *)
Record chain_ok (ledger : Ledger) : Prop := {
  chain_heights b : b ∈ bt_values (chain_blocks ledger) -> is_u64 (block_height b);
  chain_unique b b' : b ∈ bt_values (chain_blocks ledger) -> b' ∈ bt_values (chain_blocks ledger) ->
    block_height b = block_height b' -> b = b';
  chain_addresses b tx a sent : b ∈ bt_values (chain_blocks ledger) ->
    tx ∈ block_transactions b -> (a, sent) ∈ transaction_addresses tx -> length a = ADDRESS_SIZE
}.

Lemma address_tx_key_inj a a' height height' i i' s s' :
  length a = length a' -> is_u64 height -> is_u64 height' -> is_u32 i -> is_u32 i' ->
  address_tx_key a height i s = address_tx_key a' height' i' s' ->
  a = a' /\ height = height' /\ i = i' /\ s = s'.
Proof.
  unfold address_tx_key. intros Hl Hh Hh' Hi Hi' Heq.
  apply app_inj_1 in Heq as [-> Heq]; [|done].
  apply app_inj_1 in Heq as [Hb Heq]; [|by rewrite !be_bytes_length].
  apply app_inj_1 in Heq as [Hc Heq]; [|by rewrite !be_bytes_length].
  unfold is_u64, is_u32, U64_MAX, U32_MAX in *.
  apply be_bytes_inj in Hb; [|cbn; lia..]. apply be_bytes_inj in Hc; [|cbn; lia..].
  split_and!; try done. by destruct s, s'.
Qed.

(** The entries of a chain's transactions that involve [a]. *)
Definition involves (ledger : Ledger) (a : Address) (l : AddressTransactionLocation) : Prop :=
  exists b hash i tx h sent, b ∈ bt_values (chain_blocks ledger) /\ block_hash b = Ok hash /\
    block_transactions b !! i = Some tx /\ tx_hash tx = Ok h /\
    (a, sent) ∈ transaction_addresses tx /\ l = address_location_of b hash i tx h sent.

Lemma load_address_scan a env locs :
  load_address_transaction_locations a env = Ok locs ->
  exists entries, (forall k v, (k, v) ∈ entries <->
      env_view env address_tx_index k = Some v /\ starts_with k a = true) /\
    exists found, Forall2 (fun p l => decode WAddressLocation p.2 = Ok l) entries found /\
      locs = sort_by (fun l r => cmp (al_block_height l, (al_tx_index l, al_sent l))
                                     (al_block_height r, (al_tx_index r, al_sent r))) found.
Proof.
  unfold load_address_transaction_locations, with_ro. rewrite bind_Ok.
  intros (t & Ht & Hr). apply map_err_Ok in Ht. apply bind_Ok in Hr as (items & Hc & Hr).
  apply map_err_Ok in Hc. apply bind_Ok in Hr as (found & Hscan & [= <-]).
  destruct (cursor_items _ _ _ Hc) as (full & Hs & Hel & Hfull).
  exists (List.filter (fun p => starts_with p.1 a) full). split.
  - intros k v. rewrite list_elem_of_In, filter_In, <- list_elem_of_In, Hel.
    by rewrite (begin_ro_ok _ _ Ht).
  - exists found. split; [|done]. by eapply scan_prefix_exact.
Qed.

Lemma saved_address_entries ledger env env' k o :
  save_ledger ledger env = (Ok tt, env') -> env_view env' address_tx_index k = Some o ->
  address_located (bt_values (chain_blocks ledger)) k (Some o).
Proof.
  intros Hs Hv. apply save_ledger_inv in Hs as [genesis Hw].
  assert (Hview : env_view env' address_tx_index k = None \/
    address_located (bt_values (chain_blocks ledger)) k (env_view env' address_tx_index k)).
  { eapply (with_rw_sets address_tx_index k (fun o => o = None \/ address_located _ k o)); [|exact Hw].
    apply write_ledger_keeps; [unfold ledger_tables; set_solver| |intuition discriminate|by left].
    intros o' [Hd|(_ & _ & Ho)]; [|right; by apply Ho].
    revert Hd. rewrite !elem_of_cons, elem_of_nil. intuition discriminate. }
  rewrite Hv in Hview. by destruct Hview.
Qed.

(** Saving refuses a block with more transactions than a [u32] counts. *)
Lemma saved_index_small ledger env env' b i tx :
  save_ledger ledger env = (Ok tt, env') -> b ∈ bt_values (chain_blocks ledger) ->
  block_transactions b !! i = Some tx -> Z.of_nat i <= U32_MAX.
Proof.
  intros Hs Hb Hi. destruct (Z.le_gt_cases (Z.of_nat i) U32_MAX); [done|]. exfalso.
  apply save_ledger_inv in Hs as [genesis Hw].
  eapply (with_rw_sets address_tx_index [] (fun _ => False)); [|exact Hw].
  do 3 apply sets_bind_r. apply sets_bind_l; [|by intros t t' _].
  apply (sets_for _ _ _ _ _ b); [done| |by intros y _ t t' _].
  apply sets_lift. intros _ _. apply sets_lift. intros r _. apply sets_lift. intros hs _.
  do 2 apply sets_bind_r. apply sets_bind_l; [|by intros t t' _].
  apply sets_lift. intros x Hx. apply map_err_Ok in Hx.
  apply (sets_for _ _ _ _ _ (i, tx)); [by apply enumerate_elem| |by intros y _ t t' _].
  unfold index_transaction. destruct (Z.ltb_spec U32_MAX (Z.of_nat i)); [|lia]. intros t t' [=].
Qed.

(** The entry of a chain transaction is there, and it is its own. *)
Lemma saved_address_entry ledger env env' a b hash i tx h sent :
  chain_ok ledger -> length a = ADDRESS_SIZE -> save_ledger ledger env = (Ok tt, env') ->
  b ∈ bt_values (chain_blocks ledger) -> block_hash b = Ok hash ->
  block_transactions b !! i = Some tx -> tx_hash tx = Ok h -> (a, sent) ∈ transaction_addresses tx ->
  exists raw, borsh_to_vec WAddressLocation (address_location_of b hash i tx h sent) = Ok raw /\
    env_view env' address_tx_index (address_tx_key a (block_height b) (Z.of_nat i) sent) = Some raw.
Proof.
  intros Hok Ha Hs Hb Hh Hi Hth Hinv. pose proof (saved_index_small _ _ _ _ _ _ Hs Hb Hi) as Hsm.
  apply save_ledger_inv in Hs as [genesis Hw].
  set (k := address_tx_key a (block_height b) (Z.of_nat i) sent).
  assert (Hk : address_located (bt_values (chain_blocks ledger)) k (env_view env' address_tx_index k)).
  { eapply with_rw_sets; [|exact Hw]. apply (write_ledger_sets _ _ b);
      [done|unfold index_dbs; set_solver| |by eapply index_block_addresses_sets].
    intros o (_ & _ & Ho). by apply Ho. }
  destruct Hk as (b' & hash' & i' & tx' & h' & a' & sent' & raw & Hb' & Hh' & Hi' & Hsm' & Hth' & Ha'
    & Hkey & Hraw & Hv).
  apply address_tx_key_inj in Hkey as (<- & Heq & Hidx & <-);
    [|..|by apply (chain_heights ledger Hok)|by apply (chain_heights ledger Hok)
     |unfold is_u32; lia|unfold is_u32; lia].
  - assert (b' = b) as -> by (symmetry; by apply (chain_unique ledger Hok)).
    assert (i' = i) as -> by lia. assert (hash' = hash) as -> by congruence.
    assert (tx' = tx) as -> by congruence. assert (h' = h) as -> by congruence.
    by exists raw.
  - rewrite Ha. symmetry. eapply (chain_addresses ledger Hok b' tx'); [done| |done].
    by eapply list_elem_of_lookup_2.
Qed.

(** C30: after a ledger is saved, the history of an address is exactly the chain's
    transactions that involve it - one entry each as sender or receiver - in order of height
    and position; entries of other addresses and of earlier chains do not appear. *)
Theorem address_history_exact ledger env env' (a : Address) locs :
  chain_ok ledger -> length a = ADDRESS_SIZE ->
  save_ledger ledger env = (Ok tt, env') ->
  load_address_transaction_locations a env' = Ok locs ->
  (forall l, l ∈ locs <-> involves ledger a l) /\
  StronglySorted (fun l r => cmp (al_block_height l, (al_tx_index l, al_sent l))
                                 (al_block_height r, (al_tx_index r, al_sent r)) <> Gt) locs.
Proof.
  intros Hok Ha Hs Hload. destruct (load_address_scan a env' locs Hload) as (entries & Hel & found & Hdec & ->).
  split; [|by apply sort_by_sorted; [intros x y; apply cmp_total|intros x y z; apply cmp_le_trans]].
  intros l. rewrite elem_of_sort_by. split.
  - intros Hin. apply list_elem_of_lookup in Hin as [j Hj].
    destruct (Forall2_lookup_r _ _ _ _ _ Hdec Hj) as ([k v] & Hkv & Hd). cbn in Hd.
    apply list_elem_of_lookup_2, Hel in Hkv as [Hv Hpre].
    destruct (saved_address_entries _ _ _ _ _ Hs Hv)
      as (b & hash & i & tx & h & a' & sent & raw & Hb & Hh & Hi & _ & Hth & Ha' & -> & Hraw & [= ->]).
    assert (a' = a) as ->.
    { apply starts_with_spec in Hpre as [rest Hpre]. unfold address_tx_key in Hpre.
      apply app_inj_1 in Hpre as [? _]; [done|]. rewrite Ha.
      eapply (chain_addresses ledger Hok b tx); [done|by eapply list_elem_of_lookup_2|done]. }
    unfold decode in Hd. rewrite (borsh_roundtrip _ _ _ _ Hraw) in Hd. injection Hd as <-.
    by exists b, hash, i, tx, h, sent.
  - intros (b & hash & i & tx & h & sent & Hb & Hh & Hi & Hth & Hinv & ->).
    destruct (saved_address_entry ledger env env' a b hash i tx h sent) as (raw & Hraw & Hv); try done.
    assert (Hin : (address_tx_key a (block_height b) (Z.of_nat i) sent, raw) ∈ entries).
    { apply Hel. split; [done|]. apply starts_with_spec. by eexists. }
    apply list_elem_of_lookup in Hin as [j Hj].
    destruct (Forall2_lookup_l _ _ _ _ _ Hdec Hj) as (l & Hl & Hd). cbn in Hd.
    unfold decode in Hd. rewrite (borsh_roundtrip _ _ _ _ Hraw) in Hd. injection Hd as ->.
    by eapply list_elem_of_lookup_2.
Qed.

(** ** Blocks *)

Lemma load_block_view env (height : BlockHeight) :
  (exists e, load_block_by_height height env = Err (Database e)) \/
  load_block_by_height height env =
    match env_view env blocks_by_height (height_key height) with
    | Some raw =>
        b ← decode_stored_block raw;
        if negb (block_height b =? height)
        then integrity "stored block height does not match height key" else Ok (Some b)
    | None => Ok None
    end.
Proof.
  unfold load_block_by_height.
  match goal with |- context [with_ro ?f env] =>
    destruct (with_ro_inv f env) as [?|(t & Hb & ->)] end; [by left|].
  destruct (read_bytes_view env t blocks_by_height (height_key height) _ Hb eq_refl)
    as [[e ->]| ->]; [left; by exists e|by right].
Qed.

Lemma load_block_hash_view env (hash : BlockHash) :
  (exists e, load_block_by_hash hash env = Err (Database e)) \/
  load_block_by_hash hash env =
    match env_view env blocks_by_hash hash with
    | Some raw =>
        b ← decode_stored_block raw;
        h ← stored_hash b;
        if negb (bool_decide (h = hash)) then integrity "stored block hash does not match hash key"
        else Ok (Some b)
    | None => Ok None
    end.
Proof.
  unfold load_block_by_hash.
  match goal with |- context [with_ro ?f env] =>
    destruct (with_ro_inv f env) as [?|(t & Hb & ->)] end; [by left|].
  destruct (read_bytes_view env t blocks_by_hash hash _ Hb eq_refl)
    as [[e ->]| ->]; [left; by exists e|by right].
Qed.

Context `{!BlockCodecLaws}.

(** What [save_block] leaves in the database. *)
Record block_stored b (raw : bytes) (hash : BlockHash) env : Prop := {
  st_bytes : block_bytes b = Ok raw;
  st_hash : block_hash b = Ok hash;
  st_decodes : decode_block raw = Ok b;
  st_height : env_view env blocks_by_height (height_key (block_height b)) = Some raw;
  st_by_hash : env_view env blocks_by_hash hash = Some raw;
  st_header : exists hraw, borsh_to_vec WHeader (header b) = Ok hraw /\
    env_view env headers_by_height (height_key (block_height b)) = Some hraw;
  st_txs : forall i tx h, block_transactions b !! i = Some tx -> tx_hash tx = Ok h ->
    located [b] h (env_view env tx_index h)
}.

Lemma index_block_keeps b d k Q :
  d ∉ index_dbs -> keeps d k Q (index_block_transactions b ;; index_miner_block b).
Proof.
  intros Hd. eapply (keeps_writes (index_W [b])); [|by intros o [? _]].
  apply writes_bind; [apply index_block_transactions_writes; by left|apply index_miner_block_writes].
Qed.
Lemma header_index_keeps b d k Q :
  d ∉ index_dbs -> d <> headers_by_height ->
  keeps d k Q (put_value WHeader headers_by_height (height_key (block_height b)) (header b) ;;
    index_block_transactions b ;; index_miner_block b).
Proof.
  intros Hd Hne t t' Hr Hq. apply program_bind_inv in Hr as (t1 & Hr1 & Hr2).
  eapply (index_block_keeps b d k Q Hd _ _ Hr2).
  refine (keeps_writes (fun d _ _ => d = headers_by_height) d k Q _ _ _ t t1 Hr1 Hq); [|done].
  by apply writes_put_value.
Qed.

Lemma save_block_stored b env env' :
  save_block b env = (Ok tt, env') -> exists raw hash, block_stored b raw hash env'.
Proof.
  unfold save_block. intros Hr. unfold validate_block_for_storage, stored_hash in Hr.
  destruct (block_validate_structure b) as [[]|] eqn:Hv; cbn [map_err] in Hr; st_simpl_in Hr; [|done].
  destruct (block_bytes b) as [raw|] eqn:Hraw; cbn [map_err] in Hr; st_simpl_in Hr; [|done].
  destruct (block_hash b) as [hash|] eqn:Hhash; cbn [map_err] in Hr; st_simpl_in Hr; [|done].
  exists raw, hash.
  assert (Hnot : (blocks_by_height ∉ index_dbs) /\ (blocks_by_hash ∉ index_dbs) /\
    (headers_by_height ∉ index_dbs)).
  { unfold index_dbs. rewrite !elem_of_cons, !elem_of_nil. intuition discriminate. }
  destruct Hnot as (Hn1 & Hn2 & Hn3).
  split; [done|done|by apply block_codec_roundtrip|..].
  - eapply (with_rw_sets _ _ (fun o => o = Some raw)); [|exact Hr].
    apply sets_bind_l; [by apply sets_put_bytes|].
    intros t t' Hrun. apply program_bind_inv in Hrun as (t1 & Hp & Hrun).
    intros Ho. apply (header_index_keeps b _ (height_key (block_height b)) (fun o => o = Some raw)
      Hn1 ltac:(done) t1 t' Hrun).
    refine (keeps_writes (fun d _ _ => d = blocks_by_hash) _ _ (fun o => o = Some raw)
      _ _ _ t t1 Hp Ho); [|done].
    by apply writes_put_bytes.
  - eapply (with_rw_sets _ _ (fun o => o = Some raw)); [|exact Hr].
    apply sets_bind_r, sets_bind_l; [by apply sets_put_bytes|]. by apply header_index_keeps.
  - eapply (with_rw_sets _ _ (fun o => exists hraw, borsh_to_vec WHeader (header b) = Ok hraw /\ o = Some hraw)); [|exact Hr].
    do 2 apply sets_bind_r. apply sets_bind_l; [|by apply index_block_keeps].
    apply sets_put_value. intros hraw Hh. by exists hraw.
  - intros i tx h Hi Hth. eapply with_rw_sets; [|exact Hr]. do 3 apply sets_bind_r.
    apply sets_bind_l; [eapply index_block_transactions_sets; [by left|done..]|].
    eapply keeps_writes; [apply index_miner_block_writes|]. intros o (_ & Ho & _). apply Ho. by left.
Qed.

Lemma load_block_stored b raw hash env :
  block_stored b raw hash env -> reads (load_block_by_height (block_height b) env) (Some b).
Proof.
  intros [_ _ Hdec Hh _ _ _]. destruct (load_block_view env (block_height b)) as [?|Hl]; [by right|].
  left. rewrite Hl, Hh. unfold decode_stored_block. rewrite Hdec. cbn. by rewrite Z.eqb_refl.
Qed.

(** a saved block is read back by height and by hash, its header by height, and each of
    its transactions by transaction hash, at its block - unless LMDB itself fails. *)
Theorem save_block_load `{!BlockLaws} b env env' (hash : BlockHash) :
  save_block b env = (Ok tt, env') -> block_hash b = Ok hash ->
  NoDup (tx_hash <$> block_transactions b) ->
  reads (load_block_by_height (block_height b) env') (Some b) /\
  reads (load_block_by_hash hash env') (Some b) /\
  reads (load_header_by_height (block_height b) env') (Some (header b)) /\
  forall i tx h, block_transactions b !! i = Some tx -> tx_hash tx = Ok h ->
    reads (load_protocol_transaction h env') (Some (location_of b hash i tx, tx)).
Proof.
  intros Hsave Hhash Hnd. apply save_block_stored in Hsave as (raw & hash' & Hst).
  pose proof (load_block_stored _ _ _ _ Hst) as Hload.
  destruct Hst as [_ Hh' Hdec _ Hbh (hraw & Hhraw & Hhd) Htx]. rewrite Hhash in Hh'. injection Hh' as <-.
  split_and!; [done| | |].
  - destruct (load_block_hash_view env' hash) as [?|Hl]; [by right|]. left.
    rewrite Hl, Hbh. unfold decode_stored_block. rewrite Hdec. cbn.
    unfold stored_hash. rewrite Hhash. cbn. by rewrite bool_decide_true.
  - unfold load_header_by_height.
    destruct (read_value_view WHeader env' headers_by_height (height_key (block_height b)))
      as [[e He]|He]; cbv zeta in He; rewrite He; [right; by exists e|]. left.
    rewrite Hhd. unfold decode. rewrite (borsh_roundtrip _ _ _ _ Hhraw). cbn.
    by rewrite <- block_height_header, Z.eqb_refl.
  - intros i tx h Hi Hth. unfold load_protocol_transaction, load_transaction_location.
    destruct (read_value_view WTransactionLocation env' tx_index h) as [[e He]|He];
      cbv zeta in He; rewrite He; [right; by exists e|].
    destruct (Htx i tx h Hi Hth) as (b' & hs & i' & tx' & r & Hb' & Hhs & Hi' & Hth' & Hr & Ho).
    apply list_elem_of_singleton in Hb' as ->. assert (hs = hash) as -> by congruence.
    assert (i' = i) as ->.
    { apply (NoDup_lookup (tx_hash <$> block_transactions b) i' i (Ok h) Hnd);
        rewrite list_lookup_fmap; [rewrite Hi'|rewrite Hi]; cbn; congruence. }
    assert (tx' = tx) as -> by congruence.
    rewrite Ho. unfold decode. rewrite (borsh_roundtrip _ _ _ _ Hr). cbn.
    destruct Hload as [Hl|[e Hl]]; rewrite Hl; [|right; by exists e]. left. cbn.
    unfold stored_hash. rewrite Hhash. cbn. rewrite bool_decide_true by done. cbn.
    unfold protocol_transactions. rewrite Nat2Z.id, Hi. cbn. rewrite Hth. cbn.
    by rewrite !bool_decide_true.
Qed.
End read.
