(* ===== verification/StorageState.v ===== *)
(** Reading back the ledger's accounts and the rollback records, the schema version gate, and
    where the address index and the rollback records disagree. *)
From Stdlib Require Import ZArith Lia Sorted Permutation.
From stdpp Require Import base numbers option strings list sets.
From S2P Require Import Prelude BTree PaqusCore Toy Recovery Lmdb Storage StorageLogic StorageSpec.
Open Scope Z_scope.

Section state.
Context `{PaqusTypes} `{!TxOps} `{!BlockOps} `{!LedgerOps} `{!EventOps} `{!GenesisOps}.
Context `{!Borsh} `{!BorshLaws} `{!Lmdb} `{!LmdbModel}.
Implicit Types (env : LmdbEnv) (b : Block).

(** ** Accounts *)

(** [o] is the encoding of an account of [accs] at key [k]. *)
Definition account_at (accs : list Account) (k : bytes) (o : option bytes) : Prop :=
  exists a raw, a ∈ accs /\ account_address a = k /\ borsh_to_vec WAccount a = Ok raw /\ o = Some raw.

Definition account_loop (accs : list Account) : ST RwTransaction StorageError unit :=
  st_for (fun a => put_value WAccount accounts (account_address a) a) accs.

Lemma account_loop_writes accs :
  writes (fun d k o => d = accounts /\ account_at accs k o) (account_loop accs).
Proof.
  apply writes_for. intros a Ha. apply writes_put_value. intros raw Hraw.
  split; [done|]. by exists a, raw.
Qed.
Lemma account_loop_sets accs a :
  a ∈ accs -> sets accounts (account_address a) (account_at accs (account_address a)) (account_loop accs).
Proof.
  intros Ha. apply (sets_for _ _ _ _ _ a); [done| |].
  - apply sets_put_value. intros raw Hraw. by exists a, raw.
  - intros a' Ha'. eapply (keeps_writes (fun d k o => account_at accs k o)); [|done].
    apply writes_put_value. intros raw Hraw. by exists a', raw.
Qed.

(** After the account loop of [save_ledger], no step touches the accounts. *)
Lemma write_ledger_accounts ledger genesis k Q :
  sets accounts k Q (st_for clear ledger_tables ;; account_loop (bt_values (ledger_accounts ledger))) ->
  sets accounts k Q (write_ledger ledger genesis).
Proof.
  intros Hs t t' Hr. unfold write_ledger in Hr. fold (account_loop (bt_values (ledger_accounts ledger))) in Hr.
  apply program_bind_inv in Hr as (t1 & Hr1 & Hr). apply program_bind_inv in Hr as (t2 & Hr2 & Hr).
  assert (Hq : Q (rw_view t2 accounts k)).
  { apply (Hs t t2). rewrite (st_bind_ok _ _ _ _ _ Hr1). exact Hr2. }
  clear Hs Hr1 Hr2.
  refine (keeps_writes (fun d _ _ => d <> accounts) accounts k Q _ _ _ t2 t' Hr Hq); [|done].
  apply writes_bind; [apply writes_for; intros; by apply writes_put_value|].
  apply writes_bind.
  { apply writes_for. intros b Hb. eapply writes_weaken; [by apply put_chain_block_writes|].
    intros d k' o [Hd|[Hd _]] ->; revert Hd; unfold index_dbs; rewrite !elem_of_cons, elem_of_nil;
      intuition discriminate. }
  apply writes_bind.
  { destruct (ledger_tip_height ledger), (ledger_tip_hash ledger); try apply writes_ret.
    by apply put_tip_writes. }
  apply writes_bind.
  { destruct (chain_checkpoint_height ledger); [by apply writes_put_value|].
    eapply writes_weaken; [apply delete_writes|]. by intros d k' o [-> _]. }
  apply writes_bind; [by apply writes_put_value|].
  destruct genesis; [by apply writes_put_value|apply writes_ret].
Qed.

(** Accounts are keyed by their own address. *)
Definition accounts_ok (m : BTreeMap Address Account) : Prop :=
  bt_wf m /\ forall a acc, m !! a = Some acc -> account_address acc = a.

Lemma saved_accounts_view ledger env env' k :
  accounts_ok (ledger_accounts ledger) -> save_ledger ledger env = (Ok tt, env') ->
  match env_view env' accounts k with
  | Some raw => exists acc, ledger_accounts ledger !! k = Some acc /\ borsh_to_vec WAccount acc = Ok raw
  | None => ledger_accounts ledger !! k = None
  end.
Proof.
  intros [Hwf Hkey] Hs. apply save_ledger_inv in Hs as [genesis Hw].
  set (accs := bt_values (ledger_accounts ledger)).
  assert (Hview : env_view env' accounts k = None \/ account_at accs k (env_view env' accounts k)).
  { eapply (with_rw_sets accounts k (fun o => o = None \/ account_at accs k o)); [|exact Hw].
    apply write_ledger_accounts, sets_bind_l.
    - intros t t' Hr. left. symmetry. eapply (clear_tables_sets accounts k); [|exact Hr].
      unfold ledger_tables. set_solver.
    - eapply keeps_writes; [apply account_loop_writes|]. intros o [_ Ho]. by right. }
  destruct (env_view env' accounts k) as [raw|] eqn:Hv.
  - destruct Hview as [[=]|(acc & raw' & Hin & <- & Hraw & [= ->])]. exists acc. split; [|done].
    apply bt_elem_values in Hin as [a Ha]; [|done]. by rewrite (Hkey a acc Ha).
  - destruct (ledger_accounts ledger !! k) as [acc|] eqn:Hl; [|done]. exfalso.
    assert (Hin : acc ∈ accs) by (apply bt_elem_values; [done|by exists k]).
    assert (Hat : account_at accs k (env_view env' accounts k)).
    { eapply with_rw_sets; [|exact Hw]. apply write_ledger_accounts, sets_bind_r.
      rewrite <- (Hkey k acc Hl). by apply account_loop_sets. }
    rewrite Hv in Hat. by destruct Hat as (? & ? & _ & _ & _ & [=]).
Qed.

(** A completed account scan read every entry, checking its key. *)
Lemma account_scan_exact items out full :
  scan_items (fun key raw => a ← decode WAccount raw;
    if negb (bool_decide (account_address a = key))
    then integrity "stored account address does not match account key" else Ok (Keep a)) items = Ok out ->
  (forall l rest, items = map Ok l ++ rest -> l `prefix_of` full /\ (rest = [] -> l = full)) ->
  Forall2 (fun p a => decode WAccount p.2 = Ok a /\ account_address a = p.1) full out.
Proof.
  revert out full. induction items as [|item items IH]; intros out full Hscan Hfull; cbn in Hscan.
  { injection Hscan as <-. destruct (Hfull [] [] eq_refl) as [_ Hf]. rewrite <- Hf by done. constructor. }
  apply bind_Ok in Hscan as ([k v] & Hitem & Hscan). apply map_err_Ok in Hitem as ->.
  destruct (Hfull [(k, v)] items eq_refl) as [[full' ->] _].
  apply bind_Ok in Hscan as (sc & Hsc & Hscan). apply bind_Ok in Hsc as (a & Ha & Hsc). cbn in Ha, Hsc.
  case_bool_decide as Hk; [|done]. injection Hsc as <-.
  apply bind_Ok in Hscan as (rest & Hrest & [= <-]). constructor; [done|]. apply IH; [done|].
  intros l r ->. destruct (Hfull ((k, v) :: l) r eq_refl) as [Hp He]. cbn in Hp, He.
  split; [by apply prefix_cons_inv_2 in Hp|]. intros Hn. specialize (He Hn). by injection He.
Qed.

Lemma sorted_keys_unique (full : list (bytes * bytes)) p q :
  key_sorted full -> p ∈ full -> q ∈ full -> p.1 = q.1 -> p = q.
Proof.
  unfold key_sorted. induction 1 as [|x l Hs IH Hf]; intros Hp Hq Heq; [by apply elem_of_nil in Hp|].
  rewrite Forall_forall in Hf.
  apply elem_of_cons in Hp as [->|Hp]; apply elem_of_cons in Hq as [->|Hq]; [done| | |by apply IH].
  - apply Hf in Hq. rewrite Heq, cmp_refl in Hq. done.
  - apply Hf in Hp. rewrite Heq, cmp_refl in Hp. done.
Qed.

(** the accounts read back from a saved ledger are exactly its accounts, none lost, none
    left over from an earlier state - unless LMDB itself fails. *)
Theorem save_ledger_load_accounts ledger env env' accs :
  accounts_ok (ledger_accounts ledger) -> save_ledger ledger env = (Ok tt, env') ->
  load_accounts env' = Ok accs -> accs = ledger_accounts ledger.
Proof.
  intros Hok Hs Hload. unfold load_accounts, with_ro in Hload.
  apply bind_Ok in Hload as (t & Ht & Hr). apply map_err_Ok in Ht.
  apply bind_Ok in Hr as (items & Hc & Hr). apply map_err_Ok in Hc.
  apply bind_Ok in Hr as (out & Hscan & [= <-]).
  destruct (cursor_items _ _ _ Hc) as (full & Hsorted & Hel & Hfull).
  pose proof (account_scan_exact _ _ _ Hscan Hfull) as Hdec.
  assert (Hentry : forall a, a ∈ out <-> ledger_accounts ledger !! account_address a = Some a).
  { intros a. pose proof (saved_accounts_view ledger env env' (account_address a) Hok Hs) as Hv. split.
    - intros Ha. apply list_elem_of_lookup in Ha as [j Hj].
      destruct (Forall2_lookup_r _ _ _ _ _ Hdec Hj) as ([k raw] & Hk & Hd & Hka). cbn in Hd, Hka. subst k.
      apply list_elem_of_lookup_2, Hel in Hk. rewrite (begin_ro_ok _ _ Ht) in Hk. rewrite Hk in Hv.
      destruct Hv as (acc & Hacc & Hraw). unfold decode in Hd.
      rewrite (borsh_roundtrip _ _ _ _ Hraw) in Hd. cbn in Hd. congruence.
    - intros Ha. destruct (env_view env' accounts (account_address a)) as [raw|] eqn:Hview; [|congruence].
      destruct Hv as (acc & Hacc & Hraw). assert (acc = a) as -> by congruence.
      rewrite <- (begin_ro_ok _ _ Ht) in Hview. apply Hel in Hview.
      apply list_elem_of_lookup in Hview as [j Hj].
      destruct (Forall2_lookup_l _ _ _ _ _ Hdec Hj) as (a' & Ha' & Hd & _). cbn in Hd.
      unfold decode in Hd. rewrite (borsh_roundtrip _ _ _ _ Hraw) in Hd. injection Hd as <-.
      by eapply list_elem_of_lookup_2. }
  destruct Hok as [Hwf Hkey]. apply bt_eq; [apply bt_fold_insert_wf, bt_wf_empty|done|].
  intros k. rewrite (bt_fold_insert account_address) by (intros a a' Ha Ha' E; apply Hentry in Ha, Ha'; congruence).
  destruct (list_find _ out) as [[j a]|] eqn:E.
  - apply list_find_Some in E as (Hj & <- & _). symmetry. apply Hentry. by eapply list_elem_of_lookup_2.
  - rewrite bt_lookup_empty. destruct (ledger_accounts ledger !! k) as [acc|] eqn:Hk; [|done].
    exfalso. apply list_find_None in E. rewrite Forall_forall in E. apply (E acc); [|by apply Hkey].
    apply Hentry. by rewrite (Hkey k acc Hk).
Qed.

(** ** Schema version *)

Lemma is_db_empty_view env t db :
  begin_ro_txn env = Ok t -> is_db_empty t db = Ok true -> forall k, env_view env db k = None.
Proof.
  unfold is_db_empty. intros Ht Hr k. apply bind_Ok in Hr as (items & Hc & Hr). apply map_err_Ok in Hc.
  destruct items; [|done]. destruct (cursor_items _ _ _ Hc) as (full & _ & Hel & Hfull).
  destruct (Hfull [] [] eq_refl) as [_ Hf]. specialize (Hf eq_refl). subst full.
  destruct (env_view env db k) as [v|] eqn:E; [|done].
  rewrite <- (begin_ro_ok _ _ Ht) in E. apply Hel in E. by apply elem_of_nil in E.
Qed.

Lemma all_empty_view env t dbs :
  begin_ro_txn env = Ok t -> all_empty t dbs = Ok true ->
  forall d k, d ∈ dbs -> env_view env d k = None.
Proof.
  intros Ht. induction dbs as [|d0 dbs IH]; cbn; intros Hr d k Hd; [by apply elem_of_nil in Hd|].
  apply bind_Ok in Hr as (e & He & Hr). destruct e; [|done].
  apply elem_of_cons in Hd as [->|Hd]; [by eapply is_db_empty_view|by apply IH].
Qed.

(** opening accepts a database only at the supported schema version. A database with
    another version is refused, one without a version is accepted only when it holds no
    block, account, index, event or rollback record, and is then stamped with the version,
    nothing else changing. *)
Theorem version_gate env v r env' :
  load_storage_version env = Ok v -> ensure_storage_version env = (r, env') ->
  match v with
  | Some found =>
      env' = env /\ r = (if found =? STORAGE_VERSION then Ok tt
                         else Err (UnsupportedStorageVersion STORAGE_VERSION found))
  | None =>
      r = Ok tt ->
      (forall d k, d ∈ [blocks_by_height; blocks_by_hash; headers_by_height; accounts;
         genesis_accounts; tx_index; address_tx_index; events_by_id; rollback_issues;
         rollback_proof_contexts] -> env_view env d k = None) /\
      (forall d k, d <> meta \/ k <> STORAGE_VERSION_KEY -> env_view env' d k = env_view env d k) /\
      reads (load_storage_version env') (Some STORAGE_VERSION)
  end.
Proof.
  intros Hv Hr. unfold ensure_storage_version in Hr. st_simpl_in Hr. rewrite Hv in Hr. st_simpl_in Hr.
  destruct v as [found|]; [destruct (found =? STORAGE_VERSION); by injection Hr as <- <-|].
  intros ->. destruct (is_empty_database env) as [e|e] eqn:Hemp; st_simpl_in Hr; [|done].
  destruct e; [|done].
  apply st_bind_inv in Hr as [(e & _ & [=])|([] & env1 & Hsave & Hr)].
  st_simpl_in Hr. injection Hr as Hf ->. unfold save_storage_version in Hsave. split_and!.
  - intros d k Hd. unfold is_empty_database, with_ro in Hemp.
    apply bind_Ok in Hemp as (t & Ht & Hemp). apply map_err_Ok in Ht.
    eapply all_empty_view; [exact Ht|exact Hemp|]. set_solver.
  - intros d k Hne.
    assert (Hw : writes (fun d k _ => d = meta /\ k = STORAGE_VERSION_KEY)
      (put_value WVersion meta STORAGE_VERSION_KEY STORAGE_VERSION)) by by apply writes_put_value.
    destruct (with_rw_writes _ _ _ _ Hw Hsave d k) as [?|[-> ->]]; [done|naive_solver].
  - unfold load_storage_version.
    destruct (read_value_view WVersion env' meta STORAGE_VERSION_KEY) as [[e He]|He];
      cbv zeta in He; rewrite He; [right; by exists e|].
    assert (Hset : exists raw, borsh_to_vec WVersion STORAGE_VERSION = Ok raw /\
      env_view env' meta STORAGE_VERSION_KEY = Some raw).
    { eapply (with_rw_sets _ _ (fun o => exists raw, borsh_to_vec WVersion STORAGE_VERSION = Ok raw /\
        o = Some raw)); [|exact Hsave]. apply sets_put_value. intros raw Hraw. by exists raw. }
    destruct Hset as (raw & Hraw & ->). left. unfold decode. by rewrite (borsh_roundtrip _ _ _ _ Hraw).
Qed.

(** ** Rollback records *)

Lemma validate_rollback_issue_Ok (i : RollbackIssue) expected :
  validate_rollback_issue i expected = Ok tt <->
  tx_hash (issue_transaction i) = Ok (issue_transaction_hash i) /\
  issue_id_for_transaction (disconnected_block_hash i) (issue_transaction_hash i) = Ok (issue_id i) /\
  (expected = None \/ expected = Some (issue_id i)).
Proof.
  unfold validate_rollback_issue. split.
  - rewrite bind_Ok. intros (h & Hh & Hr). apply map_err_Ok in Hh.
    apply bind_Ok in Hr as (id & Hid & Hr). apply map_err_Ok in Hid.
    case_bool_decide as H1'; [|done]. case_bool_decide as H2'; [|done]. subst.
    destruct expected as [e|]; cbn in Hr; [|naive_solver]. case_bool_decide; [|done]. naive_solver.
  - intros (Hh & Hid & He). rewrite Hh. cbn. rewrite Hid. cbn. rewrite !bool_decide_true by done. cbn.
    destruct He as [->| ->]; [done|]. by rewrite bool_decide_true.
Qed.

(** The issue filed under [id]. *)
Definition issue_at env (id : RollbackIssueId) (i : RollbackIssue) : Prop :=
  exists raw, env_view env rollback_issues id = Some raw /\ decode WIssue raw = Ok i /\
    validate_rollback_issue i (Some id) = Ok tt.

Lemma save_issue_at (i : RollbackIssue) env env' :
  save_rollback_issue i env = (Ok tt, env') ->
  issue_at env' (issue_id i) i /\
  forall d k, d <> rollback_issues \/ k <> issue_id i -> env_view env' d k = env_view env d k.
Proof.
  unfold save_rollback_issue. destruct (validate_rollback_issue i None) as [[]|] eqn:Hval; st_simpl; [|done].
  intros Hs. split.
  - assert (Hset : exists raw, borsh_to_vec WIssue i = Ok raw /\
      env_view env' rollback_issues (issue_id i) = Some raw).
    { eapply (with_rw_sets _ _ (fun o => exists raw, borsh_to_vec WIssue i = Ok raw /\ o = Some raw));
        [|exact Hs]. apply sets_put_value. intros raw Hraw. by exists raw. }
    destruct Hset as (raw & Hraw & Hv). exists raw. split; [done|].
    unfold decode. rewrite (borsh_roundtrip _ _ _ _ Hraw). split; [done|].
    apply validate_rollback_issue_Ok in Hval as (Hh & Hid & _). apply validate_rollback_issue_Ok. auto.
  - intros d k Hne.
    destruct (with_rw_writes (fun d k _ => d = rollback_issues /\ k = issue_id i) _ _ _
      (writes_put_value _ WIssue rollback_issues (issue_id i) i (fun _ _ => conj eq_refl eq_refl)) Hs d k)
      as [?|[? ?]]; [done|naive_solver].
Qed.
Lemma save_issue_err (i : RollbackIssue) env e env' :
  save_rollback_issue i env = (Err e, env') -> same_data env' env.
Proof.
  unfold save_rollback_issue. destruct (validate_rollback_issue i None) as [[]|]; st_simpl.
  - intros Hr. apply with_rw_inv in Hr as [(e' & _ & ?)|(t & t' & _ & _ & [=] & _)]. done.
  - by intros [= _ <-].
Qed.
Lemma load_issue_view id env o :
  load_rollback_issue id env = Ok o ->
  match o with Some i => issue_at env id i | None => env_view env rollback_issues id = None end.
Proof.
  unfold load_rollback_issue, with_ro. rewrite bind_Ok. intros (t & Ht & Hr). apply map_err_Ok in Ht.
  apply bind_Ok in Hr as (o' & Hr & Hv). unfold read_value in Hr. apply bind_Ok in Hr as (raw & Hraw & Hr).
  destruct (read_bytes_view env t rollback_issues id _ Ht Hraw) as [[e [=]]|[= ->]].
  destruct (env_view env rollback_issues id) as [raw|] eqn:E.
  - apply bind_Ok in Hr as (i & Hd & [= <-]). apply bind_Ok in Hv as ([] & Hval & [= <-]). by exists raw.
  - injection Hr as <-. by injection Hv as <-.
Qed.
Lemma issue_at_reads id env i : issue_at env id i -> reads (load_rollback_issue id env) (Some i).
Proof.
  intros (raw & Hv & Hd & Hval). unfold load_rollback_issue.
  match goal with |- context [with_ro ?f env] => destruct (with_ro_inv f env) as [He|(t & Hb & ->)] end; [by right|].
  unfold read_value. destruct (read_bytes_view env t rollback_issues id _ Hb eq_refl)
    as [[e ->]| ->]; [right; by exists e|].
  rewrite Hv. left. cbn. rewrite Hd. cbn. by rewrite Hval.
Qed.

(** a saved rollback issue is read back under its id, and no issue is ever returned
    whose id is not the one derived from its block and transaction. *)
Theorem rollback_issue_roundtrip (i : RollbackIssue) env env' :
  (save_rollback_issue i env = (Ok tt, env') ->
   reads (load_rollback_issue (issue_id i) env') (Some i)) /\
  (forall id j, load_rollback_issue id env = Ok (Some j) ->
   issue_id j = id /\ tx_hash (issue_transaction j) = Ok (issue_transaction_hash j) /\
   issue_id_for_transaction (disconnected_block_hash j) (issue_transaction_hash j) = Ok id).
Proof.
  split.
  - intros Hs. apply issue_at_reads. by apply (save_issue_at i env).
  - intros id j Hl. apply load_issue_view in Hl as (raw & _ & _ & Hval).
    apply validate_rollback_issue_Ok in Hval. naive_solver.
Qed.

(** ** Whom a transaction concerns *)

(** the address index and the rollback records agree on whom a transaction concerns,
    except for the claimant of a [RecoverRedeem]: the index lists the claimant, the rollback
    record does not, so the claimant's account shows no issue for a rolled-back claim. *)
Theorem recover_redeem_claimant_omitted (tx : SignedProtocolTransaction) a :
  (exists sent, (a, sent) ∈ transaction_addresses tx) <->
  a ∈ affected_accounts tx \/
  exists t ins, tx = QCash t /\ qcash_kind t = RecoverRedeem a ins.
Proof.
  rewrite affected_accounts_elem. unfold transaction_addresses. setoid_rewrite elem_of_cons.
  setoid_rewrite list_elem_of_fmap. setoid_rewrite list_elem_of_In. setoid_rewrite filter_In.
  setoid_rewrite negb_true_iff. setoid_rewrite bool_decide_eq_false.
  setoid_rewrite <- list_elem_of_In.
  destruct (decide (a = tx_signer tx)) as [->|Hne].
  { split; [by left; left|]. intros _. exists true. by left. }
  destruct tx as [t|t]; cbn [tx_signer] in *.
  - setoid_rewrite list_elem_of_omap. split.
    + intros (sent & [[= -> _]|(x & [= -> ->] & (o & Ho & Hs) & _)]); [done|]. left. right. exists o.
      split; [done|]. destruct (to o); cbn in Hs; congruence.
    + intros [[?|(o & Ho & Hs)]|(t' & ins & [=] & _)]; [done|]. exists false. right. exists a.
      split; [done|]. split; [|done]. exists o. by rewrite Hs.
  - destruct (qcash_kind t) eqn:Hk; split.
    + intros (sent & [[= -> _]|(x & _ & Hx & _)]); [done|by apply elem_of_nil in Hx].
    + intros [[?|(ins & [=])]|(t' & ins & [= <-] & Hk')]; [done|congruence].
    + intros (sent & [[= -> _]|(x & [= -> ->] & Hx & _)]); [done|].
      apply list_elem_of_singleton in Hx as ->. left. right. by eexists.
    + intros [[?|(ins & [= -> ->])]|(t' & ins & [= <-] & Hk')]; [done| |congruence].
      exists false. right. exists a. split; [done|]. split; [by apply list_elem_of_singleton|done].
    + intros (sent & [[= -> _]|(x & [= -> ->] & Hx & _)]); [done|].
      apply list_elem_of_singleton in Hx as ->. right. by eexists _, _.
    + intros [[?|(ins & [=])]|(t' & ins & [= <-] & Hk')]; [done|]. rewrite Hk in Hk'.
      injection Hk' as -> ->. exists false. right. exists a.
      split; [done|]. split; [by apply list_elem_of_singleton|done].
Qed.
End state.
