(* ===== verification/StorageExamples.v ===== *)
(** Storage on the toy protocol and the in-memory store: the encodings, and the storage
    theorems evaluated on a saved two-block chain. *)
From Stdlib Require Import ZArith Lia Sorted.
From stdpp Require Import base numbers option strings list sets gmap.
From S2P Require Import Prelude BTree PaqusCore Toy Recovery Lmdb Storage StorageLogic.
From S2P Require Import StorageSpec StorageRead StorageState.
Open Scope Z_scope.

Module StorageToy.
Import Toy.
#[export] Existing Instances MapStore.store MapStore.store_model.

#[global] Instance family_ser : Ser TransactionFamily :=
  ser_iso (A := bool) (fun f => match f with FamilyBatchTransfer => true | FamilyQCash => false end)
    (fun b : bool => if b then FamilyBatchTransfer else FamilyQCash).
#[global] Instance family_ser_law : SerLaw TransactionFamily.
Proof. apply ser_iso_law. by intros []. Qed.
#[global] Instance tl_ser : Ser TransactionLocation :=
  ser_iso (A := Z * (list Z * (Z * TransactionFamily)))
    (fun l => (tl_block_height l, (tl_block_hash l, (tl_tx_index l, tl_family l))))
    (fun p => {| tl_block_height := p.1; tl_block_hash := p.2.1; tl_tx_index := p.2.2.1;
                 tl_family := p.2.2.2 |}).
#[global] Instance tl_ser_law : SerLaw TransactionLocation.
Proof. apply ser_iso_law. by intros []. Qed.
#[global] Instance al_ser : Ser AddressTransactionLocation :=
  ser_iso (A := list Z * (Z * (list Z * (Z * (bool * TransactionFamily)))))
    (fun l => (al_tx_hash l, (al_block_height l, (al_block_hash l, (al_tx_index l,
      (al_sent l, al_family l))))))
    (fun p => {| al_tx_hash := p.1; al_block_height := p.2.1; al_block_hash := p.2.2.1;
       al_tx_index := p.2.2.2.1; al_sent := p.2.2.2.2.1; al_family := p.2.2.2.2.2 |}).
#[global] Instance al_ser_law : SerLaw AddressTransactionLocation.
Proof. apply ser_iso_law. by intros []. Qed.
#[global] Instance ml_ser : Ser MinerBlockLocation :=
  ser_iso (A := Z * list Z) (fun l => (ml_block_height l, ml_block_hash l))
    (fun p => {| ml_block_height := p.1; ml_block_hash := p.2 |}).
#[global] Instance ml_ser_law : SerLaw MinerBlockLocation.
Proof. apply ser_iso_law. by intros []. Qed.
#[global] Instance state_ser : Ser StoredProtocolState :=
  ser_iso (A := unit * BTreeMap (list Z) (list Z))
    (fun s => (sp_qcash_utxos s, sp_events_by_block s))
    (fun p => {| sp_qcash_utxos := p.1 : QCashUtxoSet; sp_events_by_block := p.2 |}).
#[global] Instance state_ser_law : SerLaw StoredProtocolState.
Proof. apply ser_iso_law. by intros []. Qed.
#[global] Instance status_ser : Ser RollbackRecoveryStatus :=
  ser_iso (A := Z + (Z * list Z))
    (fun s => match s with
              | Detected => inl 0 | Requeued => inl 1 | Conflict => inl 2
              | Reconfirmed h b => inr (h, b)
              end)
    (fun s => match s with
              | inl 0 => Detected | inl 1 => Requeued | inl _ => Conflict
              | inr p => Reconfirmed p.1 p.2
              end).
#[global] Instance status_ser_law : SerLaw RollbackRecoveryStatus.
Proof. apply ser_iso_law. by intros []. Qed.
#[global] Instance context_ser : Ser RollbackProofContext :=
  ser_iso (A := list Z * (list Header * (list Header * list Z)))
    (fun c => (ctx_id c, (losing_headers c, (canonical_headers c, common_ancestor c))))
    (fun p => {| ctx_id := p.1; losing_headers := p.2.1; canonical_headers := p.2.2.1;
                 common_ancestor := p.2.2.2 |}).
#[global] Instance context_ser_law : SerLaw RollbackProofContext.
Proof. apply ser_iso_law. by intros []. Qed.
#[global] Instance issue_ser : Ser RollbackIssue :=
  ser_iso (A := (list Z * (Z * (list Z * (Z * (list Z * (TransactionFamily * list (list Z))))))) *
    (SignedProtocolTransaction * (list Z * (Z * (RollbackRecoveryStatus * (Z * (Z * option string)))))))
    (fun i => ((issue_id i, (disconnected_block_height i, (disconnected_block_hash i,
        (transaction_index i, (issue_transaction_hash i, (family i, issue_affected_accounts i)))))),
      (issue_transaction i, (proof_context_id i, (transaction_proof i, (status i, (detected_at i,
        (retry_attempts i, last_error i))))))))
    (fun p => {| issue_id := p.1.1; disconnected_block_height := p.1.2.1;
       disconnected_block_hash := p.1.2.2.1; transaction_index := p.1.2.2.2.1;
       issue_transaction_hash := p.1.2.2.2.2.1; family := p.1.2.2.2.2.2.1;
       issue_affected_accounts := p.1.2.2.2.2.2.2; issue_transaction := p.2.1;
       proof_context_id := p.2.2.1; transaction_proof := p.2.2.2.1; status := p.2.2.2.2.1;
       detected_at := p.2.2.2.2.2.1; retry_attempts := p.2.2.2.2.2.2.1;
       last_error := p.2.2.2.2.2.2.2 |}).
#[global] Instance issue_ser_law : SerLaw RollbackIssue.
Proof. apply ser_iso_law. by intros []. Qed.

Definition wire_ser {T} (w : Wire T) : Ser T :=
  match w in Wire T return Ser T with
  | WVersion => Z_ser | WHeight => Z_ser | WHeader => header_ser | WAccount => account_ser
  | WTransactionLocation => tl_ser | WAddressLocation => al_ser | WMinerLocation => ml_ser
  | WProtocolState => state_ser | WEvent => Z_ser | WEventId => list_ser (A := Z)
  | WIssue => issue_ser | WContext => context_ser
  | WAccounts => btree_ser (K := list Z) (V := Acc)
  end.
#[global] Instance borsh : Borsh := {
  borsh_to_vec T w v := Ok (ser (Ser := wire_ser w) v);
  try_from_slice T w b := ok_or (parse (H := wire_ser w) b) {| io_kind := InvalidData; io_text := "borsh" |}
}.
Lemma wire_law T (w : Wire T) : SerLaw (H := wire_ser w) T.
Proof. destruct w; cbn [wire_ser]; apply _. Qed.
#[global] Instance borsh_laws : BorshLaws.
Proof.
  intros T w v b Hb. cbn in *. injection Hb as <-. pose proof (wire_law T w).
  by rewrite (parse_ser (H := wire_ser w)).
Qed.
#[global] Instance codec_laws : BlockCodecLaws.
Proof.
  intros b raw _ Hb. change (Ok (E := CodecError) (ser b) = Ok raw) in Hb. injection Hb as <-.
  change (ok_or (parse (ser b)) CodecInvalidBlock = Ok b). by rewrite parse_ser.
Qed.

(** An empty store, a chain of two blocks with one transfer each way, and its saved form. *)
Definition empty_store : LmdbEnv := fun _ => ∅.
Definition t1 : SignedProtocolTransaction := transfer alice zero_hash bob 10 1.
Definition t2 : SignedProtocolTransaction := transfer bob zero_hash alice 5 1.
Definition block1 : Block := next_block ledger0 [t1; t2].
Definition ledger1 : Ledger := extend ledger0 block1.
Definition saved : LmdbEnv := (save_ledger ledger1 empty_store).2.
Definition block1_hash : BlockHash := hash32 (ser (header block1 : Header)).

Lemma saved_eq : save_ledger ledger1 empty_store = (Ok tt, saved).
Proof.
  unfold saved. apply (run_ok (save_ledger ledger1 empty_store)). vm_compute. reflexivity.
Qed.
End StorageToy.

Module StorageWitnesses.
Import Toy StorageToy.
#[local] Opaque ledger1 block1 saved t1 t2 genesis_block.

Lemma validate_chain_integrity_exact_witness :
  validate_chain_integrity saved = Ok tt /\ linked_blocks 1 block1_hash saved.
Proof.
  assert (Hv : validate_chain_integrity saved = Ok tt) by (vm_compute; reflexivity).
  split; [exact Hv|].
  apply (validate_chain_integrity_exact saved 1 block1_hash None);
    [lia|vm_compute; reflexivity|vm_compute; reflexivity|exact Hv].
Defined.

Lemma save_ledger_index_exact_witness :
  (reads (load_transaction_location (hash32 (ser t1)) saved) None /\
   forall b i tx, b ∈ bt_values (chain_blocks ledger1) -> block_transactions b !! i = Some tx ->
     tx_hash tx <> Ok (hash32 (ser t1))) \/
  (exists b hash i tx, b ∈ bt_values (chain_blocks ledger1) /\ block_hash b = Ok hash /\
     block_transactions b !! i = Some tx /\ tx_hash tx = Ok (hash32 (ser t1)) /\
     reads (load_transaction_location (hash32 (ser t1)) saved) (Some (location_of b hash i tx))).
Proof. exact (save_ledger_index_exact ledger1 empty_store saved _ saved_eq). Defined.

Lemma ledger1_blocks : bt_values (chain_blocks ledger1) = [genesis_block; block1].
Proof. vm_compute. reflexivity. Qed.
Lemma block1_txs : block_transactions block1 = [t1; t2].
Proof. vm_compute. reflexivity. Qed.

Lemma ledger1_ok : chain_ok ledger1.
Proof.
  split; rewrite ledger1_blocks.
  - intros b Hb. rewrite !elem_of_cons, elem_of_nil in Hb.
    destruct Hb as [->|[->|[]]]; vm_compute; split; discriminate.
  - intros b b' Hb Hb'. rewrite !elem_of_cons, elem_of_nil in Hb, Hb'.
    destruct Hb as [->|[->|[]]]; destruct Hb' as [->|[->|[]]]; [reflexivity| | |reflexivity];
      vm_compute; discriminate.
  - intros b tx a sent Hb Htx Ha. rewrite !elem_of_cons, elem_of_nil in Hb.
    destruct Hb as [->|[->|[]]].
    { change (block_transactions genesis_block) with (@nil SignedProtocolTransaction) in Htx.
      by apply elem_of_nil in Htx. }
    assert (H1 : transaction_addresses t1 = [(alice, true); (bob, false)]) by (vm_compute; reflexivity).
    assert (H2 : transaction_addresses t2 = [(bob, true); (alice, false)]) by (vm_compute; reflexivity).
    rewrite block1_txs, !elem_of_cons, elem_of_nil in Htx. destruct Htx as [->|[->|[]]];
      [rewrite H1 in Ha|rewrite H2 in Ha]; rewrite !elem_of_cons, elem_of_nil in Ha;
      destruct Ha as [[= -> _]|[[= -> _]|[]]]; reflexivity.
Qed.

Definition ok_list {E A} (r : Result E (list A)) : list A :=
  match r with Ok l => l | Err _ => [] end.
Definition bob_history : list AddressTransactionLocation :=
  ok_list (load_address_transaction_locations bob saved).

Lemma address_history_exact_witness :
  length bob_history = 2%nat /\ forall l, l ∈ bob_history <-> involves ledger1 bob l.
Proof.
  split; [vm_compute; reflexivity|].
  refine (proj1 (address_history_exact ledger1 empty_store saved bob bob_history
    ledger1_ok eq_refl saved_eq _)).
  vm_compute. reflexivity.
Defined.

Definition stored1 : LmdbEnv := (save_block block1 empty_store).2.
Lemma save_block_load_witness :
  reads (load_block_by_height 1 stored1) (Some block1).
Proof.
  refine (proj1 (save_block_load block1 empty_store stored1 block1_hash _ _ _)).
  - unfold stored1. apply (run_ok (save_block block1 empty_store)). vm_compute. reflexivity.
  - reflexivity.
  - rewrite block1_txs. apply NoDup_cons. split; [|apply NoDup_singleton].
    rewrite list_elem_of_singleton. vm_compute. discriminate.
Defined.

Lemma save_ledger_load_accounts_witness : load_accounts saved = Ok (ledger_accounts ledger1).
Proof.
  assert (Hl : is_ok (load_accounts saved) = true) by (vm_compute; reflexivity).
  destruct (load_accounts saved) as [accs|] eqn:E; [|discriminate Hl].
  apply (f_equal Ok), (save_ledger_load_accounts ledger1 empty_store saved accs); [|exact saved_eq|exact E].
  split.
  - assert (Hl1 : exists l, bt_list (ledger_accounts ledger1) = l /\
      StronglySorted (fun p q => cmp p.1 q.1 = Lt) l).
    { eexists. split; [vm_compute; reflexivity|]. repeat constructor. }
    destruct Hl1 as (l & Hl1 & Hs). unfold bt_wf, key_lt. rewrite Hl1. exact Hs.
  - assert (Hall : forallb (fun p => bool_decide (account_address p.2 = p.1))
      (bt_list (ledger_accounts ledger1)) = true) by (vm_compute; reflexivity).
    intros a acc. unfold lookup, bt_lookup. revert Hall.
    induction (bt_list (ledger_accounts ledger1)) as [|[k v] l IH]; cbn [forallb al_get]; [done|].
    rewrite andb_true_iff, bool_decide_eq_true. intros [Hk Hr]. cbn in Hk.
    destruct (cmp a k) eqn:Ec; [|by apply IH|by apply IH]. intros [= <-].
    apply cmp_eq in Ec as ->. exact Hk.
Defined.

Definition stamped : LmdbEnv := (ensure_storage_version empty_store).2.
Lemma version_gate_witness : reads (load_storage_version stamped) (Some STORAGE_VERSION).
Proof.
  refine (proj2 (proj2 (version_gate empty_store None (Ok tt) stamped _ _ eq_refl))).
  - vm_compute. reflexivity.
  - unfold stamped. apply (run_ok (ensure_storage_version empty_store)). vm_compute. reflexivity.
Defined.
(** The rollback record of [t1], and one filed under the wrong id, which is refused. *)
Definition record_under (id : RollbackIssueId) : RollbackIssue := {|
  issue_id := id; disconnected_block_height := 1; disconnected_block_hash := block1_hash;
  transaction_index := 0; issue_transaction_hash := hash32 (ser t1); family := FamilyBatchTransfer;
  issue_affected_accounts := affected_accounts t1; issue_transaction := t1;
  proof_context_id := zero_hash; transaction_proof := (0 : MerkleInclusionProof);
  status := Detected; detected_at := 7; retry_attempts := 0; last_error := None |}.
Definition issue1 : RollbackIssue :=
  record_under (hash32 (ser (ascii_bytes "PAQUS_ROLLBACK_ISSUE_V1", (block1_hash, hash32 (ser t1))))).
Definition refusal : Result StorageError unit * LmdbEnv :=
  save_rollback_issue (record_under zero_hash) empty_store.


Definition filed : LmdbEnv := (save_rollback_issue issue1 empty_store).2.
Lemma rollback_issue_roundtrip_witness :
  reads (load_rollback_issue (issue_id issue1) filed) (Some issue1).
Proof.
  refine (proj1 (rollback_issue_roundtrip issue1 empty_store filed) _).
  unfold filed. apply (run_ok (save_rollback_issue issue1 empty_store)). vm_compute. reflexivity.
Defined.
End StorageWitnesses.
