(* ===== verification/Cache.v ===== *)
(** The in-memory view of the active chain: runtime/cache.rs ([CoreCache]). *)
From Stdlib Require Import ZArith Lia.
From stdpp Require Import base numbers option list.
From S2P Require Import Prelude BTree PaqusCore Toy.
Open Scope Z_scope.

Section cache.
Context `{PaqusTypes} `{!BlockOps} `{!LedgerOps}.
Implicit Types (b : Block) (l : Ledger).

Record CoreCache := {
  cache_accounts : BTreeMap Address Account;
  cache_blocks_by_height : BTreeMap BlockHeight Block;
  cache_blocks_by_hash : BTreeMap BlockHash Block;
  cache_tip_height : option BlockHeight;
  cache_tip_hash : option BlockHash
}.

Definition cache_new : CoreCache := {|
  cache_accounts := ∅; cache_blocks_by_height := ∅; cache_blocks_by_hash := ∅;
  cache_tip_height := None; cache_tip_hash := None |}.

Definition insert_account (a : Account) (c : CoreCache) : CoreCache := {|
  cache_accounts := <[account_address a := a]> (cache_accounts c);
  cache_blocks_by_height := cache_blocks_by_height c;
  cache_blocks_by_hash := cache_blocks_by_hash c;
  cache_tip_height := cache_tip_height c; cache_tip_hash := cache_tip_hash c |}.

Definition cached_account (c : CoreCache) (a : Address) : option Account := cache_accounts c !! a.

Definition insert_block (b : Block) : ST CoreCache CodecError unit :=
  let height := block_height b in
  hash ← st_lift (block_hash b);
  st_modify (fun c => {|
    cache_accounts := cache_accounts c;
    cache_blocks_by_height := <[height := b]> (cache_blocks_by_height c);
    cache_blocks_by_hash := <[hash := b]> (cache_blocks_by_hash c);
    cache_tip_height := Some height; cache_tip_hash := Some hash |}).

Definition block_by_height (c : CoreCache) (height : BlockHeight) : option Block :=
  cache_blocks_by_height c !! height.
Definition block_by_hash (c : CoreCache) (hash : BlockHash) : option Block :=
  cache_blocks_by_hash c !! hash.

Definition from_ledger (l : Ledger) : Result CodecError CoreCache :=
  let cache := fold_left (fun c a => insert_account a c) (bt_values (ledger_accounts l)) cache_new in
  match st_for insert_block (bt_values (chain_blocks l)) cache with
  | (Err e, _) => Err e
  | (Ok _, cache) => Ok {|
      cache_accounts := cache_accounts cache;
      cache_blocks_by_height := cache_blocks_by_height cache;
      cache_blocks_by_hash := cache_blocks_by_hash cache;
      cache_tip_height := ledger_tip_height l; cache_tip_hash := ledger_tip_hash l |}
  end.

(** ** The cache of a ledger *)

(** The hash of a block that has one. *)
Definition hash_of (b : Block) : BlockHash := unwrap_or [] (result_ok (block_hash b)).

Lemma insert_accounts_fold accs c :
  fold_left (fun c a => insert_account a c) accs c =
  {| cache_accounts := fold_left (fun m a => <[account_address a := a]> m) accs (cache_accounts c);
     cache_blocks_by_height := cache_blocks_by_height c;
     cache_blocks_by_hash := cache_blocks_by_hash c;
     cache_tip_height := cache_tip_height c; cache_tip_hash := cache_tip_hash c |}.
Proof. revert c. induction accs as [|a accs IH]; intros c; cbn; [by destruct c|]. by rewrite IH. Qed.

Lemma insert_blocks_fold bs c c' :
  st_for insert_block bs c = (Ok tt, c') ->
  cache_accounts c' = cache_accounts c /\
  cache_blocks_by_height c' =
    fold_left (fun m b => <[block_height b := b]> m) bs (cache_blocks_by_height c) /\
  cache_blocks_by_hash c' = fold_left (fun m b => <[hash_of b := b]> m) bs (cache_blocks_by_hash c) /\
  (forall b, b ∈ bs -> block_hash b = Ok (hash_of b)).
Proof.
  revert c. induction bs as [|b bs IH]; intros c; cbn [st_for].
  { intros [= <-]. repeat split. intros b Hb. by apply elem_of_nil in Hb. }
  intros Hr. apply st_bind_inv in Hr as [(e & _ & [=])|([] & c1 & Hb & Hr)].
  unfold insert_block in Hb. destruct (block_hash b) as [hash|] eqn:Hh; [|done].
  injection Hb as <-. apply IH in Hr as (-> & -> & -> & Hbs). cbn.
  assert (Hof : hash_of b = hash) by (unfold hash_of; by rewrite Hh).
  rewrite Hof. repeat split. intros b' [->|Hb']%elem_of_cons; [by rewrite Hof|by apply Hbs].
Qed.

(** A ledger files its accounts by address and its blocks by height, and its blocks have
    different hashes. *)
Record ledger_filed (l : Ledger) : Prop := {
  accounts_sorted : bt_wf (ledger_accounts l);
  accounts_by_address a acc : ledger_accounts l !! a = Some acc -> account_address acc = a;
  blocks_sorted : bt_wf (chain_blocks l);
  blocks_by_own_height h b : chain_blocks l !! h = Some b -> block_height b = h;
  hashes_differ b b' : b ∈ bt_values (chain_blocks l) -> b' ∈ bt_values (chain_blocks l) ->
    hash_of b = hash_of b' -> b = b'
}.

(** the cache built from a ledger answers exactly as the ledger does: the same account under
    every address, the same block under every height, a block under a hash exactly when the
    chain has a block with that hash, and the same tip. *)
Theorem cache_from_ledger_exact l c :
  ledger_filed l -> from_ledger l = Ok c ->
  (forall a, cached_account c a = ledger_accounts l !! a) /\
  (forall h, block_by_height c h = chain_blocks l !! h) /\
  (forall hash b, block_by_hash c hash = Some b <->
     b ∈ bt_values (chain_blocks l) /\ block_hash b = Ok hash) /\
  cache_tip_height c = ledger_tip_height l /\ cache_tip_hash c = ledger_tip_hash l.
Proof.
  intros [Hs Ha Hbs Hh Hd]. unfold from_ledger. rewrite insert_accounts_fold.
  destruct (st_for _ _ _) as [[[]|e] c'] eqn:Hf; [|done]. intros [= <-].
  apply insert_blocks_fold in Hf as (Hacc & Hheights & Hhashes & Hok).
  unfold cached_account, block_by_height, block_by_hash. cbn in *.
  rewrite Hacc, Hheights, Hhashes.
  split; [intros a; by apply (bt_refile account_address)|]. split; [intros h; by apply (bt_refile block_height)|].
  split; [|done]. intros hash b. rewrite bt_fold_insert_Some by done.
  split; intros [Hb E]; (split; [done|]).
  - subst hash. by apply Hok.
  - rewrite (Hok b Hb) in E. by injection E.
Qed.
End cache.

Module CacheExamples.
Import Toy.

Definition block1 : Block := next_block ledger0 [transfer alice zero_hash bob 10 1].
Definition chain1 : Ledger := extend ledger0 block1.
Definition built : CoreCache := match from_ledger chain1 with Ok c => c | Err _ => cache_new end.

Lemma chain1_filed : ledger_filed chain1.
Proof.
  split; [apply al_sortedb_wf|apply (al_filed account_address)|apply al_sortedb_wf
         |apply (al_filed block_height)|]; [vm_compute; reflexivity..|].
  assert (Hbs : bt_values (chain_blocks chain1) = [genesis_block; block1]) by (vm_compute; reflexivity).
  assert (Hh : hash_of genesis_block <> hash_of block1) by (vm_compute; discriminate).
  rewrite Hbs. intros b b' Hb Hb'. apply list_elem_of_In in Hb, Hb'.
  destruct Hb as [<-|[<-|[]]], Hb' as [<-|[<-|[]]]; intros E;
    [reflexivity|exact (False_ind _ (Hh E))|exact (False_ind _ (Hh (eq_sym E)))|reflexivity].
Qed.
Lemma built_eq : from_ledger chain1 = Ok built.
Proof. vm_compute. reflexivity. Qed.

Lemma cache_from_ledger_exact_witness :
  cache_tip_height built = Some 1 /\ cache_tip_height built = ledger_tip_height chain1.
Proof.
  split; [vm_compute; reflexivity|].
  exact (proj1 (proj2 (proj2 (proj2 (cache_from_ledger_exact chain1 built chain1_filed built_eq))))).
Defined.
End CacheExamples.
