(* ===== verification/Miner.v ===== *)
(** Block assembly and the proof-of-work search: runtime/miner/miner.rs. *)
From Stdlib Require Import ZArith Lia.
From stdpp Require Import base numbers option list.
From S2P Require Import Prelude BTree PaqusCore Toy Mempool.
Open Scope Z_scope.

Definition ledger_to_consensus_error (e : LedgerError) : ConsensusError :=
  match e with
  | LedgerInvalidConsensus e => e
  | LedgerInvalidBlock e => ConsensusInvalidBlock e
  | LedgerInvalidBlockHeight => ConsensusInvalidHeight
  | LedgerInvalidPreviousHash | LedgerInvalidParent => ConsensusInvalidPreviousHash
  | LedgerInvalidStateRoot => ConsensusInvalidBlock BlockInvalidStateRoot
  | _ => ConsensusInvalidBlock BlockInvalidStateRoot
  end.
Definition genesis_to_consensus_error (e : GenesisError) : ConsensusError :=
  match e with
  | GenesisCodec e => ConsensusSerialization e
  | GenesisLedger e => ledger_to_consensus_error e
  | _ => ConsensusInvalidBlock BlockInvalidGenesisAllocation
  end.

Record MiningConfig := {
  mining_difficulty : Z;
  start_nonce : Z;
  max_attempts : Z;
  transaction_limit : Z;
  min_fee_rate : Z
}.

(** [block.proof.nonce = n] overwrites the nonce. *)
Class NonceLaws `{PaqusTypes} `{!BlockOps} : Prop :=
  set_nonce_twice b n n' : block_set_nonce n (block_set_nonce n' b) = block_set_nonce n b.

Section miner.
Context `{PaqusTypes} `{!TxOps} `{!BlockOps} `{!LedgerOps} `{!ConsensusOps} `{!GenesisOps}.
Implicit Types (b : Block) (consensus : Consensus) (cfg : MiningConfig).

Record MiningResult := { result_block : Block; result_attempts : Z }.

Definition prepare_candidate_block (mempool : Mempool) (ledger : Ledger) (miner_address : Address)
    (limit min_rate difficulty : Z) : Result ConsensusError Block :=
  match ledger_tip_height ledger with
  | None =>
      genesis ← map_err genesis_to_consensus_error (create_genesis_block miner_address);
      Ok (block_set_difficulty difficulty genesis)
  | Some tip_height =>
      let height := u64_add tip_height 1 in
      previous_hash ← ok_or (ledger_tip_hash ledger) ConsensusInvalidPreviousHash;
      subsidy ← map_err (fun _ => ConsensusInvalidBlock BlockInvalidCoinbase)
        (ledger_mintable_subsidy ledger height);
      block ← from_protocol_transactions height previous_hash miner_address difficulty 0 []
        (Some (CoinbaseTransaction_new miner_address subsidy)) [];
      let '(filled, block) := append_selected_to_block mempool ledger limit min_rate block in
      map_err (fun _ => ConsensusInvalidBlock BlockInvalidTransaction) filled ;;
      let block := block_set_state_root zero_hash (block_set_difficulty difficulty block) in
      execution ← map_err ledger_to_consensus_error (ledger_execute_block ledger block);
      Ok (block_set_state_root execution.2 block)
  end.

(** The [for attempt in 0..max_attempts] from [attempt] on; [n] attempts are left.
    [should_stop attempt] is the answer [should_stop()] gives before that attempt. *)
Fixpoint mine_loop (n : nat) (attempt : Z) (consensus : Consensus) (cfg : MiningConfig)
    (should_stop : Z -> bool) (b : Block) : Result ConsensusError (option MiningResult * Z) :=
  match n with
  | O => Ok (None, attempt)
  | S n =>
      if (attempt mod 1024 =? 0) && should_stop attempt then Ok (None, attempt) else
      let b := block_set_nonce (u64_wrapping_add (start_nonce cfg) attempt) b in
      let attempts := u64_add attempt 1 in
      if mining_difficulty cfg =? 0 then
        Ok (Some {| result_block := b; result_attempts := attempts |}, attempts)
      else
        hash ← proof_of_work_hash consensus b;
        if is_ok (validate_proof_of_work_hash_with_difficulty consensus hash (mining_difficulty cfg))
        then Ok (Some {| result_block := b; result_attempts := attempts |}, attempts)
        else mine_loop n (attempt + 1) consensus cfg should_stop b
  end.

Definition attempt_budget (cfg : MiningConfig) : Z :=
  if max_attempts cfg =? 0 then U64_MAX else max_attempts cfg.

Definition mine_prepared_block_until_with_attempts (b : Block) (consensus : Consensus)
    (cfg : MiningConfig) (should_stop : Z -> bool)
    : Result ConsensusError (option MiningResult * Z) :=
  mine_loop (Z.to_nat (attempt_budget cfg)) 0 consensus cfg should_stop b.

Definition mine_prepared_block_until (b : Block) (consensus : Consensus) (cfg : MiningConfig)
    (should_stop : Z -> bool) : Result ConsensusError (option MiningResult) :=
  r ← mine_prepared_block_until_with_attempts b consensus cfg should_stop;
  Ok r.1.

Definition mine_prepared_block (b : Block) (consensus : Consensus) (cfg : MiningConfig)
    : Result ConsensusError (option MiningResult) :=
  mine_prepared_block_until b consensus cfg (fun _ => false).

Definition mine_candidate_block (mempool : Mempool) (ledger : Ledger) (consensus : Consensus)
    (miner_address : Address) (cfg : MiningConfig) : Result ConsensusError (option MiningResult) :=
  b ← prepare_candidate_block mempool ledger miner_address (transaction_limit cfg)
        (min_fee_rate cfg) (mining_difficulty cfg);
  mine_prepared_block b consensus cfg.

(** ** The search *)

(** The candidate of the [i]-th attempt, and whether it meets the difficulty. *)
Definition candidate cfg b (i : Z) : Block :=
  block_set_nonce (u64_wrapping_add (start_nonce cfg) i) b.
Definition meets consensus cfg b (i : Z) : Prop :=
  mining_difficulty cfg = 0 \/
  exists hash, proof_of_work_hash consensus (candidate cfg b i) = Ok hash /\
    is_ok (validate_proof_of_work_hash_with_difficulty consensus hash (mining_difficulty cfg)) = true.
(** The attempt was made and fell short. *)
Definition falls_short consensus cfg b (i : Z) : Prop :=
  mining_difficulty cfg <> 0 /\
  exists hash, proof_of_work_hash consensus (candidate cfg b i) = Ok hash /\
    is_ok (validate_proof_of_work_hash_with_difficulty consensus hash (mining_difficulty cfg)) = false.

(** What a search from attempt [a] over [n] attempts reports. *)
Definition search_result consensus cfg b (stop : Z -> bool) (a n : Z)
    (r : Result ConsensusError (option MiningResult * Z)) : Prop :=
  match r with
  | Ok (Some res, k) =>
      a < k <= a + n /\ result_attempts res = k /\ result_block res = candidate cfg b (k - 1) /\
      meets consensus cfg b (k - 1) /\ (forall i, a <= i < k - 1 -> falls_short consensus cfg b i)
  | Ok (None, k) =>
      a <= k <= a + n /\ (forall i, a <= i < k -> falls_short consensus cfg b i) /\
      (k = a + n \/ k mod 1024 = 0 /\ stop k = true)
  | Err e =>
      exists k, a <= k < a + n /\ proof_of_work_hash consensus (candidate cfg b k) = Err e /\
        (forall i, a <= i < k -> falls_short consensus cfg b i)
  end.

Lemma search_result_step consensus cfg b stop a n r :
  0 <= n -> falls_short consensus cfg b a ->
  search_result consensus cfg b stop (a + 1) n r -> search_result consensus cfg b stop a (n + 1) r.
Proof.
  intros Hn Ha. unfold search_result. destruct r as [[[res|] k]|e].
  - intros (? & ? & ? & ? & Hall). split_and!; [lia..|done|done|done|].
    intros i Hi. destruct (decide (i = a)) as [->|]; [done|]. apply Hall. lia.
  - intros (? & Hall & Hend). split; [lia|]. split.
    + intros i Hi. destruct (decide (i = a)) as [->|]; [done|]. apply Hall. lia.
    + destruct Hend as [->|?]; [left; lia|by right].
  - intros (k & ? & ? & Hall). exists k. split; [lia|]. split; [done|].
    intros i Hi. destruct (decide (i = a)) as [->|]; [done|]. apply Hall. lia.
Qed.

Lemma mine_loop_spec `{!NonceLaws} consensus cfg stop b0 n a b :
  0 <= a -> a + Z.of_nat n <= U64_MAX ->
  (forall x, block_set_nonce x b = block_set_nonce x b0) ->
  search_result consensus cfg b0 stop a (Z.of_nat n) (mine_loop n a consensus cfg stop b).
Proof.
  revert a b. induction n as [|n IH]; intros a b Ha Hn Hb; cbn [mine_loop].
  { split_and!; [lia..|lia|by left; lia]. }
  destruct ((a mod 1024 =? 0) && stop a) eqn:Hs.
  { apply andb_true_iff in Hs as [Hm Hs]. split_and!; [lia..|lia|].
    right. split; [by apply Z.eqb_eq|done]. }
  assert (Hadd : u64_add a 1 = a + 1) by (unfold u64_add, saturating_add; lia).
  assert (Hfound : meets consensus cfg b0 a ->
    search_result consensus cfg b0 stop a (Z.of_nat (S n)) (Ok (Some {|
      result_block := block_set_nonce (u64_wrapping_add (start_nonce cfg) a) b;
      result_attempts := a + 1 |}, a + 1))).
  { intros Hm. cbn. replace (a + 1 - 1) with a by lia. split_and!; [lia..|apply Hb|done|lia]. }
  rewrite Hadd. destruct (mining_difficulty cfg =? 0) eqn:Hd.
  { apply Hfound. left. by apply Z.eqb_eq. }
  apply Z.eqb_neq in Hd. rewrite Hb. fold (candidate cfg b0 a).
  destruct (proof_of_work_hash consensus (candidate cfg b0 a)) as [hash|e] eqn:Hpow; cbn [mbind result_bind].
  - destruct (is_ok _) eqn:Hv.
    + rewrite Hb in Hfound. apply Hfound. right. by exists hash.
    + rewrite Nat2Z.inj_succ. unfold Z.succ. apply search_result_step; [lia| |].
      * split; [done|]. by exists hash.
      * apply IH; [lia|lia|]. intros x. unfold candidate. by rewrite set_nonce_twice.
  - exists a. split; [lia|]. split; [done|]. lia.
Qed.

(** the proof-of-work search tries the nonces from [start_nonce] on, wrapping at 2^64, and
    returns the first whose block meets the difficulty, with the number of attempts made; it
    gives up only after the whole budget or when asked to stop at a multiple of 1024 attempts,
    and then none of the nonces tried meets the difficulty. *)
Theorem mining_search `{!NonceLaws} b consensus cfg stop :
  0 <= max_attempts cfg <= U64_MAX ->
  search_result consensus cfg b stop 0 (attempt_budget cfg)
    (mine_prepared_block_until_with_attempts b consensus cfg stop).
Proof.
  intros Hmax. unfold mine_prepared_block_until_with_attempts.
  assert (Hb : 0 <= attempt_budget cfg <= U64_MAX).
  { unfold attempt_budget. destruct (_ =? _); unfold U64_MAX in *; lia. }
  rewrite <- (Z2Nat.id (attempt_budget cfg)) at 1 by lia.
  apply mine_loop_spec; [lia|lia|done].
Qed.
End miner.

Module MinerExamples.
Import Toy.

#[global] Instance nonce_laws : NonceLaws.
Proof. intros b n n'. reflexivity. Qed.

(** Mining the toy chain's next block: the search ends within the budget. *)
Definition search_config : MiningConfig := {|
  mining_difficulty := 1; start_nonce := 75; max_attempts := 4; transaction_limit := 10;
  min_fee_rate := 0 |}.
Definition rules : Consensus := tt.
Definition template : Block := next_block ledger0 [transfer alice zero_hash bob 10 1].

Definition found : Result ConsensusError (option MiningResult * Z) :=
  mine_prepared_block_until_with_attempts template rules search_config (fun _ => false).
Definition is_found (r : Result ConsensusError (option MiningResult * Z)) : bool :=
  match r with Ok (Some _, _) => true | _ => false end.

Lemma mining_search_witness :
  is_found found = true /\
  search_result rules search_config template (fun _ => false) 0
    (attempt_budget search_config) found.
Proof.
  split; [vm_compute; reflexivity|].
  assert (Hmax : 0 <= max_attempts search_config <= U64_MAX) by (vm_compute; split; discriminate).
  unfold found. exact (mining_search template rules search_config (fun _ => false) Hmax).
Defined.
End MinerExamples.
