(* ===== verification/NodeState.v ===== *)
(** The node's state and errors: runtime/node/node.rs (structs), runtime/node/error.rs.

    [Node] keeps the fields of the source. The system clock is a function from the number of
    readings made so far to the time read; [clock_reads] counts the readings, so that every
    [current_unix_timestamp()] may see a different, unrelated time. *)
From Stdlib Require Import ZArith Lia.
From stdpp Require Import base numbers option strings list pretty.
From S2P Require Import Prelude BTree PaqusCore Mempool Compact Lmdb Storage Cache Miner.
Open Scope Z_scope.

Definition MAX_ORPHAN_BLOCKS : Z := 1024.
Definition MAX_ORPHAN_HEIGHT_DISTANCE : Z := 512.
Definition ORPHAN_BLOCK_TTL_SECS : Z := 10 * 60.
Definition MISSING_PARENT_RETRY_SECS : Z := 5.
Definition MAX_PENDING_COMPACT_BLOCKS : Z := 64.

(** ** Errors *)

Inductive NodeError :=
| NodeConsensus (e : ConsensusError)
| NodeGenesis (e : GenesisError)
| NodeForkChoice (e : ForkChoiceError)
| NodeLedger (e : LedgerError)
| NodeMempool (e : MempoolError)
| NodeStorage (e : StorageError)
| NodeCodec (e : CodecError)
| NodeRollbackProof (e : RollbackProofError)
| MiningExhausted
| MissingGenesisState
| MissingStagedLedger
| MissingBestTip
| MissingCommonAncestor
| MissingForkBranch
| MissingActiveTip
| MissingForkNode
| MissingLedgerBlock
| MissingDifficultyAnchor
| TransactionIndexOverflow
| MissingRollbackProofContext
| RollbackProofContextMismatch
| MissingDisconnectedBlock
| RollbackIssueMismatch.

(** The [Display] texts of the [lmdb] errors. *)
Class StorageDisplay := show_lmdb : LmdbError -> string.

Definition show_mempool_error `{ErrorDisplay} (e : MempoolError) : string :=
  match e with
  | DuplicateTransaction => "transaction already exists in mempool"
  | FeeTooLow => "transaction fee is below node policy"
  | MempoolFull => "mempool transaction limit reached"
  | DuplicateBlockMinerFeeOutput => "transaction has more than one block_miner fee output"
  | InvalidTransaction e => "invalid transaction: " +:+ show_transaction e
  | InvalidLedgerState e => "transaction does not fit ledger state: " +:+ show_ledger e
  | CashCoinReserved => "cash coin is already reserved by another mempool transaction"
  | Serialization e => "failed to serialize transaction: " +:+ show_codec e
  | FeeOverflow => "block transaction fees overflow"
  end.
Definition show_storage_error `{ErrorDisplay} `{StorageDisplay} (e : StorageError) : string :=
  match e with
  | Database e => "storage database error: " +:+ show_lmdb e
  | Io e => "storage io error: " +:+ io_text e
  | StorageSerialization e => "storage serialization error: " +:+ io_text e
  | StorageCodec e => "canonical encoding error: " +:+ show_codec e
  | Integrity message => "storage integrity error: " +:+ message
  | MissingStorageVersion => "storage version is missing from existing database"
  | UnsupportedStorageVersion expected found =>
      "unsupported storage version: expected " +:+ pretty expected +:+ ", found " +:+ pretty found
  end.
Definition show_node_error `{ErrorDisplay} `{StorageDisplay} (e : NodeError) : string :=
  match e with
  | NodeConsensus e => "consensus error: " +:+ show_consensus e
  | NodeGenesis e => "genesis error: " +:+ show_genesis e
  | NodeForkChoice e => "fork choice error: " +:+ show_fork_choice e
  | NodeLedger e => "ledger error: " +:+ show_ledger e
  | NodeMempool e => "mempool error: " +:+ show_mempool_error e
  | NodeStorage e => "storage error: " +:+ show_storage_error e
  | NodeCodec e => "canonical encoding error: " +:+ show_codec e
  | NodeRollbackProof e => "rollback proof error: " +:+ show_rollback_proof e
  | MiningExhausted => "mining attempt budget was exhausted"
  | MissingGenesisState => "node cannot reorg without the genesis account state"
  | MissingStagedLedger => "validated active-tip block is missing its staged ledger"
  | MissingBestTip => "fork graph has no selected best tip"
  | MissingCommonAncestor => "fork branches do not have a known common ancestor"
  | MissingForkBranch => "fork graph cannot construct the requested branch"
  | MissingActiveTip => "active ledger tip is missing"
  | MissingForkNode => "required block is missing from fork graph"
  | MissingLedgerBlock => "required block is missing from active ledger"
  | MissingDifficultyAnchor => "WBDA difficulty weight anchor is missing"
  | TransactionIndexOverflow => "block transaction index exceeds supported range"
  | MissingRollbackProofContext => "rollback proof context was not found"
  | RollbackProofContextMismatch => "rollback proof branches do not share a valid ancestor"
  | MissingDisconnectedBlock => "rollback proof does not contain the disconnected block"
  | RollbackIssueMismatch => "rollback issue does not match its verified proof"
  end.
#[global] Arguments show_mempool_error : simpl never.
#[global] Arguments show_storage_error : simpl never.
#[global] Arguments show_node_error : simpl never.

(** ** State *)

Record PendingBalance := { incoming : Amount; outgoing : Amount }.
Definition pending_default : PendingBalance := {| incoming := 0; outgoing := 0 |}.
Record BalanceSummary := {
  summary_confirmed : Amount; summary_available : Amount; summary_pending : PendingBalance
}.
Record AccountView := { view_balance : Amount; view_unspendable : Amount; view_statement : Hash }.
Record DraftBasis := {
  draft_signer : Address;
  live_balance : Amount;
  draft_available_balance : Amount;
  spendable_after_pending : Amount;
  latest_statement : Hash;
  draft_tip_height : BlockHeight;
  finalized_height : BlockHeight;
  pending_incoming : Amount;
  pending_outgoing : Amount;
  pending_outgoing_hashes : list TransactionHash;
  recommended_fee_rate_per_byte : Z;
  min_relay_fee_rate_per_byte : Z;
  market_fee_rate_per_byte : Z
}.

Section node_state.
Context `{PaqusTypes} `{!TxOps} `{!BlockOps} `{!LedgerOps} `{!Lmdb}.

Record OrphanBlock := { orphan_block : Block; received_at : Z }.

Record Node := MkNode {
  ledger : Ledger;
  mempool : Mempool;
  storage : LmdbEnv;
  consensus : Consensus;
  cache : CoreCache;
  fork_choice : ForkChoice;
  node_genesis_accounts : BTreeMap Address Account;
  orphan_blocks : BTreeMap BlockHash OrphanBlock;
  orphan_children_by_parent : BTreeMap BlockHash (list BlockHash);
  missing_parent_requests : list BlockHash;
  missing_parent_request_set : BTreeSet BlockHash;
  missing_parent_retry_at : BTreeMap BlockHash Z;
  pending_compact_blocks : BTreeMap BlockHash CompactBlock;
  snapshot_cache : option (BlockHash * bytes);
  block_validation_failures_total : Z;
  reorgs_total : Z;
  (** how often the clock has been read; not a field of the source *)
  clock_reads : nat
}.

(** One update per field the code assigns. *)
Definition set_ledger (x : Ledger) (n : Node) : Node :=
  MkNode x (mempool n) (storage n) (consensus n) (cache n) (fork_choice n)
    (node_genesis_accounts n) (orphan_blocks n) (orphan_children_by_parent n)
    (missing_parent_requests n) (missing_parent_request_set n) (missing_parent_retry_at n)
    (pending_compact_blocks n) (snapshot_cache n) (block_validation_failures_total n)
    (reorgs_total n) (clock_reads n).
Definition set_mempool (x : Mempool) (n : Node) : Node :=
  MkNode (ledger n) x (storage n) (consensus n) (cache n) (fork_choice n)
    (node_genesis_accounts n) (orphan_blocks n) (orphan_children_by_parent n)
    (missing_parent_requests n) (missing_parent_request_set n) (missing_parent_retry_at n)
    (pending_compact_blocks n) (snapshot_cache n) (block_validation_failures_total n)
    (reorgs_total n) (clock_reads n).
Definition set_storage (x : LmdbEnv) (n : Node) : Node :=
  MkNode (ledger n) (mempool n) x (consensus n) (cache n) (fork_choice n)
    (node_genesis_accounts n) (orphan_blocks n) (orphan_children_by_parent n)
    (missing_parent_requests n) (missing_parent_request_set n) (missing_parent_retry_at n)
    (pending_compact_blocks n) (snapshot_cache n) (block_validation_failures_total n)
    (reorgs_total n) (clock_reads n).
Definition set_cache (x : CoreCache) (n : Node) : Node :=
  MkNode (ledger n) (mempool n) (storage n) (consensus n) x (fork_choice n)
    (node_genesis_accounts n) (orphan_blocks n) (orphan_children_by_parent n)
    (missing_parent_requests n) (missing_parent_request_set n) (missing_parent_retry_at n)
    (pending_compact_blocks n) (snapshot_cache n) (block_validation_failures_total n)
    (reorgs_total n) (clock_reads n).
Definition set_fork_choice (x : ForkChoice) (n : Node) : Node :=
  MkNode (ledger n) (mempool n) (storage n) (consensus n) (cache n) x
    (node_genesis_accounts n) (orphan_blocks n) (orphan_children_by_parent n)
    (missing_parent_requests n) (missing_parent_request_set n) (missing_parent_retry_at n)
    (pending_compact_blocks n) (snapshot_cache n) (block_validation_failures_total n)
    (reorgs_total n) (clock_reads n).
Definition set_node_genesis_accounts (x : BTreeMap Address Account) (n : Node) : Node :=
  MkNode (ledger n) (mempool n) (storage n) (consensus n) (cache n) (fork_choice n) x
    (orphan_blocks n) (orphan_children_by_parent n) (missing_parent_requests n)
    (missing_parent_request_set n) (missing_parent_retry_at n) (pending_compact_blocks n)
    (snapshot_cache n) (block_validation_failures_total n) (reorgs_total n) (clock_reads n).
Definition set_orphan_blocks (x : BTreeMap BlockHash OrphanBlock) (n : Node) : Node :=
  MkNode (ledger n) (mempool n) (storage n) (consensus n) (cache n) (fork_choice n)
    (node_genesis_accounts n) x (orphan_children_by_parent n) (missing_parent_requests n)
    (missing_parent_request_set n) (missing_parent_retry_at n) (pending_compact_blocks n)
    (snapshot_cache n) (block_validation_failures_total n) (reorgs_total n) (clock_reads n).
Definition set_orphan_children_by_parent (x : BTreeMap BlockHash (list BlockHash)) (n : Node) : Node :=
  MkNode (ledger n) (mempool n) (storage n) (consensus n) (cache n) (fork_choice n)
    (node_genesis_accounts n) (orphan_blocks n) x (missing_parent_requests n)
    (missing_parent_request_set n) (missing_parent_retry_at n) (pending_compact_blocks n)
    (snapshot_cache n) (block_validation_failures_total n) (reorgs_total n) (clock_reads n).
Definition set_missing_parent_requests (x : list BlockHash) (n : Node) : Node :=
  MkNode (ledger n) (mempool n) (storage n) (consensus n) (cache n) (fork_choice n)
    (node_genesis_accounts n) (orphan_blocks n) (orphan_children_by_parent n) x
    (missing_parent_request_set n) (missing_parent_retry_at n) (pending_compact_blocks n)
    (snapshot_cache n) (block_validation_failures_total n) (reorgs_total n) (clock_reads n).
Definition set_missing_parent_request_set (x : BTreeSet BlockHash) (n : Node) : Node :=
  MkNode (ledger n) (mempool n) (storage n) (consensus n) (cache n) (fork_choice n)
    (node_genesis_accounts n) (orphan_blocks n) (orphan_children_by_parent n)
    (missing_parent_requests n) x (missing_parent_retry_at n) (pending_compact_blocks n)
    (snapshot_cache n) (block_validation_failures_total n) (reorgs_total n) (clock_reads n).
Definition set_missing_parent_retry_at (x : BTreeMap BlockHash Z) (n : Node) : Node :=
  MkNode (ledger n) (mempool n) (storage n) (consensus n) (cache n) (fork_choice n)
    (node_genesis_accounts n) (orphan_blocks n) (orphan_children_by_parent n)
    (missing_parent_requests n) (missing_parent_request_set n) x (pending_compact_blocks n)
    (snapshot_cache n) (block_validation_failures_total n) (reorgs_total n) (clock_reads n).
Definition set_pending_compact_blocks (x : BTreeMap BlockHash CompactBlock) (n : Node) : Node :=
  MkNode (ledger n) (mempool n) (storage n) (consensus n) (cache n) (fork_choice n)
    (node_genesis_accounts n) (orphan_blocks n) (orphan_children_by_parent n)
    (missing_parent_requests n) (missing_parent_request_set n) (missing_parent_retry_at n) x
    (snapshot_cache n) (block_validation_failures_total n) (reorgs_total n) (clock_reads n).
Definition set_snapshot_cache (x : option (BlockHash * bytes)) (n : Node) : Node :=
  MkNode (ledger n) (mempool n) (storage n) (consensus n) (cache n) (fork_choice n)
    (node_genesis_accounts n) (orphan_blocks n) (orphan_children_by_parent n)
    (missing_parent_requests n) (missing_parent_request_set n) (missing_parent_retry_at n)
    (pending_compact_blocks n) x (block_validation_failures_total n) (reorgs_total n)
    (clock_reads n).
Definition set_block_validation_failures_total (x : Z) (n : Node) : Node :=
  MkNode (ledger n) (mempool n) (storage n) (consensus n) (cache n) (fork_choice n)
    (node_genesis_accounts n) (orphan_blocks n) (orphan_children_by_parent n)
    (missing_parent_requests n) (missing_parent_request_set n) (missing_parent_retry_at n)
    (pending_compact_blocks n) (snapshot_cache n) x (reorgs_total n) (clock_reads n).
Definition set_reorgs_total (x : Z) (n : Node) : Node :=
  MkNode (ledger n) (mempool n) (storage n) (consensus n) (cache n) (fork_choice n)
    (node_genesis_accounts n) (orphan_blocks n) (orphan_children_by_parent n)
    (missing_parent_requests n) (missing_parent_request_set n) (missing_parent_retry_at n)
    (pending_compact_blocks n) (snapshot_cache n) (block_validation_failures_total n) x
    (clock_reads n).
Definition set_clock_reads (x : nat) (n : Node) : Node :=
  MkNode (ledger n) (mempool n) (storage n) (consensus n) (cache n) (fork_choice n)
    (node_genesis_accounts n) (orphan_blocks n) (orphan_children_by_parent n)
    (missing_parent_requests n) (missing_parent_request_set n) (missing_parent_retry_at n)
    (pending_compact_blocks n) (snapshot_cache n) (block_validation_failures_total n)
    (reorgs_total n) x.

(** ** Calls on the node's parts *)

Definition on_storage {A} (m : ST LmdbEnv StorageError A) : ST Node NodeError A :=
  fun n => let '(r, s) := m (storage n) in (map_err NodeStorage r, set_storage s n).
Definition read_storage {A} (f : LmdbEnv -> Result StorageError A) : ST Node NodeError A :=
  n ← st_get; st_lift (map_err NodeStorage (f (storage n))).
Definition on_mempool {A} (m : ST Mempool MempoolError A) : ST Node NodeError A :=
  fun n => let '(r, s) := m (mempool n) in (map_err NodeMempool r, set_mempool s n).
Definition on_fork_choice {A} (m : ST ForkChoice ForkChoiceError A) : ST Node NodeError A :=
  fun n => let '(r, s) := m (fork_choice n) in (map_err NodeForkChoice r, set_fork_choice s n).
Definition on_cache {A} (m : ST CoreCache CodecError A) : ST Node NodeError A :=
  fun n => let '(r, s) := m (cache n) in (map_err NodeCodec r, set_cache s n).
Definition lift_codec {A} (r : Result CodecError A) : ST Node NodeError A :=
  st_lift (map_err NodeCodec r).

(** [current_unix_timestamp()] *)
Definition current_unix_timestamp (clock : nat -> Z) : ST Node NodeError Z :=
  n ← st_get;
  st_put (set_clock_reads (S (clock_reads n)) n) ;;
  mret (clock (clock_reads n)).

(** ** Frames: a call on one part leaves the others *)

Section frames.
Context {X A : Type} (f : Node -> X).
Lemma on_storage_keeps (m : ST LmdbEnv StorageError A) :
  (forall x n, f (set_storage x n) = f n) -> st_keeps f (on_storage m).
Proof. intros Hf x n <-. unfold on_storage. destruct (m (storage n)). apply Hf. Qed.
Lemma on_mempool_keeps (m : ST Mempool MempoolError A) :
  (forall x n, f (set_mempool x n) = f n) -> st_keeps f (on_mempool m).
Proof. intros Hf x n <-. unfold on_mempool. destruct (m (mempool n)). apply Hf. Qed.
Lemma on_fork_choice_keeps (m : ST ForkChoice ForkChoiceError A) :
  (forall x n, f (set_fork_choice x n) = f n) -> st_keeps f (on_fork_choice m).
Proof. intros Hf x n <-. unfold on_fork_choice. destruct (m (fork_choice n)). apply Hf. Qed.
Lemma on_cache_keeps (m : ST CoreCache CodecError A) :
  (forall x n, f (set_cache x n) = f n) -> st_keeps f (on_cache m).
Proof. intros Hf x n <-. unfold on_cache. destruct (m (cache n)). apply Hf. Qed.
End frames.
Lemma now_keeps {X} (f : Node -> X) clock :
  (forall x n, f (set_clock_reads x n) = f n) -> st_keeps f (current_unix_timestamp clock).
Proof. intros Hf x n <-. apply Hf. Qed.
End node_state.

(** Proves that a piece of node code keeps a part of the node: its calls either work on other
    parts or are covered by [tac]. *)
Ltac keep_with tac :=
  intros ?;
  st_steps ltac:(first
    [ apply on_storage_keeps; done | apply on_mempool_keeps; done
    | apply on_fork_choice_keeps; done | apply on_cache_keeps; done | apply now_keeps; done
    | apply st_preserves_modify; by intros ? <-
    | progress unfold read_storage, lift_codec
    | tac ]).
Ltac keep := keep_with ltac:(fail).
