(* ===== verification/Node.v ===== *)
(** The node: runtime/node/node.rs ([impl Node]).

    Every method is a definition over [Node] with its guards, early returns and the order of
    its effects; [&self] methods are functions of the node, [&mut self] methods run in
    [ST Node NodeError], which keeps what was changed before an error. *)
From Stdlib Require Import ZArith Lia.
From stdpp Require Import base numbers option strings list.
From S2P Require Import Prelude BTree PaqusCore Mempool Compact Recovery Lmdb Storage Cache Miner.
From S2P Require Import NodeState.
Open Scope Z_scope.

Section node.
Context `{PaqusTypes} `{!TxOps} `{!BlockOps} `{!LedgerOps} `{!EventOps} `{!ForkOps}.
Context `{!ConsensusOps} `{!GenesisOps} `{!Borsh} `{!Lmdb} `{!ErrorDisplay} `{!StorageDisplay}.
Context (clock : nat -> Z).
Implicit Types (n : Node) (b : Block) (hash : BlockHash).

Abbreviation now := (current_unix_timestamp clock).

(** ** Construction *)

Fixpoint index_chain (headers : list (BlockHeight * BlockHeader)) (l : Ledger)
    : ST ForkChoice ForkChoiceError unit :=
  match headers with
  | [] => mret tt
  | (height, header) :: headers =>
      match chain_blocks l !! height with
      | Some block => fork_insert_block block ;; mret tt
      | None => fork_insert_header header ;; mret tt
      end ;;
      index_chain headers l
  end.

Definition try_with_genesis_accounts (l : Ledger) (env : LmdbEnv) (c : Consensus)
    (genesis_accs : BTreeMap Address Account) : Result NodeError Node :=
  cache ← map_err NodeCodec (from_ledger l);
  let '(r, fork) := index_chain (bt_list (chain_headers l)) l fork_new in
  map_err NodeForkChoice r ;;
  Ok {| ledger := l; mempool := mempool_new; storage := env; consensus := c; cache := cache;
        fork_choice := fork; node_genesis_accounts := genesis_accs; orphan_blocks := ∅;
        orphan_children_by_parent := ∅; missing_parent_requests := [];
        missing_parent_request_set := ∅; missing_parent_retry_at := ∅;
        pending_compact_blocks := ∅; snapshot_cache := None;
        block_validation_failures_total := 0; reorgs_total := 0; clock_reads := 0 |}.

Definition ensure_expected_genesis_hash (genesis : Block) : Result NodeError unit :=
  found ← map_err NodeCodec (block_hash genesis);
  if bool_decide (found = GENESIS_HASH) then Ok tt
  else Err (NodeGenesis (GenesisHashMismatch GENESIS_HASH found)).
Definition ensure_expected_genesis (l : Ledger) : Result NodeError unit :=
  match ledger_block l 0 with
  | None => Err MissingGenesisState
  | Some genesis => ensure_expected_genesis_hash genesis
  end.

(** ** Compact blocks and snapshots *)

Definition stage_compact_block (hash : BlockHash) (compact : CompactBlock) (n : Node) : Node :=
  let staged := pending_compact_blocks n in
  let staged :=
    if MAX_PENDING_COMPACT_BLOCKS <=? bt_len staged then
      match bt_first_key staged with
      | Some oldest => delete oldest staged
      | None => staged
      end
    else staged in
  set_pending_compact_blocks (<[hash := compact]> staged) n.
Definition take_compact_block (hash : BlockHash) (n : Node) : option CompactBlock * Node :=
  (pending_compact_blocks n !! hash,
   set_pending_compact_blocks (delete hash (pending_compact_blocks n)) n).

Definition tip_height n : option BlockHeight := ledger_tip_height (ledger n).
Definition tip_hash n : option BlockHash := ledger_tip_hash (ledger n).

Definition snapshot_bytes : ST Node NodeError bytes :=
  n ← st_get;
  tip ← st_lift (ok_or (tip_hash n) MissingActiveTip);
  (if match snapshot_cache n with
      | None => true
      | Some (cached_tip, _) => negb (bool_decide (cached_tip = tip))
      end
   then raw ← st_lift (map_err NodeGenesis (snapshot_paqus_bytes (ledger n)));
        st_modify (set_snapshot_cache (Some (tip, raw)))
   else mret tt) ;;
  n ← st_get;
  cached ← st_lift (ok_or (snapshot_cache n) MissingActiveTip);
  mret cached.2.

(** ** Submitting transactions *)

(** The pool records the time of admission: the reading is made first, and unused when the
    transaction is refused. *)
Definition submit_protocol_transaction (tx : SignedProtocolTransaction)
    : ST Node NodeError TransactionHash :=
  at_ ← now;
  n ← st_get;
  on_mempool (insert_validated (ledger n) at_ tx).
Definition submit_transaction (tx : SignedBatchTransfer) := submit_protocol_transaction (BatchTransfer tx).
Definition submit_qcash_transaction (tx : SignedQCashTransaction) :=
  submit_protocol_transaction (QCash tx).

(** ** Missing parents *)

Definition queue_missing_parent_request_at (hash : BlockHash) (retry_at : Z) (n : Node) : Node :=
  if fork_contains (fork_choice n) hash then n else
  let n := set_missing_parent_retry_at
    (<[hash := match missing_parent_retry_at n !! hash with
               | Some existing => Z.min existing retry_at
               | None => retry_at
               end]> (missing_parent_retry_at n)) n in
  if bt_contains hash (missing_parent_request_set n) then n else
  set_missing_parent_requests (missing_parent_requests n ++ [hash])
    (set_missing_parent_request_set (<[hash := tt]> (missing_parent_request_set n)) n).
Definition queue_missing_parent_request (hash : BlockHash) : ST Node NodeError unit :=
  n ← st_get;
  if fork_contains (fork_choice n) hash then mret tt else
  at_ ← now;
  st_modify (queue_missing_parent_request_at hash at_).

(** The [while let Some(hash) = pop_front()]. *)
Fixpoint drain_loop (queue : list BlockHash) (now_ : Z) (n : Node) (ready pending : list BlockHash)
    : list BlockHash * list BlockHash * Node :=
  match queue with
  | [] => (ready, pending, n)
  | hash :: queue =>
      let retry_at := unwrap_or 0 (missing_parent_retry_at n !! hash) in
      if retry_at <=? now_ then
        drain_loop queue now_
          (set_missing_parent_retry_at (delete hash (missing_parent_retry_at n))
            (set_missing_parent_request_set (delete hash (missing_parent_request_set n)) n))
          (ready ++ [hash]) pending
      else drain_loop queue now_ n ready (pending ++ [hash])
  end.
Definition drain_missing_parent_requests_at (now_ : Z) (n : Node) : list BlockHash * Node :=
  let '(ready, pending, n) := drain_loop (missing_parent_requests n) now_ n [] [] in
  (ready, set_missing_parent_requests pending n).
Definition drain_missing_parent_requests : ST Node NodeError (list BlockHash) :=
  at_ ← now; st_step (drain_missing_parent_requests_at at_).
Definition retry_missing_parent_request (hash : BlockHash) : ST Node NodeError unit :=
  at_ ← now;
  st_modify (queue_missing_parent_request_at hash (u64_add at_ MISSING_PARENT_RETRY_SECS)).

(** ** Orphans *)

Definition orphan_is_too_far_ahead n b : bool :=
  u64_add (unwrap_or 0 (tip_height n)) MAX_ORPHAN_HEIGHT_DISTANCE <? block_height b.

(** [retain] in every list, then the emptied parents are removed. *)
Definition remove_orphan_index (hash : BlockHash) (n : Node) : Node :=
  let retained := BT (map (fun p : BlockHash * list BlockHash =>
      (p.1, List.filter (fun child => negb (bool_decide (child = hash))) p.2))
    (bt_list (orphan_children_by_parent n))) in
  let empty_parents := omap (fun p : BlockHash * list BlockHash =>
      match p.2 with [] => Some p.1 | _ => None end) (bt_list retained) in
  set_orphan_children_by_parent (fold_left (fun m parent => delete parent m) empty_parents retained) n.
Definition remove_orphan (hash : BlockHash) (n : Node) : Node :=
  let n := remove_orphan_index hash n in
  set_orphan_blocks (delete hash (orphan_blocks n)) n.

Definition orphan_expired (now_ : Z) (n : Node) (o : OrphanBlock) : bool :=
  (ORPHAN_BLOCK_TTL_SECS <? u64_sub now_ (received_at o)) || orphan_is_too_far_ahead n (orphan_block o).
Definition prune_expired_orphans (now_ : Z) (n : Node) : Node :=
  let expired := omap (fun p : BlockHash * OrphanBlock =>
    if orphan_expired now_ n p.2 then Some p.1 else None) (bt_list (orphan_blocks n)) in
  fold_left (fun n hash => remove_orphan hash n) expired n.

Definition evict_orphan_for_capacity (n : Node) : Node :=
  if MAX_ORPHAN_BLOCKS <=? bt_len (orphan_blocks n) then
    match bt_first_key (orphan_blocks n) with
    | Some evicted_hash => remove_orphan evicted_hash n
    | None => n
    end
  else n.
Definition insert_orphan (hash parent : BlockHash) (o : OrphanBlock) (n : Node) : Node :=
  set_orphan_blocks (<[hash := o]> (orphan_blocks n))
    (set_orphan_children_by_parent
      (<[parent := unwrap_or [] (orphan_children_by_parent n !! parent) ++ [hash]]>
        (orphan_children_by_parent n)) n).
Definition cache_orphan_block b : ST Node NodeError unit :=
  at_ ← now;
  st_modify (prune_expired_orphans at_) ;;
  n ← st_get;
  if block_height b =? 0 then mret tt else
  if orphan_is_too_far_ahead n b then mret tt else
  hash ← lift_codec (block_hash b);
  if fork_contains (fork_choice n) hash || bt_contains hash (orphan_blocks n) then mret tt else
  st_modify evict_orphan_for_capacity ;;
  let parent := block_previous_hash b in
  queue_missing_parent_request parent ;;
  st_modify (insert_orphan hash parent {| orphan_block := b; received_at := at_ |}).

(** ** Validation *)

Definition extends_active_tip n b : bool :=
  match ledger_tip_hash (ledger n) with
  | Some tip_hash => bool_decide (block_previous_hash b = tip_hash)
  | None => block_height b =? 0
  end.

Definition validate_canonical_state_root (l : Ledger) b : Result NodeError unit :=
  expected_state_root ← map_err NodeLedger (ledger_state_root_after_block l b);
  if negb (bool_decide (block_state_root b = expected_state_root))
  then Err (NodeLedger LedgerInvalidStateRoot) else
  if negb (block_is_genesis b) && bool_decide (block_state_root b = zero_hash)
  then Err (NodeLedger LedgerInvalidStateRoot) else
  Ok tt.

Definition ledger_for_branch_tip n (tip : BlockHash) : Result NodeError Ledger :=
  let genesis_hash := unwrap_or tip (last (ancestor_hashes (fork_choice n) tip)) in
  genesis ← ok_or (fork_get (fork_choice n) genesis_hash) MissingForkNode;
  l ← map_err NodeLedger (ledger_from_accounts (node_genesis_accounts n));
  let '(r, l) := chain_insert_block (fork_block genesis) l in
  map_err NodeLedger r ;;
  branch ← ok_or (branch_from_ancestor (fork_choice n) genesis_hash tip) MissingForkBranch;
  let '(r, l) := st_for ledger_apply_block branch l in
  map_err NodeLedger r ;;
  Ok l.

Definition validate_block_state_for_known_parent n b : Result NodeError (option Ledger) :=
  if extends_active_tip n b then
    validate_canonical_state_root (ledger n) b ;;
    executed ← map_err NodeLedger (ledger_execute_block (ledger n) b);
    Ok (Some executed.1)
  else
    l ← ledger_for_branch_tip n (block_previous_hash b);
    validate_canonical_state_root l b ;;
    Ok None.

(** The checkpoint guard of [validate_block_for_known_parent]. *)
Definition check_checkpoint n b : Result NodeError unit :=
  match chain_checkpoint_height (ledger n) with
  | None => Ok tt
  | Some checkpoint_height =>
      if block_height b <=? checkpoint_height then Err MissingCommonAncestor else
      branch_checkpoint ← ok_or (ancestor_hash_at_height (fork_choice n) (block_previous_hash b)
        checkpoint_height) MissingCommonAncestor;
      header ← ok_or (chain_header (ledger n) checkpoint_height) MissingCommonAncestor;
      canonical_checkpoint ← map_err NodeCodec (header_hash header);
      if bool_decide (branch_checkpoint = canonical_checkpoint) then Ok tt
      else Err MissingCommonAncestor
  end.
Definition check_block_for_known_parent n b : Result NodeError unit :=
  check_checkpoint n b ;;
  if block_height b =? 0 then
    map_err NodeConsensus (validate_genesis_block (consensus n) b) ;;
    ensure_expected_genesis_hash b
  else
    parent ← ok_or (fork_get (fork_choice n) (block_previous_hash b)) (NodeForkChoice MissingParent);
    map_err NodeConsensus (validate_next_block_with_tip (consensus n) b (fork_block parent)).
(** The reading [_now] is made and not used. *)
Definition validate_block_for_known_parent b : ST Node NodeError unit :=
  _ ← now;
  n ← st_get;
  st_lift (check_block_for_known_parent n b).

(** ** Rollback records *)

Definition headers_to_tip n (tip : BlockHash) : Result NodeError (list BlockHeader) :=
  collect_result (fun hash =>
    node ← ok_or (fork_get (fork_choice n) hash) MissingForkNode;
    Ok (header (fork_block node))) (rev (ancestor_hashes (fork_choice n) tip)).

(** The two nested [for] loops over the active chain. *)
Fixpoint find_in_block (tx_hash_ : TransactionHash) (txs : list SignedProtocolTransaction)
    : Result NodeError bool :=
  match txs with
  | [] => Ok false
  | tx :: txs =>
      h ← map_err NodeCodec (tx_hash tx);
      if bool_decide (h = tx_hash_) then Ok true else find_in_block tx_hash_ txs
  end.
Fixpoint find_in_chain (tx_hash_ : TransactionHash) (blocks : list Block)
    : Result NodeError (option (BlockHeight * BlockHash)) :=
  match blocks with
  | [] => Ok None
  | b :: blocks =>
      found ← find_in_block tx_hash_ (block_transactions b);
      if (found : bool) then
        hash ← map_err NodeCodec (block_hash b);
        Ok (Some (block_height b, hash))
      else find_in_chain tx_hash_ blocks
  end.
Definition canonical_transaction_location n (tx_hash_ : TransactionHash)
    : Result NodeError (option (BlockHeight * BlockHash)) :=
  find_in_chain tx_hash_ (bt_values (chain_blocks (ledger n))).

Definition rollback_issue n (id : RollbackIssueId) : Result NodeError (option RollbackIssue) :=
  map_err NodeStorage (load_rollback_issue id (storage n)).

(** [zip(..).take_while(|(left, right)| left == right).count()] *)
Fixpoint shared_count (ls rs : list BlockHeader) : nat :=
  match ls, rs with
  | l :: ls, r :: rs => if bool_decide (l = r) then S (shared_count ls rs) else O
  | _, _ => O
  end.

Definition rollback_proof_bundle n (issue : RollbackIssue) : Result NodeError RollbackProofBundle :=
  loaded ← map_err NodeStorage (load_rollback_proof_context (proof_context_id issue) (storage n));
  context ← ok_or loaded MissingRollbackProofContext;
  current_canonical_headers ←
    match tip_hash n with
    | Some tip => headers_to_tip n tip
    | None => Ok (canonical_headers context)
    end;
  let shared := shared_count (losing_headers context) current_canonical_headers in
  let canonical :=
    if (0 <? shared)%nat && (shared <? length (losing_headers context))%nat
       && (shared <? length current_canonical_headers)%nat
    then current_canonical_headers else canonical_headers context in
  match shared_count (losing_headers context) canonical with
  | O => Err RollbackProofContextMismatch
  | S last_shared =>
      last_header ← ok_or (canonical !! last_shared) RollbackProofContextMismatch;
      ancestor ← map_err NodeCodec (header_hash last_header);
      disconnected ← ok_or (List.find (fun header =>
          bool_decide (result_ok (header_hash header) = Some (disconnected_block_hash issue)))
        (losing_headers context)) MissingDisconnectedBlock;
      Ok {| bundle_version := ROLLBACK_PROOF_VERSION;
            bundle_transaction := issue_transaction issue;
            bundle_disconnected_block_header := disconnected;
            bundle_transaction_proof := transaction_proof issue;
            bundle_losing_headers := losing_headers context;
            bundle_canonical_headers := canonical;
            bundle_common_ancestor := ancestor |}
  end.

Definition rollback_issues_for_account n (a : Address) : Result NodeError (list RollbackIssue) :=
  issues ← map_err NodeStorage (load_rollback_issues (storage n));
  Ok (List.filter (fun i => bool_decide (a ∈ issue_affected_accounts i)) issues).

(** The proof check a retry on request makes first. *)
Definition verify_issue_proof n (issue : RollbackIssue) : Result NodeError unit :=
  bundle ← rollback_proof_bundle n issue;
  verified ← map_err NodeRollbackProof (bundle_verify bundle);
  if negb (bool_decide (verified_transaction_hash verified = issue_transaction_hash issue))
     || negb (bool_decide (bundle_transaction bundle = issue_transaction issue))
     || negb (bool_decide (verified_disconnected_block_hash verified = disconnected_block_hash issue))
  then Err RollbackIssueMismatch else Ok tt.

(** The status a failed or successful resubmission leaves. *)
Definition resubmitted (r : Result NodeError TransactionHash) (issue : RollbackIssue) : RollbackIssue :=
  match r with
  | Ok _ | Err (NodeMempool DuplicateTransaction) => set_status Requeued None issue
  | Err error => set_status Conflict (Some (show_node_error error)) issue
  end.

Definition retry_rollback_issue_record (issue : RollbackIssue) (verify_proof : bool)
    : ST Node NodeError RollbackIssue :=
  n ← st_get;
  (if verify_proof then st_lift (verify_issue_proof n issue) else mret tt) ;;
  let issue := count_attempt issue in
  location ← st_lift (canonical_transaction_location n (issue_transaction_hash issue));
  match location with
  | Some (height, hash) =>
      let issue := set_status (Reconfirmed height hash) None issue in
      on_storage (save_rollback_issue issue) ;;
      mret issue
  | None =>
      r ← st_try (submit_protocol_transaction (issue_transaction issue));
      let issue := resubmitted r issue in
      on_storage (save_rollback_issue issue) ;;
      mret issue
  end.

Definition retry_rollback_issue (id : RollbackIssueId) : ST Node NodeError (option RollbackIssue) :=
  loaded ← read_storage (load_rollback_issue id);
  match loaded with
  | None => mret None
  | Some issue =>
      if is_reconfirmed issue then mret (Some issue) else
      issue ← retry_rollback_issue_record issue true;
      mret (Some issue)
  end.

Definition mark_rollback_issues_reconfirmed b : ST Node NodeError unit :=
  hash ← lift_codec (block_hash b);
  st_for (fun tx =>
    h ← lift_codec (tx_hash tx);
    issues ← read_storage load_rollback_issues;
    st_for (fun issue =>
        on_storage (save_rollback_issue (set_status (Reconfirmed (block_height b) hash) None issue)))
      (List.filter (fun issue =>
         bool_decide (issue_transaction_hash issue = h) && negb (is_reconfirmed issue)) issues))
    (block_transactions b).

(** ** Reorganisation *)

Definition node_common_ancestor n (old_tip : option BlockHash) (new_tip : BlockHash)
    : option BlockHash :=
  old_tip ← old_tip;
  let old_ancestors := ancestor_hashes (fork_choice n) old_tip in
  List.find (fun hash => bool_decide (hash ∈ old_ancestors)) (ancestor_hashes (fork_choice n) new_tip).

Definition prune_finalized_forks : ST Node NodeError Z :=
  n ← st_get;
  match ledger_tip_height (ledger n) with
  | None => mret 0
  | Some tip_height =>
      match ledger_block (ledger n) (u64_sub tip_height FINALITY_DEPTH) with
      | None => mret 0
      | Some finalized_block =>
          hash ← lift_codec (block_hash finalized_block);
          on_fork_choice (fork_prune_finalized hash)
      end
  end.

(** One transaction of a disconnected block. *)
Definition recover_transaction (b : Block) (hash : BlockHash) (context : RollbackProofContext)
    (indexed : nat * SignedProtocolTransaction) : ST Node NodeError unit :=
  let index := Z.of_nat indexed.1 in
  (if U32_MAX <? index then st_fail TransactionIndexOverflow else mret tt) ;;
  tx_proof ← lift_codec (block_inclusion_proof b indexed.1);
  at_ ← now;
  issue ← lift_codec (RollbackIssue_new (block_height b) hash index indexed.2 (ctx_id context) tx_proof at_);
  existing ← read_storage (load_rollback_issue (issue_id issue));
  issue ← match existing with
          | Some existing => mret existing
          | None => on_storage (save_rollback_issue issue) ;; mret issue
          end;
  retry_rollback_issue_record issue false ;;
  mret tt.
(** One block of the abandoned chain. *)
Definition recover_block (winning_hashes : list BlockHash) (context : RollbackProofContext) b
    : ST Node NodeError unit :=
  hash ← lift_codec (block_hash b);
  if bool_decide (hash ∈ winning_hashes) then mret tt else
  st_for (recover_transaction b hash context) (enumerate (block_transactions b)).

Definition reorg_to_best_tip : ST Node NodeError unit :=
  n ← st_get;
  let old_blocks := bt_values (chain_blocks (ledger n)) in
  let old_tip_hash := ledger_tip_hash (ledger n) in
  best ← st_lift (ok_or (fork_best_tip (fork_choice n)) MissingBestTip);
  let best_tip := fork_hash best in
  ancestor ← st_lift (ok_or (node_common_ancestor n old_tip_hash best_tip) MissingCommonAncestor);
  if reorg_crosses_finality_boundary (ledger n) (fork_choice n) ancestor
  then st_fail (NodeLedger LedgerFinalityViolation) else
  _ ← st_lift (ok_or (branch_from_ancestor (fork_choice n) ancestor best_tip) MissingForkBranch);
  old_tip ← st_lift (ok_or old_tip_hash MissingActiveTip);
  losing ← st_lift (headers_to_tip n old_tip);
  canonical ← st_lift (headers_to_tip n best_tip);
  context ← lift_codec (RollbackProofContext_new losing canonical ancestor);
  on_storage (save_rollback_proof_context context) ;;
  n ← st_get;
  l ← st_lift (ledger_for_branch_tip n best_tip);
  st_modify (set_ledger l) ;;
  st_modify (set_snapshot_cache None) ;;
  cache ← lift_codec (from_ledger l);
  st_modify (set_cache cache) ;;
  on_storage (save_ledger l) ;;
  n ← st_get;
  let winning_hashes := ancestor_hashes (fork_choice n) best_tip in
  st_for (recover_block winning_hashes context) old_blocks ;;
  st_modify (fun n => set_reorgs_total (u64_add (reorgs_total n) 1) n) ;;
  prune_finalized_forks ;;
  mret tt.

(** ** Applying blocks *)

(** The accounts a block's transfers and coinbase touch, refreshed in the cache. *)
Definition refresh_account (l : Ledger) (a : Address) (c : CoreCache) : CoreCache :=
  match ledger_account l a with Some account => insert_account account c | None => c end.
Definition refresh_cached_accounts (l : Ledger) b (c : CoreCache) : CoreCache :=
  let c := fold_left (fun c tx =>
    match tx with
    | BatchTransfer t =>
        fold_left (fun c o =>
            match target_address (to o) with Some a => refresh_account l a c | None => c end)
          (batch_outputs t) (refresh_account l (batch_from t) c)
    | QCash _ => c
    end) (block_transactions b) c in
  refresh_account l (block_miner_address b) c.

(** The rest of [apply_known_parent_block] for a block that extends the active tip. *)
Definition extend_active_tip b (staged : option Ledger) : ST Node NodeError unit :=
  l ← st_lift (ok_or staged MissingStagedLedger);
  st_modify (set_ledger l) ;;
  st_modify (set_snapshot_cache None) ;;
  (if block_is_genesis b then
     st_modify (set_node_genesis_accounts (ledger_accounts l)) ;;
     on_storage (save_genesis_accounts (ledger_accounts l))
   else mret tt) ;;
  on_mempool (remove_confirmed b) ;;
  mark_rollback_issues_reconfirmed b ;;
  on_cache (insert_block b) ;;
  st_modify (fun n => set_cache (refresh_cached_accounts (ledger n) b (cache n)) n) ;;
  on_storage (save_ledger l) ;;
  prune_finalized_forks ;;
  mret tt.

Definition apply_known_parent_block b : ST Node NodeError unit :=
  validate_block_for_known_parent b ;;
  n ← st_get;
  active_staged ← st_lift (validate_block_state_for_known_parent n b);
  hash ← on_fork_choice (fork_insert_block b);
  n ← st_get;
  if negb (bool_decide (fork_hash <$> fork_best_tip (fork_choice n) = Some hash)) then
    on_storage (save_side_block b)
  else if negb (extends_active_tip n b) then reorg_to_best_tip
  else extend_active_tip b active_staged.

(** The [for child_hash in children] of [process_orphans_for_parent]; returns the parents
    pushed on [parents]. *)
Fixpoint process_children (children parents : list BlockHash) : ST Node NodeError (list BlockHash) :=
  match children with
  | [] => mret parents
  | child_hash :: children =>
      n ← st_get;
      match orphan_blocks n !! child_hash with
      | None => process_children children parents
      | Some orphan =>
          let child := orphan_block orphan in
          st_modify (set_orphan_blocks (delete child_hash (orphan_blocks n))) ;;
          r ← st_try (apply_known_parent_block child);
          match r with
          | Ok _ => process_children children (child_hash :: parents)
          | Err (NodeForkChoice MissingParent) =>
              cache_orphan_block child ;;
              process_children children parents
          | Err _ => process_children children parents
          end
      end
  end.
(** The [while let Some(parent) = parents.pop()], the stack's top first. Every turn pops one
    parent, and pushes one only for an orphan it consumes: [process_fuel] turns are enough. *)
Fixpoint process_parents (fuel : nat) (parents : list BlockHash) : ST Node NodeError unit :=
  match parents with
  | [] => mret tt
  | parent :: parents =>
      match fuel with
      | O => mret tt
      | S fuel =>
          n ← st_get;
          match orphan_children_by_parent n !! parent with
          | None => process_parents fuel parents
          | Some children =>
              st_modify (set_orphan_children_by_parent (delete parent (orphan_children_by_parent n))) ;;
              parents ← process_children children parents;
              process_parents fuel parents
          end
      end
  end.
Definition process_fuel n : nat := S (length (bt_list (orphan_blocks n))).
Definition process_orphans_for_parent (parent_hash : BlockHash) : ST Node NodeError unit :=
  at_ ← now;
  st_modify (prune_expired_orphans at_) ;;
  n ← st_get;
  process_parents (process_fuel n) [parent_hash].

Definition apply_block b : ST Node NodeError unit :=
  at_ ← now;
  st_modify (prune_expired_orphans at_) ;;
  r ← st_try (apply_known_parent_block b);
  match r with
  | Ok _ =>
      hash ← lift_codec (block_hash b);
      process_orphans_for_parent hash
  | Err (NodeForkChoice MissingParent) => cache_orphan_block b
  | Err (NodeForkChoice ForkDuplicateBlock) => mret tt
  | Err (NodeLedger LedgerDuplicateBlock) => mret tt
  | Err error =>
      st_modify (fun n => set_block_validation_failures_total
        (u64_add (block_validation_failures_total n) 1) n) ;;
      st_fail error
  end.

(** ** Starting up *)

(** The [for block in blocks] of [index_stored_blocks]: whether it progressed, and the blocks
    that still miss their parent. *)
Fixpoint index_pass (blocks : list Block) (progressed : bool) (remaining : list Block)
    : ST Node NodeError (bool * list Block) :=
  match blocks with
  | [] => mret (progressed, remaining)
  | b :: blocks =>
      hash ← lift_codec (block_hash b);
      n ← st_get;
      if fork_contains (fork_choice n) hash then index_pass blocks true remaining else
      r ← st_try (on_fork_choice (fork_insert_block b));
      match r with
      | Ok _ => index_pass blocks true remaining
      | Err (NodeForkChoice MissingParent) => index_pass blocks progressed (remaining ++ [b])
      | Err error => st_fail error
      end
  end.
(** The [while progressed]. A pass that progresses leaves fewer blocks, so one pass more than
    there are blocks ends the loop. *)
Fixpoint index_loop (fuel : nat) (blocks : list Block) : ST Node NodeError unit :=
  match fuel with
  | O => mret tt
  | S fuel =>
      r ← index_pass blocks false [];
      if (r.1 : bool) then index_loop fuel r.2 else mret tt
  end.
Definition index_stored_blocks : ST Node NodeError unit :=
  blocks ← read_storage load_blocks_by_hash;
  let blocks := sort_by (fun l r => cmp (block_height l) (block_height r)) blocks in
  index_loop (S (length blocks)) blocks ;;
  prune_finalized_forks ;;
  mret tt.

Definition load_or_create_ledger : ST LmdbEnv NodeError Ledger :=
  env ← st_get;
  tip ← st_lift (map_err NodeStorage (load_tip env));
  match tip with
  | Some _ => st_map_err NodeStorage load_ledger
  | None =>
      l ← st_lift (map_err NodeGenesis genesis_ledger);
      st_map_err NodeStorage (save_ledger l) ;;
      mret l
  end.
Definition load_or_derive_genesis_accounts (l : Ledger) : ST LmdbEnv NodeError (BTreeMap Address Account) :=
  env ← st_get;
  loaded ← st_lift (map_err NodeStorage (load_genesis_accounts env));
  match loaded with
  | Some accs => mret accs
  | None =>
      accs ← match ledger_tip_height l with
             | None => mret ∅
             | Some height =>
                 if height =? 0 then mret (ledger_accounts l) else
                 stored ← st_lift (map_err NodeStorage (load_block_by_height 0 env));
                 genesis ← st_lift (ok_or stored MissingGenesisState);
                 let '(r, genesis_l) := ledger_apply_block genesis ledger_new in
                 st_lift (map_err NodeLedger r) ;;
                 mret (ledger_accounts genesis_l)
             end;
      st_map_err NodeStorage (save_genesis_accounts accs) ;;
      mret accs
  end.
(** [init_or_load] on the opened environment; [Storage::open] checks the schema version. *)
Definition init_or_load (c : Consensus) : ST LmdbEnv NodeError Node :=
  st_map_err NodeStorage ensure_storage_version ;;
  l ← load_or_create_ledger;
  st_lift (ensure_expected_genesis l) ;;
  accs ← load_or_derive_genesis_accounts l;
  env ← st_get;
  n ← st_lift (try_with_genesis_accounts l env c accs);
  let '(r, n) := index_stored_blocks n in
  st_lift r ;;
  mret n.

Definition flush_to_storage : ST Node NodeError unit :=
  n ← st_get; on_storage (save_ledger (ledger n)).

(** ** Mining *)

Definition next_difficulty_after_tip n (tip : BlockHeight) : Result NodeError Z :=
  if negb (bool_decide (ledger_tip_height (ledger n) = Some tip)) then Err MissingDifficultyAnchor else
  d ← map_err NodeLedger (ledger_expected_difficulty_after_tip (ledger n));
  Ok (Z.max d MIN_DIFFICULTY).
Definition next_difficulty n : Result NodeError Z :=
  if consensus_difficulty (consensus n) =? 0 then Ok MIN_DIFFICULTY else
  next_difficulty_after_tip n (unwrap_or 0 (ledger_tip_height (ledger n))).
Definition next_difficulty_at n (_ : Z) : Result NodeError Z :=
  if consensus_difficulty (consensus n) =? 0 then Ok MIN_DIFFICULTY else next_difficulty n.

Definition mine_block (miner_address : Address) (timestamp attempts limit : Z)
    : ST Node NodeError MiningResult :=
  on_mempool (evict_by_policy timestamp) ;;
  n ← st_get;
  difficulty ← st_lift (next_difficulty_at n timestamp);
  mined ← st_lift (map_err NodeConsensus (mine_candidate_block (mempool n) (ledger n) (consensus n)
    miner_address {| mining_difficulty := difficulty; start_nonce := 0; max_attempts := attempts;
      transaction_limit := limit; min_fee_rate := dynamic_market_fee_rate (mempool n) |}));
  result ← st_lift (ok_or mined MiningExhausted);
  apply_block (result_block result) ;;
  mret result.

(** ** Balances *)

Definition tip_work n : option (list Z) :=
  hash ← ledger_tip_hash (ledger n);
  node ← fork_get (fork_choice n) hash;
  Some (to_be_limbs (cumulative_work node)).
Definition balance n (a : Address) : option Amount := ledger_balance (ledger n) a.
Definition confirmed_balance n (a : Address) : option Amount := ledger_confirmed_balance (ledger n) a.
Definition available_balance n (a : Address) : option Amount :=
  tip ← ledger_tip_height (ledger n);
  account ← ledger_account (ledger n) a;
  Some (account_available_balance_at account tip).

Definition credit_output (a : Address) (p : PendingBalance) (o : TransferOutput) : PendingBalance :=
  if bool_decide (target_address (to o) = Some a)
  then {| incoming := u64_add (incoming p) (amount o); outgoing := outgoing p |} else p.
Definition pending_step (a : Address) (p : PendingBalance) (tx : SignedProtocolTransaction)
    : PendingBalance :=
  match tx with
  | BatchTransfer t =>
      let p := fold_left (credit_output a) (batch_outputs t) p in
      if bool_decide (batch_from t = a) then
        {| incoming := incoming p;
           outgoing := u64_add (outgoing p) (unwrap_or U64_MAX (result_ok (batch_total_amount t))) |}
      else p
  | QCash t =>
      match qcash_kind t with
      | Withdraw amount =>
          if bool_decide (qcash_signer t = a)
          then {| incoming := incoming p; outgoing := u64_add (outgoing p) amount |} else p
      | _ => p
      end
  end.
Definition pending_balance n (a : Address) : PendingBalance :=
  fold_left (pending_step a) (pool_transactions (mempool n)) pending_default.

Definition draft_basis n (a : Address) : option DraftBasis :=
  account ← ledger_account (ledger n) a;
  tip ← ledger_tip_height (ledger n);
  let available := account_available_balance_at account tip in
  let pending := pending_balance n a in
  Some {| draft_signer := a;
          live_balance := account_balance account;
          draft_available_balance := available;
          spendable_after_pending := u64_sub available (outgoing pending);
          latest_statement := account_statement account;
          draft_tip_height := tip;
          finalized_height := u64_sub tip FINALITY_DEPTH;
          pending_incoming := incoming pending;
          pending_outgoing := outgoing pending;
          pending_outgoing_hashes := omap (fun tx => result_ok (tx_hash tx))
            (List.filter (fun tx => bool_decide (tx_signer tx = a)) (pool_transactions (mempool n)));
          recommended_fee_rate_per_byte := dynamic_market_fee_rate (mempool n);
          min_relay_fee_rate_per_byte := min_relay_fee (config (mempool n));
          market_fee_rate_per_byte := market_fee (config (mempool n)) |}.

Definition balance_summary n (a : Address) : option BalanceSummary :=
  confirmed ← confirmed_balance n a;
  available ← available_balance n a;
  Some {| summary_confirmed := confirmed; summary_available := available;
          summary_pending := pending_balance n a |}.

Definition account_view n (a : Address) : option AccountView :=
  account ← ledger_account (ledger n) a;
  tip ← ledger_tip_height (ledger n);
  Some {| view_balance := account_available_balance_at account tip;
          view_unspendable := account_immature_balance_at account tip;
          view_statement := account_statement account |}.
End node.
