(* ===== verification/NodeOrphans.v ===== *)
(** The node's pool of orphan blocks and its queue of missing parents: their invariant under
    every operation, what the queue hands out, and that adopting orphans ends. *)
From Stdlib Require Import ZArith Lia.
From stdpp Require Import base numbers option strings list sets relations.
From S2P Require Import Prelude BTree PaqusCore Mempool Compact Recovery Lmdb Storage Cache Miner.
From S2P Require Import NodeState Node.
Open Scope Z_scope.

Section orphans.
Context `{PaqusTypes} `{!TxOps} `{!BlockOps} `{!LedgerOps} `{!EventOps} `{!ForkOps}.
Context `{!ConsensusOps} `{!GenesisOps} `{!Borsh} `{!Lmdb} `{!ErrorDisplay} `{!StorageDisplay}.
Context (clock : nat -> Z).
Implicit Types (n : Node) (b : Block) (h p : BlockHash) (cs ps : list BlockHash).

(** ** What chain code leaves alone *)

(** The orphan pool and the queue. *)
Definition pool_part n :=
  (orphan_blocks n, orphan_children_by_parent n, missing_parent_requests n,
   missing_parent_request_set n, missing_parent_retry_at n, pending_compact_blocks n).

Lemma keeps_submit tx : st_keeps pool_part (submit_protocol_transaction clock tx).
Proof. unfold submit_protocol_transaction. keep. Qed.
Lemma keeps_prune_finalized : st_keeps pool_part prune_finalized_forks.
Proof. unfold prune_finalized_forks. keep. Qed.
Lemma keeps_retry i v : st_keeps pool_part (retry_rollback_issue_record clock i v).
Proof. unfold retry_rollback_issue_record. keep_with ltac:(apply keeps_submit). Qed.
Lemma keeps_mark b : st_keeps pool_part (mark_rollback_issues_reconfirmed b).
Proof. unfold mark_rollback_issues_reconfirmed. keep. Qed.
Lemma keeps_reorg : st_keeps pool_part (reorg_to_best_tip clock).
Proof.
  unfold reorg_to_best_tip, recover_block, recover_transaction.
  keep_with ltac:(first [apply keeps_retry|apply keeps_prune_finalized]).
Qed.
Lemma keeps_apply_known b : st_keeps pool_part (apply_known_parent_block clock b).
Proof.
  unfold apply_known_parent_block, validate_block_for_known_parent, extend_active_tip.
  keep_with ltac:(first [apply keeps_reorg|apply keeps_mark|apply keeps_prune_finalized]).
Qed.

(** ** The invariant *)

(** Orphans are filed under their hash and listed once, under their parent; the blocks of
    [ps] are being adopted: they may still be pooled but are listed no more. *)
Record orphans_upto ps n : Prop := {
  orphans_sorted : bt_wf (orphan_blocks n);
  index_sorted : bt_wf (orphan_children_by_parent n);
  orphans_bounded : bt_len (orphan_blocks n) <= MAX_ORPHAN_BLOCKS;
  orphan_hash h o : orphan_blocks n !! h = Some o -> block_hash (orphan_block o) = Ok h;
  orphan_listed h o : orphan_blocks n !! h = Some o -> h ∉ ps ->
    exists cs, orphan_children_by_parent n !! block_previous_hash (orphan_block o) = Some cs /\ h ∈ cs;
  listed_orphan p cs h : orphan_children_by_parent n !! p = Some cs -> h ∈ cs ->
    (h ∉ ps) /\ exists o, orphan_blocks n !! h = Some o /\ block_previous_hash (orphan_block o) = p;
  lists_ok p cs : orphan_children_by_parent n !! p = Some cs -> cs <> [] /\ NoDup cs
}.

(** The queue holds each hash once; the set and the retry times track exactly the queue. *)
Record queue_wf n : Prop := {
  queue_once : NoDup (missing_parent_requests n);
  queue_set h : is_Some (missing_parent_request_set n !! h) <-> h ∈ missing_parent_requests n;
  queue_retry h : is_Some (missing_parent_retry_at n !! h) <-> h ∈ missing_parent_requests n
}.

(** At most 64 compact blocks wait for their transactions. *)
Definition staged_wf n : Prop :=
  bt_wf (pending_compact_blocks n) /\ bt_len (pending_compact_blocks n) <= MAX_PENDING_COMPACT_BLOCKS.

Definition pool_upto ps n : Prop := orphans_upto ps n /\ queue_wf n /\ staged_wf n.
Definition pool_wf n : Prop := pool_upto [] n.

Lemma pool_upto_part ps n n' : pool_part n = pool_part n' -> pool_upto ps n' -> pool_upto ps n.
Proof.
  unfold pool_part. intros [= E1 E2 E3 E4 E5 E6] (Ho & Hq & Hs). split_and!.
  - destruct Ho. split; rewrite ?E1, ?E2; done.
  - destruct Hq. split; rewrite ?E3, ?E4, ?E5; done.
  - unfold staged_wf. by rewrite E6.
Qed.
Lemma keeps_pool {A} ps (m : ST Node NodeError A) :
  st_keeps pool_part m -> st_preserves (pool_upto ps) m.
Proof. apply st_keeps_preserves. intros n n'. apply pool_upto_part. Qed.

(** *** Removing an orphan *)

Definition unlisted h (cs : list BlockHash) : list BlockHash :=
  List.filter (fun child => negb (bool_decide (child = h))) cs.
Lemma unlisted_elem h cs c : c ∈ unlisted h cs <-> c ∈ cs /\ c <> h.
Proof.
  unfold unlisted. rewrite !list_elem_of_In, filter_In, negb_true_iff, bool_decide_eq_false. done.
Qed.
Lemma unlisted_NoDup h cs : NoDup cs -> NoDup (unlisted h cs).
Proof. rewrite !NoDup_ListNoDup. apply List.NoDup_filter. Qed.

Lemma remove_orphan_index_lookup h n p :
  bt_wf (orphan_children_by_parent n) ->
  orphan_children_by_parent (remove_orphan_index h n) !! p =
  match orphan_children_by_parent n !! p with
  | Some cs => match unlisted h cs with [] => None | cs => Some cs end
  | None => None
  end /\ bt_wf (orphan_children_by_parent (remove_orphan_index h n)).
Proof.
  intros Hwf. unfold remove_orphan_index. cbn [orphan_children_by_parent set_orphan_children_by_parent].
  set (m := orphan_children_by_parent n) in *.
  change (map _ _) with (map (fun q : BlockHash * list BlockHash => (q.1, unlisted h q.2)) (bt_list m)).
  pose proof (bt_map_wf (unlisted h) m Hwf) as Hrwf.
  pose proof (bt_map_lookup (unlisted h) m) as Hlook. set (retained := BT _) in *.
  split; [|by apply bt_fold_delete_wf]. rewrite bt_fold_delete, Hlook.
  assert (Hin : p ∈ omap (fun q : BlockHash * list BlockHash =>
      match q.2 with [] => Some q.1 | _ => None end) (bt_list retained) <->
    exists cs, m !! p = Some cs /\ unlisted h cs = []).
  { rewrite list_elem_of_omap. split.
    - intros ([p' cs'] & Hel & Hs). destruct cs'; [|done]. injection Hs as ->.
      apply bt_elem_lookup in Hel; [|done]. rewrite Hlook in Hel.
      destruct (m !! p) as [cs|] eqn:E; [|done]. exists cs. split; [done|]. by injection Hel.
    - intros (cs & Hm & Hu). exists (p, []). split; [|done]. apply bt_elem_lookup; [done|].
      rewrite Hlook, Hm. cbn. by rewrite Hu. }
  destruct (decide _) as [Hd|Hd].
  - apply Hin in Hd as (cs & -> & Hu). by rewrite Hu.
  - destruct (m !! p) as [cs|] eqn:E; [|done]. cbn. destruct (unlisted h cs) eqn:Eu; [|done].
    exfalso. apply Hd, Hin. by exists cs.
Qed.

Lemma remove_orphan_upto ps h n : orphans_upto ps n -> orphans_upto ps (remove_orphan h n).
Proof.
  intros [Hs Hi Hb Hh Hl Hc Hok]. unfold remove_orphan. cbn [set_orphan_blocks].
  pose proof (remove_orphan_index_lookup h n) as Hidx.
  assert (Hob : orphan_blocks (remove_orphan_index h n) = orphan_blocks n) by done.
  split; cbn [orphan_blocks orphan_children_by_parent set_orphan_blocks]; rewrite ?Hob.
  - by apply bt_wf_delete.
  - by apply (Hidx []).
  - pose proof (bt_len_delete_le (orphan_blocks n) h). lia.
  - intros h' o. rewrite bt_lookup_delete. destruct (decide _); [done|]. apply Hh.
  - intros h' o. rewrite bt_lookup_delete. destruct (decide (h = h')) as [|Hne]; [done|]. intros Ho Hps.
    destruct (Hl h' o Ho Hps) as (cs & Hcs & Hin). rewrite (proj1 (Hidx _ Hi)), Hcs.
    assert (Hu : h' ∈ unlisted h cs) by (apply unlisted_elem; done).
    destruct (unlisted h cs) as [|c cs'] eqn:E; [by apply elem_of_nil in Hu|]. eauto.
  - intros p cs h'. rewrite (proj1 (Hidx _ Hi)).
    destruct (orphan_children_by_parent n !! p) as [cs0|] eqn:E; [|done].
    destruct (unlisted h cs0) as [|c cs'] eqn:Eu; [done|]. intros [= <-] Hin.
    rewrite <- Eu, unlisted_elem in Hin. destruct Hin as [Hin Hne].
    destruct (Hc p cs0 h' E Hin) as (? & o & Ho & Hp). split; [done|]. exists o.
    rewrite bt_lookup_delete_ne by done. done.
  - intros p cs. rewrite (proj1 (Hidx _ Hi)).
    destruct (orphan_children_by_parent n !! p) as [cs0|] eqn:E; [|done].
    destruct (unlisted h cs0) as [|c cs'] eqn:Eu; [done|]. intros [= <-]. split; [done|].
    rewrite <- Eu. apply unlisted_NoDup. by destruct (Hok p cs0 E).
Qed.

Lemma remove_orphan_pool ps h n : pool_upto ps n -> pool_upto ps (remove_orphan h n).
Proof. intros (Ho & Hq & Hs). split_and!; [by apply remove_orphan_upto|by destruct Hq|done]. Qed.
Lemma prune_expired_pool ps t n : pool_upto ps n -> pool_upto ps (prune_expired_orphans t n).
Proof.
  unfold prune_expired_orphans. generalize (omap (fun p : BlockHash * OrphanBlock =>
    if orphan_expired t n p.2 then Some p.1 else None) (bt_list (orphan_blocks n))).
  intros hs. revert n. induction hs as [|h hs IH]; intros n Hn; cbn [fold_left]; [done|].
  by apply IH, remove_orphan_pool.
Qed.

(** *** Caching an orphan *)

Lemma evict_orphan_room ps n : pool_upto ps n ->
  pool_upto ps (evict_orphan_for_capacity n) /\
  bt_len (orphan_blocks (evict_orphan_for_capacity n)) < MAX_ORPHAN_BLOCKS.
Proof.
  intros Hn. unfold evict_orphan_for_capacity. pose proof (proj1 Hn) as [Hs _ Hb _ _ _ _].
  destruct (Z.leb_spec MAX_ORPHAN_BLOCKS (bt_len (orphan_blocks n))) as [Hle|Hlt]; [|done].
  destruct (bt_first_key (orphan_blocks n)) as [h|] eqn:Hf.
  - split; [by apply remove_orphan_pool|]. apply bt_first_key_Some in Hf as [o Ho]; [|done].
    change (orphan_blocks (remove_orphan h n)) with (delete h (orphan_blocks n)).
    rewrite (bt_len_delete _ _ o) by done. lia.
  - apply bt_first_key_None in Hf. rewrite Hf in Hle. cbv in Hle. by destruct Hle.
Qed.
Lemma evict_orphan_absent h n :
  orphan_blocks n !! h = None -> orphan_blocks (evict_orphan_for_capacity n) !! h = None.
Proof.
  intros Hh. unfold evict_orphan_for_capacity. destruct (_ <=? _); [|done].
  destruct (bt_first_key _) as [h'|]; [|done].
  change (orphan_blocks (remove_orphan h' n)) with (delete h' (orphan_blocks n)).
  rewrite bt_lookup_delete. by destruct (decide _).
Qed.

Lemma insert_orphan_upto ps h o n :
  orphans_upto ps n -> block_hash (orphan_block o) = Ok h -> h ∉ ps ->
  orphan_blocks n !! h = None -> bt_len (orphan_blocks n) < MAX_ORPHAN_BLOCKS ->
  orphans_upto ps (insert_orphan h (block_previous_hash (orphan_block o)) o n).
Proof.
  intros [Hs Hi Hb Hh Hl Hc Hok] Hoh Hps Hnew Hroom.
  set (p := block_previous_hash (orphan_block o)). set (old := unwrap_or [] (orphan_children_by_parent n !! p)).
  assert (Hold : forall c, c ∈ old -> exists cs, orphan_children_by_parent n !! p = Some cs /\ c ∈ cs).
  { intros c. unfold old. destruct (_ !! p) as [cs|]; cbn; [eauto|]. by intros Hx%elem_of_nil. }
  split; cbn [insert_orphan orphan_blocks orphan_children_by_parent set_orphan_blocks set_orphan_children_by_parent].
  - by apply bt_wf_insert.
  - by apply bt_wf_insert.
  - rewrite bt_len_insert_new by done. lia.
  - intros h' o'. rewrite bt_lookup_insert. destruct (decide _) as [->|]; [by intros [= <-]|apply Hh].
  - intros h' o'. rewrite bt_lookup_insert. fold old. destruct (decide (h = h')) as [->|Hne].
    + intros [= <-] _. exists (old ++ [h']). rewrite bt_lookup_insert_eq. set_solver.
    + intros Ho' Hps'. destruct (Hl h' o' Ho' Hps') as (cs & Hcs & Hin). rewrite bt_lookup_insert.
      destruct (decide _) as [Hp|Hp]; [|by exists cs]. exists (old ++ [h]). split; [done|].
      fold p in Hp. unfold old. rewrite Hp, Hcs. cbn. set_solver.
  - intros p' cs h'. rewrite bt_lookup_insert. fold old. destruct (decide (p = p')) as [<-|Hne].
    + intros [= <-] [Hin|Hin]%elem_of_app.
      * destruct (Hold h' Hin) as (cs & Hcs & Hin'). destruct (Hc p cs h' Hcs Hin') as (? & o' & Ho' & ?).
        split; [done|]. exists o'. rewrite bt_lookup_insert_ne by congruence. done.
      * apply list_elem_of_singleton in Hin as ->. split; [done|]. exists o. by rewrite bt_lookup_insert_eq.
    + intros Hcs Hin. destruct (Hc p' cs h' Hcs Hin) as (? & o' & Ho' & ?). split; [done|]. exists o'.
      rewrite bt_lookup_insert_ne by congruence. done.
  - intros p' cs. rewrite bt_lookup_insert. fold old. destruct (decide (p = p')) as [<-|Hne]; [|apply Hok].
    intros [= <-]. split; [by destruct old|]. apply NoDup_app. split_and!.
    + unfold old. destruct (_ !! p) as [cs|] eqn:E; [by apply (Hok p cs)|constructor].
    + intros c Hc' Hx%list_elem_of_singleton. subst c. destruct (Hold h Hc') as (cs & Hcs & Hin).
      destruct (Hc p cs h Hcs Hin) as (_ & o' & Ho' & _). congruence.
    + apply NoDup_singleton.
Qed.

Lemma queue_request_pool ps h t n :
  pool_upto ps n -> pool_upto ps (queue_missing_parent_request_at h t n).
Proof.
  intros (Ho & [Hn Hs Hr] & Hst). unfold queue_missing_parent_request_at.
  destruct (fork_contains _ _); [done|].
  split_and!; [by destruct (bt_contains _ _), Ho| |by destruct (bt_contains _ _)].
  cbn [missing_parent_request_set set_missing_parent_retry_at].
  destruct (bt_contains h (missing_parent_request_set n)) eqn:Hc; split;
    cbn [missing_parent_requests missing_parent_request_set missing_parent_retry_at
         set_missing_parent_requests set_missing_parent_request_set set_missing_parent_retry_at];
    try done.
  - apply bt_contains_true, Hs in Hc. intros h'. rewrite bt_lookup_insert.
    destruct (decide _) as [->|]; [|apply Hr]. split; [done|]. by eexists.
  - apply NoDup_app. split_and!; [done| |apply NoDup_singleton].
    intros x Hx ->%list_elem_of_singleton. apply Hs, bt_contains_true in Hx. congruence.
  - intros h'. rewrite bt_lookup_insert, elem_of_app, list_elem_of_singleton.
    destruct (decide (h = h')) as [->|Hne]; [split; [by right|by eexists]|].
    rewrite Hs. split; [by left|]. by intros [?|?]; [|congruence].
  - intros h'. rewrite bt_lookup_insert, elem_of_app, list_elem_of_singleton.
    destruct (decide (h = h')) as [->|Hne]; [split; [by right|by eexists]|].
    rewrite Hr. split; [by left|]. by intros [?|?]; [|congruence].
Qed.

(** Caching leaves the invariant; the block may not be one that is being adopted. *)
Lemma cache_orphan_pool ps b n :
  (forall h, block_hash b = Ok h -> h ∉ ps) ->
  pool_upto ps n -> pool_upto ps (cache_orphan_block clock b n).2.
Proof.
  intros Hps Hn. unfold cache_orphan_block.
  rewrite (st_bind_ok _ _ _ _ _ (eq_refl : current_unix_timestamp clock n = _)).
  assert (Hn1 : pool_upto ps (prune_expired_orphans (clock (clock_reads n))
    (set_clock_reads (S (clock_reads n)) n))) by (apply prune_expired_pool, (pool_upto_part ps _ n); done).
  rewrite st_bind_modify, st_bind_get. set (n1 := prune_expired_orphans _ _) in *.
  destruct (block_height b =? 0); [done|]. destruct (orphan_is_too_far_ahead n1 b); [done|].
  unfold lift_codec. destruct (block_hash b) as [h|e] eqn:Hh; cbn [map_err]; st_simpl; [|done].
  destruct (fork_contains (fork_choice n1) h || bt_contains h (orphan_blocks n1)) eqn:Hseen; [done|]. apply orb_false_iff in Hseen as [_ Hseen].
  apply bt_contains_false in Hseen. st_simpl.
  destruct (evict_orphan_room ps n1 Hn1) as [Hn2 Hroom].
  pose proof (evict_orphan_absent h n1 Hseen) as Habs. set (n2 := evict_orphan_for_capacity n1) in *.
  assert (Hq : exists n3, queue_missing_parent_request clock (block_previous_hash b) n2 = (Ok tt, n3) /\
    pool_upto ps n3 /\ orphan_blocks n3 = orphan_blocks n2).
  { unfold queue_missing_parent_request. rewrite st_bind_get.
    destruct (fork_contains _ _) eqn:Hf; [by exists n2|].
    rewrite (st_bind_ok _ _ _ _ _ (eq_refl : current_unix_timestamp clock n2 = _)).
    eexists. split; [done|]. split.
    - apply queue_request_pool. by apply (pool_upto_part ps _ n2).
    - unfold queue_missing_parent_request_at. cbn [fork_choice set_clock_reads]. rewrite Hf.
      by destruct (bt_contains _ _). }
  destruct Hq as (n3 & Hrun & Hn3 & Hob). rewrite (st_bind_ok _ _ _ _ _ Hrun).
  destruct Hn3 as (Ho & Hq & Hs). cbn [snd st_modify]. split_and!; [|by destruct Hq|done].
  apply (insert_orphan_upto ps h {| orphan_block := b; received_at := _ |}); cbn; rewrite ?Hob; auto.
Qed.

(** ** Adopting orphans *)

Definition pooled n : Z := bt_len (orphan_blocks n).

Lemma drop_adopted_upto ps h o n :
  pool_upto (h :: ps) n -> orphan_blocks n !! h = Some o -> NoDup (h :: ps) ->
  pool_upto ps (set_orphan_blocks (delete h (orphan_blocks n)) n).
Proof.
  intros ([Hs Hi Hb Hh Hl Hc Hok] & Hq & Hst) Ho Hnd. apply NoDup_cons in Hnd as [Hnh _].
  split_and!; [|by destruct Hq|done].
  split; cbn [orphan_blocks orphan_children_by_parent set_orphan_blocks]; try done.
  - by apply bt_wf_delete.
  - pose proof (bt_len_delete_le (orphan_blocks n) h). lia.
  - intros h' o'. rewrite bt_lookup_delete. destruct (decide _); [done|]. apply Hh.
  - intros h' o'. rewrite bt_lookup_delete. destruct (decide (h = h')); [done|]. intros Ho' Hps.
    apply (Hl h' o' Ho'). set_solver.
  - intros p cs h' Hcs Hin. destruct (Hc p cs h' Hcs Hin) as (Hps & o' & Ho' & ?).
    split; [set_solver|]. exists o'. rewrite bt_lookup_delete_ne by set_solver. done.
Qed.
Lemma skip_adopted_upto ps h n :
  pool_upto (h :: ps) n -> orphan_blocks n !! h = None -> pool_upto ps n.
Proof.
  intros ([Hs Hi Hb Hh Hl Hc Hok] & Hq & Hst) Ho. split_and!; [|done..]. split; try done.
  - intros h' o' Ho' Hps. apply (Hl h' o' Ho'). intros [->|?]%elem_of_cons; congruence.
  - intros p cs h' Hcs Hin. destruct (Hc p cs h' Hcs Hin) as (? & ?). split; [set_solver|done].
Qed.

Lemma take_children_upto p cs n :
  pool_wf n -> orphan_children_by_parent n !! p = Some cs ->
  pool_upto cs (set_orphan_children_by_parent (delete p (orphan_children_by_parent n)) n).
Proof.
  intros ([Hs Hi Hb Hh Hl Hc Hok] & Hq & Hst) Hcs. split_and!; [|by destruct Hq|done].
  split; cbn [orphan_blocks orphan_children_by_parent set_orphan_children_by_parent]; try done.
  - by apply bt_wf_delete.
  - intros h o Ho Hnot. destruct (Hl h o Ho) as (cs' & Hcs' & Hin); [set_solver|].
    exists cs'. rewrite bt_lookup_delete_ne; [done|]. intros Ep. rewrite <- Ep, Hcs in Hcs'.
    by injection Hcs' as <-.
  - intros p' cs' h. rewrite bt_lookup_delete. destruct (decide (p = p')) as [|Hne]; [done|]. intros Hcs' Hin.
    destruct (Hc p' cs' h Hcs' Hin) as (_ & o & Ho & Hp). split; [|by exists o].
    intros Hin'. destruct (Hc p cs h Hcs Hin') as (_ & o' & Ho' & Hp'). congruence.
  - intros p' cs'. rewrite bt_lookup_delete. destruct (decide _); [done|]. apply Hok.
Qed.

Lemma prune_expired_pooled t n : pooled (prune_expired_orphans t n) <= pooled n.
Proof.
  unfold prune_expired_orphans. generalize (omap (fun p : BlockHash * OrphanBlock =>
    if orphan_expired t n p.2 then Some p.1 else None) (bt_list (orphan_blocks n))).
  intros hs. revert n. induction hs as [|h hs IH]; intros n; cbn [fold_left]; [lia|].
  specialize (IH (remove_orphan h n)). unfold pooled in *.
  change (orphan_blocks (remove_orphan h n)) with (delete h (orphan_blocks n)) in IH.
  pose proof (bt_len_delete_le (orphan_blocks n) h). lia.
Qed.
Lemma evict_orphan_pooled n : pooled (evict_orphan_for_capacity n) <= pooled n.
Proof.
  unfold evict_orphan_for_capacity. destruct (_ <=? _); [|lia]. destruct (bt_first_key _) as [h|]; [|lia].
  apply bt_len_delete_le.
Qed.

(** Caching a block with a hash succeeds and pools at most one block more. *)
Lemma cache_orphan_ok b h n : block_hash b = Ok h ->
  (cache_orphan_block clock b n).1 = Ok tt /\ pooled (cache_orphan_block clock b n).2 <= pooled n + 1.
Proof.
  intros Hh. unfold cache_orphan_block.
  rewrite (st_bind_ok _ _ _ _ _ (eq_refl : current_unix_timestamp clock n = _)), st_bind_modify, st_bind_get.
  pose proof (prune_expired_pooled (clock (clock_reads n)) (set_clock_reads (S (clock_reads n)) n)) as Hp.
  change (pooled (set_clock_reads _ n)) with (pooled n) in Hp. set (n1 := prune_expired_orphans _ _) in *.
  destruct (block_height b =? 0); [split; [done|cbn [mret st_ret snd]; lia]|].
  destruct (orphan_is_too_far_ahead n1 b); [split; [done|cbn [mret st_ret snd]; lia]|].
  unfold lift_codec. rewrite Hh. cbn [map_err]. st_simpl.
  destruct (fork_contains (fork_choice n1) h || bt_contains h (orphan_blocks n1));
    [split; [done|cbn [mret st_ret snd]; lia]|].
  st_simpl. pose proof (evict_orphan_pooled n1) as He. set (n2 := evict_orphan_for_capacity n1) in *.
  assert (Hq : exists n3, queue_missing_parent_request clock (block_previous_hash b) n2 = (Ok tt, n3) /\
    orphan_blocks n3 = orphan_blocks n2).
  { unfold queue_missing_parent_request. rewrite st_bind_get. destruct (fork_contains _ _) eqn:Hf; [by exists n2|].
    rewrite (st_bind_ok _ _ _ _ _ (eq_refl : current_unix_timestamp clock n2 = _)).
    eexists. split; [done|]. unfold queue_missing_parent_request_at. cbn [fork_choice set_clock_reads].
    rewrite Hf. by destruct (bt_contains _ _). }
  destruct Hq as (n3 & Hrun & Hob). rewrite (st_bind_ok _ _ _ _ _ Hrun). split; [done|].
  cbn [st_modify snd]. unfold pooled, insert_orphan.
  cbn [orphan_blocks set_orphan_blocks]. rewrite Hob. unfold pooled in *.
  pose proof (bt_len_insert_le (orphan_blocks n2) h {| orphan_block := b; received_at := clock (clock_reads n) |}). lia.
Qed.

Lemma process_children_spec children parents n :
  NoDup children -> pool_upto children n ->
  exists parents' n', process_children clock children parents n = (Ok parents', n') /\ pool_wf n' /\
    zlen parents' + pooled n' <= zlen parents + pooled n.
Proof.
  revert parents n. induction children as [|h children IH]; intros parents n Hnd Hn; cbn [process_children].
  { exists parents, n. split_and!; [done|done|lia]. }
  rewrite st_bind_get. pose proof Hnd as [_ Hnd']%NoDup_cons.
  destruct (orphan_blocks n !! h) as [o|] eqn:Ho; [|by apply IH, (skip_adopted_upto _ h)].
  pose proof (drop_adopted_upto children h o n Hn Ho Hnd) as Hn1.
  assert (Hh : block_hash (orphan_block o) = Ok h) by (by apply (orphan_hash _ _ (proj1 Hn))).
  assert (Hm : pooled (set_orphan_blocks (delete h (orphan_blocks n)) n) = pooled n - 1).
  { apply (bt_len_delete _ _ o); [apply (orphans_sorted _ _ (proj1 Hn))|done]. }
  st_simpl. set (n1 := set_orphan_blocks _ n) in *. rewrite (st_bind_ok _ _ _ _ _ (eq_refl : st_try _ n1 = _)).
  pose proof (keeps_pool children _ (keeps_apply_known (orphan_block o)) n1 Hn1) as Hn2.
  assert (Hm2 : pooled (apply_known_parent_block clock (orphan_block o) n1).2 = pooled n1).
  { pose proof (st_keeps_eq _ _ n1 (keeps_apply_known (orphan_block o))) as E. unfold pooled.
    by injection E as ->. }
  set (n2 := (apply_known_parent_block clock (orphan_block o) n1).2) in *.
  assert (Hskip : exists parents' n', process_children clock children parents n2 = (Ok parents', n') /\
    pool_wf n' /\ zlen parents' + pooled n' <= zlen parents + pooled n).
  { destruct (IH parents n2 Hnd' Hn2) as (ps' & n' & ? & ? & ?). exists ps', n'. split_and!; [done|done|lia]. }
  destruct (apply_known_parent_block clock (orphan_block o) n1).1 as [[]|e].
  - destruct (IH (h :: parents) n2 Hnd' Hn2) as (ps' & n' & ? & ? & Hle). exists ps', n'.
    split_and!; [done|done|]. unfold zlen in *. cbn [length] in Hle. lia.
  - destruct e as [| |[] | | | | | | | | | | | | | | | | | | | |]; try exact Hskip.
    destruct (cache_orphan_ok (orphan_block o) h n2 Hh) as [Hok Hle].
    rewrite (st_bind_ok _ _ _ tt (cache_orphan_block clock (orphan_block o) n2).2)
      by (by rewrite <- Hok, <- surjective_pairing).
    destruct (IH parents (cache_orphan_block clock (orphan_block o) n2).2) as (ps' & n' & ? & ? & ?); [done| |].
    + apply cache_orphan_pool; [|done]. intros h' E. rewrite Hh in E. injection E as <-. by apply NoDup_cons in Hnd as [? _].
    + exists ps', n'. split_and!; [done|done|lia].
Qed.

(** The fuel of the adoption loop is enough: more of it changes nothing. *)
Lemma process_parents_spec fuel parents n :
  pool_wf n -> zlen parents + pooled n <= Z.of_nat fuel ->
  exists n', process_parents clock fuel parents n = (Ok tt, n') /\ pool_wf n' /\
    forall fuel', (fuel <= fuel')%nat -> process_parents clock fuel' parents n = (Ok tt, n').
Proof.
  revert parents n. induction fuel as [|fuel IH]; intros [|p parents] n Hn Hf.
  - exists n. split_and!; [done|done|]. by intros [|fuel'].
  - pose proof (bt_len_nonneg (orphan_blocks n)). unfold zlen, pooled in Hf. cbn [length] in Hf. lia.
  - exists n. split_and!; [done|done|]. by intros [|fuel'].
  - assert (Hlater : forall n1, pool_wf n1 -> forall ps1, zlen ps1 + pooled n1 <= Z.of_nat fuel ->
      (forall fuel', process_parents clock (S fuel') (p :: parents) n = process_parents clock fuel' ps1 n1) ->
      exists n', process_parents clock (S fuel) (p :: parents) n = (Ok tt, n') /\ pool_wf n' /\
        forall fuel', (S fuel <= fuel')%nat -> process_parents clock fuel' (p :: parents) n = (Ok tt, n')).
    { intros n1 Hn1 ps1 Hle Hstep. destruct (IH ps1 n1 Hn1 Hle) as (n' & Hrun & Hn' & Hmore).
      exists n'. rewrite Hstep. split_and!; [done|done|]. intros [|fuel'] Hfuel; [lia|].
      rewrite Hstep. apply Hmore. lia. }
    destruct (orphan_children_by_parent n !! p) as [cs|] eqn:Hcs.
    + pose proof (take_children_upto p cs n Hn Hcs) as Hn1.
      destruct (process_children_spec cs parents _ (proj2 (lists_ok _ _ (proj1 Hn) p cs Hcs)) Hn1)
        as (ps' & n' & Hrun & Hn' & Hle).
      apply (Hlater n' Hn' ps'). { unfold zlen, pooled in *. cbn [length orphan_blocks set_orphan_children_by_parent] in *. lia. }
      intros fuel'. cbn [process_parents]. rewrite st_bind_get, Hcs, st_bind_modify.
      by rewrite (st_bind_ok _ _ _ _ _ Hrun).
    + apply (Hlater n Hn parents). { unfold zlen in *. cbn [length] in Hf. lia. }
      intros fuel'. cbn [process_parents]. by rewrite st_bind_get, Hcs.
Qed.

(** C22: adopting orphans ends: the loop over the parents whose orphans can now be applied pops
    one parent per turn and pushes one only for an orphan it consumed, so as many turns as
    there are orphans, plus one, complete it; it never fails, and the pool is consistent after. *)
Theorem adoption_terminates n h fuel :
  pool_wf n -> (process_fuel n <= fuel)%nat ->
  exists n', process_parents clock (process_fuel n) [h] n = (Ok tt, n') /\ pool_wf n' /\
    process_parents clock fuel [h] n = (Ok tt, n').
Proof.
  intros Hn Hf. destruct (process_parents_spec (process_fuel n) [h] n Hn) as (n' & ? & ? & Hmore).
  - unfold process_fuel, pooled, bt_len, zlen. cbn [length]. lia.
  - exists n'. auto.
Qed.

Lemma apply_block_pool b : st_preserves pool_wf (apply_block clock b).
Proof.
  assert (Hnow : st_preserves pool_wf (current_unix_timestamp clock)) by (apply keeps_pool; by apply now_keeps).
  assert (Hprune : forall t, st_preserves (E := NodeError) pool_wf (st_modify (prune_expired_orphans t))).
  { intros t. apply st_preserves_modify. intros n. apply prune_expired_pool. }
  unfold apply_block. apply st_preserves_bind; [done|intros t].
  apply st_preserves_bind; [apply Hprune|intros _].
  apply st_preserves_bind; [apply st_preserves_try, keeps_pool, keeps_apply_known|intros [[]|e]].
  - apply st_preserves_bind; [apply st_preserves_lift|intros hash]. unfold process_orphans_for_parent.
    apply st_preserves_bind; [done|intros t']. apply st_preserves_bind; [apply Hprune|intros _].
    intros n Hn. rewrite st_bind_get.
    destruct (process_parents_spec (process_fuel n) [hash] n Hn) as (n' & -> & ? & _); [|done].
    unfold process_fuel, pooled, bt_len, zlen. cbn [length]. lia.
  - assert (Hfail : st_preserves (A := unit) pool_wf (st_modify (fun n => set_block_validation_failures_total
        (u64_add (block_validation_failures_total n) 1) n) ;; st_fail e)).
    { apply st_preserves_bind; [|intros; apply st_preserves_fail]. apply st_preserves_modify.
      intros n. by apply pool_upto_part. }
    destruct e as [| |[]|[]| | | | | | | | | | | | | | | | | | |]; try exact Hfail; try apply st_preserves_ret.
    intros n Hn. apply cache_orphan_pool; [set_solver|done].
Qed.

(** ** What the queue hands out *)

Definition due (t : Z) n h : bool := unwrap_or 0 (missing_parent_retry_at n !! h) <=? t.

Lemma drain_loop_spec queue t n ready pending :
  NoDup queue ->
  let '(ready', pending', n') := drain_loop queue t n ready pending in
  ready' = ready ++ List.filter (due t n) queue /\
  pending' = pending ++ List.filter (fun h => negb (due t n h)) queue /\
  (forall h, missing_parent_retry_at n' !! h =
     if decide (h ∈ List.filter (due t n) queue) then None else missing_parent_retry_at n !! h) /\
  (forall h, missing_parent_request_set n' !! h =
     if decide (h ∈ List.filter (due t n) queue) then None else missing_parent_request_set n !! h) /\
  (orphan_blocks n', orphan_children_by_parent n', pending_compact_blocks n') =
  (orphan_blocks n, orphan_children_by_parent n, pending_compact_blocks n).
Proof.
  revert n ready pending. induction queue as [|x queue IH]; intros n ready pending Hnd; cbn [drain_loop].
  { cbn. rewrite !app_nil_r. split_and!; [done|done| | |done];
    intros h; (destruct (decide (h ∈ [])) as [Hh|]; [by apply elem_of_nil in Hh|done]). }
  apply NoDup_cons in Hnd as [Hx Hnd]. fold (due t n x). cbn [List.filter].
  destruct (due t n x) eqn:Hd; cbn [negb].
  - set (n1 := set_missing_parent_retry_at _ _).
    assert (Hsame : forall h, h ∈ queue -> due t n1 h = due t n h).
    { intros h Hh. unfold due. cbn [n1 missing_parent_retry_at set_missing_parent_retry_at].
      rewrite bt_lookup_delete_ne; [done|]. intros <-. done. }
    assert (Hf : List.filter (due t n1) queue = List.filter (due t n) queue /\
      List.filter (fun h => negb (due t n1 h)) queue = List.filter (fun h => negb (due t n h)) queue).
    { split; apply List.filter_ext_in; intros h Hh%list_elem_of_In; by rewrite Hsame. }
    destruct Hf as [Hf1 Hf2]. specialize (IH n1 (ready ++ [x]) pending Hnd). rewrite Hf1, Hf2 in IH.
    destruct (drain_loop queue t n1 (ready ++ [x]) pending) as [[ready' pending'] n'].
    destruct IH as (-> & -> & Hr & Hs & Ho). rewrite <- app_assoc. split_and!; [done|done| | |by rewrite Ho].
    + intros h. rewrite Hr. cbn [n1 missing_parent_retry_at set_missing_parent_retry_at set_missing_parent_request_set].
      rewrite bt_lookup_delete.
      destruct (decide (h ∈ x :: _)) as [Hi|Hi], (decide (h ∈ List.filter _ _)), (decide (x = h)); set_solver.
    + intros h. rewrite Hs. cbn [n1 missing_parent_request_set set_missing_parent_retry_at set_missing_parent_request_set].
      rewrite bt_lookup_delete.
      destruct (decide (h ∈ x :: _)) as [Hi|Hi], (decide (h ∈ List.filter _ _)), (decide (x = h)); set_solver.
  - specialize (IH n ready (pending ++ [x]) Hnd).
    destruct (drain_loop queue t n ready (pending ++ [x])) as [[ready' pending'] n'].
    destruct IH as (-> & -> & Hr & Hs & Ho). rewrite <- app_assoc. done.
Qed.

Lemma drain_spec t n ready n' :
  pool_wf n -> drain_missing_parent_requests_at t n = (ready, n') ->
  ready = List.filter (due t n) (missing_parent_requests n) /\
  missing_parent_requests n' = List.filter (fun h => negb (due t n h)) (missing_parent_requests n) /\
  (forall h, h ∈ missing_parent_requests n' ->
     missing_parent_retry_at n' !! h = missing_parent_retry_at n !! h) /\
  pool_wf n'.
Proof.
  intros (Ho & [Hnd Hset Hret] & Hst). unfold drain_missing_parent_requests_at.
  pose proof (drain_loop_spec (missing_parent_requests n) t n [] [] Hnd) as Hl.
  destruct (drain_loop _ _ _ _ _) as [[rd pd] n1]. destruct Hl as (-> & -> & Hr & Hs & Heq).
  cbn [app]. intros [= <- <-]. cbn [missing_parent_requests set_missing_parent_requests missing_parent_retry_at].
  assert (Hpart : forall h, h ∈ missing_parent_requests n ->
    h ∈ List.filter (fun h => negb (due t n h)) (missing_parent_requests n) <->
    h ∉ List.filter (due t n) (missing_parent_requests n)).
  { intros h Hh. rewrite !list_elem_of_In, !filter_In, <- !list_elem_of_In, negb_true_iff.
    destruct (due t n h); naive_solver. }
  assert (Hsub : forall f h, h ∈ List.filter f (missing_parent_requests n) -> h ∈ missing_parent_requests n).
  { intros f h. rewrite !list_elem_of_In, filter_In. by intros []. }
  assert (Hkept : forall h, h ∈ List.filter (fun h => negb (due t n h)) (missing_parent_requests n) <->
    (h ∉ List.filter (due t n) (missing_parent_requests n)) /\ h ∈ missing_parent_requests n).
  { intros h. split; [intros Hh; split; [apply Hpart|]; eauto|]. intros [? ?]. by apply Hpart. }
  split_and!; [done|done| |split_and!].
  - intros h Hh%Hkept. rewrite Hr. destruct (decide _); [naive_solver|done].
  - injection Heq as E1 E2 _. destruct Ho. split; cbn; rewrite ?E1, ?E2; done.
  - split; cbn [missing_parent_requests missing_parent_request_set missing_parent_retry_at set_missing_parent_requests].
    + rewrite NoDup_ListNoDup. apply List.NoDup_filter. by apply NoDup_ListNoDup.
    + intros h. rewrite Hs, Hkept. destruct (decide _) as [Hd|Hd]; [|rewrite Hset; naive_solver].
      split; [by intros []|naive_solver].
    + intros h. rewrite Hr, Hkept. destruct (decide _) as [Hd|Hd]; [|rewrite Hret; naive_solver].
      split; [by intros []|naive_solver].
  - injection Heq as _ _ E3. unfold staged_wf. cbn. by rewrite E3.
Qed.
Lemma drain_pool t n : pool_wf n -> pool_wf (drain_missing_parent_requests_at t n).2.
Proof.
  intros Hn. destruct (drain_missing_parent_requests_at t n) as [ready n'] eqn:E.
  by apply (drain_spec t n ready n').
Qed.

(** a drain hands out, in the order they were queued, exactly the missing parents whose
    retry time has come, and keeps the others with their times; a parent queued again for
    retry is handed out by no drain before its time, and by the first drain from then on. *)
Theorem missing_parents_drained t n ready n' h :
  pool_wf n -> drain_missing_parent_requests_at t n = (ready, n') ->
  ready = List.filter (due t n) (missing_parent_requests n) /\
  missing_parent_requests n' = List.filter (fun h => negb (due t n h)) (missing_parent_requests n) /\
  (h ∈ ready -> fork_contains (fork_choice n') h = false ->
   forall t' t'', h ∈ (drain_missing_parent_requests_at t''
       (queue_missing_parent_request_at h t' n')).1 <-> t' <= t'').
Proof.
  intros Hn Hd. destruct (drain_spec t n ready n' Hn Hd) as (Hready & Hq & _ & Hn').
  split; [done|]. split; [done|]. intros Hh Hf t' t''.
  assert (Hgone : h ∉ missing_parent_requests n').
  { rewrite Hq. rewrite Hready in Hh. rewrite !list_elem_of_In, !filter_In in *. destruct (due t n h); naive_solver. }
  pose proof (queue_request_pool [] h t' n' Hn') as Hn2.
  set (n2 := queue_missing_parent_request_at h t' n') in *.
  destruct (drain_missing_parent_requests_at t'' n2) as [ready2 n3] eqn:Hd2.
  destruct (drain_spec t'' n2 ready2 n3 Hn2 Hd2) as (-> & _). cbn [fst].
  destruct Hn' as (_ & [_ Hset Hret] & _).
  assert (Hat : missing_parent_retry_at n2 !! h = Some t' /\ h ∈ missing_parent_requests n2).
  { unfold n2, queue_missing_parent_request_at. rewrite Hf.
    cbn [missing_parent_request_set set_missing_parent_retry_at].
    assert (Hno : missing_parent_request_set n' !! h = None /\ missing_parent_retry_at n' !! h = None).
    { rewrite !eq_None_not_Some, Hset, Hret. done. }
    destruct Hno as [Hno1 Hno2]. unfold bt_contains. rewrite Hno1, Hno2.
    cbn [missing_parent_retry_at missing_parent_requests set_missing_parent_requests
      set_missing_parent_request_set set_missing_parent_retry_at].
    rewrite bt_lookup_insert_eq. set_solver. }
  destruct Hat as [Hat Hin]. rewrite list_elem_of_In, filter_In, <- list_elem_of_In.
  unfold due. rewrite Hat. cbn. rewrite Z.leb_le. naive_solver.
Qed.

(** ** Every history *)

Lemma stage_compact_pool h c n : pool_wf n -> pool_wf (stage_compact_block h c n).
Proof.
  intros (Ho & Hq & Hs). unfold stage_compact_block. split_and!; [by destruct Ho|by destruct Hq|].
  destruct Hs as [Hwf Hlen]. unfold staged_wf. cbn [pending_compact_blocks set_pending_compact_blocks].
  split.
  - apply bt_wf_insert. destruct (_ <=? _); [|done]. destruct (bt_first_key _); [by apply bt_wf_delete|done].
  - destruct (Z.leb_spec MAX_PENDING_COMPACT_BLOCKS (bt_len (pending_compact_blocks n))) as [Hle|Hlt].
    + destruct (bt_first_key (pending_compact_blocks n)) as [k|] eqn:Hf.
      * apply bt_first_key_Some in Hf as [v Hv]; [|done].
        pose proof (bt_len_insert_le (delete k (pending_compact_blocks n)) h c) as Hi.
        rewrite (bt_len_delete _ _ v) in Hi by done. lia.
      * apply bt_first_key_None in Hf. rewrite Hf in Hle. cbv in Hle. by destruct Hle.
    + pose proof (bt_len_insert_le (pending_compact_blocks n) h c). lia.
Qed.
Lemma take_compact_pool h n : pool_wf n -> pool_wf (take_compact_block h n).2.
Proof.
  intros (Ho & Hq & Hwf & Hlen). split_and!; [by destruct Ho|by destruct Hq|].
  split; [by apply bt_wf_delete|]. cbn.
  pose proof (bt_len_delete_le (pending_compact_blocks n) h). lia.
Qed.

(** The node's public operations, each as it leaves the node, successful or not. *)
Inductive node_step : Node -> Node -> Prop :=
| step_apply b n : node_step n (apply_block clock b n).2
| step_submit tx n : node_step n (submit_protocol_transaction clock tx n).2
| step_drain n : node_step n (drain_missing_parent_requests clock n).2
| step_retry h n : node_step n (retry_missing_parent_request clock h n).2
| step_stage h c n : node_step n (stage_compact_block h c n)
| step_take h n : node_step n (take_compact_block h n).2
| step_snapshot n : node_step n (snapshot_bytes n).2
| step_recover id n : node_step n (retry_rollback_issue clock id n).2
| step_mine a t k l n : node_step n (mine_block clock a t k l n).2
| step_flush n : node_step n (flush_to_storage n).2
| step_evict t n : node_step n (on_mempool (evict_by_policy t) n).2.

Lemma node_step_pool n n' : node_step n n' -> pool_wf n -> pool_wf n'.
Proof.
  intros [b m|tx m|m|h m|h c m|h m|m|id m|a t k l m|m|t m] Hm.
  - by apply apply_block_pool.
  - by apply (keeps_pool _ _ (keeps_submit tx)).
  - apply drain_pool. by apply (pool_upto_part _ _ m).
  - apply queue_request_pool. by apply (pool_upto_part _ _ m).
  - by apply stage_compact_pool.
  - by apply take_compact_pool.
  - refine (keeps_pool _ snapshot_bytes _ m Hm). unfold snapshot_bytes. keep.
  - refine (keeps_pool _ (retry_rollback_issue clock id) _ m Hm). unfold retry_rollback_issue.
    keep_with ltac:(apply keeps_retry).
  - assert (Hmine : st_preserves pool_wf (mine_block clock a t k l)); [|by apply Hmine].
    unfold mine_block. st_steps ltac:(first [apply apply_block_pool|apply keeps_pool, on_mempool_keeps; done]).
  - refine (keeps_pool _ flush_to_storage _ m Hm). unfold flush_to_storage. keep.
  - refine (keeps_pool _ (on_mempool (evict_by_policy t)) _ m Hm). by apply on_mempool_keeps.
Qed.

Lemma new_node_pool l env c accs n : try_with_genesis_accounts l env c accs = Ok n -> pool_wf n.
Proof.
  intros Hnew. unfold try_with_genesis_accounts in Hnew. apply bind_Ok in Hnew as (cc & _ & Hnew).
  destruct (index_chain _ _ _) as [r f]. apply bind_Ok in Hnew as ([] & _ & [= <-]).
  split_and!; [|split; cbn; try done; [constructor|intros h; split; [by intros []|by intros ?%elem_of_nil]..]
              |split; [apply bt_wf_empty|cbv; discriminate]].
  split; cbn; first [apply bt_wf_empty | done | cbv; discriminate].
Qed.

(** C5: along every history of a node, whatever blocks, transactions and peers' requests it is
    given and whichever operations fail: at most 1024 orphans are pooled, each under its hash
    and listed exactly once, under its parent; no listed child is missing from the pool; the
    queue of missing parents holds each hash once, with the set and the retry times tracking
    exactly the queue; and at most 64 compact blocks are staged. *)
Theorem node_pool_invariant l env c accs n0 n :
  try_with_genesis_accounts l env c accs = Ok n0 -> rtc node_step n0 n -> pool_wf n.
Proof.
  intros Hnew Hsteps. apply new_node_pool in Hnew.
  induction Hsteps; [done|]. by apply IHHsteps, (node_step_pool x).
Qed.
End orphans.
