(* ===== verification/NodeChain.v ===== *)
(** How blocks change the node's chain: rejected blocks change nothing, the active ledger only
    moves to executed states, start-up indexing ends, and what pending transactions do to a
    balance. *)
From Stdlib Require Import ZArith Lia.
From stdpp Require Import base numbers option strings list sets.
From S2P Require Import Prelude BTree PaqusCore Mempool Compact Recovery Lmdb Storage Cache Miner.
From S2P Require Import NodeState Node NodeOrphans.
Open Scope Z_scope.

Section chain.
Context `{PaqusTypes} `{!TxOps} `{!BlockOps} `{!LedgerOps} `{!EventOps} `{!ForkOps}.
Context `{!ConsensusOps} `{!GenesisOps} `{!Borsh} `{!Lmdb} `{!ErrorDisplay} `{!StorageDisplay}.
Context (clock : nat -> Z).
Implicit Types (n : Node) (b : Block).

(** ** Rejected blocks *)

(** Everything but the orphan pool, the request queue, the staged compact blocks and the
    failure counter. *)
Definition chain_part n :=
  (ledger n, mempool n, storage n, consensus n, cache n, fork_choice n, node_genesis_accounts n,
   snapshot_cache n, reorgs_total n).

Lemma prune_expired_chain t n : chain_part (prune_expired_orphans t n) = chain_part n /\
  block_validation_failures_total (prune_expired_orphans t n) = block_validation_failures_total n.
Proof.
  unfold prune_expired_orphans. generalize (omap (fun p : BlockHash * OrphanBlock =>
    if orphan_expired t n p.2 then Some p.1 else None) (bt_list (orphan_blocks n))).
  intros hs. revert n. induction hs as [|h hs IH]; intros n; cbn [fold_left]; [done|].
  specialize (IH (remove_orphan h n)). exact IH.
Qed.

(** The verdict of the two validation steps. *)
Definition verdict n b : Result NodeError (option Ledger) :=
  check_block_for_known_parent n b ;; validate_block_state_for_known_parent n b.
Lemma verdict_chain n n' b : chain_part n = chain_part n' -> verdict n b = verdict n' b.
Proof.
  unfold chain_part. intros [= E1 E2 E3 E4 E5 E6 E7 E8 E9].
  unfold verdict, check_block_for_known_parent, check_checkpoint, validate_block_state_for_known_parent,
    extends_active_tip, ledger_for_branch_tip.
  rewrite E1, E4, E6, E7. done.
Qed.

Lemma apply_known_rejected b n e :
  verdict n b = Err e ->
  apply_known_parent_block clock b n = (Err e, set_clock_reads (S (clock_reads n)) n).
Proof.
  intros Hv. unfold apply_known_parent_block, validate_block_for_known_parent.
  set (n1 := set_clock_reads (S (clock_reads n)) n).
  assert (Hv1 : verdict n1 b = Err e) by (by rewrite (verdict_chain n1 n)).
  unfold verdict in Hv1. apply bind_Err in Hv1 as [Hc|([] & Hc & Hs)].
  - apply st_bind_err. rewrite (st_bind_ok _ _ _ _ _ (eq_refl : current_unix_timestamp clock n = (Ok _, n1))).
    rewrite st_bind_get. by rewrite Hc.
  - rewrite (st_bind_ok _ _ _ tt n1).
    + rewrite st_bind_get, Hs. by st_simpl.
    + rewrite (st_bind_ok _ _ _ _ _ (eq_refl : current_unix_timestamp clock n = (Ok _, n1))), st_bind_get.
      by rewrite Hc.
Qed.

(** The errors [apply_block] does not report: the block is an orphan or already known. *)
Definition absorbed (e : NodeError) : bool :=
  match e with
  | NodeForkChoice MissingParent | NodeForkChoice ForkDuplicateBlock
  | NodeLedger LedgerDuplicateBlock => true
  | _ => false
  end.

Definition counted_part n := (chain_part n, block_validation_failures_total n).
Lemma cache_orphan_counted b : st_keeps counted_part (cache_orphan_block clock b).
Proof.
  assert (Hevict : forall n, counted_part (evict_orphan_for_capacity n) = counted_part n).
  { intros n. unfold evict_orphan_for_capacity. destruct (_ <=? _); [|done]. by destruct (bt_first_key _). }
  assert (Hqueue : forall h t n, counted_part (queue_missing_parent_request_at h t n) = counted_part n).
  { intros h t n. unfold queue_missing_parent_request_at. destruct (fork_contains _ _); [done|].
    by destruct (bt_contains _ _). }
  unfold cache_orphan_block, queue_missing_parent_request.
  keep_with ltac:(apply st_preserves_modify; intros ? <-; first [apply Hevict | apply Hqueue |
    unfold counted_part; match goal with |- context [prune_expired_orphans ?t ?n] =>
      by destruct (prune_expired_chain t n) as [-> ->] end]).
Qed.

(** C26: a block that fails validation changes nothing of the chain: the ledger, the pool, the
    store, the cache and the fork graph are as before. A failure is reported and counted; a
    block that is already known, or whose parent is not (it is pooled as an orphan), is no
    failure. *)
Theorem rejected_block_changes_nothing b n e r n' :
  verdict n b = Err e -> apply_block clock b n = (r, n') ->
  chain_part n' = chain_part n /\
  (absorbed e = true -> (is_ok (block_hash b) = true -> r = Ok tt) /\
     block_validation_failures_total n' = block_validation_failures_total n) /\
  (absorbed e = false -> r = Err e /\
     block_validation_failures_total n' = u64_add (block_validation_failures_total n) 1).
Proof.
  intros Hv. unfold apply_block.
  rewrite (st_bind_ok _ _ _ _ _ (eq_refl : current_unix_timestamp clock n = _)), st_bind_modify.
  destruct (prune_expired_chain (clock (clock_reads n)) (set_clock_reads (S (clock_reads n)) n)) as [Hp Hf].
  set (n1 := prune_expired_orphans _ _) in *. change (chain_part (set_clock_reads _ n)) with (chain_part n) in Hp.
  change (block_validation_failures_total (set_clock_reads _ n)) with (block_validation_failures_total n) in Hf.
  rewrite <- (verdict_chain _ _ b Hp) in Hv. pose proof (apply_known_rejected b n1 e Hv) as Hrun.
  unfold st_try at 1. unfold mbind at 1, st_bind at 1. rewrite Hrun. cbn [fst snd].
  destruct e as [| |[]|[]| | | | | | | | | | | | | | | | | | |]; cbn [absorbed] in *;
    try (intros [= <- <-]; split_and!; [exact Hp|done|by intros _; rewrite <- Hf]);
    try (intros [= <- <-]; split_and!; [exact Hp|by intros _; rewrite <- Hf|done]).
  set (n2 := set_clock_reads _ n1). intros Hc.
  pose proof (st_keeps_eq _ _ n2 (cache_orphan_counted b)) as Hkeep. rewrite Hc in Hkeep. cbn [snd] in Hkeep.
  pose proof (f_equal snd Hkeep) as Hkf. apply (f_equal fst) in Hkeep. cbn [counted_part fst snd] in Hkeep, Hkf.
  split_and!; [|intros _; split|done].
  - by rewrite Hkeep.
  - intros Hh. destruct (block_hash b) as [h|] eqn:E; [|done].
    destruct (cache_orphan_ok clock b h n2 E) as [Hok _]. by rewrite Hc in Hok.
  - rewrite Hkf. exact Hf.
Qed.

(** ** The active ledger *)

Lemma ledger_submit tx : st_keeps ledger (submit_protocol_transaction clock tx).
Proof. unfold submit_protocol_transaction. keep. Qed.
Lemma ledger_prune_finalized : st_keeps ledger prune_finalized_forks.
Proof. unfold prune_finalized_forks. keep. Qed.
Lemma ledger_retry i v : st_keeps ledger (retry_rollback_issue_record clock i v).
Proof. unfold retry_rollback_issue_record. keep_with ltac:(apply ledger_submit). Qed.
Lemma ledger_mark b : st_keeps ledger (mark_rollback_issues_reconfirmed b).
Proof. unfold mark_rollback_issues_reconfirmed. keep. Qed.
Lemma ledger_recover hs c b : st_keeps ledger (recover_block clock hs c b).
Proof. unfold recover_block, recover_transaction. keep_with ltac:(apply ledger_retry). Qed.

Lemma extend_active_ledger b l n : ledger (extend_active_tip b (Some l) n).2 = l.
Proof.
  unfold extend_active_tip. cbn [ok_or]. rewrite st_bind_lift_ok, st_bind_modify.
  match goal with |- ledger (?m ?n1).2 = l =>
    enough (Hk : st_preserves (fun n => ledger n = l) m) by (by apply (Hk n1)) end.
  st_steps ltac:(first
    [ apply on_storage_keeps; done | apply on_mempool_keeps; done
    | apply on_fork_choice_keeps; done | apply on_cache_keeps; done
    | apply st_preserves_modify; by intros ? <- | apply ledger_mark | apply ledger_prune_finalized ]).
Qed.

(** A replayed branch: the ledger [l] is the one the branch to the best tip leads to, and the
    fork point is not final. *)
Definition replayed n l : Prop :=
  exists best ancestor, fork_best_tip (fork_choice n) = Some best /\
    node_common_ancestor n (ledger_tip_hash (ledger n)) (fork_hash best) = Some ancestor /\
    reorg_crosses_finality_boundary (ledger n) (fork_choice n) ancestor = false /\
    ledger_for_branch_tip n (fork_hash best) = Ok l.

Lemma reorg_ledger n r n' :
  reorg_to_best_tip clock n = (r, n') -> ledger n' = ledger n \/ replayed n (ledger n').
Proof.
  unfold reorg_to_best_tip. rewrite st_bind_get. intros Hr.
  destruct (fork_best_tip (fork_choice n)) as [best|] eqn:Hb; cbn [ok_or] in Hr; st_simpl_in Hr;
    [|injection Hr as _ <-; by left].
  destruct (node_common_ancestor n _ _) as [ancestor|] eqn:Ha; cbn [ok_or] in Hr; st_simpl_in Hr;
    [|injection Hr as _ <-; by left].
  destruct (reorg_crosses_finality_boundary _ _ _) eqn:Hf; [injection Hr as _ <-; by left|].
  destruct (branch_from_ancestor _ _ _) as [branch|]; cbn [ok_or] in Hr; st_simpl_in Hr; [|injection Hr as _ <-; by left].
  destruct (ledger_tip_hash (ledger n)) as [tip|] eqn:Ht; cbn [ok_or] in Hr; st_simpl_in Hr;
    [|injection Hr as _ <-; by left].
  destruct (headers_to_tip n tip) as [losing|]; st_simpl_in Hr; [|injection Hr as _ <-; by left].
  destruct (headers_to_tip n (fork_hash best)) as [canonical|]; st_simpl_in Hr; [|injection Hr as _ <-; by left].
  unfold lift_codec in Hr. destruct (RollbackProofContext_new losing canonical ancestor) as [context|];
    cbn [map_err] in Hr; st_simpl_in Hr; [|injection Hr as _ <-; by left].
  apply st_bind_inv in Hr as [(e & Hs & _)|([] & n1 & Hs & Hr)];
    (assert (Hn1 : exists env, set_storage env n = _) by
       (unfold on_storage in Hs; destruct (save_rollback_proof_context context (storage n)) as [r1 env];
        injection Hs as _ Hs; exists env; exact Hs)); destruct Hn1 as [env <-]; [by left|].
  rewrite st_bind_get in Hr. change (ledger_for_branch_tip (set_storage env n) (fork_hash best))
    with (ledger_for_branch_tip n (fork_hash best)) in Hr.
  destruct (ledger_for_branch_tip n (fork_hash best)) as [l|] eqn:Hl; st_simpl_in Hr; [|injection Hr as _ <-; by left].
  right. exists best, ancestor. rewrite Ht. split_and!; [done..|]. rewrite Hl. f_equal.
  match type of Hr with ?m ?n1 = _ =>
    assert (Hk : st_preserves (fun n => ledger n = l) m); [|specialize (Hk n1); rewrite Hr in Hk; symmetry; by apply Hk] end.
  st_steps ltac:(first
    [ apply on_storage_keeps; done | apply st_preserves_modify; by intros ? <-
    | apply ledger_recover | apply ledger_prune_finalized ]).
Qed.

(** C4: the active ledger only ever moves to an executed, validated state. When a block changes
    it, the block was validated, its state root is the one the protocol computes, and either the
    block extends the active tip and the new ledger is the old one after executing it, or the
    block made its branch the best one, the fork point is not final, and the new ledger is the
    replay of that branch from genesis. *)
Theorem active_ledger_validated b n r n' :
  apply_known_parent_block clock b n = (r, n') ->
  ledger n' = ledger n \/
  check_block_for_known_parent n b = Ok tt /\
  ((extends_active_tip n b = true /\ validate_canonical_state_root (ledger n) b = Ok tt /\
    exists root, ledger_execute_block (ledger n) b = Ok (ledger n', root)) \/
   (extends_active_tip n b = false /\ exists hash fork parent_ledger,
      ledger_for_branch_tip n (block_previous_hash b) = Ok parent_ledger /\
      validate_canonical_state_root parent_ledger b = Ok tt /\
      fork_insert_block b (fork_choice n) = (Ok hash, fork) /\
      fork_hash <$> fork_best_tip fork = Some hash /\
      replayed (set_fork_choice fork n) (ledger n'))).
Proof.
  unfold apply_known_parent_block, validate_block_for_known_parent. intros Hr.
  set (n1 := set_clock_reads (S (clock_reads n)) n) in *.
  apply st_bind_inv in Hr as [(e & Hc & _)|([] & n1' & Hc & Hr)];
    rewrite (st_bind_ok _ _ _ _ _ (eq_refl : current_unix_timestamp clock n = (Ok _, n1))), st_bind_get in Hc;
    injection Hc as Hc <-; [by left|].
  change (check_block_for_known_parent n1 b) with (check_block_for_known_parent n b) in Hc.
  rewrite st_bind_get in Hr.
  destruct (validate_block_state_for_known_parent n1 b) as [staged|] eqn:Hv; st_simpl_in Hr;
    [|injection Hr as _ <-; by left].
  apply st_bind_inv in Hr as [(e & Hi & _)|(hash & n2 & Hi & Hr)]; unfold on_fork_choice in Hi;
    change (fork_choice n1) with (fork_choice n) in Hi;
    destruct (fork_insert_block b (fork_choice n)) as [[hash'|] fork] eqn:Hins; try discriminate Hi;
    injection Hi as ? <-; [by left|]. subst hash'.
  rewrite st_bind_get in Hr. cbn [fork_choice set_fork_choice] in Hr.
  destruct (bool_decide _) eqn:Hbest; cbn [negb] in Hr.
  2:{ left. pose proof (on_storage_keeps ledger (save_side_block b) (fun _ _ => eq_refl) (ledger n)
        (set_fork_choice fork n1) eq_refl) as Hk. by rewrite Hr in Hk. }
  apply bool_decide_eq_true in Hbest.
  change (extends_active_tip (set_fork_choice fork n1) b) with (extends_active_tip n b) in Hr.
  unfold validate_block_state_for_known_parent in Hv. change (extends_active_tip n1 b) with (extends_active_tip n b) in Hv.
  destruct (extends_active_tip n b) eqn:Hext; cbn [negb] in Hr.
  - right. split; [done|]. left. split; [done|]. change (ledger n1) with (ledger n) in Hv.
    apply bind_Ok in Hv as ([] & Hroot & Hv). apply bind_Ok in Hv as ([l root] & Hex & [= <-]).
    apply map_err_Ok in Hex. split; [done|]. exists root. rewrite Hex. do 2 f_equal.
    pose proof (extend_active_ledger b l (set_fork_choice fork n1)) as Hl. cbn [fst] in Hr. rewrite Hr in Hl. by cbn in Hl.
  - apply bind_Ok in Hv as (pl & Hpl & Hv). apply bind_Ok in Hv as ([] & Hroot & _).
    destruct (reorg_ledger _ _ _ Hr) as [?|Hrep]; [by left|]. right. split; [done|]. right. split; [done|].
    exists hash, fork, pl. done.
Qed.

(** ** Start-up indexing *)

Lemma index_pass_shrinks blocks progressed remaining n p rem n' :
  index_pass blocks progressed remaining n = (Ok (p, rem), n') ->
  (length rem <= length remaining + length blocks)%nat /\
  (p = true -> progressed = true \/ (length rem < length remaining + length blocks)%nat).
Proof.
  revert progressed remaining n. induction blocks as [|b blocks IH]; intros progressed remaining n;
    cbn [index_pass length].
  { intros [= <- <- <-]. split; [lia|by left]. }
  intros Hr. apply st_bind_inv in Hr as [(e & _ & [=])|(hash & n1 & _ & Hr)]. rewrite st_bind_get in Hr.
  destruct (fork_contains _ _).
  { apply IH in Hr as [? ?]. split; [lia|]. right. lia. }
  apply st_bind_inv in Hr as [(e & _ & [=])|(r & n2 & _ & Hr)].
  destruct r as [h|e].
  { apply IH in Hr as [? ?]. split; [lia|]. right. lia. }
  destruct e as [| |[]| | | | | | | | | | | | | | | | | | | |]; try discriminate Hr.
  apply IH in Hr as [? Hp]. rewrite length_app in *. cbn [length] in *. split; [lia|].
  intros Ht. destruct (Hp Ht); [by left|right; lia].
Qed.

Lemma index_loop_more fuel fuel' blocks n :
  (length blocks < fuel)%nat -> (fuel <= fuel')%nat ->
  index_loop fuel' blocks n = index_loop fuel blocks n.
Proof.
  revert fuel' blocks n. induction fuel as [|fuel IH]; intros [|fuel'] blocks n Hlen Hle; try lia.
  cbn [index_loop]. unfold mbind, st_bind. destruct (index_pass blocks false [] n) as [[[p rem]|e] n1] eqn:Hp; [|done].
  destruct p; cbn [fst snd]; [|done]. apply index_pass_shrinks in Hp as [? Hlt]. cbn [length] in Hlt.
  destruct (Hlt eq_refl) as [[=]|]. apply IH; lia.
Qed.

(** indexing the stored blocks at start-up ends: every pass but the last indexes or skips at
    least one of the blocks left, so one pass more than there are blocks completes the loop, and
    allowing any number of passes more gives the same result. *)
Theorem startup_indexing_terminates blocks n extra :
  index_loop (S (length blocks) + extra) blocks n = index_loop (S (length blocks)) blocks n.
Proof. apply index_loop_more; lia. Qed.

(** ** Pending balances *)

(** What a pooled transaction pays to an address and takes from it. *)
Definition pays (a : Address) (tx : SignedProtocolTransaction) : Z :=
  match tx with
  | BatchTransfer t => foldr (fun o acc =>
      (if bool_decide (target_address (to o) = Some a) then amount o else 0) + acc) 0 (batch_outputs t)
  | QCash _ => 0
  end.
Definition takes (a : Address) (tx : SignedProtocolTransaction) : Z :=
  match tx with
  | BatchTransfer t => if bool_decide (batch_from t = a)
      then unwrap_or U64_MAX (result_ok (batch_total_amount t)) else 0
  | QCash t => match qcash_kind t with
      | Withdraw amount => if bool_decide (qcash_signer t = a) then amount else 0
      | _ => 0
      end
  end.
Definition pool_total (f : SignedProtocolTransaction -> Z) (txs : list SignedProtocolTransaction) : Z :=
  foldr (fun tx acc => f tx + acc) 0 txs.

(** The amounts of a transaction are amounts. *)
Definition amounts_ok (tx : SignedProtocolTransaction) : Prop :=
  match tx with
  | BatchTransfer t => Forall (fun o => 0 <= amount o) (batch_outputs t) /\
      forall v, batch_total_amount t = Ok v -> 0 <= v
  | QCash t => forall v, qcash_kind t = Withdraw v -> 0 <= v
  end.

Lemma credit_outputs_exact a outs p :
  Forall (fun o => 0 <= amount o) outs -> 0 <= incoming p ->
  fold_left (credit_output a) outs {| incoming := Z.min (incoming p) U64_MAX; outgoing := outgoing p |} =
  {| incoming := Z.min (incoming p + foldr (fun o acc =>
       (if bool_decide (target_address (to o) = Some a) then amount o else 0) + acc) 0 outs) U64_MAX;
     outgoing := outgoing p |}.
Proof.
  intros Hall. revert p. induction Hall as [|o outs Ho Hall IH]; intros p Hp; cbn [fold_left foldr].
  { by rewrite Z.add_0_r. }
  unfold credit_output at 2. case_bool_decide; cbn [incoming outgoing].
  - unfold u64_add, saturating_add.
    specialize (IH {| incoming := incoming p + amount o; outgoing := outgoing p |}). cbn [incoming outgoing] in IH.
    replace (Z.min (Z.min (incoming p) U64_MAX + amount o) U64_MAX) with (Z.min (incoming p + amount o) U64_MAX) by lia.
    rewrite IH by lia. f_equal. lia.
  - rewrite IH by done. f_equal.
Qed.
Lemma credits_nonneg a outs : Forall (fun o => 0 <= amount o) outs ->
  0 <= foldr (fun o acc =>
       (if bool_decide (target_address (to o) = Some a) then amount o else 0) + acc) 0 outs.
Proof. induction 1; cbn; [lia|]. destruct (bool_decide _); lia. Qed.
Lemma pays_takes_nonneg a tx : amounts_ok tx -> 0 <= pays a tx /\ 0 <= takes a tx.
Proof.
  destruct tx as [t|t]; cbn.
  - intros [Ho Ht]. split; [by apply credits_nonneg|]. destruct (bool_decide _); [|lia].
    destruct (batch_total_amount t) as [v|]; cbn; [by apply Ht|done].
  - intros Hw. split; [lia|]. destruct (qcash_kind t) as [v| |]; [|lia..]. destruct (bool_decide _); [|lia]. by apply Hw.
Qed.

Lemma pending_step_exact a tx i o :
  amounts_ok tx -> 0 <= i -> 0 <= o ->
  pending_step a {| incoming := Z.min i U64_MAX; outgoing := Z.min o U64_MAX |} tx =
  {| incoming := Z.min (i + pays a tx) U64_MAX; outgoing := Z.min (o + takes a tx) U64_MAX |}.
Proof.
  intros Htx Hi Ho. pose proof (pays_takes_nonneg a tx Htx) as [_ Htk]. destruct tx as [t|t]; cbn in *.
  - rewrite (credit_outputs_exact a (batch_outputs t) {| incoming := i; outgoing := Z.min o U64_MAX |})
      by (cbn; naive_solver). cbn [incoming outgoing].
    destruct (bool_decide _); unfold u64_add, saturating_add; f_equal; lia.
  - destruct (qcash_kind t) as [v| |]; [|f_equal; lia..].
    destruct (bool_decide _); unfold u64_add, saturating_add; cbn [incoming outgoing]; f_equal; lia.
Qed.

(** the pending amounts reported for an address are exact up to the largest amount: what the
    pooled transactions pay to it and take from it, and what is then reported as spendable is
    the available balance less the pending outgoing amount, never negative. *)
Theorem pending_balance_exact n a :
  Forall amounts_ok (pool_transactions (mempool n)) ->
  pending_balance n a =
    {| incoming := Z.min (pool_total (pays a) (pool_transactions (mempool n))) U64_MAX;
       outgoing := Z.min (pool_total (takes a) (pool_transactions (mempool n))) U64_MAX |} /\
  forall d, draft_basis n a = Some d ->
    spendable_after_pending d = Z.max 0 (draft_available_balance d - pending_outgoing d) /\
    0 <= pending_outgoing d <= U64_MAX.
Proof.
  intros Hall. assert (Hfold : forall txs i o, Forall amounts_ok txs -> 0 <= i -> 0 <= o ->
    fold_left (pending_step a) txs {| incoming := Z.min i U64_MAX; outgoing := Z.min o U64_MAX |} =
    {| incoming := Z.min (i + pool_total (pays a) txs) U64_MAX;
       outgoing := Z.min (o + pool_total (takes a) txs) U64_MAX |} /\ 0 <= pool_total (takes a) txs).
  { intros txs i o Htxs. revert i o. induction Htxs as [|tx txs Htx Htxs IH]; intros i o Hi Ho; cbn [fold_left pool_total foldr].
    { split; [f_equal; lia|lia]. }
    pose proof (pays_takes_nonneg a tx Htx) as [? ?]. rewrite pending_step_exact by done.
    fold (pool_total (pays a) txs). fold (pool_total (takes a) txs).
    destruct (IH (i + pays a tx) (o + takes a tx)) as [-> ?]; [lia..|]. split; [f_equal; lia|lia]. }
  destruct (Hfold (pool_transactions (mempool n)) 0 0 Hall) as [Hp Hnn]; [lia..|].
  change {| incoming := Z.min 0 U64_MAX; outgoing := Z.min 0 U64_MAX |} with pending_default in Hp.
  fold (pending_balance n a) in Hp. rewrite !Z.add_0_l in Hp. split; [done|].
  intros d. unfold draft_basis. rewrite Hp.
  destruct (ledger_account _ _); [|done]. destruct (ledger_tip_height _); [|done]. intros [= <-].
  cbn [spendable_after_pending draft_available_balance pending_outgoing outgoing].
  unfold u64_sub, saturating_sub. split; [done|]. unfold U64_MAX. lia.
Qed.
End chain.
