(* ===== verification/NodeMempool.v ===== *)
(** The node's use of its mempool: every operation of the node, and every sequence of them,
    keeps the mempool's invariant. *)
From Stdlib Require Import ZArith Lia.
From stdpp Require Import base numbers option strings list sets relations.
From S2P Require Import Prelude BTree PaqusCore Mempool MempoolInv Compact Recovery Lmdb Storage Cache.
From S2P Require Import Miner NodeState Node NodeOrphans NodeChain.
Open Scope Z_scope.

Section node_mempool.
Context `{PaqusTypes} `{!TxOps} `{!BlockOps} `{!LedgerOps} `{!EventOps} `{!ForkOps}.
Context `{!ConsensusOps} `{!GenesisOps} `{!Borsh} `{!Lmdb} `{!ErrorDisplay} `{!StorageDisplay}.
Context (clock : nat -> Z).
Implicit Types (n : Node) (b : Block).

Definition mempool_lawful n : Prop := mempool_wf (mempool n).

Lemma keeps_lawful {A} (m : ST Node NodeError A) : st_keeps mempool m -> st_preserves mempool_lawful m.
Proof. apply st_keeps_preserves. unfold mempool_lawful. by intros ?? ->. Qed.
Lemma on_mempool_lawful {A} (m : ST Mempool MempoolError A) :
  st_preserves mempool_wf m -> st_preserves mempool_lawful (on_mempool m).
Proof.
  intros Hm n Hn. unfold on_mempool, mempool_lawful. specialize (Hm (mempool n) Hn).
  by destruct (m (mempool n)).
Qed.
Lemma modify_lawful (f : Node -> Node) :
  (forall n, mempool (f n) = mempool n) -> st_preserves (E := NodeError) mempool_lawful (st_modify f).
Proof. intros Hf n. unfold mempool_lawful. cbn. by rewrite Hf. Qed.

(** Calls on other parts keep the mempool; [tac] covers the calls on the mempool. *)
Ltac lawful_with tac :=
  st_steps ltac:(first
    [ tac
    | apply keeps_lawful, on_storage_keeps; done | apply keeps_lawful, on_fork_choice_keeps; done
    | apply keeps_lawful, on_cache_keeps; done | apply keeps_lawful, now_keeps; done
    | apply modify_lawful; done
    | progress unfold read_storage, lift_codec ]).

Lemma submit_lawful tx : st_preserves mempool_lawful (submit_protocol_transaction clock tx).
Proof.
  unfold submit_protocol_transaction.
  lawful_with ltac:(apply on_mempool_lawful; intros ?; apply insert_validated_wf).
Qed.
Lemma retry_lawful i v : st_preserves mempool_lawful (retry_rollback_issue_record clock i v).
Proof. unfold retry_rollback_issue_record. lawful_with ltac:(apply submit_lawful). Qed.
Lemma prune_finalized_lawful : st_preserves mempool_lawful prune_finalized_forks.
Proof. unfold prune_finalized_forks. lawful_with fail. Qed.
Lemma reorg_lawful : st_preserves mempool_lawful (reorg_to_best_tip clock).
Proof.
  unfold reorg_to_best_tip, recover_block, recover_transaction.
  lawful_with ltac:(first [apply retry_lawful|apply prune_finalized_lawful]).
Qed.
Lemma apply_known_lawful b : st_preserves mempool_lawful (apply_known_parent_block clock b).
Proof.
  unfold apply_known_parent_block, validate_block_for_known_parent, extend_active_tip,
    mark_rollback_issues_reconfirmed.
  lawful_with ltac:(first [apply reorg_lawful|apply prune_finalized_lawful
    |apply on_mempool_lawful; intros ?; apply remove_confirmed_wf]).
Qed.

Lemma prune_expired_lawful t : st_preserves (E := NodeError) mempool_lawful (st_modify (prune_expired_orphans t)).
Proof.
  apply modify_lawful. intros n. destruct (prune_expired_chain t n) as [E _].
  unfold chain_part in E. congruence.
Qed.
Lemma cache_orphan_lawful b : st_preserves mempool_lawful (cache_orphan_block clock b).
Proof.
  refine (st_keeps_preserves counted_part _ _ _ (cache_orphan_counted clock b)).
  unfold counted_part, chain_part, mempool_lawful. intros ?? [= ? -> ????????]. done.
Qed.
Lemma process_children_lawful children parents :
  st_preserves mempool_lawful (process_children clock children parents).
Proof.
  revert parents. induction children as [|h children IH]; intros parents; cbn [process_children].
  all: lawful_with ltac:(first [apply IH|apply apply_known_lawful|apply cache_orphan_lawful]).
Qed.
Lemma process_parents_lawful fuel parents :
  st_preserves mempool_lawful (process_parents clock fuel parents).
Proof.
  revert parents. induction fuel as [|fuel IH]; intros [|p parents]; cbn [process_parents].
  all: lawful_with ltac:(first [apply IH|apply process_children_lawful]).
Qed.
Lemma apply_block_lawful b : st_preserves mempool_lawful (apply_block clock b).
Proof.
  unfold apply_block, process_orphans_for_parent.
  lawful_with ltac:(first [apply prune_expired_lawful|apply apply_known_lawful|apply cache_orphan_lawful
    |apply process_parents_lawful]).
Qed.

Lemma queue_request_mempool h t n : mempool (queue_missing_parent_request_at h t n) = mempool n.
Proof.
  unfold queue_missing_parent_request_at. destruct (fork_contains _ _); [done|]. by destruct (bt_contains _ _).
Qed.
Lemma drain_loop_mempool queue t n ready pending : mempool (drain_loop queue t n ready pending).2 = mempool n.
Proof.
  revert n ready pending. induction queue as [|h queue IH]; intros n ready pending; cbn [drain_loop]; [done|].
  destruct (_ <=? t); by rewrite IH.
Qed.

Lemma node_step_lawful n n' : node_step clock n n' -> mempool_lawful n -> mempool_lawful n'.
Proof.
  intros [b m|tx m|m|h m|h c m|h m|m|id m|a t k l m|m|t m].
  - apply apply_block_lawful.
  - apply submit_lawful.
  - unfold mempool_lawful. intros Hm. unfold drain_missing_parent_requests.
    rewrite (st_bind_ok _ _ _ _ _ (eq_refl : current_unix_timestamp clock m = (Ok _, _))).
    unfold st_step, drain_missing_parent_requests_at. set (m1 := set_clock_reads _ m).
    pose proof (drain_loop_mempool (missing_parent_requests m1) (clock (clock_reads m)) m1 [] []) as E.
    destruct (drain_loop _ _ _ _ _) as [[ready pending] m']. cbn in *. by rewrite E.
  - unfold mempool_lawful, retry_missing_parent_request.
    rewrite (st_bind_ok _ _ _ _ _ (eq_refl : current_unix_timestamp clock m = (Ok _, _))).
    unfold st_modify, snd at 1. by rewrite queue_request_mempool.
  - done.
  - done.
  - intros Hm. revert m Hm. change (st_preserves mempool_lawful snapshot_bytes).
    unfold snapshot_bytes. lawful_with fail.
  - intros Hm. revert m Hm. change (st_preserves mempool_lawful (retry_rollback_issue clock id)).
    unfold retry_rollback_issue. lawful_with ltac:(apply retry_lawful).
  - intros Hm. revert m Hm. change (st_preserves mempool_lawful (mine_block clock a t k l)).
    unfold mine_block. lawful_with ltac:(first [apply apply_block_lawful
      |apply on_mempool_lawful; intros ?; apply evict_by_policy_wf]).
  - intros Hm. revert m Hm. change (st_preserves mempool_lawful flush_to_storage).
    unfold flush_to_storage. lawful_with fail.
  - intros Hm. apply on_mempool_lawful; [intros ?; apply evict_by_policy_wf|done].
Qed.
Lemma new_node_lawful l env c accs n : try_with_genesis_accounts l env c accs = Ok n -> mempool_lawful n.
Proof.
  intros Hnew. unfold try_with_genesis_accounts in Hnew. apply bind_Ok in Hnew as (cc & _ & Hnew).
  destruct (index_chain _ _ _) as [r f]. apply bind_Ok in Hnew as ([] & _ & [= <-]).
  apply with_config_wf. cbv. repeat split; discriminate.
Qed.
End node_mempool.
