(* ===== verification/NodeRecovery.v ===== *)
(** Reorganisations lose no transaction: every transaction of an abandoned block ends up on the
    new chain or in a rollback record, and the record's proof bundle shows the fork. *)
From Stdlib Require Import ZArith Lia.
From stdpp Require Import base numbers option strings list sets.
From S2P Require Import Prelude BTree PaqusCore Mempool Compact Recovery Lmdb Storage StorageLogic.
From S2P Require Import StorageSpec StorageState Cache Miner NodeState Node NodeChain.
Open Scope Z_scope.

Section recovery.
Context `{PaqusTypes} `{!TxOps} `{!BlockOps} `{!LedgerOps} `{!EventOps} `{!ForkOps}.
Context `{!ConsensusOps} `{!GenesisOps} `{!Borsh} `{!BorshLaws} `{!Lmdb} `{!LmdbModel}.
Context `{!ErrorDisplay} `{!StorageDisplay} (clock : nat -> Z).
Implicit Types (n : Node) (b : Block) (id : RollbackIssueId) (i : RollbackIssue).

(** The record of a transaction has been dealt with: it is on the chain of [l] where the record
    says, or it is not on that chain and was offered to the pool again. *)
Definition settled_status (l : Ledger) i : Prop :=
  match status i with
  | Detected => False
  | Reconfirmed height hash =>
      find_in_chain (issue_transaction_hash i) (bt_values (chain_blocks l)) = Ok (Some (height, hash))
  | Requeued | Conflict =>
      find_in_chain (issue_transaction_hash i) (bt_values (chain_blocks l)) = Ok None
  end.
Definition settled (l : Ledger) (env : LmdbEnv) id : Prop :=
  exists i, issue_at env id i /\ settled_status l i.

(** ** Steps keep settled records *)

Lemma issue_at_view env env' id i :
  env_view env' rollback_issues id = env_view env rollback_issues id -> issue_at env id i -> issue_at env' id i.
Proof. intros Hv (raw & ? & ? & ?). exists raw. by rewrite Hv. Qed.

Lemma save_settled l i env r env' id :
  save_rollback_issue i env = (r, env') ->
  (r = Ok tt -> id = issue_id i -> settled_status l i) ->
  settled l env id -> settled l env' id.
Proof.
  intros Hs Hi (j & Hj & Hst). destruct r as [[]|e].
  - apply save_issue_at in Hs as [Hat Hother]. destruct (decide (id = issue_id i)) as [->|Hne].
    + exists i. split; [done|]. by apply Hi.
    + exists j. split; [|done]. apply (issue_at_view env); [|done]. apply Hother. by right.
  - apply save_issue_err in Hs. exists j. split; [|done]. apply (issue_at_view env); [|done]. apply Hs.
Qed.

Lemma on_storage_run {A} (m : ST LmdbEnv StorageError A) n r n' :
  on_storage m n = (r, n') ->
  exists r0 env, m (storage n) = (r0, env) /\ r = map_err NodeStorage r0 /\ n' = set_storage env n.
Proof. unfold on_storage. destruct (m (storage n)) as [r0 env]. intros [= <- <-]. eauto. Qed.

Lemma read_storage_run {A} (f : LmdbEnv -> Result StorageError A) n r n' :
  read_storage f n = (r, n') -> n' = n /\ r = map_err NodeStorage (f (storage n)).
Proof. by intros [= <- <-]. Qed.

Lemma storage_submit tx : st_keeps storage (submit_protocol_transaction clock tx).
Proof. unfold submit_protocol_transaction. keep. Qed.
Lemma storage_prune_finalized : st_keeps storage prune_finalized_forks.
Proof. unfold prune_finalized_forks. keep. Qed.

(** [set_status] and [count_attempt] keep what identifies the record. *)
Lemma resubmitted_id r i :
  issue_id (resubmitted r (count_attempt i)) = issue_id i /\
  issue_transaction_hash (resubmitted r (count_attempt i)) = issue_transaction_hash i /\
  (status (resubmitted r (count_attempt i)) = Requeued \/ status (resubmitted r (count_attempt i)) = Conflict).
Proof.
  destruct r as [h|e]; [cbn; auto|].
  destruct e as [| | | |[]| | | | | | | | | | | | | | | | | |]; cbn; auto.
Qed.

Lemma retry_settles i n r n' :
  retry_rollback_issue_record clock i false n = (r, n') ->
  (is_ok r = true -> settled (ledger n) (storage n') (issue_id i)) /\
  (forall id, settled (ledger n) (storage n) id -> settled (ledger n) (storage n') id).
Proof.
  unfold retry_rollback_issue_record. rewrite st_bind_get, st_bind_ret. intros Hr.
  unfold canonical_transaction_location in Hr. change (issue_transaction_hash (count_attempt i)) with (issue_transaction_hash i) in Hr.
  destruct (find_in_chain _ _) as [location|e] eqn:Hloc; st_simpl_in Hr; [|by injection Hr as <- <-].
  assert (Hsave : forall j m, issue_id j = issue_id i -> settled_status (ledger n) j -> storage m = storage n ->
    ((on_storage (save_rollback_issue j) ;; mret j) m = (r, n')) ->
    (is_ok r = true -> settled (ledger n) (storage n') (issue_id i)) /\
    (forall id, settled (ledger n) (storage n) id -> settled (ledger n) (storage n') id)).
  { intros j m Hid Hj Hm Hrun.
    assert (Hs : exists r0, save_rollback_issue j (storage n) = (r0, storage n') /\ is_ok r = is_ok r0).
    { apply st_bind_inv in Hrun as [(e & Hs & ->)|([] & n1 & Hs & Hrun)];
        apply on_storage_run in Hs as (r0 & env & Hs & Hr0 & ->); rewrite Hm in Hs.
      - exists r0. split; [done|]. by destruct r0.
      - injection Hrun as <- <-. exists r0. split; [done|]. by destruct r0. }
    destruct Hs as (r0 & Hs & ->). split.
    - intros Hok. destruct r0 as [[]|]; [|done]. rewrite <- Hid. exists j. split; [|done].
      by apply (save_issue_at j (storage n)).
    - intros id. apply (save_settled _ _ _ _ _ _ Hs). auto. }
  destruct location as [[height hash]|].
  - by apply (Hsave (set_status (Reconfirmed height hash) None (count_attempt i)) n).
  - apply st_bind_inv in Hr as [(e & [=] & _)|(r1 & n1 & Hsub & Hr)].
    destruct (resubmitted_id r1 i) as (Hid & Hhash & Hst).
    apply (Hsave (resubmitted r1 (count_attempt i)) n1); [done| |  |done].
    + unfold settled_status. rewrite Hhash. by destruct Hst as [-> | ->].
    + injection Hsub as _ <-. by apply st_keeps_eq, storage_submit.
Qed.

(** One abandoned transaction: its record exists and is settled. *)
Lemma recover_transaction_settles b hash context k tx n r n' th id :
  recover_transaction clock b hash context (k, tx) n = (r, n') ->
  tx_hash tx = Ok th -> issue_id_for_transaction hash th = Ok id ->
  ledger n' = ledger n /\ (is_ok r = true -> settled (ledger n) (storage n') id) /\
  (forall id', settled (ledger n) (storage n) id' -> settled (ledger n) (storage n') id').
Proof.
  intros Hr Hth Hid. split.
  { assert (Hk : st_keeps ledger (recover_transaction clock b hash context (k, tx))).
    { unfold recover_transaction. keep_with ltac:(apply ledger_retry). }
    pose proof (st_keeps_eq _ _ n Hk) as E. by rewrite Hr in E. }
  revert Hr. unfold recover_transaction. cbn [fst snd]. intros Hr.
  destruct (U32_MAX <? _); st_simpl_in Hr; [injection Hr as <- <-; done|].
  unfold lift_codec in Hr. destruct (block_inclusion_proof b k) as [tp|e]; cbn [map_err] in Hr; st_simpl_in Hr;
    [|injection Hr as <- <-; done].
  rewrite (st_bind_ok _ _ _ _ _ (eq_refl : current_unix_timestamp clock n = _)) in Hr.
  unfold RollbackIssue_new in Hr. rewrite Hth in Hr. cbn [mbind result_bind] in Hr.
  destruct (proof_leaf_index tp <? _); [cbn [map_err] in Hr; st_simpl_in Hr; by injection Hr as <- <-|].
  rewrite Hid in Hr. cbn [mbind result_bind map_err] in Hr. st_simpl_in Hr.
  set (new := Build_RollbackIssue _ _ _ _ _ _ _ _ _ _ _ _ _ _) in *.
  set (n1 := set_clock_reads (S (clock_reads n)) n) in *.
  apply st_bind_inv in Hr as [(e & Hl & ->)|(existing & n2 & Hl & Hr)];
    apply read_storage_run in Hl as [-> Hl]; [done|]. symmetry in Hl. apply map_err_Ok in Hl.
  change (issue_id new) with id in Hl. apply load_issue_view in Hl.
  destruct existing as [old|]; st_simpl_in Hr.
  - apply st_bind_inv in Hr as [(e & Hrun & ->)|(j & n2 & Hrun & Hr)]; [|injection Hr as <- <-];
      apply retry_settles in Hrun as [Hset Hkeep]; (split; [|done]); [done|].
    intros _. destruct Hl as (raw & _ & _ & Hval).
    assert (issue_id old = id) as <- by (apply validate_rollback_issue_Ok in Hval; naive_solver). by apply Hset.
  - apply st_bind_inv in Hr as [(e & Hrun & ->)|(j & n2 & Hrun & Hr)].
    + apply st_bind_inv in Hrun as [(e' & Hs & [= <-])|([] & n2 & _ & [=])].
      apply on_storage_run in Hs as (r0 & env & Hs & Hr0 & ->). destruct r0 as [[]|e0]; [done|].
      split; [done|]. intros id'. apply (save_settled _ _ _ _ _ _ Hs). done.
    + apply st_bind_inv in Hrun as [(e' & _ & [=])|([] & n3 & Hs & [= <- <-])].
      apply on_storage_run in Hs as (r0 & env & Hs & Hr0 & ->). destruct r0 as [[]|e0]; [|done].
      assert (Hfirst : forall id', settled (ledger n) (storage n) id' -> settled (ledger n) env id').
      { intros id' (j' & Hj' & Hst). exists j'. split; [|done]. apply save_issue_at in Hs as [_ Hother].
        apply (issue_at_view (storage n1)); [|exact Hj']. apply Hother. right.
        change (issue_id new) with id. intros ->. destruct Hj' as (raw & Hv & _).
        change (storage n1) with (storage n) in Hl. congruence. }
      apply st_bind_inv in Hr as [(e & Hrun & ->)|(j & n2 & Hrun & Hr)]; [|injection Hr as <- <-];
        apply retry_settles in Hrun as [Hset Hkeep]; (split; [|intros id' Hid'; apply Hkeep, Hfirst, Hid']); [done|].
      intros _. by apply Hset.
Qed.

Lemma recover_transaction_ok b hash context k tx n n' :
  recover_transaction clock b hash context (k, tx) n = (Ok tt, n') ->
  exists th id, tx_hash tx = Ok th /\ issue_id_for_transaction hash th = Ok id.
Proof.
  unfold recover_transaction. cbn [fst snd]. intros Hr.
  apply st_bind_inv in Hr as [(e & _ & [=])|([] & n1 & _ & Hr)].
  apply st_bind_inv in Hr as [(e & _ & [=])|(tp & n2 & _ & Hr)].
  apply st_bind_inv in Hr as [(e & _ & [=])|(t & n3 & _ & Hr)].
  apply st_bind_inv in Hr as [(e & _ & [=])|(i & n4 & Hnew & _)]. injection Hnew as Hnew _.
  apply map_err_Ok in Hnew. unfold RollbackIssue_new in Hnew. apply bind_Ok in Hnew as (th & Hth & Hnew).
  destruct (_ <? _); [done|]. apply bind_Ok in Hnew as (id & Hid & _). eauto.
Qed.

(** What a loop over steps achieves, when each step achieves its part and undoes none. *)
Lemma st_for_achieves {A} (f : A -> ST Node NodeError unit) (l : Ledger)
    (goal : A -> RollbackIssueId -> Prop) xs n n' :
  (forall x m m', x ∈ xs -> f x m = (Ok tt, m') -> ledger m = l ->
     ledger m' = l /\ (forall id, goal x id -> settled l (storage m') id) /\
     (forall id, settled l (storage m) id -> settled l (storage m') id)) ->
  st_for f xs n = (Ok tt, n') -> ledger n = l ->
  ledger n' = l /\ (forall x id, x ∈ xs -> goal x id -> settled l (storage n') id) /\
  (forall id, settled l (storage n) id -> settled l (storage n') id).
Proof.
  revert n. induction xs as [|x xs IH]; intros n Hf Hr Hl; cbn [st_for] in Hr.
  { injection Hr as <-. split_and!; [done| |done]. intros x id Hx. by apply elem_of_nil in Hx. }
  apply st_bind_inv in Hr as [(e & _ & [=])|([] & n1 & H1' & Hr)].
  destruct (Hf x n n1 ltac:(by left) H1' Hl) as (Hl1 & Hg1 & Hk1).
  destruct (IH n1) as (Hl2 & Hg2 & Hk2); [|done..|].
  { intros y m m' Hy. apply Hf. by right. }
  split_and!; [done| |auto]. intros y id [->|Hy]%elem_of_cons Hg; [apply Hk2; by apply Hg1|by apply (Hg2 y)].
Qed.

(** [id] is the record of a transaction of [b], a block that is not on the winning branch. *)
Definition record_of (winning : list BlockHash) b id : Prop :=
  exists hash tx th, block_hash b = Ok hash /\ (hash ∉ winning) /\
    tx ∈ block_transactions b /\ tx_hash tx = Ok th /\ issue_id_for_transaction hash th = Ok id.

Lemma recover_block_settles winning context b n n' :
  recover_block clock winning context b n = (Ok tt, n') ->
  ledger n' = ledger n /\ (forall id, record_of winning b id -> settled (ledger n) (storage n') id) /\
  (forall id, settled (ledger n) (storage n) id -> settled (ledger n) (storage n') id).
Proof.
  unfold recover_block. intros Hr. apply st_bind_inv in Hr as [(e & _ & [=])|(hash & n1 & Hh & Hr)].
  injection Hh as Hh <-. apply map_err_Ok in Hh. case_bool_decide as Hw.
  { injection Hr as <-. split_and!; [done| |done].
    intros id (hash' & tx & th & Hh' & Hnw & _). congruence. }
  apply (st_for_achieves _ (ledger n) (fun x id => exists th, tx_hash x.2 = Ok th /\
    issue_id_for_transaction hash th = Ok id)) in Hr as (Hl & Hg & Hk); [| |done].
  2:{ intros [k tx] m m' _ Hx Hm. destruct (recover_transaction_ok _ _ _ _ _ _ _ Hx) as (th & id & Hth & Hid).
      destruct (recover_transaction_settles _ _ _ _ _ _ _ _ _ _ Hx Hth Hid) as (Hl & Hs & Hk).
      rewrite Hm in *. split_and!; [done| |done]. cbn [snd].
      intros id' (th' & Hth' & Hid'). assert (id' = id) as -> by congruence. by apply Hs. }
  split_and!; [done| |done]. intros id (hash' & tx & th & Hh' & _ & Htx & Hth & Hid).
  assert (hash' = hash) as -> by congruence. apply list_elem_of_lookup_1 in Htx as [k Hk'].
  apply (Hg (k, tx)); [|by exists th]. apply enumerate_elem. done.
Qed.


(** ** The proof bundle of a record *)

Lemma shared_count_prefix (ls rs : list BlockHeader) :
  take (shared_count ls rs) ls = take (shared_count ls rs) rs /\
  (shared_count ls rs <= length ls)%nat /\ (shared_count ls rs <= length rs)%nat /\
  (forall x y, ls !! shared_count ls rs = Some x -> rs !! shared_count ls rs = Some y -> x <> y).
Proof.
  revert rs. induction ls as [|l ls IH]; intros [|r rs]; cbn [shared_count]; try (split_and!; [done|cbn; lia..|done]).
  case_bool_decide as E.
  - subst r. destruct (IH rs) as (Ht & Hl & Hr & Hd). split_and!; [cbn; by rewrite Ht|cbn; lia..|exact Hd].
  - split_and!; [done|cbn; lia..|]. cbn. intros x y [= ->] [= ->]. done.
Qed.

(** the proof bundle of a rollback record shows the fork: the two header chains agree up to
    the claimed common ancestor, which is the last header they share, and the disconnected
    block's header is one of the losing chain. *)
Theorem rollback_bundle_shows_fork n i bundle :
  rollback_proof_bundle n i = Ok bundle ->
  exists k shared_header,
    take (S k) (bundle_losing_headers bundle) = take (S k) (bundle_canonical_headers bundle) /\
    bundle_canonical_headers bundle !! k = Some shared_header /\
    header_hash shared_header = Ok (bundle_common_ancestor bundle) /\
    (forall x y, bundle_losing_headers bundle !! S k = Some x ->
       bundle_canonical_headers bundle !! S k = Some y -> x <> y) /\
    bundle_disconnected_block_header bundle ∈ bundle_losing_headers bundle /\
    header_hash (bundle_disconnected_block_header bundle) = Ok (disconnected_block_hash i) /\
    bundle_transaction bundle = issue_transaction i.
Proof.
  unfold rollback_proof_bundle. intros Hr. apply bind_Ok in Hr as (loaded & _ & Hr).
  apply bind_Ok in Hr as (context & _ & Hr). apply bind_Ok in Hr as (current & _ & Hr).
  cbv zeta in Hr. match type of Hr with context [shared_count (losing_headers context) ?c] =>
    match c with (if _ then _ else _) => set (canonical := c) in Hr end end.
  destruct (shared_count_prefix (losing_headers context) canonical) as (Ht & _ & _ & Hd).
  destruct (shared_count (losing_headers context) canonical) as [|k]; [done|].
  apply bind_Ok in Hr as (last_header & Hlast & Hr). apply ok_or_Ok in Hlast.
  apply bind_Ok in Hr as (ancestor & Ha & Hr). apply map_err_Ok in Ha.
  apply bind_Ok in Hr as (disconnected & Hdis & [= <-]). apply ok_or_Ok in Hdis.
  apply List.find_some in Hdis as [Hin Hhash]. apply bool_decide_eq_true, result_ok_Some in Hhash.
  exists k, last_header. cbn. split_and!; [done..|by apply list_elem_of_In|done|done].
Qed.
End recovery.
