(* ===== verification/NodeExamples.v ===== *)
(** The node on the toy protocol: a fork, an orphan, a rejected block and a reorganisation, on
    which the node theorems are evaluated. *)
From Stdlib Require Import ZArith Lia.
From stdpp Require Import base numbers option strings list sets gmap relations.
From S2P Require Import Prelude BTree PaqusCore Toy Mempool Compact Recovery Lmdb Storage StorageLogic.
From S2P Require Import StorageSpec StorageState StorageExamples Cache Miner NodeState Node.
From S2P Require Import NodeOrphans NodeChain NodeRecovery.
Open Scope Z_scope.

Module NodeToy.
Import Toy StorageToy.

#[global] Instance storage_display : StorageDisplay := fun _ => "lmdb".
Definition clock (k : nat) : Z := 1000 + Z.of_nat k.
Definition rules : Consensus := tt.
Definition blank : Node :=
  MkNode ledger0 mempool_new empty_store rules cache_new fork_new ∅ ∅ ∅ [] ∅ ∅ ∅ None 0 0 0.
Definition ok_node (r : Result NodeError Node) : Node := match r with Ok n => n | Err _ => blank end.
Lemma ok_node_eq r : is_ok r = true -> r = Ok (ok_node r).
Proof. by destruct r. Qed.

(** A node at genesis; two branches from there. *)
Definition fresh : Node :=
  ok_node (try_with_genesis_accounts ledger0 empty_store rules (ledger_accounts ledger0)).
Definition pay : SignedProtocolTransaction := transfer alice zero_hash bob 10 1.
Definition a1 : Block := next_block ledger0 [pay].
Definition b1 : Block := next_block ledger0 [transfer bob zero_hash alice 5 1].
Definition b2 : Block := next_block (extend ledger0 b1) [].
(** [b2] arrives first and waits for its parent. *)
Definition waiting : Node := (apply_block clock b2 fresh).2.
(** A block with the wrong state root. *)
Definition forged : Block := block_set_state_root (replicate 32 9) b1.
(** On [a1], with the longer branch [b1], [b2] known to the fork graph. *)
Definition on_a1 : Node := (apply_known_parent_block clock a1 fresh).2.
Definition before : Node :=
  set_fork_choice (fork_insert_block b2 (fork_insert_block b1 (fork_choice on_a1)).2).2 on_a1.
Definition after : Node := (reorg_to_best_tip clock before).2.
Definition a1_hash : BlockHash := hash32 (ser (header a1 : Header)).
Definition pay_hash : TransactionHash := hash32 (ser pay).
Definition pay_record : RollbackIssueId :=
  hash32 (ser (ascii_bytes "PAQUS_ROLLBACK_ISSUE_V1", (a1_hash, pay_hash))).
Definition best_block : ForkNode :=
  match fork_best_tip (fork_choice before) with
  | Some f => f
  | None => {| fork_hash := []; fork_height := 0; fork_parent := []; fork_block := a1; cumulative_work := 0 |}
  end.

Lemma fresh_eq :
  try_with_genesis_accounts ledger0 empty_store rules (ledger_accounts ledger0) = Ok fresh.
Proof. apply ok_node_eq. vm_compute. reflexivity. Qed.
Lemma fresh_wf : pool_wf fresh.
Proof. exact (new_node_pool _ _ _ _ _ fresh_eq). Qed.
Lemma waiting_step : node_step clock fresh waiting.
Proof. apply step_apply. Qed.
Lemma waiting_wf : pool_wf waiting.
Proof. exact (node_step_pool clock _ _ waiting_step fresh_wf). Qed.
Lemma reorg_runs : reorg_to_best_tip clock before = (Ok tt, after).
Proof. unfold after. apply (run_ok (reorg_to_best_tip clock before)). vm_compute. reflexivity. Qed.
End NodeToy.

Module NodeWitnesses.
Import Toy StorageToy NodeToy.
#[local] Opaque fresh waiting on_a1 before after a1 b1 b2 forged pay a1_hash pay_hash pay_record best_block.

Lemma node_pool_invariant_witness :
  bt_len (orphan_blocks waiting) = 1 /\ pool_wf waiting.
Proof.
  split; [vm_compute; reflexivity|].
  exact (node_pool_invariant clock ledger0 empty_store rules (ledger_accounts ledger0) fresh waiting
    fresh_eq (rtc_once _ _ waiting_step)).
Defined.

Lemma adoption_terminates_witness :
  exists n', process_parents clock (process_fuel waiting) [a1_hash] waiting = (Ok tt, n') /\ pool_wf n' /\
    process_parents clock (process_fuel waiting) [a1_hash] waiting = (Ok tt, n').
Proof. exact (adoption_terminates clock waiting a1_hash (process_fuel waiting) waiting_wf (Nat.le_refl _)). Defined.

Lemma missing_parents_drained_witness :
  length (missing_parent_requests waiting) = 1%nat /\
  (drain_missing_parent_requests_at 5000 waiting).1 = List.filter (due 5000 waiting) (missing_parent_requests waiting).
Proof.
  split; [vm_compute; reflexivity|].
  exact (proj1 (missing_parents_drained 5000 waiting (drain_missing_parent_requests_at 5000 waiting).1
    (drain_missing_parent_requests_at 5000 waiting).2 a1_hash waiting_wf (surjective_pairing _))).
Defined.

Lemma forged_verdict : verdict fresh forged = Err (NodeLedger LedgerInvalidStateRoot).
Proof. vm_compute. reflexivity. Qed.
Lemma rejected_block_changes_nothing_witness :
  (apply_block clock forged fresh).1 = Err (NodeLedger LedgerInvalidStateRoot) /\
  chain_part (apply_block clock forged fresh).2 = chain_part fresh.
Proof.
  pose proof (rejected_block_changes_nothing clock forged fresh (NodeLedger LedgerInvalidStateRoot)
    (apply_block clock forged fresh).1 (apply_block clock forged fresh).2 forged_verdict
    (surjective_pairing _)) as Hrej.
  exact (conj (proj1 (proj2 (proj2 Hrej) eq_refl)) (proj1 Hrej)).
Defined.

Lemma a1_extends : extends_active_tip fresh a1 = true.
Proof. vm_compute. reflexivity. Qed.
Lemma a1_moved : ledger_tip_height (ledger on_a1) <> ledger_tip_height (ledger fresh).
Proof. vm_compute. discriminate. Qed.
Lemma on_a1_eq : apply_known_parent_block clock a1 fresh =
  ((apply_known_parent_block clock a1 fresh).1, on_a1).
Proof. exact (surjective_pairing (apply_known_parent_block clock a1 fresh)). Qed.
Lemma active_ledger_validated_witness :
  exists root, ledger_execute_block (ledger fresh) a1 = Ok (ledger on_a1, root).
Proof.
  destruct (active_ledger_validated clock a1 fresh _ on_a1 on_a1_eq)
    as [E|(_ & [(_ & _ & Hroot)|(E & _)])].
  - destruct (a1_moved (f_equal ledger_tip_height E)).
  - exact Hroot.
  - rewrite a1_extends in E. discriminate E.
Defined.

Definition pooled_pay : Node := (submit_protocol_transaction clock pay fresh).2.
Lemma pooled_pay_txs : pool_transactions (mempool pooled_pay) = [pay].
Proof. vm_compute. reflexivity. Qed.
Lemma pay_amounts : amounts_ok pay.
Proof.
  vm_compute. split.
  - repeat constructor; discriminate.
  - intros v [= <-]. discriminate.
Qed.
Lemma pending_balance_exact_witness :
  outgoing (pending_balance pooled_pay alice) = 11 /\
  pending_balance pooled_pay alice =
    {| incoming := Z.min (pool_total (pays alice) (pool_transactions (mempool pooled_pay))) U64_MAX;
       outgoing := Z.min (pool_total (takes alice) (pool_transactions (mempool pooled_pay))) U64_MAX |}.
Proof.
  split; [vm_compute; reflexivity|].
  refine (proj1 (pending_balance_exact pooled_pay alice _)). rewrite pooled_pay_txs.
  exact (Forall_cons_2 _ _ _ pay_amounts (Forall_nil_2 _)).
Defined.

Lemma best_eq : fork_best_tip (fork_choice before) = Some best_block.
Proof. vm_compute. reflexivity. Qed.
Lemma a1_active : a1 ∈ bt_values (chain_blocks (ledger before)).
Proof.
  assert (Hbs : bt_values (chain_blocks (ledger before)) !! 1%nat = Some a1) by (vm_compute; reflexivity).
  exact (list_elem_of_lookup_2 _ _ _ Hbs).
Qed.
Lemma pay_recorded :
  record_of (ancestor_hashes (fork_choice before) (fork_hash best_block)) a1 pay_record.
Proof.
  assert (Hloser : bool_decide (a1_hash ∈ ancestor_hashes (fork_choice before) (fork_hash best_block)) = false)
    by (vm_compute; reflexivity).
  assert (Htxs : block_transactions a1 = [pay]) by (vm_compute; reflexivity).
  exists a1_hash, pay, pay_hash. split; [vm_compute; reflexivity|].
  split; [exact (bool_decide_eq_false_1 _ Hloser)|].
  split; [rewrite Htxs; apply list_elem_of_here|].
  split; vm_compute; reflexivity.
Qed.

(** The record of [pay] after the reorganisation, and its proof bundle. *)
Definition loaded (r : Result StorageError (option RollbackIssue)) : RollbackIssue :=
  match r with Ok (Some i) => i | _ => StorageWitnesses.record_under zero_hash end.
Definition filed_issue : RollbackIssue := loaded (load_rollback_issue pay_record (storage after)).
Definition names_loser (r : Result NodeError RollbackProofBundle) : Prop :=
  exists b, r = Ok b /\ bundle_disconnected_block_header b ∈ bundle_losing_headers b.
Lemma bundle_built : is_ok (rollback_proof_bundle after filed_issue) = true.
Proof. vm_compute. reflexivity. Qed.
Lemma ok_exists {E A} (r : Result E A) : is_ok r = true -> exists a, r = Ok a.
Proof. destruct r; [eauto|done]. Qed.
Lemma rollback_bundle_shows_fork_witness : names_loser (rollback_proof_bundle after filed_issue).
Proof.
  destruct (ok_exists _ bundle_built) as [b Hb]. exists b.
  destruct (rollback_bundle_shows_fork after filed_issue b Hb) as (k & h & _ & _ & _ & _ & Hin & _).
  exact (conj Hb Hin).
Defined.
End NodeWitnesses.
