(* ===== verification/SnapshotImport.v ===== *)
(** Importing and exporting fast-sync snapshots (snapshot.rs): the files and directories around the
    bundle of [Snapshot], and that an import activates a complete database or nothing.

    The file system holds plain files and database directories by path text; [ImportEnv] says which
    operations fail, as a function of how many were made, and what environment LMDB opens in a
    new directory. A failing [write] leaves a prefix. Paths have no
    [.] or [..] components and no slash at the end. *)
From Stdlib Require Import ZArith Lia Ascii.
From stdpp Require Import base numbers option strings list gmap pretty.
From S2P Require Import Prelude BTree PaqusCore Net Mempool Compact Snapshot Recovery Lmdb Storage Cache Miner NodeState Node.
Open Scope Z_scope.

(** ** Paths *)

(** The text up to the last slash, if there is one, and the text after it *)
Fixpoint last_slash (s : string) : option string * string :=
  match s with
  | EmptyString => (None, "")
  | String c s =>
      match last_slash s with
      | (Some dir, name) => (Some (String c dir), name)
      | (None, name) => if bool_decide (c = "/"%char) then (Some "", name) else (None, String c name)
      end
  end.
(** [parent.join(format!(..))] *)
Definition staging_name (pid : Z) (database_path : string) (nonce : Z) : string :=
  let '(parent, name) := last_slash database_path in
  let staging := "." +:+ name +:+ ".fastsync-" +:+ pretty pid +:+ "-" +:+ pretty nonce in
  match parent with Some dir => dir +:+ "/" +:+ staging | None => staging end.

Section import.
Context `{PaqusTypes} `{!TxOps} `{!BlockOps} `{!LedgerOps} `{!EventOps} `{!GenesisOps}.
Context `{!Borsh} `{!Lmdb} `{!ErrorDisplay} `{!StorageDisplay}.
Context (to_vec : FastSyncBundle -> Result string bytes) (try_from_slice : bytes -> Result string FastSyncBundle).
Context (genesis_paqus_bytes : Result GenesisError bytes).

(** A database directory: the frozen genesis artifact and the environment *)
Record DbDir := { genesis_artifact : option bytes; database : option LmdbEnv }.
Record Disk := { disk_files : gmap string bytes; disk_dirs : gmap string DbDir; disk_ops : nat }.
Record ImportEnv := {
  im_fails : nat -> option IoError;
  (** how many bytes reach the file before a failure *)
  im_kept : nat -> nat;
  (** what LMDB opens in a directory without a database *)
  im_new : nat -> Result StorageError LmdbEnv;
  im_nonce : nat -> Z;
  im_pid : Z
}.
Context (env : ImportEnv).
Abbreviation Do := (ST Disk string).

Definition step {A} (f : nat -> A) : Do A :=
  fun s => (Ok (f (disk_ops s)), {| disk_files := disk_files s; disk_dirs := disk_dirs s; disk_ops := S (disk_ops s) |}).
Definition on_dirs (f : gmap string DbDir -> gmap string DbDir) : Do unit :=
  st_modify (fun s => {| disk_files := disk_files s; disk_dirs := f (disk_dirs s); disk_ops := disk_ops s |}).
Definition put_file (path : string) (b : bytes) : Do unit :=
  st_modify (fun s => {| disk_files := <[path := b]> (disk_files s); disk_dirs := disk_dirs s; disk_ops := disk_ops s |}).
(** An operation that changes the disk unless it fails *)
Definition attempt_to (wrap : string -> string) (change : Do unit) : Do unit :=
  broken ← step (im_fails env);
  match broken with Some e => st_fail (wrap (io_text e)) | None => change end.
(** [Path::exists] *)
Definition path_exists (path : string) : Do bool :=
  s ← st_get; mret (bool_decide (is_Some (disk_files s !! path)) || bool_decide (is_Some (disk_dirs s !! path))).

(** ** Export *)

Definition export_to_file (ledger : Ledger) (output : string) : Do unit :=
  bundle ← st_lift (bundle_from_ledger ledger);
  b ← st_lift (bundle_encode to_vec bundle);
  broken ← step (im_fails env);
  match broken with
  | Some e =>
      kept ← step (im_kept env);
      put_file output (take kept b) ;;
      st_fail ("failed to write fast-sync bundle " +:+ output +:+ ": " +:+ io_text e)
  | None => put_file output b
  end.

(** ** Import *)

Definition staging_path (database_path : string) : Do string :=
  if bool_decide ((last_slash database_path).2 = "") then st_fail "fast-sync database path has no valid final component" else
  nonce ← step (im_nonce env);
  mret (staging_name (im_pid env) database_path nonce).

(** What [Storage] does in the directory [path]; what it wrote stays there. *)
Definition in_database {A} (path : string) (wrap : string -> string) (m : ST LmdbEnv StorageError A) : Do A :=
  fun s =>
    match disk_dirs s !! path ≫= database with
    | None => (Err (wrap ""), s)
    | Some db =>
        let '(r, db) := m db in
        (map_err (fun e => wrap (show_storage_error e)) r,
         {| disk_files := disk_files s;
            disk_dirs := alter (fun d => {| genesis_artifact := genesis_artifact d; database := Some db |}) path (disk_dirs s);
            disk_ops := disk_ops s |})
    end.
(** [Storage::open] *)
Definition storage_open (path : string) : Do unit :=
  let wrap e := "failed to open snapshot staging database: " +:+ e in
  opened ← step (im_new env);
  db ← st_lift (map_err (fun e => wrap (show_storage_error e)) opened);
  on_dirs (alter (fun d => {| genesis_artifact := genesis_artifact d;
                              database := match database d with Some old => Some old | None => Some db end |}) path) ;;
  in_database path wrap ensure_storage_version.

(** [fs::write] of the genesis artifact *)
Definition write_genesis (staging : string) (genesis : bytes) : Do unit :=
  let write b := on_dirs (alter (fun d => {| genesis_artifact := Some b; database := database d |}) staging) in
  broken ← step (im_fails env);
  match broken with
  | Some e =>
      kept ← step (im_kept env);
      write (take kept genesis) ;;
      st_fail ("failed to write frozen genesis artifact: " +:+ io_text e)
  | None => write genesis
  end.
(** The closure: everything up to the move that activates the database *)
Definition build_and_activate (staging database_path : string) (ledger : Ledger) : Do unit :=
  genesis ← st_lift (map_err show_genesis genesis_paqus_bytes);
  write_genesis staging genesis ;;
  storage_open staging ;;
  in_database staging (fun e => "failed to persist authenticated snapshot: " +:+ e) (save_ledger ledger) ;;
  genesis_l ← st_lift (map_err show_genesis genesis_ledger);
  in_database staging (fun e => "failed to persist frozen genesis accounts: " +:+ e)
    (save_genesis_accounts (ledger_accounts genesis_l)) ;;
  attempt_to (fun e => "failed to atomically activate snapshot database: " +:+ e)
    (on_dirs (fun dirs => match dirs !! staging with
                          | Some d => <[database_path := d]> (delete staging dirs)
                          | None => dirs
                          end)).

Definition import_bytes_atomic (database_path : string) (raw : bytes) : Do (BlockHeight * BlockHash * Work) :=
  there ← path_exists database_path;
  if there : bool
  then st_fail ("fast-sync target " +:+ database_path +:+ " already exists; use a new database path") else
  bundle ← st_lift (bundle_decode try_from_slice raw);
  validated ← st_lift (bundle_validate pretty bundle);
  let '(ledger, work) := validated in
  height ← st_lift (ok_or (ledger_tip_height ledger) "authenticated snapshot has no tip height");
  hash ← st_lift (ok_or (ledger_tip_hash ledger) "authenticated snapshot has no tip hash");
  staging ← staging_path database_path;
  attempt_to (fun e => "failed to create snapshot staging directory: " +:+ e)
    (on_dirs (fun dirs => match dirs !! staging with
                          | Some _ => dirs
                          | None => <[staging := {| genesis_artifact := None; database := None |}]> dirs
                          end)) ;;
  result ← st_try (build_and_activate staging database_path ledger);
  match result with
  | Ok _ => mret (height, hash, work)
  | Err error =>
      broken ← step (im_fails env);
      match broken with Some _ => mret tt | None => on_dirs (delete staging) end ;;
      st_fail error
  end.

Definition import_file_atomic (database_path bundle_path : string) : Do (BlockHeight * BlockHash * Work) :=
  there ← path_exists database_path;
  if there : bool
  then st_fail ("fast-sync target " +:+ database_path +:+ " already exists; use a new database path") else
  s ← st_get;
  broken ← step (im_fails env);
  let inspect e := "failed to inspect fast-sync bundle " +:+ bundle_path +:+ ": " +:+ e in
  b ← match broken, disk_files s !! bundle_path with
      | Some e, _ => st_fail (inspect (io_text e))
      | None, None => st_fail (inspect "No such file or directory (os error 2)")
      | None, Some b => mret b
      end;
  if MAX_FAST_SYNC_BUNDLE_SIZE <? zlen b then st_fail "fast-sync bundle exceeds the local size limit" else
  broken ← step (im_fails env);
  match broken with
  | Some e => st_fail ("failed to read fast-sync bundle " +:+ bundle_path +:+ ": " +:+ io_text e)
  | None => import_bytes_atomic database_path b
  end.
End import.

Section import_spec.
Context `{PaqusTypes} `{!TxOps} `{!BlockOps} `{!LedgerOps} `{!EventOps} `{!GenesisOps}.
Context `{!Borsh} `{!Lmdb} `{!ErrorDisplay} `{!StorageDisplay}.
Context (try_from_slice : bytes -> Result string FastSyncBundle).
Context (genesis_paqus_bytes : Result GenesisError bytes) (env : ImportEnv).

(** ** The staging directory *)

Lemma last_slash_spec s :
  match last_slash s with
  | (Some dir, name) => s = dir +:+ "/" +:+ name
  | (None, name) => s = name
  end.
Proof.
  induction s as [|c s IH]; [done|]. cbn [last_slash]. destruct (last_slash s) as [[dir|] name].
  - by rewrite IH.
  - case_bool_decide as Hc; by subst.
Qed.
Lemma text_length s t : String.length (s +:+ t) = (String.length s + String.length t)%nat.
Proof. induction s as [|c s IH]; [done|]. change (S (String.length (s +:+ t)) = S (String.length s + String.length t)). by rewrite IH. Qed.
Lemma staging_other pid path nonce : staging_name pid path nonce <> path.
Proof.
  pose proof (last_slash_spec path) as Hs. unfold staging_name. destruct (last_slash path) as [[dir|] name]; subst path.
  - intros E%(f_equal String.length). rewrite !text_length in E. change (String.length ".") with 1%nat in E. lia.
  - intros E%(f_equal String.length). rewrite !text_length in E. change (String.length ".") with 1%nat in E. lia.
Qed.

(** The staging directory holds [d]; everything else is as in [s0]. *)
Definition staged (staging : string) (s0 : Disk) (d : DbDir) (s : Disk) : Prop :=
  disk_files s = disk_files s0 /\ disk_dirs s = <[staging := d]> (disk_dirs s0).

Lemma database_step {A} staging s0 g db wrap (m : ST LmdbEnv StorageError A) s r s' :
  staged staging s0 {| genesis_artifact := g; database := Some db |} s -> in_database staging wrap m s = (r, s') ->
  exists r0 db', m db = (r0, db') /\ r = map_err (fun e => wrap (show_storage_error e)) r0 /\
    staged staging s0 {| genesis_artifact := g; database := Some db' |} s'.
Proof.
  intros [Hf Hd] E. unfold in_database in E. rewrite Hd, lookup_insert_eq in E. cbn in E.
  destruct (m db) as [r0 db']. injection E as <- <-. exists r0, db'. split_and!; [done..|].
  split; [done|]. cbn. by rewrite alter_insert_eq.
Qed.
(** A failure inside the staging directory *)
Definition failed {A} (staging : string) (s0 : Disk) (r : Result string A) (s : Disk) : Prop :=
  is_ok r = false /\ exists d, staged staging s0 d s.

Lemma open_step staging s0 g s r s' :
  staged staging s0 {| genesis_artifact := g; database := None |} s -> storage_open env staging s = (r, s') ->
  failed staging s0 r s' \/
  exists k new db, im_new env k = Ok new /\ ensure_storage_version new = (Ok tt, db) /\
    staged staging s0 {| genesis_artifact := g; database := Some db |} s' /\ r = Ok tt.
Proof.
  intros [Hf Hd] E. unfold storage_open in E.
  apply st_bind_inv in E as [(e & E & _)|(opened & s1 & E1 & E)]; [done|]. injection E1 as <- <-.
  apply st_bind_inv in E as [(e & [= Hn <-] & ->)|(new & s2 & [= Hn <-] & E)].
  { left. split; [done|]. by exists {| genesis_artifact := g; database := None |}. }
  apply map_err_Ok in Hn.
  apply st_bind_inv in E as [(e & E & _)|([] & s3 & E3 & E)]; [done|]. injection E3 as <-.
  eapply (database_step _ s0 g new) in E as (r0 & db & Hm & -> & Hs).
  2: { split; [done|]. cbn. by rewrite Hd, alter_insert_eq. }
  destruct r0 as [[]|e]; [|left; split; [done|by eexists]]. right. by exists (disk_ops s), new, db.
Qed.
Lemma attempt_step wrap change s r s' :
  attempt_to env wrap change s = (r, s') ->
  (is_ok r = false /\ disk_files s' = disk_files s /\ disk_dirs s' = disk_dirs s) \/
  exists s1, disk_files s1 = disk_files s /\ disk_dirs s1 = disk_dirs s /\ change s1 = (r, s').
Proof.
  unfold attempt_to, mbind, st_bind, step. destruct (im_fails env (disk_ops s)); intros E.
  - injection E as <- <-. by left.
  - right. eexists. split_and!; [| |exact E]; done.
Qed.
Lemma genesis_step staging s0 genesis s r s' :
  staged staging s0 {| genesis_artifact := None; database := None |} s ->
  write_genesis env staging genesis s = (r, s') ->
  failed staging s0 r s' \/
  staged staging s0 {| genesis_artifact := Some genesis; database := None |} s' /\ r = Ok tt.
Proof.
  intros [Hf Hd]. unfold write_genesis, mbind, st_bind, step, on_dirs, st_modify, st_fail. cbn.
  destruct (im_fails env (disk_ops s)); cbn; intros [= <- <-].
  - left. split; [done|]. eexists. split; [done|]. cbn. by rewrite Hd, alter_insert_eq.
  - right. split; [|done]. split; [done|]. cbn. by rewrite Hd, alter_insert_eq.
Qed.

(** What a complete database is made of *)
Definition complete_database (ledger : Ledger) (d : DbDir) : Prop :=
  exists genesis genesis_l k new db0 db1 db,
    genesis_paqus_bytes = Ok genesis /\ genesis_ledger = Ok genesis_l /\
    im_new env k = Ok new /\ ensure_storage_version new = (Ok tt, db0) /\ save_ledger ledger db0 = (Ok tt, db1) /\
    save_genesis_accounts (ledger_accounts genesis_l) db1 = (Ok tt, db) /\
    d = {| genesis_artifact := Some genesis; database := Some db |}.

Lemma build_run staging path ledger s0 s r s' :
  disk_dirs s0 !! staging = None -> staged staging s0 {| genesis_artifact := None; database := None |} s ->
  build_and_activate genesis_paqus_bytes env staging path ledger s = (r, s') ->
  failed staging s0 r s' \/
  exists d, complete_database ledger d /\ disk_files s' = disk_files s0 /\ disk_dirs s' = <[path := d]> (disk_dirs s0) /\ r = Ok tt.
Proof.
  intros Hnone Hs E. unfold build_and_activate in E.
  assert (Hfail : forall A d (r' : Result string A) s1, staged staging s0 d s1 -> is_ok r' = false -> failed staging s0 r' s1)
    by (intros; split; eauto).
  apply st_bind_inv in E as [(e & [= _ <-] & ->)|(genesis & s1 & [= Hg%map_err_Ok <-] & E)]; [left; by eapply Hfail|].
  apply st_bind_inv in E as [(e & E & ->)|([] & s2 & E2 & E)].
  { apply (genesis_step staging s0) in E as [[_ Hx]|[_ ?]]; [left; by split|done|done]. }
  apply (genesis_step staging s0) in E2 as [[? _]|[Hs2 _]]; [done| |done].
  apply st_bind_inv in E as [(e & E & ->)|([] & s3 & E3 & E)].
  { apply (open_step staging s0 _ _ _ _ Hs2) in E as [[_ Hx]|(? & ? & ? & ? & ? & ? & ?)]; [left; by split|done]. }
  apply (open_step staging s0 _ _ _ _ Hs2) in E3 as [[? _]|(k & new & db0 & Hnew & Hens & Hs3 & _)]; [done|].
  apply st_bind_inv in E as [(e & E & ->)|([] & s4 & E4 & E)].
  { apply (database_step _ _ _ _ _ _ _ _ _ Hs3) in E as (? & ? & _ & _ & Hx). left. by eapply Hfail. }
  apply (database_step _ _ _ _ _ _ _ _ _ Hs3) in E4 as ([[]|] & db1 & Hsave & Hok & Hs4); [|done].
  apply st_bind_inv in E as [(e & [= _ <-] & ->)|(genesis_l & s5 & [= Hgl%map_err_Ok <-] & E)]; [left; by eapply Hfail|].
  apply st_bind_inv in E as [(e & E & ->)|([] & s6 & E6 & E)].
  { apply (database_step _ _ _ _ _ _ _ _ _ Hs4) in E as (? & ? & _ & _ & Hx). left. by eapply Hfail. }
  apply (database_step _ _ _ _ _ _ _ _ _ Hs4) in E6 as ([[]|] & db & Hacc & Hok2 & Hs6); [|done].
  destruct Hs6 as [Hf6 Hd6]. apply attempt_step in E as [(Hr & Hf7 & Hd7)|(s7 & Hf7 & Hd7 & E)].
  { left. eapply Hfail; [|done]. split; [by rewrite Hf7|by rewrite Hd7]. }
  injection E as <- <-. right. eexists. split; [by repeat eexists|]. cbn.
  rewrite Hf7, Hd7, Hd6, lookup_insert_eq, delete_insert_id by done. done.
Qed.

(** C16: an import is all or nothing: when it succeeds the target did not exist, the bundle was
    authenticated, the reported tip is its ledger's, and the target is a complete database of
    exactly this ledger, built before it got its name; nothing else changed. When it fails, whatever
    failed and wherever, there is no target and the disk is as it was, but for the staging
    directory when its removal fails too. *)
Theorem snapshot_import_atomic path raw s r s' :
  disk_dirs s !! staging_name (im_pid env) path (im_nonce env (disk_ops s)) = None ->
  import_bytes_atomic try_from_slice genesis_paqus_bytes env path raw s = (r, s') ->
  disk_files s' = disk_files s /\
  match r with
  | Ok (height, hash, work) => exists bundle ledger d,
      disk_files s !! path = None /\ disk_dirs s !! path = None /\
      bundle_decode try_from_slice raw = Ok bundle /\ bundle_validate pretty bundle = Ok (ledger, work) /\
      ledger_tip_height ledger = Some height /\ ledger_tip_hash ledger = Some hash /\
      complete_database ledger d /\ disk_dirs s' = <[path := d]> (disk_dirs s)
  | Err _ => disk_dirs s' = disk_dirs s \/
      (exists e, im_fails env (pred (disk_ops s')) = Some e) /\
      delete (staging_name (im_pid env) path (im_nonce env (disk_ops s))) (disk_dirs s') = disk_dirs s
  end.
Proof.
  set (staging := staging_name _ _ _). intros Hnone E. unfold import_bytes_atomic in E.
  apply st_bind_inv in E as [(e & E & _)|(there & s1 & Eth & E)]; [done|]. injection Eth as Hth <-.
  destruct there; [injection E as <- <-; by split; [|left]|].
  apply orb_false_iff in Hth as [Hff%bool_decide_eq_false Hfd%bool_decide_eq_false].
  apply eq_None_not_Some in Hff. apply eq_None_not_Some in Hfd.
  apply st_bind_inv in E as [(e & [= _ <-] & ->)|(bundle & ? & [= Hb <-] & E)]; [by split; [|left]|].
  apply st_bind_inv in E as [(e & [= _ <-] & ->)|([ledger work] & ? & [= Hv <-] & E)]; [by split; [|left]|].
  apply st_bind_inv in E as [(e & [= _ <-] & ->)|(height & ? & [= Hh%ok_or_Ok <-] & E)]; [by split; [|left]|].
  apply st_bind_inv in E as [(e & [= _ <-] & ->)|(hash & ? & [= Hha%ok_or_Ok <-] & E)]; [by split; [|left]|].
  apply st_bind_inv in E as [(e & Est & ->)|(st & s2 & Est & E)]; unfold staging_path in Est; case_bool_decide; try done;
    [injection Est as _ <-; by split; [|left]|].
  injection Est as <- <-. fold staging in E.
  apply st_bind_inv in E as [(e & Ec & ->)|([] & s3 & Ec & E)].
  { apply attempt_step in Ec as [(_ & Hf & Hd)|(s4 & _ & _ & Ec)]; [|done]. cbn in Hf, Hd. split; [done|by left]. }
  apply attempt_step in Ec as [(? & _)|(s4 & Hf4 & Hd4 & Ec)]; [done|]. injection Ec as <-. cbn in Hf4, Hd4.
  rewrite Hd4, Hnone in E.
  apply st_bind_inv in E as [(e & Et & _)|(result & s5 & Et & E)]; [done|]. unfold st_try in Et. injection Et as <- <-.
  match type of E with context [build_and_activate _ _ _ _ _ ?x] => set (s6 := x) in E end.
  destruct (build_and_activate genesis_paqus_bytes env staging path ledger s6) as [result s7] eqn:Eb.
  apply (build_run staging path ledger s) in Eb as [[Hr (d & Hf7 & Hd7)]|(d & Hd & Hf7 & Hd7 & ->)]; [| |done|by split].
  - cbn [fst snd] in E. destruct result as [?|error]; [done|].
    apply st_bind_inv in E as [(e & Ei & _)|(broken & s8 & Ei & E)]; [done|]. injection Ei as <- <-.
    destruct (im_fails env (disk_ops s7)) as [e|] eqn:Ef; cbn in E; injection E as <- <-; cbn.
    + split; [done|]. right. split; [by exists e|]. by rewrite Hd7, delete_insert_id.
    + split; [done|]. left. by rewrite Hd7, delete_insert_id.
  - cbn [fst snd] in E. injection E as <- <-. split; [done|]. by exists bundle, ledger, d.
Qed.
End import_spec.

(** * A toy import

    A toy snapshot imported into a new database, and one whose last step fails. *)
From S2P Require Import Toy StorageExamples.
From S2P Require Import NodeExamples.

Module ImportToy.
Import Toy StorageToy NodeToy BundleExamples.

Definition genesis_file : Result GenesisError bytes := Ok [1; 2; 3].
(** The operations fail from number [n] on. *)
Definition failing_from (n : nat) : ImportEnv := {|
  im_fails k := if (n <=? k)%nat then Some {| io_kind := KindOther 28; io_text := "No space left on device" |} else None;
  im_kept _ := 1%nat; im_new _ := Ok empty_store; im_nonce _ := 7; im_pid := 42
|}.
Definition disk : Disk := {| disk_files := ∅; disk_dirs := ∅; disk_ops := 0 |}.
Definition imported (n : nat) := import_bytes_atomic from_slice genesis_file (failing_from n) "data/main" (ser exported) disk.
Lemma import_works : is_ok (imported 100).1 = true.
Proof. vm_compute. reflexivity. Qed.
(** The move into place fails, and so does the removal. *)
Lemma staging_left :
  map fst (map_to_list (disk_dirs (imported 4).2)) = ["data/.main.fastsync-42-7"].
Proof. vm_compute. reflexivity. Qed.

Lemma snapshot_import_atomic_witness : exists bundle ledger d,
  bundle_validate pretty bundle = Ok ledger /\ complete_database genesis_file (failing_from 100) ledger.1 d /\
  disk_dirs (imported 100).2 = {["data/main" := d]}.
Proof.
  pose proof import_works as Hok. destruct (imported 100) as [r s'] eqn:E. unfold imported in E.
  apply (snapshot_import_atomic from_slice genesis_file (failing_from 100) "data/main" (ser exported) disk r s') in E
    as [_ Hr]; [|reflexivity].
  destruct r as [[[height hash] work]|error]; [|discriminate Hok].
  destruct Hr as (bundle & ledger & d & _ & _ & _ & Hv & _ & _ & Hd & Hs).
  exists bundle, (ledger, work), d. split; [exact Hv|]. split; [exact Hd|exact Hs].
Defined.
End ImportToy.
