(* ===== verification/Database.v ===== *)
(** The database commands of the node (command/database.rs): check, back up and restore, over the disk
    of [SnapshotImport].

    Opening a node opens its directory, which is made when it is missing, loads the chain or writes
    the genesis one, and leaves what it wrote. [data.mdb] is the environment of a directory; [torn] is
    what a failed copy leaves of it. The result of a command is whether it reports success. *)
From Stdlib Require Import ZArith Lia.
From stdpp Require Import base numbers option strings list gmap.
From S2P Require Import Prelude BTree PaqusCore Net Mempool Compact Snapshot Recovery Lmdb Storage Cache Miner NodeState Node.
From S2P Require Import SnapshotImport.
Open Scope Z_scope.

Section database.
Context `{PaqusTypes} `{!TxOps} `{!BlockOps} `{!LedgerOps} `{!EventOps} `{!ForkOps}.
Context `{!ConsensusOps} `{!GenesisOps} `{!Borsh} `{!Lmdb} `{!ErrorDisplay} `{!StorageDisplay}.
Context (env : ImportEnv) (torn : nat -> option LmdbEnv) (default_config : Consensus) (default_database : string).
Abbreviation Do := (ST Disk string).

Definition set_database (path : string) (db : LmdbEnv) : Do unit :=
  on_dirs (fun dirs => <[path := {| genesis_artifact := dirs !! path ≫= genesis_artifact; database := Some db |}]> dirs).
(** [fs::create_dir_all] *)
Definition make_directory (wrap : IoError -> string) (path : string) : Do unit :=
  broken ← step (im_fails env);
  match broken with
  | Some e => st_fail (wrap e)
  | None => on_dirs (fun dirs => match dirs !! path with
                                 | Some _ => dirs
                                 | None => <[path := {| genesis_artifact := None; database := None |}]> dirs
                                 end)
  end.

(** [Node::init_or_load] at a path *)
Definition open_node (path : string) : Do Node :=
  let wrap e := "failed to open node storage: " +:+ show_node_error e in
  make_directory (fun e => wrap (NodeStorage (Io e))) path ;;
  s ← st_get;
  new ← step (im_new env);
  db ← st_lift (match disk_dirs s !! path ≫= database with
                | Some db => Ok db
                | None => map_err (fun e => wrap (NodeStorage e)) new
                end);
  let '(r, db) := init_or_load default_config db in
  match r with
  | Ok n => set_database path (storage n) ;; mret n
  | Err e => set_database path db ;; st_fail (wrap e)
  end.
Definition check_integrity (wrap : string -> string) (n : Node) : Do unit :=
  st_lift (map_err (fun e => wrap (show_storage_error e)) (validate_chain_integrity (storage n))).

(** [fs::copy] of [data.mdb] *)
Definition copy_database (wrap : string -> string) (source destination : string) : Do unit :=
  s ← st_get;
  broken ← step (im_fails env);
  match broken, disk_dirs s !! source ≫= database with
  | Some e, _ =>
      left_ ← step torn;
      match left_ with Some db => set_database destination db | None => mret tt end ;;
      st_fail (wrap (io_text e))
  | None, None => st_fail (wrap "No such file or directory (os error 2)")
  | None, Some db => set_database destination db
  end.
(** A new directory with a copy of a database *)
Definition copy_to_new (there : string) (made copied : string -> string) (source destination : string) : Do unit :=
  found ← path_exists destination;
  if found : bool then st_fail there else
  make_directory (fun e => made (io_text e)) destination ;;
  copy_database copied source destination.

Definition backup (source destination : string) : Do unit :=
  n ← open_node source;
  let '(flushed, n) := flush_to_storage n in
  set_database source (storage n) ;;
  st_lift (map_err (fun e => "failed to flush database before backup: " +:+ show_node_error e) flushed) ;;
  check_integrity (fun e => "refusing to back up invalid database: " +:+ e) n ;;
  copy_to_new "backup destination already exists" (fun e => "failed to create backup directory: " +:+ e)
    (fun e => "failed to copy database backup: " +:+ e) source destination.
Definition restore (backup destination : string) : Do unit :=
  n ← open_node backup;
  check_integrity (fun e => "refusing to restore invalid backup: " +:+ e) n ;;
  copy_to_new "restore destination already exists" (fun e => "failed to create restore directory: " +:+ e)
    (fun e => "failed to restore database: " +:+ e) backup destination ;;
  restored ← open_node destination;
  check_integrity (fun e => "restored database failed integrity check: " +:+ e) restored.
Definition check (path : string) : Do unit :=
  n ← open_node path; check_integrity (fun e => "database integrity check failed: " +:+ e) n.

Definition run (args : list string) : Do unit :=
  match args with
  | command :: args =>
      if bool_decide (command = "check") then check (unwrap_or default_database (head args)) else
      if bool_decide (command = "backup") then
        destination ← st_lift (ok_or (args !! 1%nat) "usage: paqus node db backup <database> <backup>");
        backup (unwrap_or default_database (head args)) destination
      else if bool_decide (command = "restore") then
        source ← st_lift (ok_or (head args) "usage: paqus node db restore <backup> <database>");
        destination ← st_lift (ok_or (args !! 1%nat) "usage: paqus node db restore <backup> <database>");
        restore source destination
      else st_fail "usage: paqus node db <check|backup|restore> [paths]"
  | [] => st_fail "usage: paqus node db <check|backup|restore> [paths]"
  end.

(** ** Only the directories a command names change *)

Definition others (names : list string) (s : Disk) : gmap string bytes * gmap string DbDir :=
  (disk_files s, filter (fun kv => kv.1 ∉ names) (disk_dirs s)).
Lemma others_insert (names : list string) path d s :
  path ∈ names -> filter (fun kv => kv.1 ∉ names) (<[path := d]> (disk_dirs s)) = filter (fun kv => kv.1 ∉ names) (disk_dirs s).
Proof.
  intros Hin. rewrite map_filter_insert_False by (intros Hn; by apply Hn). apply map_eq. intros k.
  rewrite !map_lookup_filter. destruct (decide (k = path)) as [->|Hk]; [rewrite lookup_delete_eq|by rewrite lookup_delete_ne].
  destruct (disk_dirs s !! path); cbn; [|done]. rewrite option_guard_False; [done|]. intros Hn. by apply Hn.
Qed.

Lemma others_step {A} names (f : nat -> A) : st_keeps (others names) (step f).
Proof. by intros x s Hs. Qed.
Lemma others_set names path db : path ∈ names -> st_keeps (others names) (set_database path db).
Proof. intros Hin x s Hs. unfold others in *. cbn. by rewrite others_insert. Qed.
Lemma others_make names wrap path : path ∈ names -> st_keeps (others names) (make_directory wrap path).
Proof.
  intros Hin x. unfold make_directory. st_steps ltac:(apply others_step).
  intros s Hs. unfold others in *. cbn. destruct (disk_dirs s !! path); [done|]. by rewrite others_insert.
Qed.
Lemma others_open names path : path ∈ names -> st_keeps (others names) (open_node path).
Proof.
  intros Hin x. unfold open_node.
  st_steps ltac:(first [by apply others_make | by apply others_set | apply others_step]).
Qed.
Lemma others_copy names there made copied source destination :
  destination ∈ names -> st_keeps (others names) (copy_to_new there made copied source destination).
Proof.
  intros Hin x. unfold copy_to_new, path_exists, copy_database.
  st_steps ltac:(first [by apply others_make | by apply others_set | apply others_step]).
Qed.

(** ** What a command that succeeds has done *)

Definition database_at (path : string) (s : Disk) : option LmdbEnv := disk_dirs s !! path ≫= database.
Lemma set_database_at path db s r s' :
  set_database path db s = (r, s') -> r = Ok tt /\ database_at path s' = Some db.
Proof. intros [= <- <-]. split; [done|]. unfold database_at. cbn. by rewrite lookup_insert_eq. Qed.
Lemma opened_at path s n s' : open_node path s = (Ok n, s') -> database_at path s' = Some (storage n).
Proof.
  unfold open_node. intros E. apply st_bind_inv in E as [(? & _ & E)|([] & s1 & _ & E)]; [done|].
  apply st_bind_inv in E as [(? & _ & E)|(s2 & s3 & _ & E)]; [done|].
  apply st_bind_inv in E as [(? & _ & E)|(new & s4 & _ & E)]; [done|].
  apply st_bind_inv in E as [(? & _ & E)|(db & s5 & _ & E)]; [done|].
  destruct (init_or_load default_config db) as [[m|e] db'];
    apply st_bind_inv in E as [(? & _ & E)|([] & s6 & Hset & E)]; try done.
  injection E as <- <-. by apply set_database_at in Hset as [_ ?].
Qed.
Lemma copied_to_new there made copied source destination db s s' :
  database_at source s = Some db -> source <> destination ->
  copy_to_new there made copied source destination s = (Ok tt, s') ->
  disk_files s !! destination = None /\ disk_dirs s !! destination = None /\
  database_at destination s' = Some db /\ database_at source s' = Some db.
Proof.
  intros Hdb Hne E. unfold copy_to_new in E.
  apply st_bind_inv in E as [(? & _ & E)|(found & s1 & Hf & E)]; [done|]. injection Hf as Hf <-.
  destruct found; [done|]. apply orb_false_iff in Hf as [Hf%bool_decide_eq_false Hd%bool_decide_eq_false].
  apply eq_None_not_Some in Hf. apply eq_None_not_Some in Hd. split; [done|]. split; [done|].
  apply st_bind_inv in E as [(? & _ & E)|([] & s2 & Hm & E)]; [done|].
  unfold make_directory in Hm. apply st_bind_inv in Hm as [(? & _ & Hm)|(broken & s3 & Hb & Hm)]; [done|].
  injection Hb as <- <-. destruct (im_fails env (disk_ops s)); [done|]. injection Hm as <-.
  unfold copy_database in E. apply st_bind_inv in E as [(? & _ & E)|(s4 & s5 & Hg & E)]; [done|]. injection Hg as <- <-.
  apply st_bind_inv in E as [(? & _ & E)|(broken & s6 & Hb & E)]; [done|]. injection Hb as <- <-.
  cbn in E. rewrite Hd in E. rewrite lookup_insert_ne in E by done. unfold database_at in Hdb. rewrite Hdb in E.
  destruct (im_fails env _).
  { apply st_bind_inv in E as [(? & _ & E)|(left_ & s7 & _ & E)]; [done|].
    apply st_bind_inv in E as [(? & _ & E)|(? & s8 & _ & E)]; done. }
  injection E as <-. unfold database_at. cbn. rewrite lookup_insert_eq. split; [done|].
  rewrite !lookup_insert_ne by done. exact Hdb.
Qed.

(** A backup that succeeds is a new directory with exactly the database of the source, which has
    passed the integrity check; nothing that existed at the destination is overwritten. Whatever
    happens, no other directory or file changes. *)
Theorem backup_exact source destination s r s' :
  source <> destination -> backup source destination s = (r, s') ->
  others [source; destination] s' = others [source; destination] s /\
  (r = Ok tt -> disk_dirs s !! destination = None /\
    exists db, database_at source s' = Some db /\ database_at destination s' = Some db /\
      validate_chain_integrity db = Ok tt).
Proof.
  intros Hne E. split.
  { assert (Hk : st_keeps (others [source; destination]) (backup source destination)).
    { intros x. unfold backup, check_integrity.
      st_steps ltac:(first [apply others_open; by left | apply others_set; by left | apply others_copy; right; by left]). }
    pose proof (st_keeps_eq _ _ s Hk) as He. by rewrite E in He. }
  intros ->. unfold backup in E. apply st_bind_inv in E as [(? & _ & E)|(n & s1 & Ho & E)]; [done|].
  assert (Hothers : others [source] s1 = others [source] s).
  { pose proof (st_keeps_eq _ _ s (others_open [source] source ltac:(by left))) as He. by rewrite Ho in He. }
  destruct (flush_to_storage n) as [flushed n'].
  apply st_bind_inv in E as [(? & _ & E)|([] & s2 & Hset & E)]; [done|].
  pose proof (others_set [source] source (storage n') ltac:(by left) (others [source] s) s1 Hothers) as Hother2.
  rewrite Hset in Hother2. apply set_database_at in Hset as [_ Hdb].
  apply st_bind_inv in E as [(? & _ & E)|(? & s3 & [= _ <-] & E)]; [done|].
  apply st_bind_inv in E as [(? & _ & E)|([] & s4 & [= Hv%map_err_Ok <-] & E)]; [done|].
  apply (copied_to_new _ _ _ _ _ _ _ _ Hdb Hne) in E as (_ & Hnone & Hd & Hs). split; [|by exists (storage n')].
  injection Hother2 as _ Hf. cbn in Hf. apply (f_equal (fun m => m !! destination)) in Hf. revert Hf.
  rewrite !map_lookup_filter, Hnone. cbn. destruct (disk_dirs s !! destination) as [d|]; [|done]. cbn.
  rewrite option_guard_True; [done|]. rewrite list_elem_of_singleton. intros Heq. by apply Hne.
Qed.
(** A restore that succeeds has put a database that passes the integrity check where nothing was. *)
Theorem restore_checked from destination s s' :
  restore from destination s = (Ok tt, s') ->
  exists db, database_at destination s' = Some db /\ validate_chain_integrity db = Ok tt.
Proof.
  unfold restore. intros E. apply st_bind_inv in E as [(? & _ & E)|(n & s1 & _ & E)]; [done|].
  apply st_bind_inv in E as [(? & _ & E)|([] & s2 & _ & E)]; [done|].
  apply st_bind_inv in E as [(? & _ & E)|([] & s3 & _ & E)]; [done|].
  apply st_bind_inv in E as [(? & _ & E)|(m & s4 & Ho%opened_at & E)]; [done|].
  injection E as Hv%map_err_Ok <-. by exists (storage m).
Qed.
End database.
