(* ===== verification/Message.v ===== *)
(** What peers say to each other: runtime/network/message.rs, error.rs and metrics.rs.

    The messages and their envelope, version compatibility, the bounded encoding of envelopes
    and the traffic counters. *)
From Stdlib Require Import ZArith Lia.
From stdpp Require Import base numbers option strings list pretty.
From S2P Require Import Prelude BTree PaqusCore Mempool Compact Snapshot Lmdb Storage Cache NodeState.
Open Scope Z_scope.

Definition P2P_WIRE_FORMAT_VERSION : Z := 4.
Definition MAX_NETWORK_MESSAGE_SIZE : Z := 8 * 1024 * 1024.

(** ** Messages *)

Record PeerInfo := { pi_address : string }.
Record TipInfo := { ti_height : BlockHeight; ti_hash : BlockHash; ti_work : list Z }.
Record VersionInfo := {
  protocol_version : Z;
  p2p_wire_format_version : Z;
  chain_id : Z;
  chain_name : string;
  protocol_stage : string;
  pow_algorithm : string;
  difficulty_algorithm : string;
  network_magic : bytes;
  tip : option TipInfo
}.
Inductive RejectReason :=
| ProtocolVersionMismatch | ChainMismatch | NetworkMismatch | ConsensusMismatch | InvalidMessage.
Inductive InventoryItem :=
| InvBlock (hash : BlockHash)
| InvTransaction (hash : TransactionHash).

Section version.
Context `{!ChainParams}.

Definition VersionInfo_local (tip : option TipInfo) : VersionInfo := {|
  protocol_version := params_protocol_version;
  p2p_wire_format_version := P2P_WIRE_FORMAT_VERSION;
  chain_id := params_chain_id;
  chain_name := params_chain_name;
  protocol_stage := params_protocol_stage;
  pow_algorithm := params_pow_algorithm;
  difficulty_algorithm := params_difficulty_algorithm;
  network_magic := params_network_magic;
  tip := tip
|}.

Definition validate_compatibility (v : VersionInfo) : Result RejectReason unit :=
  if negb (bool_decide (network_magic v = params_network_magic)) then Err NetworkMismatch else
  if negb (chain_id v =? params_chain_id)
     || negb (bool_decide (chain_name v = params_chain_name))
     || negb (bool_decide (protocol_stage v = params_protocol_stage))
  then Err ChainMismatch else
  if negb (protocol_version v =? params_protocol_version) then Err ProtocolVersionMismatch else
  if negb (p2p_wire_format_version v =? P2P_WIRE_FORMAT_VERSION) then Err ProtocolVersionMismatch else
  if negb (bool_decide (pow_algorithm v = params_pow_algorithm))
     || negb (bool_decide (difficulty_algorithm v = params_difficulty_algorithm))
  then Err ConsensusMismatch else
  Ok tt.
End version.

Section messages.
Context `{PaqusTypes}.

Inductive NetworkMessage :=
| Version (version : VersionInfo)
| VerAck (version : VersionInfo)
| Reject (reason : RejectReason) (message : string)
| Ping (nonce : Z)
| Pong (nonce : Z)
| GetTip
| Tip (tip : TipInfo)
| GetBlockByHeight (height : BlockHeight)
| GetBlocksByHeightRange (start : BlockHeight) (limit : Z)
| GetBlockHeadersByHeightRange (start : BlockHeight) (limit : Z)
| GetCommonAncestor (locator : list BlockHash)
| CommonAncestor (ancestor : option TipInfo)
| GetBlockByHash (hash : BlockHash)
| MsgBlock (block : Block)
| MsgBlocks (blocks : list Block)
| MsgBlockHeaders (headers : list BlockHeader)
| GetSnapshotManifest (height : BlockHeight) (block_hash : BlockHash)
| SnapshotManifest (height : BlockHeight) (block_hash : BlockHash) (size : Z)
    (content_hash : Hash) (chunk_size : Z)
| GetSnapshotChunk (height : BlockHeight) (block_hash : BlockHash) (offset length : Z)
| SnapshotChunk (height : BlockHeight) (block_hash : BlockHash) (offset : Z)
    (compression : SnapshotCompression) (uncompressed_length : Z) (raw : bytes)
| Inventory (items : list InventoryItem)
| GetData (items : list InventoryItem)
| MsgTransaction (transaction : SignedProtocolTransaction)
| MsgTransactions (transactions : list SignedProtocolTransaction)
| GetMempoolInventory
| ReconcileMempool (epoch : Z) (short_ids : list Z)
| GetPeers
| Peers (peers : list PeerInfo)
| MsgCompactBlock (compact : CompactBlock)
| GetCompactBlockTransactions (block_hash : BlockHash) (indexes : list Z)
| CompactBlockTransactions (block_hash : BlockHash) (transactions : list IndexedBlockTransaction).

Record NetworkEnvelope := {
  magic : bytes; request_id : Z; response_to : Z; message : NetworkMessage
}.

(** ** Traffic counters *)

(** [NETWORK_METRICS]: an [AtomicU64] is its value; [fetch_add] wraps around. *)
Record NetworkMetrics := {
  rx_bytes : list Z;
  tx_bytes : list Z;
  duplicate_transactions : Z;
  compact_success : Z;
  compact_fallback : Z;
  compact_missing_transactions : Z
}.
Definition metrics_new : NetworkMetrics := {|
  rx_bytes := replicate 6 0; tx_bytes := replicate 6 0; duplicate_transactions := 0;
  compact_success := 0; compact_fallback := 0; compact_missing_transactions := 0
|}.

Definition category (m : NetworkMessage) : nat :=
  match m with
  | MsgBlock _ | MsgBlocks _ | MsgBlockHeaders _ | MsgCompactBlock _ | GetBlockByHeight _
  | GetBlocksByHeightRange _ _ | GetBlockHeadersByHeightRange _ _ | GetCommonAncestor _
  | CommonAncestor _ | GetBlockByHash _ | GetCompactBlockTransactions _ _
  | CompactBlockTransactions _ _ => 1
  | MsgTransaction _ | MsgTransactions _ | Inventory _ | GetData _ | GetMempoolInventory => 2
  | GetSnapshotManifest _ _ | SnapshotManifest _ _ _ _ _ | GetSnapshotChunk _ _ _ _
  | SnapshotChunk _ _ _ _ _ _ => 3
  | ReconcileMempool _ _ => 4
  | GetPeers | Peers _ => 5
  | _ => 0
  end.

Definition fetch_add (i : nat) (n : Z) (counters : list Z) : list Z :=
  alter (fun c => u64_wrapping_add c n) i counters.
Definition record_rx (m : NetworkMessage) (n : Z) (s : NetworkMetrics) : NetworkMetrics := {|
  rx_bytes := fetch_add (category m) n (rx_bytes s); tx_bytes := tx_bytes s;
  duplicate_transactions := duplicate_transactions s; compact_success := compact_success s;
  compact_fallback := compact_fallback s;
  compact_missing_transactions := compact_missing_transactions s
|}.
Definition record_tx (m : NetworkMessage) (n : Z) (s : NetworkMetrics) : NetworkMetrics := {|
  rx_bytes := rx_bytes s; tx_bytes := fetch_add (category m) n (tx_bytes s);
  duplicate_transactions := duplicate_transactions s; compact_success := compact_success s;
  compact_fallback := compact_fallback s;
  compact_missing_transactions := compact_missing_transactions s
|}.
Definition count_duplicate (s : NetworkMetrics) : NetworkMetrics := {|
  rx_bytes := rx_bytes s; tx_bytes := tx_bytes s;
  duplicate_transactions := u64_wrapping_add (duplicate_transactions s) 1;
  compact_success := compact_success s; compact_fallback := compact_fallback s;
  compact_missing_transactions := compact_missing_transactions s
|}.
Definition count_compact_success (s : NetworkMetrics) : NetworkMetrics := {|
  rx_bytes := rx_bytes s; tx_bytes := tx_bytes s;
  duplicate_transactions := duplicate_transactions s;
  compact_success := u64_wrapping_add (compact_success s) 1;
  compact_fallback := compact_fallback s;
  compact_missing_transactions := compact_missing_transactions s
|}.
Definition count_compact_fallback (s : NetworkMetrics) : NetworkMetrics := {|
  rx_bytes := rx_bytes s; tx_bytes := tx_bytes s;
  duplicate_transactions := duplicate_transactions s; compact_success := compact_success s;
  compact_fallback := u64_wrapping_add (compact_fallback s) 1;
  compact_missing_transactions := compact_missing_transactions s
|}.
Definition count_compact_missing (n : Z) (s : NetworkMetrics) : NetworkMetrics := {|
  rx_bytes := rx_bytes s; tx_bytes := tx_bytes s;
  duplicate_transactions := duplicate_transactions s; compact_success := compact_success s;
  compact_fallback := compact_fallback s;
  compact_missing_transactions := u64_wrapping_add (compact_missing_transactions s) n
|}.
End messages.

(** ** Errors *)

Inductive NetworkError :=
| MessageTooLarge
| NetworkNode (e : NodeError)
| NetworkIo (e : IoError)
| NetworkSerialization (e : IoError).

Definition show_network_error `{ErrorDisplay} `{StorageDisplay} (e : NetworkError) : string :=
  match e with
  | MessageTooLarge => "network message exceeds maximum size"
  | NetworkNode e => "network node handler error: " +:+ show_node_error e
  | NetworkIo e => "network I/O error: " +:+ io_text e
  | NetworkSerialization e => "network message serialization error: " +:+ io_text e
  end.
#[global] Arguments show_network_error : simpl never.

(** ** Envelopes *)

(** borsh of an envelope. *)
Class EnvelopeBorsh `{PaqusTypes} := {
  envelope_to_vec : NetworkEnvelope -> Result IoError bytes;
  envelope_try_from_slice : bytes -> Result IoError NetworkEnvelope
}.
Class EnvelopeLaws `{PaqusTypes} `{!EnvelopeBorsh} : Prop :=
  envelope_roundtrip e b : envelope_to_vec e = Ok b -> envelope_try_from_slice b = Ok e.

Section envelopes.
Context `{PaqusTypes} `{!ChainParams} `{!EnvelopeBorsh}.

Definition envelope_new (m : NetworkMessage) : NetworkEnvelope :=
  {| magic := params_network_magic; request_id := 0; response_to := 0; message := m |}.
Definition envelope_request (id : Z) (m : NetworkMessage) : NetworkEnvelope :=
  {| magic := params_network_magic; request_id := id; response_to := 0; message := m |}.
Definition envelope_response (id : Z) (m : NetworkMessage) : NetworkEnvelope :=
  {| magic := params_network_magic; request_id := 0; response_to := id; message := m |}.
Definition to_envelope (m : NetworkMessage) : NetworkEnvelope := envelope_new m.

Definition envelope_to_bytes (e : NetworkEnvelope) : Result NetworkError bytes :=
  b ← map_err NetworkSerialization (envelope_to_vec e);
  if MAX_NETWORK_MESSAGE_SIZE <? zlen b then Err MessageTooLarge else Ok b.

Definition envelope_from_bytes (b : bytes) : Result NetworkError NetworkEnvelope :=
  if MAX_NETWORK_MESSAGE_SIZE <? zlen b then Err MessageTooLarge else
  e ← map_err NetworkSerialization (envelope_try_from_slice b);
  if negb (bool_decide (magic e = params_network_magic))
  then Err (NetworkSerialization {| io_kind := InvalidData; io_text := "network magic mismatch" |})
  else Ok e.
End envelopes.

(** Peers that agree on every field of the version are accepted, and nobody else; the local
    version is always acceptable. *)
Lemma validate_compatibility_exact `{!ChainParams} (v : VersionInfo) :
  validate_compatibility v = Ok tt <-> v = VersionInfo_local (tip v).
Proof.
  unfold validate_compatibility, VersionInfo_local. destruct v; cbn.
  repeat case_bool_decide; cbn; repeat (case_match; cbn); rewrite ?negb_true_iff, ?negb_false_iff,
    ?Z.eqb_eq, ?Z.eqb_neq in *; split; intros Heq; try discriminate; try (injection Heq; congruence);
    subst; try done.
  all: unfold negb in *; repeat (case_match; rewrite ?Z.eqb_eq, ?Z.eqb_neq in * ); subst; try done; congruence.
Qed.
