(* ===== verification/Transport.v ===== *)
(** Framing on a byte stream: runtime/network/transport.rs.

    A frame is a four-byte big-endian length and the encoded envelope. What a reader delivers
    is a list of events, bytes that arrive together or a failed call (an interrupted one is
    retried); the end of the list is the end of the stream. A writer takes whole slices. *)
From Stdlib Require Import ZArith Lia.
From stdpp Require Import base numbers option strings list pretty.
From S2P Require Import Prelude BTree PaqusCore Mempool Compact Snapshot Lmdb Storage Cache NodeState.
From S2P Require Import Message Toy.
Open Scope Z_scope.

Definition MESSAGE_LENGTH_SIZE : Z := 4.

(** ** [Read] and [Write] *)

Inductive ReadEvent :=
| Arrives (b : bytes)
| Breaks (e : IoError).

Class Write (W : Type) := write_all : bytes -> ST W IoError unit.
(** [Vec<u8>] as a writer. *)
#[global] Instance write_vec : Write bytes := fun b => st_modify (fun w => w ++ b).

Definition closed (phase : string) (expected received : Z) : NetworkError :=
  NetworkIo {| io_kind := UnexpectedEof;
    io_text := "peer closed while reading " +:+ phase +:+ ": expected_bytes=" +:+ pretty expected
      +:+ " received_bytes=" +:+ pretty received |}.
Definition broken (phase : string) (expected received : Z) (e : IoError) : NetworkError :=
  NetworkIo {| io_kind := io_kind e;
    io_text := "failed while reading " +:+ phase +:+ ": expected_bytes=" +:+ pretty expected
      +:+ " received_bytes=" +:+ pretty received +:+ ": " +:+ io_text e |}.
#[global] Arguments closed : simpl never.
#[global] Arguments broken : simpl never.

(** [read] fills the free part of the buffer from the bytes that have arrived; when some are
    left over the buffer is full and the loop ends. *)
Fixpoint read_exact_logged (phase : string) (expected : Z) (received : bytes)
    (s : list ReadEvent) : Result NetworkError bytes * list ReadEvent :=
  if expected <=? zlen received then (Ok received, s) else
  match s with
  | [] => (Err (closed phase expected (zlen received)), [])
  | Arrives b :: s =>
      let free := Z.to_nat (expected - zlen received) in
      match take free b, drop free b with
      | [], _ => (Err (closed phase expected (zlen received)), s)
      | got, [] => read_exact_logged phase expected (received ++ got) s
      | got, rest => (Ok (received ++ got), Arrives rest :: s)
      end
  | Breaks e :: s =>
      if bool_decide (io_kind e = Interrupted)
      then read_exact_logged phase expected received s
      else (Err (broken phase expected (zlen received) e), s)
  end.

(** [u32::from_be_bytes] *)
Definition from_be_bytes (b : bytes) : Z := from_le_bytes (reverse b).

Section transport.
Context `{PaqusTypes} `{!ChainParams} `{!EnvelopeBorsh}.

(** The state is the writer, or the stream, and the counters. *)
Definition on_channel {C A} (m : ST C NetworkError A) : ST (C * NetworkMetrics) NetworkError A :=
  fun s => ((m s.1).1, ((m s.1).2, s.2)).

Definition write_message {W} `{!Write W} (e : NetworkEnvelope)
    : ST (W * NetworkMetrics) NetworkError unit :=
  b ← st_lift (envelope_to_bytes e);
  (if U32_MAX <? zlen b then st_fail MessageTooLarge else mret tt) ;;
  on_channel (st_map_err NetworkIo (write_all (be_bytes 4 (zlen b)))) ;;
  on_channel (st_map_err NetworkIo (write_all b)) ;;
  st_modify (fun s => (s.1, record_tx (message e) (zlen b + 4) s.2)).

Definition read_message : ST (list ReadEvent * NetworkMetrics) NetworkError NetworkEnvelope :=
  length_bytes ← on_channel (read_exact_logged "length" MESSAGE_LENGTH_SIZE []);
  let length := from_be_bytes length_bytes in
  if MAX_NETWORK_MESSAGE_SIZE <? length then st_fail MessageTooLarge else
  b ← on_channel (read_exact_logged "payload" length []);
  e ← st_lift (envelope_from_bytes b);
  st_modify (fun s => (s.1, record_rx (message e) (zlen b + 4) s.2)) ;;
  mret e.
End transport.

(** ** Streams that deliver given bytes *)

(** [delivers s b]: the calls on [s] hand over [b] in pieces of any size, with interruptions in
    between, and then the stream ends. *)
Inductive delivers : list ReadEvent -> bytes -> Prop :=
| delivers_end : delivers [] []
| delivers_bytes b s r : b <> [] -> delivers s r -> delivers (Arrives b :: s) (b ++ r)
| delivers_interrupted e s r : io_kind e = Interrupted -> delivers s r -> delivers (Breaks e :: s) r.

Lemma read_exact_delivers phase expected received s b :
  delivers s b -> zlen received <= expected <= zlen received + zlen b ->
  exists s', read_exact_logged phase expected received s =
      (Ok (received ++ take (Z.to_nat (expected - zlen received)) b), s') /\
    delivers s' (drop (Z.to_nat (expected - zlen received)) b).
Proof.
  intros Hs. revert received. induction Hs as [|b s r Hb Hs IH|e s r He Hs IH]; intros received Hlen; cbn.
  - destruct (Z.leb_spec expected (zlen received)); [|unfold zlen in *; cbn in *; lia].
    exists []. rewrite take_nil, drop_nil, app_nil_r. split; [done|constructor].
  - destruct (Z.leb_spec expected (zlen received)) as [Hfull|Hfree].
    { replace (expected - zlen received) with 0 by lia. cbn. rewrite app_nil_r.
      eexists; split; [done|by constructor]. }
    set (n := Z.to_nat (expected - zlen received)). assert (0 < n)%nat by lia.
    destruct (take n b) as [|x got] eqn:Ht.
    { destruct b; [done|]. destruct n; [lia|]. discriminate. }
    destruct (drop n b) as [|y rest] eqn:Hd.
    + assert (Hle : (length b <= n)%nat).
      { apply (f_equal length) in Hd. rewrite length_drop in Hd. cbn in Hd. lia. }
      rewrite take_ge in Ht by done. rewrite <- Ht in *.
      destruct (IH (received ++ b)) as (s' & -> & Hs').
      { unfold zlen in *. rewrite !length_app in *. lia. }
      assert (Hn : Z.to_nat (expected - zlen (received ++ b)) = (n - length b)%nat)
        by (unfold n, zlen; rewrite length_app; lia).
      rewrite Hn in *. exists s'.
      rewrite take_app, (take_ge b), drop_app, (drop_ge b), <- app_assoc by done. split; [done|done].
    + assert (Hle : (n <= length b)%nat).
      { apply (f_equal length) in Hd. rewrite length_drop in Hd. cbn in Hd. lia. }
      rewrite take_app_le, drop_app_le, Ht, Hd by done.
      eexists; split; [done|]. by constructor.
  - destruct (Z.leb_spec expected (zlen received)) as [Hfull|Hfree].
    { replace (expected - zlen received) with 0 by lia. cbn. rewrite app_nil_r.
      eexists; split; [done|by constructor]. }
    rewrite bool_decide_true by done. apply IH. lia.
Qed.

(** A stream that ends early is reported as such. *)
Lemma read_exact_truncated phase expected received s b :
  delivers s b -> zlen received + zlen b < expected ->
  exists n s', read_exact_logged phase expected received s = (Err (closed phase expected n), s').
Proof.
  intros Hs. revert received. induction Hs as [|b s r Hb Hs IH|e s r He Hs IH]; intros received Hlen; cbn.
  all: destruct (Z.leb_spec expected (zlen received)) as [Hfull|Hfree]; [unfold zlen in *; lia|].
  - eauto.
  - set (n := Z.to_nat (expected - zlen received)). assert (Hn : (length b <= n)%nat)
      by (unfold n; clear n; unfold zlen in *; rewrite length_app in Hlen; lia).
    rewrite take_ge, drop_ge by done. destruct b as [|x b]; [done|].
    apply IH. unfold zlen in *. rewrite !length_app in *. lia.
  - rewrite bool_decide_true by done. by apply IH.
Qed.

(** ** Big-endian lengths *)

Lemma from_le_bytes_app a b : from_le_bytes (a ++ b) = from_le_bytes a + 256 ^ zlen a * from_le_bytes b.
Proof.
  induction a as [|x a IH]; cbn [app from_le_bytes]; [unfold zlen; cbn [length]; lia|].
  rewrite IH. replace (zlen (x :: a)) with (Z.succ (zlen a)) by (unfold zlen; cbn [length]; lia).
  rewrite Z.pow_succ_r by (unfold zlen; lia). lia.
Qed.
Lemma from_be_bytes_be_bytes w n : from_be_bytes (be_bytes w n) = n mod 256 ^ Z.of_nat w.
Proof.
  unfold from_be_bytes. induction w as [|w IH]; cbn [be_bytes].
  { by rewrite Z.mod_1_r. }
  rewrite reverse_cons, from_le_bytes_app, IH. cbn [from_le_bytes].
  unfold zlen. rewrite length_reverse, be_bytes_length.
  rewrite Nat2Z.inj_succ, Z.pow_succ_r by lia.
  rewrite (Z.mul_comm 256 (256 ^ _)), Z.rem_mul_r by lia. ring.
Qed.

(** ** Frames *)

Section frames.
Context `{PaqusTypes} `{!ChainParams} `{!EnvelopeBorsh} `{!EnvelopeLaws}.

Definition frame (b : bytes) : bytes := be_bytes 4 (zlen b) ++ b.

Lemma envelope_codec e b :
  magic e = params_network_magic -> envelope_to_bytes e = Ok b ->
  envelope_from_bytes b = Ok e /\ zlen b <= MAX_NETWORK_MESSAGE_SIZE.
Proof.
  intros Hmagic. unfold envelope_to_bytes, envelope_from_bytes. rewrite bind_Ok.
  intros (b' & Hb & Hlen). apply map_err_Ok in Hb.
  destruct (Z.ltb_spec MAX_NETWORK_MESSAGE_SIZE (zlen b')); [done|]. injection Hlen as ->.
  destruct (Z.ltb_spec MAX_NETWORK_MESSAGE_SIZE (zlen b)); [lia|].
  rewrite (envelope_roundtrip e b Hb). cbn. by rewrite bool_decide_true.
Qed.

Lemma write_message_frame e w m w' m' :
  write_message (W := bytes) e (w, m) = (Ok tt, (w', m')) ->
  exists b, envelope_to_bytes e = Ok b /\ w' = w ++ frame b /\
    m' = record_tx (message e) (zlen (frame b)) m.
Proof.
  unfold write_message. destruct (envelope_to_bytes e) as [b|]; st_simpl; [|done].
  destruct (U32_MAX <? zlen b); st_simpl; [done|].
  unfold on_channel, st_map_err, write_all, write_vec, st_modify, mbind, st_bind; cbn [fst snd map_err].
  intros [= <- <-].
  exists b. unfold frame. split_and!; [done|by rewrite app_assoc|].
  f_equal. unfold zlen. rewrite length_app, be_bytes_length. lia.
Qed.

(** The length field is read back as the payload's length. *)
Lemma read_length (b : bytes) :
  zlen b <= MAX_NETWORK_MESSAGE_SIZE -> from_be_bytes (be_bytes 4 (zlen b)) = zlen b.
Proof.
  intros Hb. rewrite from_be_bytes_be_bytes, Z.mod_small; [done|].
  unfold MAX_NETWORK_MESSAGE_SIZE, zlen in *. cbn. lia.
Qed.

Lemma read_message_delivers e b s rest rm :
  envelope_from_bytes b = Ok e -> zlen b <= MAX_NETWORK_MESSAGE_SIZE -> delivers s (frame b ++ rest) ->
  exists s', delivers s' rest /\
    read_message (s, rm) = (Ok e, (s', record_rx (message e) (zlen (frame b)) rm)).
Proof.
  intros Hdec Hlen Hs. unfold frame in *. rewrite <- app_assoc in Hs.
  destruct (read_exact_delivers "length" 4 [] _ _ Hs) as (s1 & Hr1 & Hs1).
  { unfold zlen. rewrite !length_app, be_bytes_length. cbn [length]. lia. }
  replace (Z.to_nat (4 - zlen (@nil Z))) with (length (be_bytes 4 (zlen b))) in * by (by rewrite be_bytes_length).
  rewrite take_app_length in Hr1. rewrite drop_app_length in Hs1.
  destruct (read_exact_delivers "payload" (zlen b) [] _ _ Hs1) as (s2 & Hr2 & Hs2).
  { unfold zlen. rewrite length_app. cbn [length]. lia. }
  replace (Z.to_nat (zlen b - zlen (@nil Z))) with (length b) in * by (unfold zlen; cbn [length]; lia).
  rewrite take_app_length in Hr2. rewrite drop_app_length in Hs2.
  exists s2. split; [done|]. unfold read_message.
  erewrite st_bind_ok by (unfold on_channel, MESSAGE_LENGTH_SIZE; cbn [fst snd]; by rewrite Hr1).
  cbn [app]. rewrite read_length by done. destruct (Z.ltb_spec MAX_NETWORK_MESSAGE_SIZE (zlen b)); [lia|].
  erewrite st_bind_ok by (unfold on_channel; cbn [fst snd]; by rewrite Hr2).
  cbn [app]. rewrite Hdec. st_simpl. unfold mret, st_ret. cbn [fst snd]. do 4 f_equal.
  unfold zlen. rewrite !length_app, be_bytes_length. lia.
Qed.

(** whatever pieces the network cuts a written frame into, and however often a call is
    interrupted, the reader returns the envelope that was written, counts the bytes of the
    frame, and leaves the stream at the first byte after it. *)
Theorem frame_roundtrip e (w w' : bytes) m m' s rest rm :
  magic e = params_network_magic ->
  write_message e (w, m) = (Ok tt, (w', m')) ->
  delivers s (drop (length w) w' ++ rest) ->
  exists s', delivers s' rest /\
    read_message (s, rm) =
      (Ok e, (s', record_rx (message e) (zlen w' - zlen w) rm)).
Proof.
  intros Hmagic Hw Hs. destruct (write_message_frame _ _ _ _ _ Hw) as (b & Hb & -> & _).
  destruct (envelope_codec e b Hmagic Hb) as [Hdec Hlen]. rewrite drop_app_length in Hs.
  destruct (read_message_delivers e b s rest rm Hdec Hlen Hs) as (s' & Hs' & ->).
  exists s'. split; [done|]. do 4 f_equal. unfold zlen. rewrite length_app. lia.
Qed.

Lemma envelope_to_bytes_short e b : envelope_to_bytes e = Ok b -> zlen b <= MAX_NETWORK_MESSAGE_SIZE.
Proof.
  unfold envelope_to_bytes. rewrite bind_Ok. intros (b' & _ & Hlen).
  destruct (Z.ltb_spec MAX_NETWORK_MESSAGE_SIZE (zlen b')); [done|]. by injection Hlen as ->.
Qed.

(** when the connection ends before a whole frame was delivered, the reader reports an
    unexpected end of file; it never returns a message and counts nothing. *)
Theorem frame_truncated e (w w' : bytes) m m' s p q rm :
  write_message e (w, m) = (Ok tt, (w', m')) ->
  drop (length w) w' = p ++ q -> q <> [] -> delivers s p ->
  exists err s', read_message (s, rm) = (Err (NetworkIo err), (s', rm)) /\
    io_kind err = UnexpectedEof.
Proof.
  intros Hw Hpq Hq Hs. destruct (write_message_frame _ _ _ _ _ Hw) as (b & Hb & -> & _).
  apply envelope_to_bytes_short in Hb. rewrite drop_app_length in Hpq. unfold read_message.
  assert (Hlen : zlen p < 4 + zlen b).
  { apply (f_equal length) in Hpq. unfold frame, zlen in *. rewrite !length_app, be_bytes_length in Hpq.
    destruct q; [done|]. cbn [length] in Hpq. lia. }
  destruct (Z.lt_ge_cases (zlen p) 4) as [Hshort|Hlong].
  - destruct (read_exact_truncated "length" 4 [] s p Hs ltac:(done)) as (n & s' & Hr).
    erewrite st_bind_err by (unfold on_channel, MESSAGE_LENGTH_SIZE; cbn [fst snd]; by rewrite Hr).
    by eexists _, s'.
  - assert (Hp : take 4 p = be_bytes 4 (zlen b)).
    { apply (f_equal (take 4)) in Hpq. unfold frame in Hpq.
      rewrite !take_app_le, (take_ge (be_bytes _ _)) in Hpq
        by (rewrite ?be_bytes_length; unfold zlen in *; lia). done. }
    destruct (read_exact_delivers "length" 4 [] s p Hs) as (s1 & Hr1 & Hs1).
    { unfold zlen in *. cbn [length]. lia. }
    replace (Z.to_nat (4 - zlen (@nil Z))) with 4%nat in * by done. cbn [app] in Hr1. rewrite Hp in Hr1.
    erewrite st_bind_ok by (unfold on_channel, MESSAGE_LENGTH_SIZE; cbn [fst snd]; by rewrite Hr1).
    rewrite read_length by done. destruct (Z.ltb_spec MAX_NETWORK_MESSAGE_SIZE (zlen b)); [lia|].
    destruct (read_exact_truncated "payload" (zlen b) [] s1 (drop 4 p) Hs1) as (n & s' & Hr2).
    { unfold zlen in *. rewrite length_drop. cbn [length]. lia. }
    erewrite st_bind_err by (unfold on_channel; cbn [fst snd]; by rewrite Hr2).
    by eexists _, s'.
Qed.
End frames.

Module TransportExamples.
Import Toy.

(** Pings and pongs of the toy protocol on the wire. *)
#[global] Instance envelope_borsh : EnvelopeBorsh := {
  envelope_to_vec e :=
    match message e with
    | Ping n => Ok (ser (magic e, (request_id e, (response_to e, (0, n)))))
    | Pong n => Ok (ser (magic e, (request_id e, (response_to e, (1, n)))))
    | _ => Err {| io_kind := InvalidData; io_text := "unsupported" |}
    end;
  envelope_try_from_slice b :=
    match (parse b : option (list Z * (Z * (Z * (Z * Z))))) with
    | Some (mg, (rid, (rto, (kind, n)))) =>
        Ok {| magic := mg; request_id := rid; response_to := rto;
              message := if kind =? 0 then Ping n else Pong n |}
    | None => Err {| io_kind := InvalidData; io_text := "malformed" |}
    end
}.
#[global] Instance envelope_laws : EnvelopeLaws.
Proof.
  intros [mg rid rto m] b. unfold envelope_to_vec, envelope_try_from_slice. cbn [envelope_borsh].
  cbn [Message.message magic request_id response_to]. destruct m; intros Heq; try discriminate Heq.
  all: match type of Heq with Ok ?x = Ok _ => assert (Hb : b = x) by congruence end.
  all: by rewrite Hb, parse_ser.
Qed.

Definition ping : NetworkEnvelope := envelope_request 9 (Ping 1234).
Definition written : bytes := (write_message (W := bytes) ping ([], metrics_new)).2.1.
(** The frame in three pieces, with an interruption, and the next byte after it. *)
Definition pieces : list ReadEvent :=
  [Arrives (take 2 written); Breaks {| io_kind := Interrupted; io_text := "" |};
   Arrives (take 5 (drop 2 written)); Arrives (drop 7 written ++ [77])].

Lemma written_eq : write_message ping (([] : bytes), metrics_new) =
  (Ok tt, (written, record_tx (message ping) 13 metrics_new)).
Proof. vm_compute. reflexivity. Qed.
Lemma pieces_deliver : delivers pieces (drop (length (@nil Z)) written ++ [77]).
Proof.
  assert (Hsplit : drop (length (@nil Z)) written ++ [77] = take 2 written ++ take 5 (drop 2 written) ++
    (drop 7 written ++ [77]) ++ []) by (vm_compute; reflexivity).
  rewrite Hsplit. unfold pieces.
  repeat first [apply delivers_bytes; [vm_compute; discriminate|] | apply delivers_interrupted; [reflexivity|]].
  constructor.
Qed.
Lemma frame_roundtrip_witness :
  exists s', delivers s' [77] /\
    read_message (pieces, metrics_new) = (Ok ping, (s', record_rx (message ping) (zlen written - zlen (@nil Z)) metrics_new)).
Proof.
  exact (frame_roundtrip ping [] written metrics_new _ pieces [77] metrics_new eq_refl written_eq pieces_deliver).
Defined.

Definition cut : list ReadEvent := [Arrives (take 2 written); Arrives (take 4 (drop 2 written))].
Lemma frame_truncated_witness :
  exists err s', read_message (cut, metrics_new) = (Err (NetworkIo err), (s', metrics_new)) /\
    io_kind err = UnexpectedEof.
Proof.
  refine (frame_truncated ping [] written metrics_new _ cut (take 2 written ++ take 4 (drop 2 written) ++ [])
    (drop 6 written) metrics_new written_eq _ _ _).
  - vm_compute. reflexivity.
  - vm_compute. discriminate.
  - repeat (apply delivers_bytes; [vm_compute; discriminate|]). constructor.
Defined.
End TransportExamples.
