(* ===== verification/Handler.v ===== *)
(** Answering a peer: runtime/network/handler.rs.

    [handle_message] runs on the node and the process-wide traffic counters; each arm of its
    [match] that does more than build a reply is a definition. *)
From Stdlib Require Import ZArith Lia.
From stdpp Require Import base numbers option strings list.
From S2P Require Import Prelude BTree PaqusCore Mempool Compact Snapshot Lmdb Storage Cache NodeState.
From S2P Require Import Node Message.
Open Scope Z_scope.

Definition MAX_RANGE_RESPONSE_ITEMS : Z := 64.
Definition RECONCILE_BUCKETS : Z := 16.

(** [hex::encode] *)
Definition hex_digit (n : Z) : Ascii.ascii :=
  match String.get (Z.to_nat n) "0123456789abcdef" with Some c => c | None => Ascii.zero end.
Fixpoint hex_encode (b : bytes) : string :=
  match b with
  | [] => ""
  | x :: b => String.String (hex_digit (x / 16)) (String.String (hex_digit (x mod 16)) (hex_encode b))
  end.
#[global] Arguments hex_encode : simpl never.

(** [(start..end).map(f).map_while(..)]: the heights from [start], while [f] finds something. *)
Fixpoint map_while_from {A} (f : Z -> option A) (count : nat) (start : Z) : list A :=
  match count with
  | O => []
  | S count =>
      match f start with
      | Some x => x :: map_while_from f count (start + 1)
      | None => []
      end
  end.
Definition height_range {A} (f : BlockHeight -> option A) (start limit : Z) : list A :=
  let limit := Z.min limit MAX_RANGE_RESPONSE_ITEMS in
  map_while_from f (Z.to_nat (u64_add start limit - start)) start.

Section handler.
Context `{PaqusTypes} `{!TxOps} `{!BlockOps} `{!LedgerOps} `{!EventOps} `{!ForkOps}.
Context `{!ConsensusOps} `{!GenesisOps} `{!Borsh} `{!Lmdb} `{!ErrorDisplay} `{!StorageDisplay}.
Context `{!ChainParams}.
Context (clock : nat -> Z).

Definition MAX_RECONCILE_SHORT_IDS : Z := MAX_BLOCK_DECODE_ITEMS.

Definition reconcile_short_id (epoch : Z) (hash : TransactionHash) : Z :=
  let b := ascii_bytes "PAQUS_MEMPOOL_RECONCILE_V1" ++ reverse (be_bytes 8 epoch) ++ hash in
  from_le_bytes (take 8 (domain_hash_raw b)).

(** The node and [NETWORK_METRICS]. *)
Abbreviation Handler := (ST (Node * NetworkMetrics) NetworkError).
Abbreviation Reply := (option NetworkMessage).

Definition on_node {A} (m : ST Node NodeError A) : Handler A :=
  fun s => (map_err NetworkNode (m s.1).1, ((m s.1).2, s.2)).
Definition get_node : Handler Node := fun s => (Ok s.1, s).
Definition change_node (f : Node -> Node) : Handler unit := fun s => (Ok tt, (f s.1, s.2)).
Definition note_duplicate : Handler unit := fun s => (Ok tt, (s.1, count_duplicate s.2)).
Definition reply (m : NetworkMessage) : Handler Reply := mret (Some m).
Definition no_reply : Handler Reply := mret None.
Definition reject (text : string) : Handler Reply := reply (Reject InvalidMessage text).

Definition local_tip (n : Node) : option TipInfo :=
  height ← tip_height n;
  hash ← tip_hash n;
  work ← tip_work n;
  Some {| ti_height := height; ti_hash := hash; ti_work := work |}.
Definition local_version (n : Node) : VersionInfo := VersionInfo_local (local_tip n).

Definition ancestor_info (n : Node) (hash : BlockHash) : option TipInfo :=
  indexed ← fork_get (fork_choice n) hash;
  Some {| ti_height := fork_height indexed; ti_hash := hash;
          ti_work := to_be_limbs (cumulative_work indexed) |}.
(** [find_map] *)
Fixpoint find_map {A B} (f : A -> option B) (l : list A) : option B :=
  match l with
  | [] => None
  | x :: l => match f x with Some y => Some y | None => find_map f l end
  end.

Definition is_canonical_tip (n : Node) (height : BlockHeight) (hash : BlockHash) : bool :=
  bool_decide (tip_height n = Some height) && bool_decide (tip_hash n = Some hash).

Definition snapshot_manifest (height : BlockHeight) (hash : BlockHash) : Handler Reply :=
  n ← get_node;
  if negb (is_canonical_tip n height hash)
  then reject "snapshot checkpoint is not the current canonical tip" else
  raw ← on_node snapshot_bytes;
  reply (SnapshotManifest height hash (zlen raw) (artifact_payload_hash raw) SNAPSHOT_CHUNK_SIZE).

Definition snapshot_chunk (height : BlockHeight) (hash : BlockHash) (offset length : Z)
    : Handler Reply :=
  n ← get_node;
  if (length =? 0) || (SNAPSHOT_CHUNK_SIZE <? length) || negb (is_canonical_tip n height hash)
  then reject "invalid snapshot chunk request" else
  raw ← on_node snapshot_bytes;
  let end_ := Z.min (saturating_add USIZE_MAX offset length) (zlen raw) in
  if zlen raw <=? offset then reject "snapshot chunk offset is out of range" else
  let chunk := take (Z.to_nat (end_ - offset)) (drop (Z.to_nat offset) raw) in
  let '(compression, compressed) := compress_chunk chunk in
  reply (SnapshotChunk height hash offset compression (zlen chunk) compressed).

Definition is_missing (n : Node) (item : InventoryItem) : bool :=
  match item with
  | InvBlock hash => match block_by_hash (cache n) hash with Some _ => false | None => true end
  | InvTransaction hash => negb (contains (mempool n) hash)
  end.
Definition want_inventory (n : Node) (items : list InventoryItem) : Reply :=
  match List.filter (is_missing n) items with
  | [] => None
  | missing => Some (GetData missing)
  end.

Definition item_block (n : Node) (item : InventoryItem) : option Block :=
  match item with InvBlock hash => block_by_hash (cache n) hash | InvTransaction _ => None end.
Definition item_transaction (n : Node) (item : InventoryItem) : option SignedProtocolTransaction :=
  match item with InvBlock _ => None | InvTransaction hash => get (mempool n) hash end.
Definition send_data (n : Node) (items : list InventoryItem) : Reply :=
  match omap (item_block n) items, omap (item_transaction n) items with
  | [], [] => None
  | [], txs => Some (MsgTransactions txs)
  | blocks, _ => Some (MsgBlocks blocks)
  end.

Definition already_pooled (n : Node) (tx : SignedProtocolTransaction) : bool :=
  match tx_hash tx with Ok hash => contains (mempool n) hash | Err _ => false end.
Definition accept_transaction (tx : SignedProtocolTransaction) : Handler unit :=
  n ← get_node;
  if already_pooled n tx then note_duplicate
  else on_node (submit_protocol_transaction clock tx) ;; mret tt.

Definition mempool_inventory (n : Node) : Result NodeError (list InventoryItem) :=
  collect_result (fun tx => hash ← map_err NodeCodec (tx_hash tx); Ok (InvTransaction hash))
    (pool_transactions (mempool n)).

(** The transactions of the epoch's bucket that the remote set lacks. *)
Fixpoint reconcile_missing (epoch : Z) (remote : BTreeSet Z) (txs : list SignedProtocolTransaction)
    : Result NodeError (list SignedProtocolTransaction) :=
  match txs with
  | [] => Ok []
  | tx :: txs =>
      hash ← map_err NodeCodec (tx_hash tx);
      let short_id := reconcile_short_id epoch hash in
      rest ← reconcile_missing epoch remote txs;
      Ok (if (short_id mod RECONCILE_BUCKETS =? epoch mod RECONCILE_BUCKETS)
             && negb (bt_contains short_id remote)
          then tx :: rest else rest)
  end.
Definition reconcile_mempool (epoch : Z) (ids : list Z) : Handler Reply :=
  if (MAX_RECONCILE_SHORT_IDS <? zlen ids) || negb (bt_len (id_set ids) =? zlen ids)
  then reject "invalid mempool reconciliation set" else
  n ← get_node;
  missing ← st_lift (map_err NetworkNode
    (reconcile_missing epoch (id_set ids) (pool_transactions (mempool n))));
  reply (MsgTransactions missing).

Definition receive_compact (compact : CompactBlock) : Handler Reply :=
  match compact_block_hash compact with
  | Err _ => reject "compact block header is invalid"
  | Ok hash =>
      n ← get_node;
      match block_by_hash (cache n) hash with
      | Some _ => no_reply
      | None =>
          match reconstruct compact (mempool n) [] with
          | Ok (Complete b) => on_node (apply_block clock b) ;; no_reply
          | Ok (Missing indexes) =>
              change_node (stage_compact_block hash compact) ;;
              reply (GetCompactBlockTransactions hash indexes)
          | Err _ => reply (GetBlockByHash hash)
          end
      end
  end.

(** Some index has been seen before: [any] over [seen.insert]. *)
Fixpoint repeats (seen : BTreeSet Z) (indexes : list Z) : bool :=
  match indexes with
  | [] => false
  | i :: indexes => bt_contains i seen || repeats (<[i := tt]> seen) indexes
  end.
Fixpoint pick_transactions (txs : list SignedProtocolTransaction) (indexes : list Z)
    : option (list IndexedBlockTransaction) :=
  match indexes with
  | [] => Some []
  | i :: indexes =>
      tx ← txs !! Z.to_nat i;
      rest ← pick_transactions txs indexes;
      Some ({| it_index := i; it_transaction := tx |} :: rest)
  end.
Definition send_compact_transactions (hash : BlockHash) (indexes : list Z) : Handler Reply :=
  if MAX_COMPACT_MISSING_TRANSACTIONS <? zlen indexes
  then reject "too many compact block transaction indexes" else
  if repeats ∅ indexes then reject "duplicate compact block transaction index" else
  n ← get_node;
  match block_by_hash (cache n) hash with
  | None => reject "compact block is unavailable"
  | Some b =>
      match pick_transactions (block_transactions b) indexes with
      | None => reject "compact block transaction index is invalid"
      | Some txs => reply (CompactBlockTransactions hash txs)
      end
  end.

Definition receive_compact_transactions (hash : BlockHash) (txs : list IndexedBlockTransaction)
    : Handler Reply :=
  staged ← (fun s => (Ok (take_compact_block hash s.1).1, ((take_compact_block hash s.1).2, s.2)));
  match staged with
  | None => reply (GetBlockByHash hash)
  | Some compact =>
      n ← get_node;
      match reconstruct compact (mempool n) txs with
      | Ok (Complete b) => on_node (apply_block clock b) ;; no_reply
      | Ok (Missing _) | Err _ => reply (GetBlockByHash hash)
      end
  end.

Definition handle_message (m : NetworkMessage) : Handler Reply :=
  match m with
  | Version version =>
      match validate_compatibility version with
      | Ok _ => n ← get_node; reply (VerAck (local_version n))
      | Err reason => reply (Reject reason "incompatible peer version")
      end
  | VerAck _ | Reject _ _ => no_reply
  | Ping nonce => reply (Pong nonce)
  | Pong _ => no_reply
  | GetTip => n ← get_node; mret (Tip <$> local_tip n)
  | Tip _ => no_reply
  | GetBlockByHeight height => n ← get_node; mret (MsgBlock <$> ledger_block (ledger n) height)
  | GetBlocksByHeightRange start limit =>
      n ← get_node; reply (MsgBlocks (height_range (ledger_block (ledger n)) start limit))
  | GetBlockHeadersByHeightRange start limit =>
      n ← get_node; reply (MsgBlockHeaders (height_range (chain_header (ledger n)) start limit))
  | GetCommonAncestor locator =>
      n ← get_node; reply (CommonAncestor (find_map (ancestor_info n) locator))
  | CommonAncestor _ => no_reply
  | GetBlockByHash hash =>
      n ← get_node;
      match block_by_hash (cache n) hash with
      | Some b => reply (MsgBlock b)
      | None => reject ("block not found: " +:+ hex_encode hash)
      end
  | MsgBlock b => on_node (apply_block clock b) ;; no_reply
  | MsgBlocks blocks => st_for (fun b => on_node (apply_block clock b)) blocks ;; no_reply
  | MsgBlockHeaders _ => no_reply
  | GetSnapshotManifest height hash => snapshot_manifest height hash
  | SnapshotManifest _ _ _ _ _ => no_reply
  | GetSnapshotChunk height hash offset length => snapshot_chunk height hash offset length
  | SnapshotChunk _ _ _ _ _ _ => no_reply
  | Inventory items => n ← get_node; mret (want_inventory n items)
  | GetData items => n ← get_node; mret (send_data n items)
  | MsgTransaction tx => accept_transaction tx ;; no_reply
  | MsgTransactions txs => st_for accept_transaction txs ;; no_reply
  | GetMempoolInventory =>
      n ← get_node;
      items ← st_lift (map_err NetworkNode (mempool_inventory n));
      reply (Inventory items)
  | ReconcileMempool epoch ids => reconcile_mempool epoch ids
  | GetPeers => reply (Peers [])
  | Peers _ => no_reply
  | MsgCompactBlock compact => receive_compact compact
  | GetCompactBlockTransactions hash indexes => send_compact_transactions hash indexes
  | CompactBlockTransactions hash txs => receive_compact_transactions hash txs
  end.
End handler.
