(* ===== verification/Sync.v ===== *)
(** Synchronising with peers: the request-driven part of p2p/mod.rs.

    The code talks to a peer through [PeerConnection] and to the local node through its lock.
    [PeerWorld] is that interface; the theorems on this code hold for every peer behind it.
    Connection.v implements it as the source does. A lock held over a loop is taken anew for each
    of its calls, which allows more interleavings. Console output is left out. *)
From Stdlib Require Import ZArith Lia.
From stdpp Require Import base numbers option strings list gmap pretty.
From S2P Require Import Prelude BTree PaqusCore Mempool Compact Snapshot Lmdb Storage Cache NodeState.
From S2P Require Import Node Message Handler Peer.
Open Scope Z_scope.

Definition MAX_BLOCKS_PER_BATCH : Z := 32.
Definition MAX_BLOCK_LOCATOR_HASHES : Z := 32.
Definition MAX_MISSING_PARENT_FETCHES_PER_POLL : Z := 64.
Definition MAX_MEMPOOL_INVENTORY_FETCH : nat := 128.

Definition SHUTDOWN : string := "node shutdown requested".

(** The world a sync routine acts on: one peer and the local node. *)
Class PeerWorld `{PaqusTypes} `{!TxOps} `{!BlockOps} `{!LedgerOps} `{!Lmdb} (W : Type) := {
  peer_request : NetworkMessage -> ST W string NetworkMessage;
  peer_send : NetworkMessage -> ST W string unit;
  peer_addr : W -> string;
  (** [PeerConnection::connect(addr)]: the world with a new connection *)
  peer_connect : string -> ST W string unit;
  peer_handshaken : W -> bool;
  peer_mark_handshaken : W -> W;
  peer_attach_node : W -> W;
  (** [peer.request_ids.fetch_add(1)] *)
  peer_next_id : ST W string Z;
  (** [SHUTDOWN_REQUESTED.load()] *)
  shutdown_requested : ST W string bool;
  (** [Instant::now()] and the seconds of [SystemTime::now()], 0 before the epoch *)
  instant_now : ST W string Z;
  unix_now : ST W string Z;
  (** [node.lock()], then the given method; a poisoned lock is an error. *)
  with_node : forall {A}, ST Node NodeError A -> ST W string (Result NodeError A);
  (** [thread::spawn] for each task, then their outcomes in order; [None] is a panic. *)
  run_threads : forall {A}, list (ST W string A) -> ST W string (list (option (Result string A)))
}.

(** Threads that run to their end one after the other. *)
Fixpoint run_in_turn {S E A} (tasks : list (ST S E A)) : ST S E (list (option (Result E A))) :=
  match tasks with
  | [] => mret []
  | task :: tasks => r ← st_try task; rest ← run_in_turn tasks; mret (Some r :: rest)
  end.

Section sync.
Context `{PaqusTypes} `{!TxOps} `{!BlockOps} `{!LedgerOps} `{!EventOps} `{!ForkOps}.
Context `{!ConsensusOps} `{!GenesisOps} `{!Borsh} `{!Lmdb} `{!ErrorDisplay} `{!StorageDisplay}.
Context `{!ChainParams}.
Context (clock : nat -> Z).
Context {W : Type} `{!PeerWorld W}.

Definition check_shutdown : ST W string unit :=
  stop ← shutdown_requested; if stop : bool then st_fail SHUTDOWN else mret tt.
(** Reading the locked node. *)
Definition read_node {A} (f : Node -> A) : ST W string A :=
  r ← with_node (n ← st_get; mret (f n));
  match r with Ok a => mret a | Err e => st_fail (show_node_error e) end.
(** A method whose error is turned into a text. *)
Definition node_call {A} (text : string -> string) (m : ST Node NodeError A) : ST W string A :=
  r ← with_node m;
  match r with Ok a => mret a | Err e => st_fail (text (show_node_error e)) end.

(** ** Tips *)

Definition request_tip : ST W string TipInfo :=
  r ← peer_request GetTip;
  match r with
  | Tip tip => mret tip
  | _ => st_fail "peer returned unexpected tip response"
  end.

Definition ping_peer : ST W string Z :=
  nonce ← peer_next_id;
  started ← instant_now;
  r ← peer_request (Ping nonce);
  match r with
  | Pong response_nonce =>
      if response_nonce =? nonce then ended ← instant_now; mret (Z.max 0 (ended - started))
      else st_fail "peer returned unexpected ping response"
  | Reject _ message => st_fail ("peer rejected ping: " +:+ message)
  | _ => st_fail "peer returned unexpected ping response"
  end.

Definition local_tip_info : ST W string (option TipInfo) := read_node local_tip.

Definition compare_tips (left right : TipInfo) : comparison :=
  compare_chain_tips (from_be_limbs (ti_work left)) (ti_hash left)
    (from_be_limbs (ti_work right)) (ti_hash right).
Definition is_remote_tip_better (local remote : TipInfo) : bool :=
  match compare_tips remote local with Gt => true | _ => false end.

(** ** Handshakes *)

Definition show_reject_reason (r : RejectReason) : string :=
  match r with
  | ProtocolVersionMismatch => "ProtocolVersionMismatch" | ChainMismatch => "ChainMismatch"
  | NetworkMismatch => "NetworkMismatch" | ConsensusMismatch => "ConsensusMismatch"
  | InvalidMessage => "InvalidMessage"
  end.
Definition check_remote_version (remote : VersionInfo) : ST W string unit :=
  match validate_compatibility remote with
  | Ok _ => mret tt
  | Err reason => st_fail ("peer returned incompatible version: " +:+ show_reject_reason reason)
  end.
Definition rejected_handshake {A} (reason : RejectReason) (message : string) : ST W string A :=
  st_fail ("peer rejected handshake: " +:+ show_reject_reason reason +:+ ": " +:+ message).

Definition handshake_peer (public_addrs : list string) : ST W string unit :=
  st_modify peer_attach_node ;;
  tip ← read_node local_tip;
  r ← peer_request (Version (VersionInfo_local tip));
  match r with
  | VerAck remote =>
      check_remote_version remote ;;
      match public_addrs with
      | [] => mret tt
      | _ => peer_send (Peers (map (fun a => {| pi_address := a |}) public_addrs))
      end
  | Reject reason message => rejected_handshake reason message
  | _ => st_fail "peer returned unexpected handshake response"
  end.
Definition handshake_bootstrap_peer : ST W string unit :=
  r ← peer_request (Version (VersionInfo_local None));
  match r with
  | VerAck remote => check_remote_version remote
  | Reject reason message => rejected_handshake reason message
  | _ => st_fail "peer returned unexpected handshake response"
  end.

(** ** Headers *)

(** The [for header in batch]: each header follows the previous one. *)
Fixpoint link_headers (batch : list BlockHeader) (next : Z) (previous : BlockHash)
    (headers : list BlockHeader) : Result string (Z * BlockHash * list BlockHeader) :=
  match batch with
  | [] => Ok (next, previous, headers)
  | h :: batch =>
      if negb (header_height h =? next)
      then Err ("peer returned header height " +:+ pretty (header_height h)
                +:+ " while syncing height " +:+ pretty next) else
      if negb (bool_decide (header_previous_hash h = previous))
      then Err ("peer returned header " +:+ pretty (header_height h) +:+ " with unexpected parent "
                +:+ hex_encode (header_previous_hash h)) else
      hash ← map_err show_codec (header_hash h);
      link_headers batch (u64_add next 1) hash (headers ++ [h])
  end.

Definition batch_limit (next target : Z) : Z :=
  Z.min (u64_add (u64_sub target next) 1) MAX_BLOCKS_PER_BATCH.

(** The [while next_height <= target]; each turn needs a non-empty batch. *)
Fixpoint request_headers_loop (fuel : nat) (target next : Z) (previous : BlockHash)
    (headers : list BlockHeader) : ST W string (list BlockHeader) :=
  if target <? next then mret headers else
  match fuel with
  | O => st_fail "out of fuel"
  | S fuel =>
      r ← peer_request (GetBlockHeadersByHeightRange next (batch_limit next target));
      match r with
      | MsgBlockHeaders [] =>
          st_fail ("peer returned empty header range starting at height " +:+ pretty next)
      | MsgBlockHeaders batch =>
          linked ← st_lift (link_headers batch next previous headers);
          request_headers_loop fuel target linked.1.1 linked.1.2 linked.2
      | _ => st_fail ("peer did not return header range starting at height " +:+ pretty next)
      end
  end.
Definition range_fuel (start target : Z) : nat := Z.to_nat (target - start + 1).
Definition request_headers (start target : Z) (anchor_hash : BlockHash)
    : ST W string (list BlockHeader) :=
  request_headers_loop (range_fuel start target) target start anchor_hash [].

(** ** Blocks *)

(** The [for block in blocks]: each block has the next height and its prevalidated header. *)
Fixpoint match_blocks (blocks : list Block) (next : Z) (expected : list BlockHeader)
    (downloaded : list Block) : Result string (Z * list BlockHeader * list Block) :=
  match blocks with
  | [] => Ok (next, expected, downloaded)
  | b :: blocks =>
      if negb (block_height b =? next)
      then Err ("peer returned height " +:+ pretty (block_height b) +:+ " while syncing height "
                +:+ pretty next) else
      match expected with
      | [] => Err ("peer returned block " +:+ pretty (block_height b)
                   +:+ " without a prevalidated header")
      | h :: expected =>
          if negb (bool_decide (header b = h))
          then Err ("peer returned block " +:+ pretty (block_height b)
                    +:+ " that does not match its prevalidated header")
          else match_blocks blocks (u64_add next 1) expected (downloaded ++ [b])
      end
  end.

Fixpoint fetch_blocks_loop (fuel : nat) (target next : Z) (expected : list BlockHeader)
    (downloaded : list Block) : ST W string (list Block) :=
  if target <? next then mret downloaded else
  match fuel with
  | O => st_fail "out of fuel"
  | S fuel =>
      check_shutdown ;;
      r ← peer_request (GetBlocksByHeightRange next (batch_limit next target));
      match r with
      | MsgBlocks [] =>
          st_fail ("peer returned empty block range starting at height " +:+ pretty next)
      | MsgBlocks blocks =>
          matched ← st_lift (match_blocks blocks next expected downloaded);
          fetch_blocks_loop fuel target matched.1.1 matched.1.2 matched.2
      | _ => st_fail ("peer did not return block range starting at height " +:+ pretty next)
      end
  end.
Definition fetch_blocks (start target : Z) (headers : list BlockHeader) : ST W string (list Block) :=
  fetch_blocks_loop (range_fuel start target) target start headers [].

Definition apply_text (height : Z) (addr error : string) : string :=
  "failed to apply block " +:+ pretty height +:+ " from " +:+ addr +:+ ": " +:+ error.
Definition apply_synced (b : Block) : ST W string unit :=
  check_shutdown ;;
  w ← st_get;
  node_call (apply_text (block_height b) (peer_addr w)) (apply_block clock b).
Definition request_blocks (start target : Z) (headers : list BlockHeader) : ST W string unit :=
  blocks ← fetch_blocks start target headers;
  st_for apply_synced blocks.

(** ** Common ancestors *)

(** The [loop]: the hash at [height], then further and further back. *)
Fixpoint locator_loop (fuel : nat) (l : Ledger) (height step : Z) (locator : list BlockHash)
    : Result string (list BlockHash) :=
  locator ← match chain_header l height with
            | Some h => hash ← map_err show_codec (header_hash h); Ok (locator ++ [hash])
            | None => Ok locator
            end;
  if (height =? 0) || (MAX_BLOCK_LOCATOR_HASHES <=? zlen locator) then Ok locator else
  match fuel with
  | O => Ok locator
  | S fuel =>
      locator_loop fuel l (u64_sub height step)
        (if 10 <=? zlen locator then u64_mul step 2 else step) locator
  end.
(** Genesis is appended unless the locator already ends with it. *)
Definition ends_elsewhere (l : Ledger) (locator : list BlockHash) : bool :=
  match last locator, chain_header l 0 with
  | Some hash, Some h =>
      match header_hash h with Ok genesis => negb (bool_decide (genesis = hash)) | Err _ => true end
  | _, _ => false
  end.
Definition ledger_locator (l : Ledger) : Result string (list BlockHash) :=
  match ledger_tip_height l with
  | None => Ok []
  | Some height =>
      locator ← locator_loop (Z.to_nat height) l height 1 [];
      if ends_elsewhere l locator then
        match chain_header l 0 with
        | Some h => genesis ← map_err show_codec (header_hash h); Ok (locator ++ [genesis])
        | None => Ok locator
        end
      else Ok locator
  end.
Definition block_locator : ST W string (list BlockHash) :=
  r ← read_node (fun n => ledger_locator (ledger n)); st_lift r.

Definition request_common_ancestor : ST W string TipInfo :=
  locator ← block_locator;
  r ← peer_request (GetCommonAncestor locator);
  match r with
  | CommonAncestor (Some ancestor) => mret ancestor
  | CommonAncestor None => st_fail "peer did not find a common ancestor from local locator"
  | _ => st_fail "peer returned unexpected common ancestor response"
  end.

(** ** Missing parents *)

Definition request_block_by_hash (hash : BlockHash) : ST W string bool :=
  r ← peer_request (GetBlockByHash hash);
  match r with
  | MsgBlock b =>
      w ← st_get;
      node_call (fun error => "failed to apply missing parent from " +:+ peer_addr w +:+ ": " +:+ error)
        (apply_block clock b) ;;
      mret true
  | Reject _ _ => mret false
  | _ => st_fail ("peer did not return block hash " +:+ hex_encode hash)
  end.

(** The counters of [request_missing_parent_blocks]. *)
Record ParentFetch := { pf_requested : bool; pf_fetched : Z; pf_missing : Z }.
Definition retry_parent (hash : BlockHash) : ST W string unit :=
  node_call id (retry_missing_parent_request clock hash).
(** The [for hash in hashes] with its [break]s. *)
Fixpoint fetch_parents (hashes : list BlockHash) (f : ParentFetch) : ST W string ParentFetch :=
  match hashes with
  | [] => mret f
  | hash :: hashes =>
      if MAX_MISSING_PARENT_FETCHES_PER_POLL <=? pf_fetched f
      then retry_parent hash ;; mret f else
      let fetched := saturating_add USIZE_MAX (pf_fetched f) 1 in
      r ← st_try (request_block_by_hash hash);
      match r with
      | Err error => retry_parent hash ;; st_fail error
      | Ok found =>
          let missing := if found : bool then pf_missing f
                         else saturating_add USIZE_MAX (pf_missing f) 1 in
          let f := {| pf_requested := true; pf_fetched := fetched; pf_missing := missing |} in
          if 0 <? missing then retry_parent hash ;; mret f
          else fetch_parents hashes f
      end
  end.
(** Every turn fetches at least one block: [MAX_MISSING_PARENT_FETCHES_PER_POLL] turns are enough. *)
Fixpoint parents_loop (fuel : nat) (f : ParentFetch) : ST W string ParentFetch :=
  if MAX_MISSING_PARENT_FETCHES_PER_POLL <=? pf_fetched f then mret f else
  match fuel with
  | O => mret f
  | S fuel =>
      hashes ← node_call id (drain_missing_parent_requests clock);
      match hashes with
      | [] => mret f
      | _ => f ← fetch_parents hashes f; parents_loop fuel f
      end
  end.
Definition request_missing_parent_blocks : ST W string bool :=
  f ← parents_loop (Z.to_nat MAX_MISSING_PARENT_FETCHES_PER_POLL)
        {| pf_requested := false; pf_fetched := 0; pf_missing := 0 |};
  (* the tip is read for the log line *)
  (if 0 <? pf_fetched f then read_node tip_hash ;; mret tt else mret tt) ;;
  mret (pf_requested f).

(** ** Polling a peer *)

Inductive PeerPoll :=
| PollIdle (remote_tip : BlockHeight) (latency : Z)
| PollSynced (remote_tip : BlockHeight) (synced_blocks latency : Z).

Definition clamp (lo hi x : Z) : Z := if x <? lo then lo else if hi <? x then hi else x.

Definition poll_peer_connection (public_addrs : list string) (sync_window : Z) : ST W string PeerPoll :=
  w ← st_get;
  (if peer_handshaken w then mret tt
   else handshake_peer public_addrs ;; st_modify peer_mark_handshaken) ;;
  latency ← ping_peer;
  remote_tip ← request_tip;
  local ← local_tip_info;
  let window := clamp MIN_BLOCKS_PER_SYNC MAX_BLOCKS_PER_SYNC sync_window in
  match local with
  | None =>
      let target := Z.min (ti_height remote_tip) (u64_sub window 1) in
      headers ← request_headers 0 target zero_hash;
      request_blocks 0 target headers ;;
      request_missing_parent_blocks ;;
      mret (PollSynced (ti_height remote_tip) (u64_add target 1) latency)
  | Some local_tip =>
      if negb (is_remote_tip_better local_tip remote_tip)
      then mret (PollIdle (ti_height remote_tip) latency) else
      ancestor ← request_common_ancestor;
      let target := Z.min (ti_height remote_tip) (u64_add (ti_height ancestor) window) in
      if target <=? ti_height ancestor then mret (PollIdle (ti_height remote_tip) latency) else
      let start := u64_add (ti_height ancestor) 1 in
      headers ← request_headers start target (ti_hash ancestor);
      request_blocks start target headers ;;
      request_missing_parent_blocks ;;
      mret (PollSynced (ti_height remote_tip) (u64_add (u64_sub target start) 1) latency)
  end.

(** ** Several peers *)

Record SyncRange := {
  sr_peer : string; sr_start : BlockHeight; sr_target : Z; sr_headers : list BlockHeader
}.
Abbreviation Candidate := (string * TipInfo)%type.

(** [headers[i..i + count]] panics when the slice ends early: no value. *)
Definition slice {A} (l : list A) (from count : nat) : option (list A) :=
  if bool_decide (from + count <= length l)%nat then Some (take count (drop from l)) else None.

Fixpoint plan_loop (fuel : nat) (target : Z) (headers : list BlockHeader) (available : list string)
    (next : Z) (header_index : nat) (ranges : list SyncRange) : option (list SyncRange) :=
  if target <? next then Some ranges else
  match fuel with
  | O => None
  | S fuel =>
      let count := batch_limit next target in
      peer ← available !! (length ranges mod length available)%nat;
      headers_ ← slice headers header_index (Z.to_nat count);
      plan_loop fuel target headers available (u64_add next count) (header_index + Z.to_nat count)%nat
        (ranges ++ [{| sr_peer := peer; sr_start := next;
                       sr_target := u64_sub (u64_add next count) 1; sr_headers := headers_ |}])
  end.
Definition available_peers (target : Z) (candidates : list Candidate) : list string :=
  map fst (sort_by (fun l r => compare_tips r.2 l.2)
    (List.filter (fun c => target <=? ti_height c.2) candidates)).
Definition plan_parallel_ranges (start target : Z) (headers : list BlockHeader)
    (candidates : list Candidate) : option (list SyncRange) :=
  match available_peers target candidates with
  | [] => Some []
  | available => plan_loop (range_fuel start target) target headers available start 0 []
  end.

(** The [for peer_addr in peers]: the first peer that delivers the whole range. *)
Fixpoint try_peers (range : SyncRange) (public_addrs peers : list string) (last_error : option string)
    (failed : list string) : ST W string (Z * string * list Block * list string) :=
  match peers with
  | [] => st_fail (unwrap_or ("no peer could download range " +:+ pretty (sr_start range) +:+ ".."
            +:+ pretty (sr_target range)) last_error)
  | addr :: peers =>
      let next error := try_peers range public_addrs peers (Some error) (failed ++ [addr]) in
      check_shutdown ;;
      connected ← st_try (peer_connect addr);
      match connected with
      | Err error => next ("connect " +:+ addr +:+ " failed: " +:+ error)
      | Ok _ =>
          shaken ← st_try (handshake_peer public_addrs);
          match shaken with
          | Err error => next ("handshake " +:+ addr +:+ " failed: " +:+ error)
          | Ok _ =>
              fetched ← st_try (fetch_blocks (sr_start range) (sr_target range) (sr_headers range));
              match fetched with
              | Ok blocks => mret (sr_start range, addr, blocks, failed)
              | Err error =>
                  next ("download " +:+ pretty (sr_start range) +:+ ".." +:+ pretty (sr_target range)
                        +:+ " from " +:+ addr +:+ " failed: " +:+ error)
              end
          end
      end
  end.
Definition fetch_range_with_retries (range : SyncRange) (candidates : list Candidate)
    (public_addrs : list string) : ST W string (Z * string * list Block * list string) :=
  let others := map fst (List.filter (fun c : Candidate =>
    negb (bool_decide (c.1 = sr_peer range)) && (sr_target range <=? ti_height c.2)) candidates) in
  try_peers range public_addrs (sr_peer range :: others) None [].

(** The peers whose tip is better than the local one; a peer that fails is skipped. *)
Fixpoint collect_candidates (local_tip : option TipInfo) (public_addrs peers : list string)
    : ST W string (list Candidate) :=
  match peers with
  | [] => mret []
  | addr :: peers =>
      check_shutdown ;;
      tip ← st_try (peer_connect addr ;; handshake_peer public_addrs ;; request_tip);
      rest ← collect_candidates local_tip public_addrs peers;
      mret (match tip with
            | Ok tip =>
                if match local_tip with None => true | Some l => is_remote_tip_better l tip end
                then (addr, tip) :: rest else rest
            | Err _ => rest
            end)
  end.
(** [candidates.iter().max_by(compare_tips)] *)
Definition best_candidate (candidates : list Candidate) : option Candidate :=
  max_by (fun l r => compare_tips l.2 r.2) candidates.

(** Applying the downloaded ranges in height order. *)
Fixpoint apply_downloaded (blocks : list Block) (expected_height applied : Z) : ST W string (Z * Z) :=
  match blocks with
  | [] => mret (expected_height, applied)
  | b :: blocks =>
      let height := block_height b in
      if negb (height =? expected_height)
      then st_fail ("parallel sync downloaded height " +:+ pretty height +:+ " while applying height "
                    +:+ pretty expected_height) else
      node_call (fun error => "failed to apply parallel synced block " +:+ pretty height +:+ ": "
                 +:+ error) (apply_block clock b) ;;
      apply_downloaded blocks (u64_add expected_height 1) (applied + 1)
  end.

Record ParallelSyncReport := {
  ps_remote_tip : BlockHeight;
  ps_applied_blocks : Z;
  ps_used_peers : Z;
  ps_used_peer_addrs : list string;
  ps_failed_peer_addrs : list string
}.
Definition nothing_synced (remote_tip : BlockHeight) : ParallelSyncReport := {|
  ps_remote_tip := remote_tip; ps_applied_blocks := 0; ps_used_peers := 0;
  ps_used_peer_addrs := []; ps_failed_peer_addrs := [] |}.

(** The [for handle in handles]: the first panic or error ends it. *)
Fixpoint join_workers (outcomes : list (option (Result string (Z * string * list Block * list string))))
    (downloaded : BTreeMap Z (list Block)) (used failed : gset string)
    : Result string (BTreeMap Z (list Block) * gset string * gset string) :=
  match outcomes with
  | [] => Ok (downloaded, used, failed)
  | None :: _ => Err "parallel sync worker panicked"
  | Some outcome :: outcomes =>
      done ← outcome;
      let '(start, peer, blocks, worker_failed) := done in
      join_workers outcomes (<[start := blocks]> downloaded) ({[peer]} ∪ used)
        (list_to_set worker_failed ∪ failed)
  end.
(** From the plan to the report. A slice out of range would panic; the headers are complete. *)
Definition sync_ranges (start target : Z) (headers : list BlockHeader) (candidates : list Candidate)
    (public_addrs : list string) (remote_tip : BlockHeight) : ST W string ParallelSyncReport :=
  match plan_parallel_ranges start target headers candidates with
  | None => st_fail "range end index out of range"
  | Some [] => mret (nothing_synced remote_tip)
  | Some ranges =>
      outcomes ← run_threads
        (map (fun range => fetch_range_with_retries range candidates public_addrs) ranges);
      joined ← st_lift (join_workers outcomes ∅ ∅ ∅);
      let '(downloaded, used, failed) := joined in
      applied ← apply_downloaded (concat (bt_values downloaded)) start 0;
      mret {| ps_remote_tip := remote_tip; ps_applied_blocks := applied.2;
              ps_used_peers := Z.of_nat (size used); ps_used_peer_addrs := elements used;
              ps_failed_peer_addrs := elements (failed ∖ used) |}
  end.
Definition sync_from_peers_parallel (peers public_addrs : list string) (sync_window : Z)
    : ST W string ParallelSyncReport :=
  check_shutdown ;;
  local_tip ← local_tip_info;
  candidates ← collect_candidates local_tip public_addrs peers;
  match best_candidate candidates with
  | None => mret (nothing_synced (match local_tip with Some t => ti_height t | None => 0 end))
  | Some (leader, remote_tip) =>
      peer_connect leader ;;
      handshake_peer public_addrs ;;
      ancestor ← request_common_ancestor;
      let window := clamp MIN_BLOCKS_PER_SYNC MAX_BLOCKS_PER_SYNC sync_window in
      let target := Z.min (ti_height remote_tip) (u64_add (ti_height ancestor) window) in
      if target <=? ti_height ancestor then mret (nothing_synced (ti_height remote_tip)) else
      let start := u64_add (ti_height ancestor) 1 in
      headers ← request_headers start target (ti_hash ancestor);
      sync_ranges start target headers candidates public_addrs (ti_height remote_tip)
  end.

(** ** Mempools *)

Definition request_peers_connection : ST W string (list PeerInfo) :=
  r ← peer_request GetPeers;
  match r with
  | Peers peers => mret peers
  | _ => st_fail "peer returned unexpected peers response"
  end.

Fixpoint submit_mempool_transactions (txs : list SignedProtocolTransaction) (accepted : Z)
    : ST W string Z :=
  match txs with
  | [] => mret accepted
  | tx :: txs =>
      r ← with_node (submit_protocol_transaction clock tx);
      submit_mempool_transactions txs (if is_ok r then accepted + 1 else accepted)
  end.

(** The local short ids of the epoch's bucket, without repetition and in order. *)
Definition local_short_ids (epoch : Z) (n : Node) : list Z :=
  bt_keys (id_set (take (Z.to_nat MAX_RECONCILE_SHORT_IDS)
    (List.filter (fun id => id mod RECONCILE_BUCKETS =? epoch mod RECONCILE_BUCKETS)
      (omap (fun tx => option_map (reconcile_short_id epoch) (result_ok (tx_hash tx)))
        (pool_transactions (mempool n)))))).
Definition unknown_transactions (items : list InventoryItem) (n : Node) : list InventoryItem :=
  take MAX_MEMPOOL_INVENTORY_FETCH (omap (fun item =>
    match item with
    | InvTransaction hash => if contains (mempool n) hash then None else Some (InvTransaction hash)
    | InvBlock _ => None
    end) items).
Definition sync_mempool_inventory : ST W string Z :=
  r ← peer_request GetMempoolInventory;
  match r with
  | Inventory items =>
      missing ← read_node (unknown_transactions items);
      match missing with
      | [] => mret 0
      | _ =>
          r ← peer_request (GetData missing);
          match r with
          | MsgTransactions txs => submit_mempool_transactions txs 0
          | MsgTransaction tx => submit_mempool_transactions [tx] 0
          | _ => mret 0
          end
      end
  | _ => mret 0
  end.
Definition sync_mempool_connection : ST W string Z :=
  now_ ← unix_now;
  let epoch := now_ / 30 in
  ids ← read_node (local_short_ids epoch);
  r ← peer_request (ReconcileMempool epoch ids);
  match r with
  | Reject _ _ => st_fail "peer rejected mempool reconciliation"
  | MsgTransactions txs =>
      accepted ← submit_mempool_transactions txs 0;
      more ← sync_mempool_inventory;
      mret (accepted + more)
  | _ => mret 0
  end.

(** ** Snapshots *)

(** The [while snapshot.len() < capacity]; every chunk is at least one byte. *)
Fixpoint chunk_loop (fuel : nat) (height : BlockHeight) (hash : BlockHash) (chunk_size capacity : Z)
    (snapshot : bytes) : ST W string bytes :=
  if capacity <=? zlen snapshot then mret snapshot else
  match fuel with
  | O => st_fail "out of fuel"
  | S fuel =>
      let offset := zlen snapshot in
      let length := Z.min (capacity - zlen snapshot) chunk_size in
      r ← peer_request (GetSnapshotChunk height hash offset length);
      match r with
      | SnapshotChunk chunk_height chunk_hash chunk_offset compression uncompressed_length raw =>
          if (chunk_height =? height) && bool_decide (chunk_hash = hash) && (chunk_offset =? offset)
             && negb (zlen raw =? 0) && (uncompressed_length =? length) && (zlen raw <=? length)
          then
            decoded ← st_lift (decompress_chunk compression raw uncompressed_length);
            chunk_loop fuel height hash chunk_size capacity (snapshot ++ decoded)
          else st_fail "selected peer returned an invalid snapshot chunk"
      | _ => st_fail "selected peer returned an invalid snapshot chunk"
      end
  end.

(** The download from the selected peer: manifest, chunks, content hash. *)
Definition download_snapshot (tip : TipInfo) : ST W string bytes :=
  manifest ← peer_request (GetSnapshotManifest (ti_height tip) (ti_hash tip));
  match manifest with
  | SnapshotManifest height hash size content_hash chunk_size =>
      if negb (height =? ti_height tip) || negb (bool_decide (hash = ti_hash tip)) || (size =? 0)
         || (MAX_FAST_SYNC_BUNDLE_SIZE <? size) || (chunk_size =? 0)
         || (SNAPSHOT_CHUNK_SIZE <? chunk_size)
      then st_fail "selected peer returned an invalid snapshot manifest" else
      snapshot ← chunk_loop (Z.to_nat size) height hash chunk_size size [];
      if negb (zlen snapshot =? size)
         || negb (bool_decide (artifact_payload_hash snapshot = content_hash))
      then st_fail "downloaded snapshot content hash mismatch" else
      mret snapshot
  | _ => st_fail "selected peer did not return a snapshot manifest"
  end.

Record FastSyncDownload := { fd_peer : string; fd_headers : list BlockHeader; fd_snapshot : bytes }.

(** [ArtifactTrustAnchor::from_verified_header_chain] of the crate: height, hash and work of the
    tip of a header chain whose proof of work it has checked. *)
Context (from_verified_header_chain :
  list BlockHeader -> Result GenesisError (BlockHeight * BlockHash * Work)).

Definition header_candidate (addr : string) : ST W string (string * TipInfo * list BlockHeader) :=
  peer_connect addr ;;
  handshake_bootstrap_peer ;;
  tip ← request_tip;
  headers ← request_headers 0 (ti_height tip) zero_hash;
  anchor ← st_lift (map_err (fun e => "header chain failed PoW validation: " +:+ show_genesis e)
             (from_verified_header_chain headers));
  let '(height, hash, work) := anchor in
  if negb (height =? ti_height tip) || negb (bool_decide (hash = ti_hash tip))
     || negb (bool_decide (to_be_limbs work = ti_work tip))
  then st_fail "peer tip does not match its authenticated header chain"
  else mret (addr, tip, headers).
Fixpoint header_candidates (peers : list string) : ST W string (list (string * TipInfo * list BlockHeader)) :=
  match peers with
  | [] => mret []
  | addr :: peers =>
      r ← st_try (header_candidate addr);
      rest ← header_candidates peers;
      mret (match r with Ok c => c :: rest | Err _ => rest end)
  end.
Definition download_authenticated_snapshot (peers : list string) : ST W string FastSyncDownload :=
  match peers with
  | [] => st_fail "authenticated fast-sync requires at least one peer"
  | _ =>
      candidates ← header_candidates peers;
      match max_by (fun l r => compare_tips l.1.2 r.1.2) candidates with
      | None => st_fail "no peer supplied a valid frozen-genesis PoW header chain"
      | Some (addr, tip, headers) =>
          peer_connect addr ;;
          handshake_bootstrap_peer ;;
          snapshot ← download_snapshot tip;
          mret {| fd_peer := addr; fd_headers := headers; fd_snapshot := snapshot |}
      end
  end.
End sync.
