(* ===== verification/Connection.v ===== *)
(** A connection to a peer: [PeerConnection] of p2p/mod.rs, its reader thread, and
    request_on_stream of rpc/transport.rs.

    The world of a connection holds its fields, both directions of its socket, the channel its
    reader thread fills, the shared node and the shared counters. What the world outside does is
    [Environment]: the clocks, the shutdown flag, whether a lock is poisoned, what dialling gives,
    and what other threads did to the node before it is locked; each is a function of the number
    of readings made so far. Console output is left out. *)
From Stdlib Require Import ZArith Lia.
From stdpp Require Import base numbers option strings list gmap pretty.
From S2P Require Import Prelude BTree PaqusCore Mempool Compact Snapshot Lmdb Storage Cache NodeState.
From S2P Require Import Node Message Transport Handler Peer Sync.
Open Scope Z_scope.

Definition PERSISTENT_PEER_TIMEOUT : Z := secs 30.

Section world.
Context `{PaqusTypes} `{!TxOps} `{!BlockOps} `{!LedgerOps} `{!Lmdb} {Ch : Type}.

(** What [recv_timeout] returns, in order; after the last event the sender is gone. *)
Inductive Recv :=
| Routed (e : NetworkEnvelope)
| RecvTimeout.

(** [responses] is [Some] exactly when [pc_routed]; [node] is [Some] when [pc_attached]. *)
Record PeerConnection := {
  pc_addr : string;
  pc_handshaken : bool;
  pc_request_ids : Z;
  pc_routed : bool;
  pc_pending : gmap Z NetworkMessage;
  pc_attached : bool;
  pc_window : RequestWindow
}.
Definition set_handshaken (c : PeerConnection) : PeerConnection := {|
  pc_addr := pc_addr c; pc_handshaken := true; pc_request_ids := pc_request_ids c;
  pc_routed := pc_routed c; pc_pending := pc_pending c; pc_attached := pc_attached c;
  pc_window := pc_window c |}.
Definition set_request_ids (x : Z) (c : PeerConnection) : PeerConnection := {|
  pc_addr := pc_addr c; pc_handshaken := pc_handshaken c; pc_request_ids := x;
  pc_routed := pc_routed c; pc_pending := pc_pending c; pc_attached := pc_attached c;
  pc_window := pc_window c |}.
Definition set_pending (x : gmap Z NetworkMessage) (c : PeerConnection) : PeerConnection := {|
  pc_addr := pc_addr c; pc_handshaken := pc_handshaken c; pc_request_ids := pc_request_ids c;
  pc_routed := pc_routed c; pc_pending := x; pc_attached := pc_attached c;
  pc_window := pc_window c |}.
Definition set_attached (c : PeerConnection) : PeerConnection := {|
  pc_addr := pc_addr c; pc_handshaken := pc_handshaken c; pc_request_ids := pc_request_ids c;
  pc_routed := pc_routed c; pc_pending := pc_pending c; pc_attached := true;
  pc_window := pc_window c |}.
Definition set_window (x : RequestWindow) (c : PeerConnection) : PeerConnection := {|
  pc_addr := pc_addr c; pc_handshaken := pc_handshaken c; pc_request_ids := pc_request_ids c;
  pc_routed := pc_routed c; pc_pending := pc_pending c; pc_attached := pc_attached c;
  pc_window := x |}.

Record World := {
  connection : PeerConnection;
  outgoing : Ch;
  incoming : list ReadEvent;
  channel : list Recv;
  shared_node : Node;
  counters : NetworkMetrics;
  readings : nat
}.

Record Environment := {
  env_instant : nat -> Z;
  env_unix : nat -> Z;
  env_stop : nat -> bool;
  env_poisoned : nat -> bool;
  env_others : nat -> Node -> Node;
  (** [connect_peer], [configure_stream] and [spawn_peer_reader]: the socket to write to and
      what the reader thread will hand over *)
  env_dial : nat -> string -> Result string (Ch * list Recv)
}.

Definition set_connection (f : PeerConnection -> PeerConnection) (w : World) : World := {|
  connection := f (connection w); outgoing := outgoing w; incoming := incoming w;
  channel := channel w; shared_node := shared_node w; counters := counters w;
  readings := readings w |}.
Definition set_outgoing (x : Ch * NetworkMetrics) (w : World) : World := {|
  connection := connection w; outgoing := x.1; incoming := incoming w;
  channel := channel w; shared_node := shared_node w; counters := x.2;
  readings := readings w |}.
Definition set_incoming (x : list ReadEvent * NetworkMetrics) (w : World) : World := {|
  connection := connection w; outgoing := outgoing w; incoming := x.1;
  channel := channel w; shared_node := shared_node w; counters := x.2;
  readings := readings w |}.
Definition set_channel (x : list Recv) (w : World) : World := {|
  connection := connection w; outgoing := outgoing w; incoming := incoming w;
  channel := x; shared_node := shared_node w; counters := counters w;
  readings := readings w |}.
Definition set_shared (x : Node * NetworkMetrics) (w : World) : World := {|
  connection := connection w; outgoing := outgoing w; incoming := incoming w;
  channel := channel w; shared_node := x.1; counters := x.2;
  readings := readings w |}.
Definition set_readings (x : nat) (w : World) : World := {|
  connection := connection w; outgoing := outgoing w; incoming := incoming w;
  channel := channel w; shared_node := shared_node w; counters := counters w;
  readings := x |}.
End world.
Arguments World {_ _} Ch.
Arguments Environment {_ _} Ch.

Section connection.
Context `{PaqusTypes} `{!TxOps} `{!BlockOps} `{!LedgerOps} `{!EventOps} `{!ForkOps}.
Context `{!ConsensusOps} `{!GenesisOps} `{!Borsh} `{!Lmdb} `{!ErrorDisplay} `{!StorageDisplay}.
Context `{!ChainParams} `{!EnvelopeBorsh} {Ch : Type} `{!Write Ch}.
Context (clock : nat -> Z) (env : Environment Ch).

Abbreviation Peer := (ST (World Ch) string).
Abbreviation Request := (NetworkMessage -> Peer NetworkMessage).

(** One reading of the world outside. *)
Definition observe {A} (f : nat -> A) : Peer A :=
  fun w => (Ok (f (readings w)), set_readings (S (readings w)) w).
Definition stop_if_shutdown : Peer unit :=
  stop ← observe (env_stop env); if stop : bool then st_fail SHUTDOWN else mret tt.

(** [self.check_request_budget()]; the clock is read again when the window starts over. *)
Definition budget : Peer unit :=
  now1 ← observe (env_instant env);
  w ← st_get;
  now2 ← (if PEER_REQUEST_WINDOW <=?
             saturating_sub now1 (request_window_started (pc_window (connection w)))
          then observe (env_instant env) else mret now1);
  st_zoom (fun w => pc_window (connection w)) (fun window => set_connection (set_window window))
    (check_request_budget now1 now2).

(** [write_message(&mut self.stream, ..)] *)
Definition write_envelope (text : string) (e : NetworkEnvelope) : Peer unit :=
  st_zoom (fun w => (outgoing w, counters w)) set_outgoing
    (st_map_err (fun error => text +:+ show_network_error error) (write_message e)).

(** [node.lock()] and what follows under the lock, on the node the other threads left. *)
Definition with_lock {E A} (m : ST (Node * NetworkMetrics) E A) : Peer (Result E A) :=
  poisoned ← observe (env_poisoned env);
  if poisoned : bool then st_fail "node state lock poisoned" else
  others ← observe (env_others env);
  st_zoom (fun w => (others (shared_node w), counters w)) set_shared (st_try m).
Definition locked {E A} (text : E -> string) (m : ST (Node * NetworkMetrics) E A) : Peer A :=
  r ← with_lock m; match r with Ok a => mret a | Err e => st_fail (text e) end.
(** Code on the node alone. *)
Definition node_only {E A} (m : ST Node E A) : ST (Node * NetworkMetrics) E A :=
  st_zoom fst (fun n s => (n, s.2)) m.

(** [handle_message(&mut node, m)], [apply_block] and [reconstruct] under the lock. *)
Definition handled (text : string) (m : NetworkMessage) : Peer (option NetworkMessage) :=
  locked (fun error => text +:+ show_network_error error) (handle_message clock m).
Definition apply_locked (text : string) (b : Block) : Peer unit :=
  locked (fun error => text +:+ show_node_error error) (node_only (apply_block clock b)).
Definition reconstruct_locked (compact : CompactBlock) (txs : list IndexedBlockTransaction)
    : Peer (Result CompactBlockError CompactBlockReconstruction) :=
  with_lock (node_only (n ← st_get; st_lift (reconstruct compact (mempool n) txs))).

Definition bump (f : NetworkMetrics -> NetworkMetrics) : Peer unit :=
  st_modify (fun w => set_shared (shared_node w, f (counters w)) w).

Definition send (m : NetworkMessage) : Peer unit :=
  stop_if_shutdown ;; budget ;; write_envelope "send failed: " (to_envelope m).

(** ** Unsolicited messages

    They may need answers of their own: [request] is [self.request]. *)

Definition fetch_full_compact_fallback (request : Request) (hash : BlockHash) : Peer unit :=
  bump count_compact_fallback ;;
  response ← request (GetBlockByHash hash);
  b ← match response with
      | MsgBlock b | MsgBlocks [b] => mret b
      | Reject _ m => st_fail ("compact full-block fallback rejected: " +:+ m)
      | _ => st_fail "compact full-block fallback returned invalid response"
      end;
  got ← st_lift (map_err (fun e => "fallback block hash failed: " +:+ show_codec e) (block_hash b));
  if negb (bool_decide (got = hash)) then st_fail "compact full-block fallback hash mismatch" else
  apply_locked "fallback block rejected: " b.

Definition apply_compact (b : Block) : Peer unit :=
  apply_locked "compact block rejected: " b ;; bump count_compact_success.

Definition handle_compact_block (request : Request) (compact : CompactBlock) : Peer unit :=
  hash ← st_lift (map_err (fun e => "invalid compact block: " +:+ show_compact_error e)
                    (compact_block_hash compact));
  w ← st_get;
  if negb (pc_attached (connection w)) then mret tt else
  first_pass ← reconstruct_locked compact [];
  match first_pass with
  | Ok (Complete b) => apply_compact b
  | Err _ => fetch_full_compact_fallback request hash
  | Ok (Missing indexes) =>
      bump (count_compact_missing (zlen indexes)) ;;
      if (MAX_COMPACT_RECOVERY_TRANSACTIONS <? zlen indexes)
         || (saturating_mul USIZE_MAX (zlen (short_ids compact)) 3
             <? saturating_mul USIZE_MAX (zlen indexes) 4)
      then fetch_full_compact_fallback request hash else
      response ← st_try (request (GetCompactBlockTransactions hash indexes));
      match response with
      | Ok (CompactBlockTransactions response_hash txs) =>
          if negb (bool_decide (response_hash = hash))
          then fetch_full_compact_fallback request hash else
          second_pass ← reconstruct_locked compact txs;
          match second_pass with
          | Ok (Complete b) => apply_compact b
          | _ => fetch_full_compact_fallback request hash
          end
      | _ => fetch_full_compact_fallback request hash
      end
  end.

(** Every message but a compact block: the node's reply is sent back, but what it asks for with
    [GetData] is fetched and handled. *)
Definition handle_other (request : Request) (id : Z) (m : NetworkMessage) : Peer unit :=
  w ← st_get;
  if negb (pc_attached (connection w)) then mret tt else
  response ← handled "unsolicited message handling failed: " m;
  match response with
  | None => mret tt
  | Some (GetData items) =>
      data ← request (GetData items);
      follow_up ← handled "unsolicited data response handling failed: " data;
      match follow_up with Some m => send m | None => mret tt end
  | Some m => write_envelope "unsolicited response send failed: " (envelope_response id m)
  end.
Definition handle_unsolicited (request : Request) (id : Z) (m : NetworkMessage) : Peer unit :=
  match m with
  | MsgCompactBlock compact => handle_compact_block request compact
  | _ => handle_other request id m
  end.
(** ** Requests *)

(** How much is left to read: every call of [read_message] takes some of it or fails for good. *)
Fixpoint stream_weight (s : list ReadEvent) : nat :=
  match s with
  | [] => 0
  | Arrives b :: s => S (length b) + stream_weight s
  | Breaks _ :: s => S (stream_weight s)
  end.

(** The [loop] of request_on_stream. *)
Fixpoint stream_loop (fuel : nat) : Peer NetworkMessage :=
  match fuel with
  | O => st_fail "out of fuel"
  | S fuel =>
      e ← st_zoom (fun w => (incoming w, counters w)) set_incoming
            (st_map_err (fun error => "read failed: " +:+ show_network_error error) read_message);
      if (response_to e =? 1) || (response_to e =? 0) then mret (message e) else stream_loop fuel
  end.
Definition request_on_stream (m : NetworkMessage) : Peer NetworkMessage :=
  write_envelope "send failed: " (envelope_request 1 m) ;;
  w ← st_get; stream_loop (S (stream_weight (incoming w))).

(** [self.request_ids.fetch_add(1)] *)
Definition next_request_id : Peer Z :=
  st_step (fun w => (pc_request_ids (connection w),
    set_connection (set_request_ids (u64_wrapping_add (pc_request_ids (connection w)) 1)) w)).

(** Everything before the [loop] of request; [await deadline id] is the loop. *)
Definition request_with (await : Z -> Z -> Peer NetworkMessage) : Request := fun m =>
  stop_if_shutdown ;; budget ;;
  w ← st_get;
  if negb (pc_routed (connection w)) then request_on_stream m else
  now ← observe (env_instant env);
  id ← next_request_id;
  write_envelope "send failed: " (envelope_request id m) ;;
  await (now + PERSISTENT_PEER_TIMEOUT) id.

Definition keep_response (e : NetworkEnvelope) : Peer unit :=
  st_modify (set_connection (fun c => set_pending (<[response_to e := message e]> (pc_pending c)) c)).
Definition take_response (id : Z) : Peer unit :=
  st_modify (set_connection (fun c => set_pending (delete id (pc_pending c)) c)).

(** [recv_timeout] gives the next of [events]; [await] is the rest of the [loop]. An unsolicited
    message is handled by requests that wait on the events after it. *)
Definition take_event (await : Z -> Z -> Peer NetworkMessage) (deadline id : Z) (events : list Recv)
    : Peer NetworkMessage :=
  match events with
  | [] => st_fail "read failed: channel is empty and sending half is closed"
  | RecvTimeout :: rest => st_modify (set_channel rest) ;; await deadline id
  | Routed e :: rest =>
      st_modify (set_channel rest) ;;
      if response_to e =? id then mret (message e) else
      if negb (response_to e =? 0) then keep_response e ;; await deadline id else
      handle_unsolicited (request_with await) (request_id e) (message e) ;;
      await deadline id
  end.
(** A turn of the [loop] that finds no kept response. *)
Definition await_event (await : Z -> Z -> Peer NetworkMessage) (deadline id : Z) (events : list Recv)
    : Peer NetworkMessage :=
  stop_if_shutdown ;;
  now ← observe (env_instant env);
  if deadline <=? now then st_fail "peer request timed out" else
  take_event await deadline id events.
(** The [loop]: a turn that does not end takes one event of the channel. *)
Fixpoint await (fuel : nat) (deadline id : Z) : Peer NetworkMessage :=
  match fuel with
  | O => st_fail "out of fuel"
  | S fuel =>
      w ← st_get;
      match pc_pending (connection w) !! id with
      | Some m => take_response id ;; mret m
      | None => await_event (await fuel) deadline id (channel w)
      end
  end.

Definition request : Request := fun m =>
  w ← st_get; request_with (await (S (length (channel w)))) m.

(** ** Connecting *)

(** [PeerConnection::connect] and [from_stream] *)
Definition connection_new (addr : string) (routed : bool) (now : Z) : PeerConnection := {|
  pc_addr := addr; pc_handshaken := false; pc_request_ids := 1; pc_routed := routed;
  pc_pending := ∅; pc_attached := false;
  pc_window := {| request_window_started := now; request_count := 0 |} |}.
Definition connect (addr : string) : Peer unit :=
  dialled ← observe (env_dial env);
  peer ← st_lift (dialled addr);
  now ← observe (env_instant env);
  st_modify (fun w => set_outgoing (peer.1, counters w) (set_channel peer.2
    (set_connection (fun _ => connection_new addr true now) w))).

(** The reader thread of spawn_peer_reader: the envelopes it puts in the channel. [stop] is the
    shutdown flag at the start of each turn. *)
Fixpoint reader_loop (fuel turn : nat) (stop : nat -> bool) (s : list ReadEvent * NetworkMetrics)
    : list NetworkEnvelope :=
  match fuel with
  | O => []
  | S fuel =>
      if stop turn then [] else
      match read_message s with
      | (Ok e, s) => e :: reader_loop fuel (S turn) stop s
      | (Err (NetworkIo error), s) =>
          if bool_decide (io_kind error = WouldBlock) || bool_decide (io_kind error = TimedOut)
          then reader_loop fuel (S turn) stop s else []
      | (Err _, _) => []
      end
  end.
Definition peer_reader (stop : nat -> bool) (s : list ReadEvent) (k : NetworkMetrics)
    : list NetworkEnvelope :=
  reader_loop (S (stream_weight s)) 0 stop (s, k).

(** The connection is the peer of the synchronisation code. *)
#[global] Instance connection_world : PeerWorld (World Ch) := {|
  peer_request := request;
  peer_send := send;
  peer_addr w := pc_addr (connection w);
  peer_connect := connect;
  peer_handshaken w := pc_handshaken (connection w);
  peer_mark_handshaken := set_connection set_handshaken;
  peer_attach_node := set_connection set_attached;
  peer_next_id := next_request_id;
  shutdown_requested := observe (env_stop env);
  instant_now := observe (env_instant env);
  unix_now := observe (env_unix env);
  with_node A m := with_lock (node_only m);
  run_threads A := run_in_turn
|}.
End connection.
