(* ===== verification/HandlerSpec.v ===== *)
(** What a node does with its peers' messages: invariants through any conversation, queries
    that change nothing, bounded and exact answers, mempool reconciliation, and the relay of
    compact blocks between two nodes. *)
From Stdlib Require Import ZArith Lia.
From stdpp Require Import base numbers option strings list sets relations.
From S2P Require Import Prelude BTree PaqusCore Mempool MempoolInv Compact Snapshot Recovery Lmdb Storage.
From S2P Require Import Cache NodeState Node NodeOrphans NodeMempool Message Handler.
Open Scope Z_scope.

Section handler_spec.
Context `{PaqusTypes} `{!TxOps} `{!BlockOps} `{!LedgerOps} `{!EventOps} `{!ForkOps}.
Context `{!ConsensusOps} `{!GenesisOps} `{!Borsh} `{!Lmdb} `{!ErrorDisplay} `{!StorageDisplay}.
Context `{!ChainParams}.
Context (clock : nat -> Z).
Implicit Types (n : Node) (k : NetworkMetrics) (s : Node * NetworkMetrics) (m : NetworkMessage).

(** ** Conversations *)

(** The node after a list of messages, whatever each of them returned. *)
Definition converse (ms : list NetworkMessage) s : Node * NetworkMetrics :=
  fold_left (fun s m => (handle_message clock m s).2) ms s.

(** Every change a message makes to the node is a sequence of the node's own operations. *)
Definition from_node (n0 : Node) s : Prop := rtc (node_step clock) n0 s.1.

Lemma on_node_steps {A} n0 (f : ST Node NodeError A) :
  (forall n, node_step clock n (f n).2) -> st_preserves (from_node n0) (on_node f).
Proof. intros Hf s Hs. unfold from_node. cbn. eapply rtc_r; [exact Hs|apply Hf]. Qed.
Lemma change_node_steps n0 f :
  (forall n, node_step clock n (f n)) -> st_preserves (from_node n0) (change_node f).
Proof. intros Hf s Hs. unfold from_node. cbn. eapply rtc_r; [exact Hs|apply Hf]. Qed.
Lemma get_node_steps P : st_preserves P get_node.
Proof. by intros s. Qed.
Lemma duplicate_steps n0 : st_preserves (from_node n0) note_duplicate.
Proof. by intros s. Qed.

Ltac handler_steps :=
  st_steps ltac:(first
    [ apply on_node_steps; intros ?; constructor | apply change_node_steps; intros ?; constructor
    | apply get_node_steps | apply duplicate_steps
    | progress unfold reject, reply, no_reply ]).

Lemma accept_transaction_steps n0 tx : st_preserves (from_node n0) (accept_transaction clock tx).
Proof. unfold accept_transaction. handler_steps. Qed.
Lemma handle_message_steps n0 m : st_preserves (from_node n0) (handle_message clock m).
Proof.
  destruct m; cbn [handle_message]; handler_steps.
  all: try (st_steps ltac:(first [apply accept_transaction_steps | progress unfold no_reply])).
  - unfold reconcile_mempool. handler_steps.
  - unfold receive_compact. handler_steps.
  - unfold send_compact_transactions. handler_steps.
  - intros s Hs. unfold from_node. cbn. eapply rtc_r; [exact Hs|apply step_take].
Qed.
Lemma converse_steps n0 ms s : from_node n0 s -> from_node n0 (converse ms s).
Proof.
  revert s. induction ms as [|m ms IH]; intros s Hs; cbn; [done|]. by apply IH, handle_message_steps.
Qed.

(** The invariants of a new node hold after any of its operations. *)
Lemma node_steps_wf l env c accs n0 n :
  try_with_genesis_accounts l env c accs = Ok n0 -> rtc (node_step clock) n0 n ->
  pool_wf n /\ mempool_wf (mempool n).
Proof.
  intros Hnew Hsteps. pose proof (new_node_pool _ _ _ _ _ Hnew) as Hpool.
  pose proof (new_node_lawful _ _ _ _ _ Hnew) as Hlaw. clear Hnew.
  induction Hsteps as [|n1 n2 n3 Hstep _ IH]; [done|].
  apply IH; [by apply (node_step_pool clock n1)|by apply (node_step_lawful clock n1)].
Qed.

(** whatever peers send a node, in whatever order, the node stays consistent: the orphan
    pool, the request queue and the staged compact blocks keep their invariant, and so does
    the mempool. *)
Theorem conversation_keeps_node l env c accs n0 k ms :
  try_with_genesis_accounts l env c accs = Ok n0 ->
  pool_wf (converse ms (n0, k)).1 /\ mempool_wf (mempool (converse ms (n0, k)).1).
Proof.
  intros Hnew. apply (node_steps_wf _ _ _ _ _ _ Hnew).
  exact (converse_steps n0 ms (n0, k) (rtc_refl _ _)).
Qed.

(** ** Questions *)

(** The messages that ask, report or acknowledge; the others bring blocks or transactions. *)
Definition asks m : bool :=
  match m with
  | MsgBlock _ | MsgBlocks _ | MsgTransaction _ | MsgTransactions _ | MsgCompactBlock _
  | CompactBlockTransactions _ _ => false
  | _ => true
  end.

(** The node differs from [n] in its snapshot cache at most. *)
Definition same_but_snapshot s0 s : Prop :=
  s.2 = s0.2 /\ s.1 = set_snapshot_cache (snapshot_cache s.1) s0.1.
Lemma snapshot_bytes_same n :
  (snapshot_bytes n).2 = set_snapshot_cache (snapshot_cache (snapshot_bytes n).2) n.
Proof.
  enough (Hk : st_preserves (fun n' => n' = set_snapshot_cache (snapshot_cache n') n) snapshot_bytes).
  { apply Hk. by destruct n. }
  unfold snapshot_bytes. st_steps ltac:(apply st_preserves_modify; intros n' E; by rewrite E).
Qed.
Lemma on_snapshot_same s0 : st_preserves (same_but_snapshot s0) (on_node snapshot_bytes).
Proof.
  intros [n k] [E1 E2]. cbn in *. split; [done|]. cbn. rewrite snapshot_bytes_same at 1. rewrite E2 at 2. done.
Qed.

(** a peer cannot change the node by asking: every message that does not bring a block or
    a transaction leaves the node and the counters as they were, except for the cached bytes of
    a requested snapshot. *)
Theorem questions_change_nothing m s :
  asks m = true ->
  (handle_message clock m s).2.2 = s.2 /\
  (handle_message clock m s).2.1 =
    set_snapshot_cache (snapshot_cache (handle_message clock m s).2.1) s.1.
Proof.
  intros Hm. enough (Hk : st_preserves (same_but_snapshot s) (handle_message clock m)).
  { apply Hk. split; [done|]. by destruct s as [[] k]. }
  destruct m; try discriminate Hm; cbn [handle_message];
    unfold snapshot_manifest, snapshot_chunk, reconcile_mempool, send_compact_transactions;
    st_steps ltac:(first [apply get_node_steps | apply on_snapshot_same
      | progress unfold reject, reply, no_reply]).
Qed.

(** ** Ranges *)

Lemma map_while_from_spec {A} (f : Z -> option A) count start :
  let l := map_while_from f count start in
  (length l <= count)%nat /\
  (forall i x, l !! i = Some x -> f (start + Z.of_nat i) = Some x) /\
  ((length l < count)%nat -> f (start + zlen l) = None).
Proof.
  revert start. induction count as [|count IH]; intros start; cbn.
  { split_and!; [lia|by intros []|lia]. }
  destruct (f start) as [x|] eqn:E; cbn.
  2:{ split_and!; [lia|by intros []|]. intros _. unfold zlen. cbn. by rewrite Z.add_0_r. }
  destruct (IH (start + 1)) as (H1' & H2' & H3'). split_and!; [lia| |].
  - intros [|i] y Hi; cbn in Hi; [by rewrite Z.add_0_r; congruence|].
    specialize (H2' i y Hi). rewrite <- H2'. f_equal. lia.
  - intros Hlt. rewrite <- H3' by lia. f_equal. unfold zlen. cbn [length]. lia.
Qed.

(** [l] is the run of [f] from [start]: at most [limit] and at most 64 items, ended early only
    where [f] has nothing or the heights end. *)
Definition range_exact {A} (f : BlockHeight -> option A) (start limit : Z) (l : list A) : Prop :=
  zlen l <= Z.min limit 64 /\
  (forall i x, l !! i = Some x -> f (start + Z.of_nat i) = Some x) /\
  (zlen l < Z.min limit 64 -> start + zlen l = U64_MAX \/ f (start + zlen l) = None).

(** a range of blocks or headers is answered exactly: at most 64 items and never more than
    asked for, consecutive from the first height asked for, and cut short only where the chain,
    or the range of heights, ends. *)
Theorem ranges_answered_exactly start limit s :
  0 <= start <= U64_MAX -> 0 <= limit ->
  (exists blocks, range_exact (ledger_block (ledger s.1)) start limit blocks /\
    handle_message clock (GetBlocksByHeightRange start limit) s = (Ok (Some (MsgBlocks blocks)), s)) /\
  (exists headers, range_exact (chain_header (ledger s.1)) start limit headers /\
    handle_message clock (GetBlockHeadersByHeightRange start limit) s =
      (Ok (Some (MsgBlockHeaders headers)), s)).
Proof.
  intros Hs Hl.
  assert (Hexact : forall A (f : BlockHeight -> option A), range_exact f start limit (height_range f start limit)).
  { intros A f. unfold range_exact, height_range, MAX_RANGE_RESPONSE_ITEMS.
    destruct (map_while_from_spec f (Z.to_nat (u64_add start (Z.min limit 64) - start)) start)
      as (H1' & H2' & H3').
    unfold u64_add, saturating_add, zlen in *. split_and!; [lia|done|]. intros Hlt.
    destruct (Z.eq_dec (start + Z.of_nat (length (map_while_from f
      (Z.to_nat (Z.min (start + Z.min limit 64) U64_MAX - start)) start))) U64_MAX); [by left|right].
    apply H3'. lia. }
  split; eexists; (split; [apply Hexact|done]).
Qed.

(** ** Mempool reconciliation *)

Lemma id_set_NoDup ids : NoDup ids -> bt_len (id_set ids) = zlen ids.
Proof.
  unfold id_set. assert (Hgen : forall seen : BTreeSet Z, (forall i, i ∈ ids -> seen !! i = None) -> NoDup ids ->
    bt_len (fold_left (fun (seen : BTreeSet Z) i => <[i := tt]> seen) ids seen) = bt_len seen + zlen ids).
  { induction ids as [|i ids IH]; intros seen Hs Hnd; cbn; [unfold zlen; cbn; lia|].
    apply NoDup_cons in Hnd as [Hi Hnd]. rewrite IH; [|intros j Hj|done].
    - rewrite bt_len_insert_new by (apply Hs; set_solver). unfold zlen. cbn [length]. lia.
    - rewrite bt_lookup_insert_ne by set_solver. apply Hs. set_solver. }
  intros Hnd. rewrite Hgen; [done|by intros|done].
Qed.

(** The transaction is in the epoch's bucket and its short id is not among [ids]. *)
Definition unknown_in_bucket (epoch : Z) (ids : list Z) (tx : SignedProtocolTransaction) : Prop :=
  exists h, tx_hash tx = Ok h /\
    reconcile_short_id epoch h mod RECONCILE_BUCKETS = epoch mod RECONCILE_BUCKETS /\
    reconcile_short_id epoch h ∉ ids.
Lemma reconcile_missing_exact epoch ids txs :
  (forall tx, tx ∈ txs -> exists h, tx_hash tx = Ok h) ->
  exists l, reconcile_missing epoch (id_set ids) txs = Ok l /\
    forall tx, tx ∈ l <-> tx ∈ txs /\ unknown_in_bucket epoch ids tx.
Proof.
  induction txs as [|tx txs IH]; intros Hh; cbn.
  { exists []. split; [done|]. set_solver. }
  destruct IH as (l & -> & Hl); [intros tx' Ht'; apply Hh; set_solver|].
  destruct (Hh tx (list_elem_of_here _ _)) as [h Hx]. rewrite Hx. cbn. eexists; split; [done|].
  intros tx'. assert (Hin : unknown_in_bucket epoch ids tx <->
    (reconcile_short_id epoch h mod RECONCILE_BUCKETS =? epoch mod RECONCILE_BUCKETS)
      && negb (bt_contains (reconcile_short_id epoch h) (id_set ids)) = true).
  { rewrite andb_true_iff, Z.eqb_eq, negb_true_iff, <- not_true_iff_false, id_set_contains.
    unfold unknown_in_bucket. rewrite Hx. naive_solver. }
  destruct (_ && _).
  - rewrite !elem_of_cons, Hl. naive_solver.
  - rewrite elem_of_cons, Hl. naive_solver.
Qed.

(** mempool reconciliation sends exactly the pooled transactions of the epoch's bucket whose
    short ids the peer did not list, and changes nothing. *)
Theorem reconciliation_exact epoch ids s :
  NoDup ids -> zlen ids <= MAX_RECONCILE_SHORT_IDS -> mempool_wf (mempool s.1) ->
  exists missing, handle_message clock (ReconcileMempool epoch ids) s =
      (Ok (Some (MsgTransactions missing)), s) /\
    forall tx, tx ∈ missing <->
      tx ∈ pool_transactions (mempool s.1) /\ unknown_in_bucket epoch ids tx.
Proof.
  intros Hnd Hlen Hwf. destruct (reconcile_missing_exact epoch ids (pool_transactions (mempool s.1)))
    as (l & Hl & Hin).
  { intros tx Htx. apply bt_elem_values in Htx as [h Hh]; [|by apply wf_txs].
    exists h. by apply (wf_entry _ Hwf h tx). }
  exists l. split; [|done]. cbn [handle_message]. unfold reconcile_mempool.
  destruct (Z.ltb_spec MAX_RECONCILE_SHORT_IDS (zlen ids)); [lia|].
  rewrite (id_set_NoDup ids Hnd), Z.eqb_refl. cbn [orb negb].
  unfold mbind, st_bind, get_node. cbn. by rewrite Hl.
Qed.

(** ** Compact block relay *)

Lemma repeats_NoDup seen ids :
  (forall i, i ∈ ids -> seen !! i = None) -> NoDup ids -> repeats seen ids = false.
Proof.
  revert seen. induction ids as [|i ids IH]; intros seen Hs Hnd; cbn; [done|].
  apply NoDup_cons in Hnd as [Hi Hnd]. apply orb_false_iff. split.
  - apply bt_contains_false, Hs. set_solver.
  - apply IH; [|done]. intros j Hj. rewrite bt_lookup_insert_ne by set_solver. apply Hs. set_solver.
Qed.
Lemma pick_transactions_answer (b : Block) ids :
  (forall i, i ∈ ids -> exists tx, block_transactions b !! Z.to_nat i = Some tx) ->
  pick_transactions (block_transactions b) ids = Some (answer b ids).
Proof.
  induction ids as [|i ids IH]; intros Hi; cbn; [done|].
  destruct (Hi i (list_elem_of_here _ _)) as [tx ->]. cbn.
  rewrite IH by (intros j Hj; apply Hi; set_solver). done.
Qed.
Lemma absent_answered `{!BlockLaws} (b : Block) (pool : list SignedProtocolTransaction) :
  let absent := absent_from 0 (block_transactions b) pool in
  pick_transactions (block_transactions b) absent = Some (answer b absent) /\
  repeats ∅ absent = false /\ zlen absent <= zlen (block_transactions b).
Proof.
  split_and!.
  - apply pick_transactions_answer. intros i Hi. apply absent_from_elem in Hi as (j & tx & -> & Hj & _).
    exists tx. by replace (Z.to_nat (0 + Z.of_nat j)) with j by lia.
  - apply repeats_NoDup; [done|apply absent_from_NoDup].
  - apply absent_from_length.
Qed.

(** Applying the rebuilt block and answering nothing. *)
Definition apply_and_finish (b : Block) : ST (Node * NetworkMetrics) NetworkError (option NetworkMessage) :=
  on_node (apply_block clock b) ;; mret None.

(** C27: relaying a block takes at most one more round trip between two nodes. The receiver of
    the compact form of a block the sender holds either applies the rebuilt block at once, or
    asks for exactly the transactions its pool lacks; the sender's answer, which changes nothing
    at the sender, makes the receiver apply the rebuilt block. The proof of work is not
    transmitted: the rebuilt block always has nonce 0. *)
Theorem compact_relay_protocol `{!BlockLaws} (sender receiver : Node * NetworkMetrics)
    (b : Block) (c : CompactBlock) (hash : BlockHash) :
  from_block b = Ok c -> block_hash b = Ok hash -> MAX_BLOCK_DECODE_ITEMS <= 2 ^ 32 ->
  block_by_hash (cache sender.1) hash = Some b -> block_by_hash (cache receiver.1) hash = None ->
  mempool_wf (mempool receiver.1) ->
  no_collision hash (pool_transactions (mempool receiver.1)) (block_transactions b) ->
  handle_message clock (MsgCompactBlock c) receiver = apply_and_finish (zero_nonce b) receiver \/
  exists indexes txs receiver' staged,
    handle_message clock (MsgCompactBlock c) receiver =
      (Ok (Some (GetCompactBlockTransactions hash indexes)), receiver') /\
    (forall i, i ∈ indexes <-> exists (j : nat) tx, i = Z.of_nat j /\
      block_transactions b !! j = Some tx /\ tx ∉ pool_transactions (mempool receiver.1)) /\
    handle_message clock (GetCompactBlockTransactions hash indexes) sender =
      (Ok (Some (CompactBlockTransactions hash txs)), sender) /\
    handle_message clock (CompactBlockTransactions hash txs) receiver' =
      apply_and_finish (zero_nonce b) (set_pending_compact_blocks staged receiver.1, receiver.2).
Proof.
  intros Hfrom Hhash Hmax Hsend Hrecv Hwf Hcol.
  destruct (compact_relay b c (mempool receiver.1) hash Hfrom Hhash Hwf Hmax Hcol) as [Hr1 Hr2].
  destruct (from_block_inv b c hash Hfrom Hhash) as (Hlen & _ & _ & Hc).
  assert (Hch : compact_block_hash c = Ok hash).
  { unfold compact_block_hash. rewrite Hc. cbn [c_header]. by rewrite <- block_hash_header, Hhash. }
  destruct (absent_answered b (pool_transactions (mempool receiver.1))) as (Hpick & Hrep & Hal).
  pose proof (absent_from_elem 0 (block_transactions b) (pool_transactions (mempool receiver.1))) as Helem.
  set (absent := absent_from 0 _ _) in *. clearbody absent.
  destruct sender as [sn sk], receiver as [rn rk]. cbn [fst snd] in *.
  cbn [handle_message]. unfold receive_compact. rewrite Hch.
  unfold mbind, st_bind, get_node. cbn [fst snd]. rewrite Hrecv, Hr1.
  destruct absent as [|i absent]; [by left|]. right.
  exists (i :: absent), (answer b (i :: absent)). eexists _, _. split_and!; [done| | |].
  - intros j. rewrite Helem. by setoid_rewrite Z.add_0_l.
  - unfold send_compact_transactions, MAX_COMPACT_MISSING_TRANSACTIONS.
    destruct (Z.ltb_spec MAX_BLOCK_DECODE_ITEMS (zlen (i :: absent))); [lia|]. rewrite Hrep.
    unfold mbind, st_bind, get_node. cbn [fst snd]. by rewrite Hsend, Hpick.
  - unfold receive_compact_transactions, mbind, st_bind, get_node, take_compact_block, stage_compact_block.
    cbn [fst snd pending_compact_blocks set_pending_compact_blocks]. rewrite bt_lookup_insert_eq.
    match goal with |- context [reconstruct c ?m ?a] =>
      change (reconstruct c m a) with (reconstruct c (mempool rn) (answer b (i :: absent))) end.
    rewrite Hr2. done.
Qed.
End handler_spec.
