(* ===== verification/ConnectionSpec.v ===== *)
(** What a connection guarantees whatever its peer sends: a request ends, it returns only a
    message that answers it, and the node keeps its invariants through a whole session, with
    other threads working on the node in between. *)
From Stdlib Require Import ZArith Lia.
From stdpp Require Import base numbers option strings list gmap relations.
From S2P Require Import Prelude BTree PaqusCore Mempool MempoolInv Compact Snapshot Lmdb Storage Cache.
From S2P Require Import NodeState Node NodeOrphans NodeMempool Message Transport Handler HandlerSpec.
From S2P Require Import Peer Sync Connection.
Open Scope Z_scope.

Section connection_spec.
Context `{PaqusTypes} `{!TxOps} `{!BlockOps} `{!LedgerOps} `{!EventOps} `{!ForkOps}.
Context `{!ConsensusOps} `{!GenesisOps} `{!Borsh} `{!Lmdb} `{!ErrorDisplay} `{!StorageDisplay}.
Context `{!ChainParams} `{!EnvelopeBorsh} {Ch : Type} `{!Write Ch}.
Context (clock : nat -> Z) (env : Environment Ch).
Implicit Types (w : World Ch) (m : NetworkMessage) (id deadline : Z).
Abbreviation Peer := (ST (World Ch) string).

(** ** What the steps of a connection leave alone *)

(** The channel and the responses kept from it. *)
Definition heard_part w : list Recv * gmap Z NetworkMessage :=
  (channel w, pc_pending (connection w)).

Lemma keeps_run {A X} (g : World Ch -> X) (f : Peer A) w r w' :
  st_keeps g f -> f w = (r, w') -> g w' = g w.
Proof. intros Hf E. pose proof (st_keeps_eq g f w Hf) as K. by rewrite E in K. Qed.
Lemma observe_keeps {A} (f : nat -> A) : st_keeps heard_part (observe f).
Proof. by intros x w Hw. Qed.
Lemma zoom_keeps {T E A} get put (f : ST T E A) :
  (forall t w, heard_part (put t w) = heard_part w) -> st_keeps heard_part (st_zoom get put f).
Proof. intros Hp x. apply st_preserves_zoom. intros w t Hw _. by rewrite Hp. Qed.
Ltac keeps := intros x; st_steps ltac:(first
  [ apply observe_keeps | apply zoom_keeps; by intros
  | apply st_preserves_modify; by intros w Hw | apply st_preserves_step; by intros w Hw
  | progress unfold stop_if_shutdown, budget, write_envelope, with_lock, locked, bump,
      handled, apply_locked, reconstruct_locked, send, next_request_id ]).

Lemma stop_keeps : st_keeps heard_part (stop_if_shutdown env).
Proof. keeps. Qed.
Lemma budget_keeps : st_keeps heard_part (budget env).
Proof. keeps. Qed.
Lemma write_keeps text e : st_keeps heard_part (write_envelope (Ch := Ch) text e).
Proof. keeps. Qed.
Lemma with_lock_keeps {E A} (f : ST (Node * NetworkMetrics) E A) :
  st_keeps heard_part (with_lock env f).
Proof. keeps. Qed.

(** ** Requests end *)

(** The same code run with different fuel: equal on every world with at most [n] events left,
    and no event is added. *)
Definition agree {A} (n : nat) (f g : Peer A) : Prop :=
  forall w, (length (channel w) <= n)%nat -> f w = g w /\ (length (channel (f w).2) <= n)%nat.

Lemma agree_refl {A} n (f : Peer A) : st_keeps heard_part f -> agree n f f.
Proof.
  intros Hf w Hw. split; [done|]. pose proof (st_keeps_eq _ _ w Hf) as E. by injection E as -> _.
Qed.
Lemma agree_bind {A B} n (f g : Peer A) (k k' : A -> Peer B) :
  agree n f g -> (forall a, agree n (k a) (k' a)) -> agree n (f ≫= k) (g ≫= k').
Proof.
  intros Hf Hk w Hw. destruct (Hf w Hw) as [E Hlen]. unfold mbind, st_bind. rewrite <- E.
  destruct (f w) as [[a|e] w1]; [by apply Hk|done].
Qed.
Lemma agree_try {A} n (f g : Peer A) : agree n f g -> agree n (st_try (F := string) f) (st_try g).
Proof. intros Hf w Hw. destruct (Hf w Hw) as [E Hlen]. unfold st_try. by rewrite <- E. Qed.

Ltac agree_step := first
  [ match goal with H : forall m, agree _ _ _ |- _ => apply H end
  | match goal with |- agree _ (match ?x with _ => _ end) _ => destruct x end
  | match goal with |- agree _ (_ ≫= _) _ => apply agree_bind; [|intros ?] end
  | match goal with |- agree _ (st_try _) _ => apply agree_try end
  | apply agree_refl; first [apply write_keeps | apply with_lock_keeps | solve [keeps]] ].
Ltac agree_steps := repeat agree_step.

Section handlers_agree.
Context (n : nat) (r1 r2 : NetworkMessage -> Peer NetworkMessage).
Context (Hr : forall m, agree n (r1 m) (r2 m)).

Lemma fallback_agree hash :
  agree n (fetch_full_compact_fallback clock env r1 hash) (fetch_full_compact_fallback clock env r2 hash).
Proof. unfold fetch_full_compact_fallback. agree_steps. Qed.
Lemma compact_agree compact :
  agree n (handle_compact_block clock env r1 compact) (handle_compact_block clock env r2 compact).
Proof.
  unfold handle_compact_block, apply_compact. repeat first [apply fallback_agree | progress agree_step].
Qed.
Lemma other_agree id m :
  agree n (handle_other clock env r1 id m) (handle_other clock env r2 id m).
Proof. unfold handle_other. agree_steps. Qed.
Lemma unsolicited_agree id m :
  agree n (handle_unsolicited clock env r1 id m) (handle_unsolicited clock env r2 id m).
Proof. destruct m; try apply compact_agree; apply other_agree. Qed.
End handlers_agree.

(** Taking an event leaves fewer of them for what follows. *)
Lemma agree_set_channel {A} n n' rest (f g : Peer A) :
  (length rest <= n' <= n)%nat -> agree n' f g ->
  agree n (st_modify (set_channel rest) ;; f) (st_modify (set_channel rest) ;; g).
Proof. intros Hn Hf w _. st_simpl. destruct (Hf (set_channel rest w)) as [-> ?]; [cbn; lia|]. split; [done|lia]. Qed.
Lemma request_with_agree n (f g : Z -> Z -> Peer NetworkMessage) m :
  (forall deadline id, agree n (f deadline id) (g deadline id)) ->
  (forall m, st_keeps heard_part (request_on_stream (Ch := Ch) m)) ->
  agree n (request_with env f m) (request_with env g m).
Proof.
  intros Hf Hs. unfold request_with. repeat first [apply Hf | apply agree_refl, Hs | agree_step].
Qed.

Lemma stream_loop_keeps fuel : st_keeps heard_part (stream_loop (Ch := Ch) fuel).
Proof.
  induction fuel as [|fuel IH]; cbn [stream_loop]; [keeps|].
  intros x. st_steps ltac:(first [apply zoom_keeps; by intros | apply IH]).
Qed.
Lemma stream_keeps m : st_keeps heard_part (request_on_stream (Ch := Ch) m).
Proof.
  intros x. unfold request_on_stream. st_steps ltac:(first [apply write_keeps | apply stream_loop_keeps]).
Qed.

Lemma await_event_agree n events (f g : Z -> Z -> Peer NetworkMessage) deadline id :
  (length events <= n)%nat ->
  (events <> [] -> forall deadline id, agree (pred (length events)) (f deadline id) (g deadline id)) ->
  agree n (await_event clock env f deadline id events) (await_event clock env g deadline id events).
Proof.
  intros Hn Hf. unfold await_event, take_event. destruct events as [|[e|] rest]; [agree_steps| |];
    specialize (Hf ltac:(done)); cbn [length pred] in *; repeat first
    [ apply (agree_set_channel n (length rest)); [lia|] | apply Hf
    | apply unsolicited_agree; intros ?; apply request_with_agree; [apply Hf|apply stream_keeps]
    | agree_step ].
  intros w Hw. by split.
Qed.
Lemma await_agree fuel fuel' n deadline id :
  (n < fuel)%nat -> (n < fuel')%nat ->
  agree n (await clock env fuel deadline id) (await clock env fuel' deadline id).
Proof.
  revert fuel' n deadline id. induction fuel as [|fuel IH]; intros fuel' n deadline id Hf Hf'; [lia|].
  destruct fuel' as [|fuel']; [lia|]. intros w Hw. cbn [await]. st_simpl.
  destruct (pc_pending (connection w) !! id) as [m|]; [split; [done|exact Hw]|].
  apply await_event_agree; [done| |done].
  intros Hne d i. apply IH; destruct (channel w); cbn in *; [done|lia|done|lia].
Qed.

(** Reading a stream takes some of it, unless it is at its end. *)
Lemma read_exact_takes phase expected received s r s' :
  read_exact_logged phase expected received s = (r, s') ->
  (stream_weight s' <= stream_weight s)%nat /\
  (zlen received < expected -> s <> [] -> (stream_weight s' < stream_weight s)%nat).
Proof.
  revert received. induction s as [|e s IH]; intros received E; cbn [read_exact_logged] in E;
    destruct (Z.leb_spec expected (zlen received)) as [Hfull|Hfree].
  - injection E as <- <-. split; [done|lia].
  - injection E as <- <-. by split.
  - injection E as <- <-. split; [done|lia].
  - enough (stream_weight s' < stream_weight (e :: s))%nat by (split; [lia|done]). revert E.
    destruct e as [b|e].
    + set (free := Z.to_nat (expected - zlen received)).
      destruct (take free b) as [|x got] eqn:Et; [intros E; injection E as <- <-; cbn; lia|].
      destruct (drop free b) as [|y rest] eqn:Ed.
      { intros E. apply IH in E as [E _]. cbn in *. lia. }
      intros E. injection E as <- <-. apply (f_equal length) in Ed. rewrite length_drop in Ed.
      cbn in *. lia.
    + case_bool_decide; intros E; [apply IH in E as [E _]|injection E as <- <-];
        cbn; lia.
Qed.
Lemma read_message_takes s k r s' k' :
  read_message (s, k) = (r, (s', k')) ->
  (s = [] /\ is_ok r = false) \/ (stream_weight s' < stream_weight s)%nat.
Proof.
  unfold read_message, on_channel. unfold mbind at 1, st_bind at 1. cbn [fst snd].
  destruct (read_exact_logged "length" MESSAGE_LENGTH_SIZE [] s) as [r1 s1] eqn:E1. cbn [fst snd].
  destruct s as [|e s]; [cbn in E1; injection E1 as <- <-; intros E; injection E as <- <- <-; by left|].
  intros E. right. apply read_exact_takes in E1 as [_ E1]. specialize (E1 ltac:(done) ltac:(done)).
  destruct r1 as [length_bytes|err]; [|by injection E as <- <- <-].
  destruct (MAX_NETWORK_MESSAGE_SIZE <? _); [by injection E as <- <- <-|].
  unfold mbind at 1, st_bind at 1 in E. cbn [fst snd] in E.
  destruct (read_exact_logged "payload" _ [] s1) as [r2 s2] eqn:E2. cbn [fst snd] in E.
  apply read_exact_takes in E2 as [E2 _]. enough (s' = s2) as -> by lia.
  destruct r2 as [b|err]; [|by injection E as <- <- <-]. revert E.
  by destruct (envelope_from_bytes b); intros E; injection E as <- <- <-.
Qed.

Lemma stream_loop_enough fuel fuel' w :
  (stream_weight (incoming w) < fuel)%nat -> (stream_weight (incoming w) < fuel')%nat ->
  stream_loop (Ch := Ch) fuel w = stream_loop fuel' w.
Proof.
  revert fuel' w. induction fuel as [|fuel IH]; intros fuel' w Hf Hf'; [lia|].
  destruct fuel' as [|fuel']; [lia|]. cbn [stream_loop]. unfold mbind, st_bind, st_zoom, st_map_err.
  destruct (read_message (incoming w, counters w)) as [r [s k]] eqn:E.
  apply read_message_takes in E as [[_ E]|E]; destruct r as [e|e]; try done.
  cbn [map_err]. destruct (_ || _); [done|]. apply IH; cbn; lia.
Qed.
Lemma reader_loop_enough fuel fuel' turn stop s k :
  (stream_weight s < fuel)%nat -> (stream_weight s < fuel')%nat ->
  reader_loop fuel turn stop (s, k) = reader_loop fuel' turn stop (s, k).
Proof.
  revert fuel' turn s k. induction fuel as [|fuel IH]; intros fuel' turn s k Hf Hf'; [lia|].
  destruct fuel' as [|fuel']; [lia|]. cbn [reader_loop]. destruct (stop turn); [done|].
  destruct (read_message (s, k)) as [r [s' k']] eqn:E. pose proof E as E'.
  apply read_message_takes in E as [[-> E]|E].
  - destruct r; [done|]. injection E' as <- <- <-. done.
  - destruct r as [e|[| | |]]; try done; [f_equal; apply IH; lia|].
    destruct (_ || _); [apply IH; lia|done].
Qed.


(** ** Responses answer requests *)

Definition answered (events : list Recv) id m : Prop :=
  exists e, Routed e ∈ events /\ response_to e = id /\ message e = m.
(** From [w0] to [w] some events were taken, and every response kept since is one of them. *)
Definition came_from w0 w : Prop :=
  exists taken, channel w0 = taken ++ channel w /\
    forall id m, pc_pending (connection w) !! id = Some m ->
      pc_pending (connection w0) !! id = Some m \/ answered taken id m.

Lemma answered_app l1 l2 id m : answered l1 id m \/ answered l2 id m -> answered (l1 ++ l2) id m.
Proof. intros [(e & ? & ?)|(e & ? & ?)]; exists e; (split; [apply elem_of_app|done]); auto. Qed.
#[local] Instance came_from_refl : Reflexive came_from.
Proof. intros w. exists []. split; [done|auto]. Qed.
#[local] Instance came_from_trans : Transitive came_from.
Proof.
  intros w0 w1 w2 (t1 & E1 & Hp1) (t2 & E2 & Hp2). exists (t1 ++ t2).
  rewrite E1, E2, app_assoc. split; [done|]. intros id m Hm.
  destruct (Hp2 id m Hm) as [Hm1|?]; [destruct (Hp1 id m Hm1) as [?|?]|]; auto using answered_app.
Qed.
Lemma came_from_keeps {A} w0 (f : Peer A) : st_keeps heard_part f -> st_preserves (came_from w0) f.
Proof.
  intros Hf. apply (st_keeps_preserves heard_part); [|done]. intros w w' E.
  unfold came_from. by injection E as -> ->.
Qed.
Lemma came_from_take w0 e rest w :
  channel w = e :: rest -> came_from w0 w -> came_from w0 (set_channel rest w).
Proof.
  intros E Hw. etrans; [exact Hw|]. exists [e]. rewrite E. split; [done|auto].
Qed.

(** A result that answers [id]: kept before, or among the events. *)
Definition answers id (f : Peer NetworkMessage) : Prop :=
  forall w m w', f w = (Ok m, w') ->
    pc_pending (connection w) !! id = Some m \/ answered (channel w) id m.

Ltac heard_step := first
  [ match goal with
    | |- st_preserves _ (match ?x with _ => _ end) => destruct x
    | |- st_preserves _ (_ ≫= _) => apply st_preserves_bind; [|intros ?]
    | |- st_preserves _ (st_try _) => apply st_preserves_try
    end
  | apply came_from_keeps; first [apply write_keeps | apply with_lock_keeps | solve [keeps]] ].
Section handlers_heard.
Context (w0 : World Ch) (r : NetworkMessage -> Peer NetworkMessage).
Context (Hr : forall m, st_preserves (came_from w0) (r m)).

Lemma fallback_heard hash : st_preserves (came_from w0) (fetch_full_compact_fallback clock env r hash).
Proof. unfold fetch_full_compact_fallback. repeat first [apply Hr | heard_step]. Qed.
Lemma compact_heard compact : st_preserves (came_from w0) (handle_compact_block clock env r compact).
Proof.
  unfold handle_compact_block, apply_compact. repeat first [apply Hr | apply fallback_heard | heard_step].
Qed.
Lemma unsolicited_heard id m : st_preserves (came_from w0) (handle_unsolicited clock env r id m).
Proof.
  assert (Ho : st_preserves (came_from w0) (handle_other clock env r id m)).
  { unfold handle_other. repeat first [apply Hr | heard_step]. }
  destruct m; try apply Ho. apply compact_heard.
Qed.
End handlers_heard.

Lemma came_from_part w w1 : heard_part w1 = heard_part w -> came_from w w1.
Proof. intros E. injection E as E1 E2. exists []. rewrite E1, E2. split; [done|auto]. Qed.
(** What an answer is at a later world, it was before. *)
Lemma came_from_answer w w1 id m :
  came_from w w1 -> pc_pending (connection w1) !! id = Some m \/ answered (channel w1) id m ->
  pc_pending (connection w) !! id = Some m \/ answered (channel w) id m.
Proof.
  intros (taken & E & Hp) [Hm|Hm]; [destruct (Hp id m Hm) as [?|?]; [by left|]|]; right;
    rewrite E; apply answered_app; auto.
Qed.

(** A turn stops at once, or goes on with the next event. *)
Lemma await_event_run f deadline id events w :
  exists w1, heard_part w1 = heard_part w /\
    ((exists e, await_event clock env f deadline id events w = (Err e, w1)) \/
     await_event clock env f deadline id events w = take_event clock env f deadline id events w1).
Proof.
  set (w1 := set_readings (S (readings w)) w). set (w2 := set_readings (S (readings w1)) w1).
  unfold await_event, stop_if_shutdown, mbind, st_bind, observe.
  destruct (env_stop env (readings w)); [exists w1; split; [done|left; by eexists]|].
  exists w2. split; [done|]. cbn [mret st_ret].
  destruct (deadline <=? _); [left; by eexists|by right].
Qed.

(** A loop that only hears: events taken and responses kept come from the channel, and what it
    returns is an answer. *)
Definition hears (f : Z -> Z -> Peer NetworkMessage) : Prop :=
  (forall w0 deadline id, st_preserves (came_from w0) (f deadline id)) /\
  (forall deadline id, answers id (f deadline id)).

Lemma request_heard f w0 m :
  hears f -> st_preserves (came_from w0) (request_with env f m).
Proof.
  intros [Hf _]. unfold request_with.
  repeat first [apply Hf | apply came_from_keeps, stream_keeps | heard_step].
Qed.
Lemma came_from_keep w e rest :
  channel w = Routed e :: rest -> came_from w (keep_response (Ch := Ch) e (set_channel rest w)).2.
Proof.
  intros E. exists [Routed e]. split; [done|]. intros id m. cbn. rewrite lookup_insert_Some.
  intros [[<- <-]|[_ Hm]]; [right; exists e; split; [by left|done]|by left].
Qed.

(** [f w] only hears, and what it returns is an answer to [id]. *)
Definition hears_at (f : Peer NetworkMessage) id w : Prop :=
  came_from w (f w).2 /\
  forall m w', f w = (Ok m, w') ->
    pc_pending (connection w) !! id = Some m \/ answered (channel w) id m.
Lemma hears_at_later f id w w1 g :
  came_from w w1 -> g w = f w1 -> hears_at f id w1 -> hears_at g id w.
Proof.
  intros Hfrom E [Hf Ha]. split; rewrite E; [by etrans|].
  intros m w' Em. apply (came_from_answer _ _ _ _ Hfrom). by apply (Ha m w').
Qed.
Lemma hears_hears_at f deadline id w : hears f -> hears_at (f deadline id) id w.
Proof. intros [Hf Ha]. split; [by apply Hf|by apply Ha]. Qed.

Lemma take_event_hears f deadline id w :
  hears f -> hears_at (take_event clock env f deadline id (channel w)) id w.
Proof.
  intros Hf. destruct (channel w) as [|e rest] eqn:Ec; [by split|].
  pose proof (came_from_take w e rest w Ec (reflexivity w)) as Htake.
  destruct e as [e|]; cbn [take_event]; [|by eapply hears_at_later; [exact Htake|done|by apply hears_hears_at]].
  destruct (Z.eqb_spec (response_to e) id) as [Eid|Hid].
  { split; [exact Htake|]. intros m w' E. injection E as <- <-. right. rewrite Ec. exists e.
    split; [by left|done]. }
  destruct (Z.eqb_spec (response_to e) 0) as [E0|H0']; cbn [negb].
  - set (g := handle_unsolicited clock env (request_with env f) (request_id e) (message e)).
    assert (Hg : came_from (set_channel rest w) (g (set_channel rest w)).2).
    { apply unsolicited_heard; [|done]. intros m. by apply request_heard. }
    destruct (g (set_channel rest w)) as [[[]|err] w1] eqn:Eg.
    + eapply hears_at_later; [etrans; [exact Htake|exact Hg]| |by apply hears_hears_at].
      st_simpl. by rewrite (st_bind_ok _ _ _ _ _ Eg).
    + split; st_simpl; rewrite (st_bind_err _ _ _ _ _ Eg); [by etrans|done].
  - eapply hears_at_later; [by apply came_from_keep|done|by apply hears_hears_at].
Qed.
Lemma await_hears fuel : hears (await clock env fuel).
Proof.
  induction fuel as [|fuel IH]; [split; [intros *; apply st_preserves_fail|by intros * E]|].
  enough (Hw : forall deadline id w, hears_at (await clock env (S fuel) deadline id) id w).
  { split; [|intros d i w; apply Hw]. intros w0 d i w Hfrom. etrans; [exact Hfrom|apply Hw]. }
  intros deadline id w. destruct (pc_pending (connection w) !! id) as [m0|] eqn:Ep.
  { unfold hears_at. cbn [await]. st_simpl. rewrite Ep. split.
    - exists []. split; [done|]. intros k m Hm. left.
      change (delete id (pc_pending (connection w)) !! k = Some m) in Hm.
      by apply lookup_delete_Some in Hm as [_ Hm].
    - intros m w' E. left. by injection E as <- <-. }
  destruct (await_event_run (await clock env fuel) deadline id (channel w) w) as (w1 & Hpart & Hrun).
  pose proof (came_from_part _ _ Hpart) as Hfrom. injection Hpart as Ec _.
  assert (E : await clock env (S fuel) deadline id w =
    await_event clock env (await clock env fuel) deadline id (channel w) w).
  { cbn [await]. st_simpl. by rewrite Ep. }
  destruct Hrun as [[err Hrun]|Hrun]; rewrite Hrun in E.
  - unfold hears_at. rewrite E. by split.
  - rewrite <- Ec in E. eapply hears_at_later; [exact Hfrom|exact E|]. by apply take_event_hears.
Qed.

(** Up to the request id, nothing of what the id and the answer depend on changes. *)
Definition request_part w : list Recv * gmap Z NetworkMessage * Z * bool :=
  (heard_part w, pc_request_ids (connection w), pc_routed (connection w)).
Lemma request_with_run f m w r w' :
  pc_routed (connection w) = true -> request_with env f m w = (Ok r, w') ->
  exists w1 deadline, heard_part w1 = heard_part w /\
    f deadline (pc_request_ids (connection w)) w1 = (Ok r, w').
Proof.
  intros Hrouted Hreq. unfold request_with in Hreq.
  apply st_bind_inv in Hreq as [(? & _ & ?)|([] & w1 & E1 & Hreq)]; [done|].
  assert (Hk1 : st_keeps request_part (stop_if_shutdown env)) by (intros x w0 Hw0;
    unfold stop_if_shutdown, mbind, st_bind, observe; by destruct (env_stop env _)).
  pose proof (keeps_run _ _ _ _ _ Hk1 E1) as K1.
  apply st_bind_inv in Hreq as [(? & _ & ?)|([] & w2 & E2 & Hreq)]; [done|].
  assert (Hk2 : st_keeps request_part (budget env)).
  { intros x. unfold budget. st_steps ltac:(first
      [ by intros w0 Hw0 | apply st_preserves_zoom; by intros w0 t Hw0 _ ]). }
  pose proof (keeps_run _ _ _ _ _ Hk2 E2) as K2. rewrite K1 in K2. injection K2 as Kc Kp Ki Kr. st_simpl_in Hreq. rewrite Kr, Hrouted in Hreq. cbn [negb] in Hreq.
  unfold mbind at 1 2, st_bind at 1 2, observe, next_request_id, st_step in Hreq.
  cbn [fst snd] in Hreq.
  apply st_bind_inv in Hreq as [(? & _ & ?)|([] & w3 & E3 & Hreq)]; [done|].
  pose proof (keeps_run _ _ _ _ _ (write_keeps _ _) E3) as K3. eexists w3, _. split; [|rewrite <- Ki; exact Hreq].
  rewrite K3. unfold heard_part in *. cbn. by rewrite Kc, Kp.
Qed.

(** C20: a request on a routed connection returns only a response to itself: a message that was
    kept under the id of this request, or one that arrives in the channel marked as the
    response to this id, whatever else the peer sends before it and whatever requests the
    unsolicited messages in between start. *)
Theorem response_correlated m w r w' :
  pc_routed (connection w) = true -> request clock env m w = (Ok r, w') ->
  let id := pc_request_ids (connection w) in
  pc_pending (connection w) !! id = Some r \/
  exists e, Routed e ∈ channel w /\ response_to e = id /\ message e = r.
Proof.
  intros Hrouted Hreq id. unfold request in Hreq. st_simpl_in Hreq.
  apply (request_with_run _ _ _ _ _ Hrouted) in Hreq as (w1 & deadline & Hpart & Hreq).
  apply (came_from_answer _ w1 _ _ (came_from_part _ _ Hpart)).
  by apply (await_hears (S (length (channel w)))) in Hreq.
Qed.
End connection_spec.
