(* ===== verification/ReaderSpec.v ===== *)
(** The reader thread of a connection: what it puts in the channel for the frames a peer wrote,
    and what it does when a read times out within a frame. *)
From Stdlib Require Import ZArith Lia.
From stdpp Require Import base numbers option strings list gmap.
From S2P Require Import Prelude BTree PaqusCore Message Transport Connection ConnectionSpec.
Open Scope Z_scope.

Section reader_spec.
Context `{PaqusTypes} `{!ChainParams} `{!EnvelopeBorsh} `{!EnvelopeLaws}.
Implicit Types (e : NetworkEnvelope) (s : list ReadEvent) (k : NetworkMetrics).

Lemma reader_loop_shift fuel turn stop x :
  reader_loop fuel (S turn) stop x = reader_loop fuel turn (fun t => stop (S t)) x.
Proof.
  revert turn x. induction fuel as [|fuel IH]; intros turn x; cbn [reader_loop]; [done|].
  destruct (stop (S turn)); [done|]. destruct (read_message x) as [[e|[]] x']; by rewrite ?IH.
Qed.
(** A turn of the reader. *)
Lemma peer_reader_turn stop s k r s' k' :
  stop 0%nat = false -> read_message (s, k) = (r, (s', k')) ->
  peer_reader stop s k =
    match r with
    | Ok e => e :: peer_reader (fun t => stop (S t)) s' k'
    | Err (NetworkIo error) =>
        if bool_decide (io_kind error = WouldBlock) || bool_decide (io_kind error = TimedOut)
        then peer_reader (fun t => stop (S t)) s' k' else []
    | Err _ => []
    end.
Proof.
  intros Hstop E. unfold peer_reader at 1. cbn [reader_loop]. rewrite Hstop, E.
  pose proof E as Hw. apply read_message_takes in Hw as [[-> Hw]|Hw].
  - by injection E as <- <- <-.
  - assert (Hnext : reader_loop (stream_weight s) 1 stop (s', k') = peer_reader (fun t => stop (S t)) s' k').
    { rewrite reader_loop_shift. apply reader_loop_enough; lia. }
    by destruct r as [e|[]]; rewrite ?Hnext.
Qed.

(** ** Frames arrive in order *)

(** A peer writes [es] one after the other. *)
Fixpoint write_all_messages es (out : bytes * NetworkMetrics) : Result NetworkError unit * (bytes * NetworkMetrics) :=
  match es with
  | [] => (Ok tt, out)
  | e :: es => (write_message e ;; write_all_messages es) out
  end.
Lemma write_all_frames es w m w' m' :
  Forall (fun e => magic e = params_network_magic) es ->
  write_all_messages es (w, m) = (Ok tt, (w', m')) ->
  exists bs, Forall2 (fun e b => envelope_from_bytes b = Ok e /\ zlen b <= MAX_NETWORK_MESSAGE_SIZE) es bs /\
    w' = w ++ concat (map frame bs).
Proof.
  intros Hes. revert w m. induction Hes as [|e es He Hes IH]; intros w m Hw; cbn [write_all_messages] in Hw.
  { injection Hw as <- <-. exists []. split; [constructor|]. cbn. by rewrite app_nil_r. }
  apply st_bind_inv in Hw as [(? & _ & ?)|([] & [w1 m1] & E & Hw)]; [done|].
  destruct (write_message_frame _ _ _ _ _ E) as (b & Hb & -> & _).
  destruct (IH _ _ Hw) as (bs & Hbs & ->). exists (b :: bs). split; [by constructor; [apply envelope_codec|]|].
  cbn. by rewrite <- app_assoc.
Qed.
Lemma peer_reader_frames es bs s k :
  Forall2 (fun e b => envelope_from_bytes b = Ok e /\ zlen b <= MAX_NETWORK_MESSAGE_SIZE) es bs ->
  delivers s (concat (map frame bs)) -> peer_reader (fun _ => false) s k = es.
Proof.
  intros Hes. revert s k. induction Hes as [|e b es bs [Hdec Hlen] Hes IH]; intros s k Hs; cbn in Hs.
  - destruct (read_exact_truncated "length" 4 [] s [] Hs ltac:(done)) as (n & s' & Hr).
    rewrite (peer_reader_turn _ s k (Err (closed "length" 4 n)) s' k); [done|done|].
    unfold read_message.
    by erewrite st_bind_err by (unfold on_channel, MESSAGE_LENGTH_SIZE; cbn [fst snd]; by rewrite Hr).
  - destruct (read_message_delivers e b s _ k Hdec Hlen Hs) as (s' & Hs' & E).
    rewrite (peer_reader_turn _ _ _ _ _ _ eq_refl E). f_equal. by apply IH.
Qed.


(** ** Timeouts *)

Lemma read_exact_timeout phase expected p (e : IoError) s :
  p <> [] -> zlen p < expected -> io_kind e <> Interrupted ->
  read_exact_logged phase expected [] (Arrives p :: Breaks e :: s) =
    (Err (broken phase expected (zlen p) e), s).
Proof.
  intros Hp Hlen He. cbn [read_exact_logged].
  destruct (Z.leb_spec expected (zlen (@nil Z))) as [?|_]; [unfold zlen in *; cbn in *; lia|].
  rewrite take_ge, drop_ge by (unfold zlen in *; cbn [length]; lia). destruct p as [|x p]; [done|].
  cbn [app]. destruct (Z.leb_spec expected (zlen (x :: p))); [lia|]. by rewrite bool_decide_false.
Qed.

Lemma read_message_timeout b p q (e : IoError) s k :
  frame b = p ++ q -> p <> [] -> q <> [] -> zlen b <= MAX_NETWORK_MESSAGE_SIZE -> io_kind e <> Interrupted ->
  exists err, read_message (Arrives p :: Breaks e :: s, k) = (Err (NetworkIo err), (s, k)) /\
    io_kind err = io_kind e.
Proof.
  intros Hf Hp Hq Hb He. unfold read_message, MESSAGE_LENGTH_SIZE.
  assert (Hlen : zlen p < 4 + zlen b).
  { apply (f_equal length) in Hf. unfold frame, zlen in *. rewrite !length_app, be_bytes_length in Hf.
    destruct q; [done|]. cbn [length] in Hf. lia. }
  destruct (Z.lt_ge_cases (zlen p) 4) as [Hshort|Hlong].
  { erewrite st_bind_err by (unfold on_channel; cbn [fst snd]; by rewrite read_exact_timeout). by eexists. }
  assert (Hp4 : take 4 p = be_bytes 4 (zlen b)).
  { apply (f_equal (take 4)) in Hf. unfold frame in Hf.
    by rewrite !take_app_le, (take_ge (be_bytes _ _)) in Hf by (rewrite ?be_bytes_length; unfold zlen in *; lia). }
  assert (Hl : length (take 4 p) = 4%nat) by (by rewrite Hp4, be_bytes_length).
  set (s1 := match drop 4 p with [] => Breaks e :: s | rest => Arrives rest :: Breaks e :: s end).
  assert (Hr1 : read_exact_logged "length" 4 [] (Arrives p :: Breaks e :: s) = (Ok (take 4 p), s1)).
  { cbn [read_exact_logged]. change (4 <=? zlen (@nil Z)) with false.
    change (Z.to_nat (4 - zlen (@nil Z))) with 4%nat. cbn iota. unfold s1.
    destruct (take 4 p) as [|x got]; [done|]. destruct (drop 4 p); [|done].
    cbn [app]. unfold zlen. by rewrite Hl. }
  erewrite st_bind_ok by (unfold on_channel; cbn [fst snd]; by rewrite Hr1).
  rewrite Hp4, read_length by done. destruct (Z.ltb_spec MAX_NETWORK_MESSAGE_SIZE (zlen b)); [lia|].
  assert (Hr2 : exists n, read_exact_logged "payload" (zlen b) [] s1 = (Err (broken "payload" (zlen b) n e), s)).
  { unfold s1. destruct (drop 4 p) as [|y rest] eqn:Ed.
    - exists 0. cbn [read_exact_logged]. destruct (Z.leb_spec (zlen b) (zlen (@nil Z))) as [H0'|_].
      { apply (f_equal length) in Ed. rewrite length_drop in Ed. unfold zlen in *. cbn [length] in *. lia. }
      by rewrite bool_decide_false.
    - eexists. apply read_exact_timeout; [done| |done]. rewrite <- Ed. unfold zlen in *. rewrite length_drop. lia. }
  destruct Hr2 as [n Hr2].
  erewrite st_bind_err by (unfold on_channel; cbn [fst snd]; by rewrite Hr2). by eexists.
Qed.

(** a read that times out within a frame loses the part already read: the reader goes on
    with what follows as if that part had never arrived, and takes the rest of the frame for
    the start of a new one. *)
Theorem timeout_loses_frame b p q (e : IoError) s k stop :
  frame b = p ++ q -> p <> [] -> q <> [] -> zlen b <= MAX_NETWORK_MESSAGE_SIZE ->
  io_kind e = TimedOut \/ io_kind e = WouldBlock -> stop 0%nat = false ->
  peer_reader stop (Arrives p :: Breaks e :: s) k = peer_reader (fun t => stop (S t)) s k.
Proof.
  intros Hf Hp Hq Hb He Hstop. destruct (read_message_timeout b p q e s k) as (err & E & Hkind);
    [done..|by destruct He as [-> | ->]|].
  rewrite (peer_reader_turn _ _ _ _ _ _ Hstop E), Hkind. by destruct He as [-> | ->].
Qed.
End reader_spec.
