(* ===== verification/Session.v ===== *)
(** A whole session with a peer keeps the node: every change a synchronisation routine, an
    unsolicited message or another thread makes is a sequence of the node's own operations, so
    the invariants of the node hold throughout. Proved for any world that keeps a predicate, and
    for the connection. *)
From Stdlib Require Import ZArith Lia.
From stdpp Require Import base numbers option strings list gmap relations.
From S2P Require Import Prelude BTree PaqusCore Mempool MempoolInv Compact Snapshot Lmdb Storage Cache.
From S2P Require Import NodeState Node NodeOrphans NodeMempool Message Transport Handler HandlerSpec.
From S2P Require Import Peer Sync Connection.
Open Scope Z_scope.

Section moves.
Context `{PaqusTypes} `{!TxOps} `{!BlockOps} `{!LedgerOps} `{!EventOps} `{!ForkOps}.
Context `{!ConsensusOps} `{!GenesisOps} `{!Borsh} `{!Lmdb} `{!ErrorDisplay} `{!StorageDisplay}.
Context `{!ChainParams}.
Context (clock : nat -> Z).

(** Code that changes the node by the node's operations only. *)
Definition moves {E A} (f : ST Node E A) : Prop := forall n, rtc (node_step clock) n (f n).2.

(** ** Any world *)

Section world.
Context {W : Type} `{!PeerWorld W} (P : W -> Prop).

(** [P] survives whatever the peer and the node do. *)
Class Guarded : Prop := {
  guard_request m : st_preserves P (peer_request m);
  guard_send m : st_preserves P (peer_send m);
  guard_connect a : st_preserves P (peer_connect a);
  guard_mark w : P w -> P (peer_mark_handshaken w);
  guard_attach w : P w -> P (peer_attach_node w);
  guard_next_id : st_preserves P peer_next_id;
  guard_shutdown : st_preserves P shutdown_requested;
  guard_instant : st_preserves P instant_now;
  guard_unix : st_preserves P unix_now;
  guard_node {A} (f : ST Node NodeError A) : moves f -> st_preserves P (with_node f);
  guard_threads {A} (tasks : list (ST W string A)) :
    (forall task, task ∈ tasks -> st_preserves P task) -> st_preserves P (run_threads tasks)
}.
Context `{!Guarded}.

Lemma guard_read {A} (f : Node -> A) : st_preserves P (read_node f).
Proof. unfold read_node. st_steps ltac:(apply guard_node; by intros n). Qed.
Lemma guard_call {A} text (f : ST Node NodeError A) :
  (forall n, node_step clock n (f n).2) -> st_preserves P (node_call text f).
Proof. intros Hf. unfold node_call. st_steps ltac:(apply guard_node; intros n; by apply rtc_once). Qed.
Lemma guard_check_shutdown : st_preserves P check_shutdown.
Proof. unfold check_shutdown. st_steps ltac:(apply guard_shutdown). Qed.

Ltac guards tac := st_steps ltac:(first
  [ tac | apply guard_request | apply guard_send | apply guard_connect | apply guard_next_id
  | apply guard_instant | apply guard_unix | apply guard_check_shutdown | apply guard_read
  | apply guard_call; intros ?; constructor
  | apply st_preserves_modify; intros ? ?; first [by apply guard_mark | by apply guard_attach] ]).

Lemma guard_handshake addrs : st_preserves P (handshake_peer addrs).
Proof. unfold handshake_peer, check_remote_version, rejected_handshake. guards fail. Qed.
Lemma guard_tip : st_preserves P request_tip.
Proof. unfold request_tip. guards fail. Qed.
Lemma guard_ping : st_preserves P ping_peer.
Proof. unfold ping_peer. guards fail. Qed.
Lemma guard_headers start target anchor : st_preserves P (request_headers start target anchor).
Proof.
  unfold request_headers. generalize (range_fuel start target) as fuel. intros fuel.
  generalize (@nil BlockHeader) as hs. revert start anchor.
  induction fuel as [|fuel IH]; intros; cbn [request_headers_loop]; guards ltac:(apply IH).
Qed.
Lemma guard_fetch start target hs : st_preserves P (fetch_blocks start target hs).
Proof.
  unfold fetch_blocks. generalize (range_fuel start target) as fuel. intros fuel.
  generalize (@nil Block) as bs. revert start hs.
  induction fuel as [|fuel IH]; intros; cbn [fetch_blocks_loop]; guards ltac:(apply IH).
Qed.
Lemma guard_blocks start target hs : st_preserves P (request_blocks clock start target hs).
Proof. unfold request_blocks, apply_synced. guards ltac:(apply guard_fetch). Qed.
Lemma guard_ancestor : st_preserves P request_common_ancestor.
Proof. unfold request_common_ancestor, block_locator. guards fail. Qed.
Lemma guard_block_by_hash hash : st_preserves P (request_block_by_hash clock hash).
Proof. unfold request_block_by_hash. guards fail. Qed.
Lemma guard_fetch_parents hashes f : st_preserves P (fetch_parents clock hashes f).
Proof.
  revert f. induction hashes as [|h hashes IH]; intros f; cbn [fetch_parents]; unfold retry_parent;
    guards ltac:(first [apply IH | apply guard_block_by_hash]).
Qed.
Lemma guard_parents : st_preserves P (request_missing_parent_blocks clock).
Proof.
  unfold request_missing_parent_blocks. generalize (Z.to_nat MAX_MISSING_PARENT_FETCHES_PER_POLL) as fuel.
  assert (Hloop : forall fuel f, st_preserves P (parents_loop clock fuel f)).
  { induction fuel as [|fuel IH]; intros f; cbn [parents_loop];
      guards ltac:(first [apply IH | apply guard_fetch_parents]). }
  intros fuel. guards ltac:(apply Hloop).
Qed.
Lemma guard_poll addrs window : st_preserves P (poll_peer_connection clock addrs window).
Proof.
  unfold poll_peer_connection, local_tip_info. guards ltac:(first
    [ apply guard_handshake | apply guard_ping | apply guard_tip | apply guard_headers
    | apply guard_blocks | apply guard_parents | apply guard_ancestor ]).
Qed.
Lemma guard_submit txs k : st_preserves P (submit_mempool_transactions clock txs k).
Proof.
  revert k. induction txs as [|tx txs IH]; intros k; cbn [submit_mempool_transactions];
    guards ltac:(first [apply IH | apply guard_node; intros n; apply rtc_once; constructor]).
Qed.
Lemma guard_mempool : st_preserves P (sync_mempool_connection clock).
Proof. unfold sync_mempool_connection, sync_mempool_inventory. guards ltac:(apply guard_submit). Qed.
Lemma guard_try_peers range addrs peers error failed :
  st_preserves P (try_peers range addrs peers error failed).
Proof.
  revert error failed. induction peers as [|a peers IH]; intros error failed; cbn [try_peers];
    guards ltac:(first [apply IH | apply guard_handshake | apply guard_fetch]).
Qed.
Lemma guard_candidates tip addrs peers : st_preserves P (collect_candidates tip addrs peers).
Proof.
  induction peers as [|a peers IH]; cbn [collect_candidates];
    guards ltac:(first [apply IH | apply guard_handshake | apply guard_tip]).
Qed.
Lemma guard_downloaded bs height applied : st_preserves P (apply_downloaded clock bs height applied).
Proof.
  revert height applied. induction bs as [|b bs IH]; intros height applied; cbn [apply_downloaded];
    guards ltac:(apply IH).
Qed.
Lemma guard_parallel peers addrs window :
  st_preserves P (sync_from_peers_parallel clock peers addrs window).
Proof.
  unfold sync_from_peers_parallel, sync_ranges, local_tip_info.
  guards ltac:(first [apply guard_candidates | apply guard_handshake | apply guard_ancestor
    | apply guard_headers | apply guard_downloaded
    | apply guard_threads; intros ? (r & -> & _)%list_elem_of_fmap; apply guard_try_peers ]).
Qed.
End world.

(** ** The connection *)

Section connection.
Context `{!EnvelopeBorsh} {Ch : Type} `{!Write Ch} (env : Environment Ch).
(** The other threads only use the node's operations. *)
Context (Hothers : forall t, moves (E := NodeError) (fun n => (Ok tt, env_others env t n))).
Context (n0 : Node).
Definition node_from (w : World Ch) : Prop := rtc (node_step clock) n0 (shared_node w).

Lemma node_from_lock {E A} (f : ST (Node * NetworkMetrics) E A) :
  (forall s, rtc (node_step clock) s.1 (f s).2.1) -> st_preserves node_from (with_lock env f).
Proof.
  intros Hf. unfold with_lock. apply st_preserves_bind; [by intros w|intros bad].
  destruct bad; [apply st_preserves_fail|]. intros w Hw. unfold mbind, st_bind, observe, node_from in *.
  unfold st_zoom, st_try. cbn [shared_node set_readings counters]. cbn [set_shared shared_node snd].
  etrans; [exact Hw|]. etrans; [exact (Hothers (readings w) (shared_node w))|].
  apply (Hf (env_others env (readings w) (shared_node w), counters w)).
Qed.
Lemma node_from_locked {E A} text (f : ST (Node * NetworkMetrics) E A) :
  (forall s, rtc (node_step clock) s.1 (f s).2.1) -> st_preserves node_from (locked env text f).
Proof. intros Hf. unfold locked. st_steps ltac:(by apply node_from_lock). Qed.
Lemma node_only_moves {E A} (f : ST Node E A) s :
  moves f -> rtc (node_step clock) s.1 (node_only f s).2.1.
Proof. intros Hf. specialize (Hf s.1). unfold node_only, st_zoom. by destruct (f s.1). Qed.
Lemma handled_moves m s : rtc (node_step clock) s.1 (handle_message clock m s).2.1.
Proof. exact (handle_message_steps clock s.1 m s (rtc_refl _ _)). Qed.
Lemma zoom_other {T E A} get put (f : ST T E A) :
  (forall t w, shared_node (put t w) = shared_node w) -> st_preserves node_from (st_zoom get put f).
Proof. intros Hp. apply st_preserves_zoom. intros w t Hw _. unfold node_from in *. by rewrite Hp. Qed.

Ltac node_steps tac := st_steps ltac:(first
  [ tac | apply zoom_other; by intros
  | apply node_from_locked; intros ?; first [apply handled_moves | apply node_only_moves; intros ?; apply rtc_once; constructor]
  | apply node_from_lock; intros ?; apply node_only_moves; intros ?; apply rtc_refl
  | apply st_preserves_modify; by intros ? ? | apply st_preserves_step; by intros ? ?
  | progress unfold stop_if_shutdown, budget, write_envelope, bump, send, handled, apply_locked,
      reconstruct_locked, next_request_id, keep_response, take_response
  | match goal with |- st_preserves _ (observe _) => by intros ? ? end ]).

Section requests.
Context (r : NetworkMessage -> ST (World Ch) string NetworkMessage).
Context (Hr : forall m, st_preserves node_from (r m)).
Lemma fallback_node hash : st_preserves node_from (fetch_full_compact_fallback clock env r hash).
Proof. unfold fetch_full_compact_fallback. node_steps ltac:(apply Hr). Qed.
Lemma compact_node compact : st_preserves node_from (handle_compact_block clock env r compact).
Proof.
  unfold handle_compact_block, apply_compact. node_steps ltac:(first [apply Hr | apply fallback_node]).
Qed.
Lemma unsolicited_node id m : st_preserves node_from (handle_unsolicited clock env r id m).
Proof.
  assert (Ho : st_preserves node_from (handle_other clock env r id m)).
  { unfold handle_other. node_steps ltac:(apply Hr). }
  destruct m; try apply Ho. apply compact_node.
Qed.
End requests.

Lemma stream_node fuel : st_preserves node_from (stream_loop (Ch := Ch) fuel).
Proof. induction fuel as [|fuel IH]; cbn [stream_loop]; node_steps ltac:(apply IH). Qed.
Lemma request_with_node f m :
  (forall deadline id, st_preserves node_from (f deadline id)) ->
  st_preserves node_from (request_with env f m).
Proof.
  intros Hf. unfold request_with, request_on_stream. node_steps ltac:(first [apply Hf | apply stream_node]).
Qed.
Lemma await_node fuel deadline id : st_preserves node_from (await clock env fuel deadline id).
Proof.
  revert deadline id. induction fuel as [|fuel IH]; intros deadline id; cbn [await]; [apply st_preserves_fail|].
  unfold await_event, take_event. node_steps ltac:(first
    [ apply IH | apply unsolicited_node; intros ?; apply request_with_node, IH ]).
Qed.

#[global] Instance connection_guarded : Guarded (W := World Ch) (PeerWorld0 := connection_world clock env) node_from.
Proof.
  split; try (by intros w Hw).
  - intros m. apply st_preserves_bind; [apply st_preserves_get|intros w].
    apply request_with_node, await_node.
  - intros m. change (st_preserves node_from (send env m)). node_steps fail.
  - intros a. change (st_preserves node_from (connect env a)). unfold connect. node_steps fail.
  - intros A f Hf. apply node_from_lock. intros s. by apply node_only_moves.
  - intros A tasks Htasks. cbn. induction tasks as [|task tasks IH]; cbn [run_in_turn]; [by intros w|].
    st_steps ltac:(first [apply Htasks; by left | apply IH; intros t Ht; apply Htasks; by right]).
Qed.
End connection.

(** What a node does with its peers; each activity may fail. *)
Inductive Activity :=
| Poll (sync_window : Z)
| SyncMempool
| SyncParallel (peers : list string) (sync_window : Z).
Definition act `{!EnvelopeBorsh} {Ch} `{!Write Ch} (env : Environment Ch) (addrs : list string)
    (w : World Ch) (a : Activity) : World Ch :=
  let _ := connection_world clock env in
  match a with
  | Poll window => (poll_peer_connection clock addrs window w).2
  | SyncMempool => (sync_mempool_connection clock w).2
  | SyncParallel peers window => (sync_from_peers_parallel clock peers addrs window w).2
  end.
Definition session `{!EnvelopeBorsh} {Ch} `{!Write Ch} (env : Environment Ch) (addrs : list string)
    : list Activity -> World Ch -> World Ch := fun l w => fold_left (act env addrs) l w.

End moves.
