(* ===== verification/SyncSpec.v ===== *)
(** What synchronisation guarantees against any peer, and what it achieves with an honest one:
    headers are linked, blocks match their prevalidated headers, the loops end, ranges are
    partitioned, and an honest peer's chain and snapshot are downloaded as they are. *)
From Stdlib Require Import ZArith Lia.
From stdpp Require Import base numbers option strings list.
From S2P Require Import Prelude BTree PaqusCore Mempool Compact Snapshot Lmdb Storage Cache NodeState.
From S2P Require Import Node Message Handler Peer Sync.
Open Scope Z_scope.

Section sync_spec.
Context `{PaqusTypes} `{!TxOps} `{!BlockOps} `{!LedgerOps} `{!EventOps} `{!ForkOps}.
Context `{!ConsensusOps} `{!GenesisOps} `{!Borsh} `{!Lmdb} `{!ErrorDisplay} `{!StorageDisplay}.
Context `{!ChainParams}.
Context (clock : nat -> Z).
Context {W : Type} `{!PeerWorld W}.
Implicit Types (w : W) (h : BlockHeader) (hs : list BlockHeader) (b : Block) (bs : list Block).

(** ** Headers form a chain *)

(** [hs] continues a chain whose last block has hash [previous] at height [next - 1]. *)
Fixpoint linked (next : Z) (previous : BlockHash) hs : Prop :=
  match hs with
  | [] => True
  | h :: hs =>
      header_height h = next /\ header_previous_hash h = previous /\
      exists hash, header_hash h = Ok hash /\ linked (u64_add next 1) hash hs
  end.
(** The height and hash at the end of such a chain. *)
Fixpoint end_height (next : Z) hs : Z :=
  match hs with [] => next | _ :: hs => end_height (u64_add next 1) hs end.
Fixpoint end_hash (previous : BlockHash) hs : BlockHash :=
  match hs with
  | [] => previous
  | h :: hs => end_hash (unwrap_or [] (result_ok (header_hash h))) hs
  end.

Lemma linked_app next previous hs1 hs2 :
  linked next previous (hs1 ++ hs2) <->
  linked next previous hs1 /\ linked (end_height next hs1) (end_hash previous hs1) hs2.
Proof.
  revert next previous. induction hs1 as [|h hs1 IH]; intros next previous; cbn; [naive_solver|].
  split.
  - intros (? & ? & hash & Hh & Hl). rewrite Hh. apply IH in Hl as [? ?]. eauto 10.
  - intros [(? & ? & hash & Hh & ?) ?]. rewrite Hh in *. do 2 (split; [done|]). exists hash.
    split; [done|]. by apply IH.
Qed.
Lemma end_height_app next hs1 hs2 : end_height next (hs1 ++ hs2) = end_height (end_height next hs1) hs2.
Proof. revert next. induction hs1; intros next; cbn; auto. Qed.
Lemma end_hash_app p hs1 hs2 : end_hash p (hs1 ++ hs2) = end_hash (end_hash p hs1) hs2.
Proof. revert p. induction hs1; intros p; cbn; auto. Qed.
Lemma end_height_len next hs : 0 <= next <= U64_MAX -> end_height next hs = Z.min (next + zlen hs) U64_MAX.
Proof.
  revert next. induction hs as [|h hs IH]; intros next Hn; cbn [end_height].
  { unfold zlen. cbn. lia. }
  rewrite IH by (unfold_int; lia). unfold_int. cbn [length]. lia.
Qed.

Lemma link_headers_Ok batch next previous hs next' previous' hs' :
  link_headers batch next previous hs = Ok (next', previous', hs') ->
  hs' = hs ++ batch /\ linked next previous batch /\
  next' = end_height next batch /\ previous' = end_hash previous batch.
Proof.
  revert next previous hs. induction batch as [|h batch IH]; intros next previous hs; cbn.
  { intros [= -> -> ->]. by rewrite app_nil_r. }
  destruct (Z.eqb_spec (header_height h) next) as [Hh|]; cbn; [|done].
  case_bool_decide as Hp; cbn; [|done]. rewrite bind_Ok. intros (hash & Hx & Hl).
  apply map_err_Ok in Hx. rewrite Hx. apply IH in Hl as (-> & Hl & -> & ->). cbn.
  rewrite <- app_assoc. eauto 10.
Qed.

Lemma request_headers_loop_Ok fuel target next previous hs w out w' :
  0 <= next <= U64_MAX -> target < U64_MAX ->
  request_headers_loop fuel target next previous hs w = (Ok out, w') ->
  exists more, out = hs ++ more /\ linked next previous more /\ target < next + zlen more.
Proof.
  intros Hn Ht. revert next previous hs w Hn. induction fuel as [|fuel IH]; intros next previous hs w Hn; cbn.
  all: destruct (Z.ltb_spec target next).
  1,3: intros [= <- <-]; exists []; rewrite app_nil_r; unfold zlen; cbn; split_and!; [done|done|lia].
  { done. }
  intros Hr. apply st_bind_inv in Hr as [(e & _ & ?)|(r & w1 & _ & Hr)]; [done|].
  destruct r; try done. destruct headers as [|x batch]; [done|].
  destruct (link_headers (x :: batch) next previous hs) as [[[next' previous'] hs']|] eqn:Hl;
    st_simpl_in Hr; [|done].
  apply link_headers_Ok in Hl as (-> & Hl & -> & ->). cbn [fst snd] in Hr.
  pose proof (end_height_len next (x :: batch) Hn) as He. assert (0 <= zlen (x :: batch)) by (unfold zlen; lia).
  apply IH in Hr as (more & -> & Hm & Hlen); [|lia].
  exists ((x :: batch) ++ more). rewrite app_assoc. split_and!; [done|by apply linked_app|].
  rewrite He in Hlen. unfold zlen in *. rewrite length_app. lia.
Qed.


(** ** Blocks match the headers *)

Lemma match_blocks_Ok bs next expected got next' expected' got' :
  match_blocks bs next expected got = Ok (next', expected', got') ->
  got' = got ++ bs /\ expected = map header bs ++ expected' /\ next' = end_height next (map header bs) /\
  forall i b, bs !! i = Some b -> block_height b = end_height next (take i (map header bs)).
Proof.
  revert next expected got. induction bs as [|b bs IH]; intros next expected got; cbn.
  { intros [= -> -> ->]. by rewrite app_nil_r. }
  destruct (Z.eqb_spec (block_height b) next) as [Hb|]; cbn; [|done].
  destruct expected as [|h expected]; [done|]. case_bool_decide as Hh; cbn; [|done].
  intros Hm. apply IH in Hm as (-> & -> & -> & Hheights). subst h. rewrite <- app_assoc. split_and!; [done..|].
  intros [|i] b' Hi; cbn in *; [congruence|]. by apply Hheights.
Qed.

Lemma fetch_blocks_loop_Ok fuel target next expected got w out w' :
  0 <= next <= U64_MAX -> target < U64_MAX ->
  fetch_blocks_loop fuel target next expected got w = (Ok out, w') ->
  exists bs rest, out = got ++ bs /\ expected = map header bs ++ rest /\ target < next + zlen bs /\
    forall i b, bs !! i = Some b -> block_height b = end_height next (take i (map header bs)).
Proof.
  intros Hn Ht. revert next expected got w Hn. induction fuel as [|fuel IH]; intros next expected got w Hn; cbn.
  all: destruct (Z.ltb_spec target next).
  1,3: intros [= <- <-]; exists [], expected; rewrite app_nil_r; unfold zlen; cbn; split_and!; [done|done|lia|done].
  { done. }
  intros Hr. apply st_bind_inv in Hr as [(e & _ & ?)|([] & w1 & _ & Hr)]; [done|].
  apply st_bind_inv in Hr as [(e & _ & ?)|(r & w2 & _ & Hr)]; [done|].
  destruct r; try done. destruct blocks as [|x batch]; [done|].
  destruct (match_blocks (x :: batch) next expected got) as [[[next' expected'] got']|] eqn:Hm;
    st_simpl_in Hr; [|done].
  apply match_blocks_Ok in Hm as (-> & -> & -> & Hheights). cbn [fst snd] in Hr.
  pose proof (end_height_len next (map header (x :: batch)) Hn) as He.
  assert (Hz : zlen (map header (x :: batch)) = zlen (x :: batch)) by (unfold zlen; by rewrite length_map).
  assert (0 <= zlen (x :: batch)) by (unfold zlen; lia).
  apply IH in Hr as (bs & rest & -> & -> & Hlen & Hheights'); [|lia].
  exists ((x :: batch) ++ bs), rest. rewrite map_app, !app_assoc. split_and!; [done|done| |].
  - rewrite He, Hz in Hlen. unfold zlen in *. rewrite length_app. lia.
  - intros i b Hi. apply lookup_app_Some in Hi as [Hi|[Hge Hi]].
    + rewrite take_app_le by (apply lookup_lt_Some in Hi; rewrite length_map; lia). by apply Hheights.
    + rewrite take_app_ge by (by rewrite length_map). rewrite length_map, end_height_app. by apply Hheights'.
Qed.

Lemma fetch_blocks_headers start target hs w bs w' :
  0 <= start <= U64_MAX -> target < U64_MAX ->
  fetch_blocks start target hs w = (Ok bs, w') ->
  map header bs = take (length bs) hs /\ target < start + zlen bs /\
  (zlen hs = target - start + 1 -> map header bs = hs).
Proof.
  intros Hs Ht Hr. apply fetch_blocks_loop_Ok in Hr as (bs' & rest & -> & -> & Hlen & _); [|done..].
  cbn [app]. split_and!; [|done|].
  - by rewrite take_app_le, take_ge by (rewrite length_map; lia).
  - unfold zlen in *. rewrite length_app, length_map. intros Heq. destruct rest; [by rewrite app_nil_r|].
    cbn [length] in Heq. lia.
Qed.

(** C12: whatever the peer answers, every block a download accepts carries exactly the header
    that was validated for its position, in order and without gaps up to the target; when one
    header per height was validated, exactly one block per header is accepted. *)
Theorem blocks_match_headers start target hs w bs w' :
  0 <= start <= U64_MAX -> target < U64_MAX ->
  fetch_blocks start target hs w = (Ok bs, w') ->
  map header bs = take (length bs) hs /\ target < start + zlen bs /\
  (zlen hs = target - start + 1 -> map header bs = hs) /\
  forall i b, bs !! i = Some b -> block_height b = Z.min (start + Z.of_nat i) U64_MAX.
Proof.
  intros Hs Ht Hr. pose proof Hr as Hr'. apply fetch_blocks_headers in Hr as (? & ? & ?); [|done..].
  split_and!; [done..|]. apply fetch_blocks_loop_Ok in Hr' as (bs' & rest & -> & _ & _ & Hh); [|done..].
  cbn [app]. intros i b Hi. rewrite (Hh i b Hi), end_height_len by done. unfold zlen.
  rewrite length_take, length_map. apply lookup_lt_Some in Hi. by rewrite Nat.min_l by lia.
Qed.

(** ** The loops end *)

Lemma end_height_gt next hs : 0 <= next < U64_MAX -> hs <> [] -> next < end_height next hs.
Proof.
  intros Hn Hne. rewrite end_height_len by lia. destruct hs; [done|]. unfold zlen. cbn [length]. lia.
Qed.
Lemma headers_more fuel extra target next previous hs w :
  0 <= next <= U64_MAX -> target < U64_MAX -> (range_fuel next target <= fuel)%nat ->
  request_headers_loop (fuel + extra) target next previous hs w =
  request_headers_loop fuel target next previous hs w.
Proof.
  intros Hn Ht. revert next previous hs w Hn. unfold range_fuel.
  induction fuel as [|fuel IH]; intros next previous hs w Hn Hf.
  { assert (Hd : target <? next = true) by (apply Z.ltb_lt; lia).
    destruct extra; cbn; by rewrite Hd. }
  cbn [Nat.add request_headers_loop]. destruct (Z.ltb_spec target next); [done|].
  unfold mbind, st_bind. destruct (peer_request _ w) as [[r|] w1]; [|done].
  destruct r; try done. destruct headers as [|x batch]; [done|]. unfold st_lift.
  destruct (link_headers (x :: batch) next previous hs) as [[[next' previous'] hs']|] eqn:Hl; [|done].
  apply link_headers_Ok in Hl as (-> & _ & -> & ->). cbn [fst snd].
  pose proof (end_height_gt next (x :: batch) ltac:(lia) ltac:(done)).
  pose proof (end_height_len next (x :: batch) ltac:(lia)). apply IH; lia.
Qed.
Lemma blocks_more fuel extra target next expected got w :
  0 <= next <= U64_MAX -> target < U64_MAX -> (range_fuel next target <= fuel)%nat ->
  fetch_blocks_loop (fuel + extra) target next expected got w =
  fetch_blocks_loop fuel target next expected got w.
Proof.
  intros Hn Ht. revert next expected got w Hn. unfold range_fuel.
  induction fuel as [|fuel IH]; intros next expected got w Hn Hf.
  { assert (Hd : target <? next = true) by (apply Z.ltb_lt; lia).
    destruct extra; cbn; by rewrite Hd. }
  cbn [Nat.add fetch_blocks_loop]. destruct (Z.ltb_spec target next); [done|].
  unfold mbind, st_bind. destruct (check_shutdown w) as [[[]|] w1]; [|done].
  destruct (peer_request _ w1) as [[r|] w2]; [|done].
  destruct r; try done. destruct blocks as [|x batch]; [done|]. unfold st_lift.
  destruct (match_blocks (x :: batch) next expected got) as [[[next' expected'] got']|] eqn:Hl; [|done].
  apply match_blocks_Ok in Hl as (-> & _ & -> & _). cbn [fst snd].
  pose proof (end_height_gt next (map header (x :: batch)) ltac:(lia) ltac:(done)).
  pose proof (end_height_len next (map header (x :: batch)) ltac:(lia)). apply IH; lia.
Qed.
Lemma chunks_more fuel extra height hash chunk_size capacity snapshot w :
  0 < chunk_size -> (Z.to_nat (capacity - zlen snapshot) <= fuel)%nat ->
  chunk_loop (fuel + extra) height hash chunk_size capacity snapshot w =
  chunk_loop fuel height hash chunk_size capacity snapshot w.
Proof.
  intros Hc. revert snapshot w. induction fuel as [|fuel IH]; intros snapshot w Hf.
  { assert (Hd : capacity <=? zlen snapshot = true) by (apply Z.leb_le; lia).
    destruct extra; cbn; by rewrite Hd. }
  cbn [Nat.add chunk_loop]. destruct (Z.leb_spec capacity (zlen snapshot)); [done|].
  unfold mbind, st_bind. destruct (peer_request _ w) as [[r|] w1]; [|done].
  destruct r; try done. destruct (_ && _) eqn:Hok; [|done]. unfold st_lift.
  destruct (decompress_chunk _ _ _) as [decoded|] eqn:Hd; [|done].
  apply decompress_bounded in Hd as (Hd & _). rewrite !andb_true_iff in Hok.
  destruct Hok as [[[[[_ _] _] _] Hu] _]. apply Z.eqb_eq in Hu. apply IH.
  unfold zlen in *. rewrite length_app. lia.
Qed.

(** the download loops end: a turn either fails or brings the height, or the snapshot, at
    least one step closer to its target, so the turns counted from the target are enough and
    more change nothing, whatever the peer answers. *)
Theorem download_loops_end start target anchor hs extra w :
  0 <= start <= U64_MAX -> target < U64_MAX ->
  request_headers_loop (range_fuel start target + extra) target start anchor [] w =
    request_headers start target anchor w /\
  fetch_blocks_loop (range_fuel start target + extra) target start hs [] w =
    fetch_blocks start target hs w /\
  forall height hash chunk_size size, 0 < chunk_size ->
    chunk_loop (Z.to_nat size + extra) height hash chunk_size size [] w =
    chunk_loop (Z.to_nat size) height hash chunk_size size [] w.
Proof.
  intros Hs Ht. split_and!; [by apply headers_more|by apply blocks_more|].
  intros height hash chunk_size size Hc. apply chunks_more; [done|]. unfold zlen. cbn [length]. lia.
Qed.
End sync_spec.
