(* ===== verification/SyncHonest.v ===== *)
(** Synchronising with an honest peer: what the peer's handler serves is what the client ends up
    with, for headers, blocks, common ancestors and snapshots. *)
From Stdlib Require Import ZArith Lia.
From stdpp Require Import base numbers option strings list.
From S2P Require Import Prelude BTree PaqusCore Mempool Compact Snapshot Lmdb Storage Cache NodeState.
From S2P Require Import Node Message Handler Peer Sync SyncSpec.
Open Scope Z_scope.

(** A peer that answers every request with what its handler replies. *)
Class HonestPeer `{PaqusTypes} `{!TxOps} `{!BlockOps} `{!LedgerOps} `{!EventOps} `{!ForkOps}
    `{!ConsensusOps} `{!GenesisOps} `{!Borsh} `{!Lmdb} `{!ErrorDisplay} `{!StorageDisplay}
    `{!ChainParams} (clock : nat -> Z) (W : Type) `{!PeerWorld W}
    (remote : W -> Node * NetworkMetrics) : Prop := {
  served m w r s' : handle_message clock m (remote w) = (Ok (Some r), s') ->
    exists w', peer_request m w = (Ok r, w') /\ remote w' = s';
  awake w : exists w', shutdown_requested w = (Ok false, w') /\ remote w' = remote w
}.

Section honest.
Context `{PaqusTypes} `{!TxOps} `{!BlockOps} `{!LedgerOps} `{!EventOps} `{!ForkOps}.
Context `{!ConsensusOps} `{!GenesisOps} `{!Borsh} `{!Lmdb} `{!ErrorDisplay} `{!StorageDisplay}.
Context `{!ChainParams}.
Context (clock : nat -> Z).
Context {W : Type} `{!PeerWorld W} (remote : W -> Node * NetworkMetrics) `{!HonestPeer clock W remote}.
Implicit Types (w : W) (hs : list BlockHeader) (bs : list Block).

(** ** Chains *)

(** The entries [l] are what [f] holds at the heights from [start]. *)
Definition at_heights {A} (f : BlockHeight -> option A) (start : Z) (l : list A) : Prop :=
  forall i x, l !! i = Some x -> f (start + Z.of_nat i) = Some x.

Lemma at_heights_take {A} (f : BlockHeight -> option A) start l n :
  at_heights f start l -> at_heights f start (take n l).
Proof. intros Hf i x Hi. apply Hf. by apply lookup_take_Some in Hi as [? _]. Qed.
Lemma at_heights_drop {A} (f : BlockHeight -> option A) start l n :
  at_heights f start l -> at_heights f (start + Z.of_nat n) (drop n l).
Proof.
  intros Hf i x Hi. rewrite lookup_drop in Hi. rewrite <- (Hf _ _ Hi). f_equal. lia.
Qed.
Lemma map_while_from_all {A} (f : BlockHeight -> option A) start l :
  at_heights f start l -> map_while_from f (length l) start = l.
Proof.
  revert start. induction l as [|x l IH]; intros start Hf; cbn; [done|].
  pose proof (Hf 0%nat x eq_refl) as Hx. rewrite Z.add_0_r in Hx. rewrite Hx. f_equal.
  apply IH. intros i y Hi. rewrite <- (Hf (S i) y Hi). f_equal. lia.
Qed.
Lemma height_range_all {A} (f : BlockHeight -> option A) start l :
  at_heights f start l -> zlen l <= 64 -> start + zlen l <= U64_MAX -> height_range f start (zlen l) = l.
Proof.
  intros Hf Hl Hu. unfold height_range, MAX_RANGE_RESPONSE_ITEMS, u64_add, saturating_add.
  rewrite (Z.min_l (zlen l)) by lia. rewrite Z.min_l by lia.
  replace (Z.to_nat (start + zlen l - start)) with (length l) by (unfold zlen; lia).
  by apply map_while_from_all.
Qed.

Lemma link_headers_linked batch next previous hs :
  linked next previous batch ->
  link_headers batch next previous hs = Ok (end_height next batch, end_hash previous batch, hs ++ batch).
Proof.
  revert next previous hs. induction batch as [|h batch IH]; intros next previous hs; cbn.
  { by rewrite app_nil_r. }
  intros (Hh & Hp & hash & Hx & Hl). rewrite Hh, Z.eqb_refl, bool_decide_true, Hx by done. cbn.
  rewrite IH by done. by rewrite <- app_assoc.
Qed.
Lemma match_blocks_all bs next got rest :
  (forall i b, bs !! i = Some b -> block_height b = next + Z.of_nat i) -> 0 <= next ->
  next + zlen bs <= U64_MAX ->
  match_blocks bs next (map header bs ++ rest) got = Ok (next + zlen bs, rest, got ++ bs).
Proof.
  revert next got. induction bs as [|b bs IH]; intros next got Hb Hn Hu; cbn.
  { unfold zlen. cbn. by rewrite Z.add_0_r, app_nil_r. }
  pose proof (Hb 0%nat b eq_refl) as Hb0. rewrite Z.add_0_r in Hb0.
  rewrite Hb0, Z.eqb_refl, bool_decide_true by done. cbn.
  assert (Hz : zlen (b :: bs) = zlen bs + 1) by (unfold zlen; cbn [length]; lia).
  assert (0 <= zlen bs) by (unfold zlen; lia).
  replace (u64_add next 1) with (next + 1) by (unfold_int; lia).
  rewrite IH; [|intros i b' Hi; rewrite (Hb (S i) b' Hi); lia|lia|lia].
  rewrite <- app_assoc, Hz. do 3 f_equal. lia.
Qed.

(** A batch of the rest of a range. *)
Lemma batch_limit_rest {A} (l : list A) next target :
  zlen l = target - next + 1 -> 0 <= next <= target -> target < U64_MAX ->
  batch_limit next target = zlen (take 32 l).
Proof.
  intros Hl Hn Ht. unfold batch_limit, MAX_BLOCKS_PER_BATCH. unfold_int. rewrite length_take. lia.
Qed.

Lemma headers_served fuel target next previous acc hs w :
  linked next previous hs -> at_heights (chain_header (ledger (remote w).1)) next hs ->
  zlen hs = target - next + 1 -> 0 <= next -> target < U64_MAX -> (length hs <= fuel)%nat ->
  exists w', request_headers_loop fuel target next previous acc w = (Ok (acc ++ hs), w') /\
    remote w' = remote w.
Proof.
  intros Hl Hat Hz Hn Ht Hf. revert next previous acc hs w Hl Hat Hz Hn Hf.
  induction fuel as [|fuel IH]; intros next previous acc hs w Hl Hat Hz Hn Hf; cbn [request_headers_loop].
  { destruct hs; [|cbn in Hf; lia]. destruct (Z.ltb_spec target next); [|unfold zlen in *; cbn in *; lia].
    exists w. by rewrite app_nil_r. }
  destruct (Z.ltb_spec target next) as [Hd|Hd].
  { destruct hs; [|unfold zlen in *; cbn [length] in *; lia]. exists w. by rewrite app_nil_r. }
  rewrite (batch_limit_rest hs next target) by (done || lia).
  assert (Hne : take 32 hs <> []) by (destruct hs; [unfold zlen in *; cbn in *; lia|done]).
  assert (H32 : zlen (take 32 hs) <= 32) by (unfold zlen; rewrite length_take; lia).
  assert (Hsum : zlen (take 32 hs) + zlen (drop 32 hs) = zlen hs)
    by (unfold zlen; rewrite length_take, length_drop; lia).
  assert (Hpos : 0 < zlen (take 32 hs)) by (destruct (take 32 hs); [done|]; unfold zlen; cbn [length]; lia).
  rewrite <- (take_drop 32 hs) in Hl. apply linked_app in Hl as [Hl1 Hl2].
  destruct (served (clock := clock) (remote := remote) (GetBlockHeadersByHeightRange next (zlen (take 32 hs))) w
    (MsgBlockHeaders (take 32 hs)) (remote w)) as (w1 & Hr & Hw1).
  { cbn. unfold mbind, st_bind. cbn. rewrite height_range_all; [done|by apply at_heights_take|lia|].
    unfold zlen in *. lia. }
  rewrite (st_bind_ok _ _ _ _ _ Hr). destruct (take 32 hs) as [|x batch] eqn:E; [done|].
  rewrite (link_headers_linked (x :: batch)) by done. rewrite st_bind_lift_ok. cbn [fst snd].
  assert (He : end_height next (x :: batch) = next + zlen (x :: batch)).
  { rewrite end_height_len by lia. unfold zlen in *. lia. }
  rewrite He. rewrite He in Hl2.
  destruct (IH (next + zlen (x :: batch)) (end_hash previous (x :: batch)) (acc ++ x :: batch) (drop 32 hs) w1)
    as (w2 & Hw2 & Hrem); [done| |lia|unfold zlen; lia| |].
  - rewrite Hw1. apply (at_heights_drop _ _ _ 32) in Hat. intros i y Hi. rewrite <- (Hat i y Hi). f_equal.
    enough (zlen (x :: batch) = 32) by lia. rewrite <- E. unfold zlen. rewrite length_take.
    apply lookup_lt_Some in Hi. rewrite length_drop in Hi. lia.
  - unfold zlen in *. lia.
  - exists w2. rewrite Hw2, Hrem, Hw1, <- app_assoc. split; [|done]. do 3 f_equal. rewrite <- E. apply take_drop.
Qed.

Lemma blocks_served fuel target next acc bs w :
  at_heights (ledger_block (ledger (remote w).1)) next bs ->
  (forall i b, bs !! i = Some b -> block_height b = next + Z.of_nat i) ->
  zlen bs = target - next + 1 -> 0 <= next -> target < U64_MAX -> (length bs <= fuel)%nat ->
  exists w', fetch_blocks_loop fuel target next (map header bs) acc w = (Ok (acc ++ bs), w') /\
    remote w' = remote w.
Proof.
  intros Hat Hh Hz Hn Ht Hf. revert next acc bs w Hat Hh Hz Hn Hf.
  induction fuel as [|fuel IH]; intros next acc bs w Hat Hh Hz Hn Hf; cbn [fetch_blocks_loop].
  { destruct bs; [|cbn in Hf; lia]. destruct (Z.ltb_spec target next); [|unfold zlen in *; cbn in *; lia].
    exists w. by rewrite app_nil_r. }
  destruct (Z.ltb_spec target next) as [Hd|Hd].
  { destruct bs; [|unfold zlen in *; cbn [length] in *; lia]. exists w. by rewrite app_nil_r. }
  destruct (awake (clock := clock) (remote := remote) w) as (w0 & Hs & Hw0).
  unfold check_shutdown. rewrite (st_bind_ok (_ ≫= _) _ w tt w0).
  2:{ by rewrite (st_bind_ok _ _ _ _ _ Hs). }
  rewrite (batch_limit_rest bs next target) by (done || lia).
  assert (Hne : take 32 bs <> []) by (destruct bs; [unfold zlen in *; cbn in *; lia|done]).
  assert (H32 : zlen (take 32 bs) <= 32) by (unfold zlen; rewrite length_take; lia).
  assert (Hsum : zlen (take 32 bs) + zlen (drop 32 bs) = zlen bs)
    by (unfold zlen; rewrite length_take, length_drop; lia).
  assert (Hpos : 0 < zlen (take 32 bs)) by (destruct (take 32 bs); [done|]; unfold zlen; cbn [length]; lia).
  destruct (served (clock := clock) (remote := remote) (GetBlocksByHeightRange next (zlen (take 32 bs))) w0
    (MsgBlocks (take 32 bs)) (remote w0)) as (w1 & Hr & Hw1).
  { rewrite Hw0. cbn. unfold mbind, st_bind. cbn. rewrite height_range_all; [done|by apply at_heights_take|lia|].
    unfold zlen in *. lia. }
  rewrite (st_bind_ok _ _ _ _ _ Hr). assert (Hm : map header bs = map header (take 32 bs) ++ map header (drop 32 bs))
    by (by rewrite <- map_app, take_drop). rewrite Hm.
  destruct (take 32 bs) as [|x batch] eqn:E; [done|].
  rewrite (match_blocks_all (x :: batch)); [|intros i b Hi; apply Hh; rewrite <- E in Hi;
    by apply lookup_take_Some in Hi as [? _]|lia|unfold zlen in *; lia].
  rewrite st_bind_lift_ok. cbn [fst snd].
  destruct (IH (next + zlen (x :: batch)) (acc ++ x :: batch) (drop 32 bs) w1)
    as (w2 & Hw2 & Hrem); [| |lia|unfold zlen; lia| |].
  - rewrite Hw1, Hw0. apply (at_heights_drop _ _ _ 32) in Hat. intros i y Hi. rewrite <- (Hat i y Hi). f_equal.
    enough (zlen (x :: batch) = 32) by lia. rewrite <- E. unfold zlen. rewrite length_take.
    apply lookup_lt_Some in Hi. rewrite length_drop in Hi. lia.
  - intros i y Hi. rewrite lookup_drop in Hi. rewrite (Hh _ _ Hi).
    enough (zlen (x :: batch) = 32) by lia. rewrite <- E. unfold zlen. rewrite length_take.
    apply lookup_lt_Some in Hi. lia.
  - unfold zlen in *. lia.
  - exists w2. rewrite Hw2, Hrem, Hw1, Hw0, <- app_assoc. split; [|done]. do 3 f_equal. rewrite <- E. apply take_drop.
Qed.

(** The remote chain from [start] to [target], on the ancestor [anchor]. *)
Definition remote_chain (l : Ledger) (start target : Z) (anchor : BlockHash) bs : Prop :=
  zlen bs = target - start + 1 /\ linked start anchor (map header bs) /\
  at_heights (ledger_block l) start bs /\ at_heights (chain_header l) start (map header bs) /\
  forall i b, bs !! i = Some b -> block_height b = start + Z.of_nat i.

(** C13: against an honest peer a download is complete: the headers and then the blocks it
    returns are exactly the peer's chain from the height after the common ancestor to the
    target, whatever the number of batches. *)
Theorem honest_sync_complete start target anchor bs w :
  0 <= start -> target < U64_MAX -> remote_chain (ledger (remote w).1) start target anchor bs ->
  exists w1 w2,
    request_headers start target anchor w = (Ok (map header bs), w1) /\
    fetch_blocks start target (map header bs) w1 = (Ok bs, w2) /\ remote w2 = remote w.
Proof.
  intros Hs Ht (Hz & Hl & Hb & Hh & Hheights).
  assert (Hfuel : (length bs <= range_fuel start target)%nat) by (unfold range_fuel, zlen in *; lia).
  destruct (headers_served (range_fuel start target) target start anchor [] (map header bs) w)
    as (w1 & H1' & Hw1); [done..|unfold zlen in *; by rewrite length_map|done|done|by rewrite length_map|].
  destruct (blocks_served (range_fuel start target) target start [] bs w1) as (w2 & H2' & Hw2);
    [by rewrite Hw1|done..|].
  exists w1, w2. rewrite Hw2, Hw1. done.
Qed.

(** ** Snapshots *)

Lemma snapshot_bytes_stable (n n' : Node) raw :
  snapshot_bytes n = (Ok raw, n') -> snapshot_bytes n' = (Ok raw, n') /\ ledger n' = ledger n.
Proof.
  unfold snapshot_bytes, tip_hash. rewrite !st_bind_get.
  destruct (ledger_tip_hash (ledger n)) as [tip|] eqn:Ht; cbn [ok_or]; st_simpl; [|done].
  assert (Hhit : forall m : Node, ledger m = ledger n -> snapshot_cache m = Some (tip, raw) ->
    snapshot_bytes m = (Ok raw, m)).
  { intros m Hl Hc. unfold snapshot_bytes, tip_hash. rewrite st_bind_get, Hl, Ht. cbn [ok_or]. st_simpl.
    rewrite Hc, bool_decide_true by done. cbn [negb]. st_simpl. rewrite Hc. by cbn [ok_or]. }
  destruct (snapshot_cache n) as [[cached_tip cached]|] eqn:Hc; [case_bool_decide|]; cbn [negb].
  - subst cached_tip. st_simpl. rewrite Hc. cbn [ok_or]. st_simpl. intros [= -> <-]. split; [|done].
    by apply Hhit.
  - destruct (snapshot_paqus_bytes (ledger n)) as [made|]; cbn; [|done].
    intros [= -> <-]. split; [|done]. by apply Hhit.
  - destruct (snapshot_paqus_bytes (ledger n)) as [made|]; cbn; [|done].
    intros [= -> <-]. split; [|done]. by apply Hhit.
Qed.

(** The node [s] serves the snapshot [raw] of its tip. *)
Definition serves (s : Node * NetworkMetrics) (height : BlockHeight) (hash : BlockHash) (raw : bytes) : Prop :=
  is_canonical_tip s.1 height hash = true /\ exists n', snapshot_bytes s.1 = (Ok raw, n').
Lemma serves_again s height hash raw n' :
  serves s height hash raw -> snapshot_bytes s.1 = (Ok raw, n') -> serves (n', s.2) height hash raw.
Proof.
  intros [Htip _] Hb. destruct (snapshot_bytes_stable _ _ _ Hb) as [Hs Hl].
  split; [|by eexists]. unfold is_canonical_tip, tip_height, tip_hash in *. cbn. by rewrite Hl.
Qed.

Lemma on_snapshot_bytes {A} (s : Node * NetworkMetrics) raw n' {k : bytes -> ST _ NetworkError A} :
  snapshot_bytes s.1 = (Ok raw, n') -> (on_node snapshot_bytes ≫= k) s = k raw (n', s.2).
Proof. intros Hb. apply st_bind_ok. unfold on_node. by rewrite Hb. Qed.
Lemma manifest_served s height hash raw :
  serves s height hash raw ->
  exists s', handle_message clock (GetSnapshotManifest height hash) s =
      (Ok (Some (SnapshotManifest height hash (zlen raw) (artifact_payload_hash raw) SNAPSHOT_CHUNK_SIZE)), s') /\
    serves s' height hash raw.
Proof.
  intros Hs. pose proof Hs as [Htip [n' Hb]]. exists (n', s.2). split; [|by eapply serves_again].
  cbn [handle_message]. unfold snapshot_manifest.
  rewrite (st_bind_ok get_node _ s s.1 s eq_refl), Htip. cbn [negb].
  by rewrite (on_snapshot_bytes _ _ _ Hb).
Qed.
Lemma chunk_served s height hash raw offset length :
  serves s height hash raw -> 0 < length <= SNAPSHOT_CHUNK_SIZE -> 0 <= offset ->
  offset + length <= zlen raw -> zlen raw <= MAX_FAST_SYNC_BUNDLE_SIZE ->
  let chunk := take (Z.to_nat length) (drop (Z.to_nat offset) raw) in
  exists s', handle_message clock (GetSnapshotChunk height hash offset length) s =
      (Ok (Some (SnapshotChunk height hash offset (compress_chunk chunk).1 length (compress_chunk chunk).2)), s') /\
    serves s' height hash raw /\ zlen chunk = length.
Proof.
  intros Hs Hlen Hoff Hend Hmax chunk. pose proof Hs as [Htip [n' Hb]]. exists (n', s.2).
  assert (Hz : zlen chunk = length).
  { subst chunk. unfold zlen in *. rewrite length_take, length_drop. lia. }
  split; [|split; [by eapply serves_again|done]].
  cbn [handle_message]. unfold snapshot_chunk.
  rewrite (st_bind_ok get_node _ s s.1 s eq_refl), Htip.
  destruct (Z.eqb_spec length 0); [lia|]. destruct (Z.ltb_spec SNAPSHOT_CHUNK_SIZE length); [lia|].
  cbn [orb negb]. rewrite (on_snapshot_bytes _ _ _ Hb).
  destruct (Z.leb_spec (zlen raw) offset); [lia|].
  assert (He : Z.min (saturating_add USIZE_MAX offset length) (zlen raw) - offset = length).
  { unfold MAX_FAST_SYNC_BUNDLE_SIZE in Hmax. unfold saturating_add, USIZE_MAX, U64_MAX. lia. }
  rewrite He. fold chunk. rewrite Hz. by destruct (compress_chunk chunk).
Qed.

Lemma compress_chunk_sound (chunk : bytes) :
  0 < zlen chunk <= SNAPSHOT_CHUNK_SIZE ->
  decompress_chunk (compress_chunk chunk).1 (compress_chunk chunk).2 (zlen chunk) = Ok chunk /\
  0 < zlen (compress_chunk chunk).2 <= zlen chunk.
Proof.
  intros Hc. pose proof (chunk_roundtrip chunk ltac:(lia)) as Hr.
  destruct (compress_chunk chunk) as [compression compressed]. cbn [fst snd]. destruct Hr as [Hr Hl].
  split; [done|]. split; [|done]. destruct compressed as [|x compressed]; [|unfold zlen; cbn [length]; lia].
  apply decompress_bounded in Hr as (_ & _ & Hout). destruct compression; cbn in Hout; subst chunk; destruct Hc as [Hc _]; by cbv in Hc.
Qed.

Lemma chunks_served fuel height hash raw snapshot w :
  serves (remote w) height hash raw -> zlen raw <= MAX_FAST_SYNC_BUNDLE_SIZE ->
  snapshot = take (length snapshot) raw -> (Z.to_nat (zlen raw - zlen snapshot) <= fuel)%nat ->
  exists w', chunk_loop fuel height hash SNAPSHOT_CHUNK_SIZE (zlen raw) snapshot w = (Ok raw, w').
Proof.
  intros Hs Hmax. revert snapshot w Hs. induction fuel as [|fuel IH]; intros snapshot w Hs Hsnap Hf;
    cbn [chunk_loop]; destruct (Z.leb_spec (zlen raw) (zlen snapshot)) as [Hfull|Hfree].
  1,3: exists w; rewrite Hsnap, take_ge; [done|unfold zlen in *; lia].
  { lia. }
  set (len := Z.min (zlen raw - zlen snapshot) SNAPSHOT_CHUNK_SIZE).
  assert (Hlen : 0 < len <= SNAPSHOT_CHUNK_SIZE) by (unfold len, SNAPSHOT_CHUNK_SIZE; lia).
  destruct (chunk_served (remote w) height hash raw (zlen snapshot) len) as (s' & Hh & Hs' & Hz);
    [done|done|unfold zlen; lia|lia|done|].
  destruct (served (clock := clock) (remote := remote) _ w _ _ Hh) as (w1 & Hr & Hw1).
  rewrite (st_bind_ok _ _ _ _ _ Hr). set (chunk := take (Z.to_nat len) (drop (Z.to_nat (zlen snapshot)) raw)) in *.
  destruct (compress_chunk_sound chunk) as [Hd Hcl]; [by rewrite Hz|]. rewrite Hz in Hd, Hcl.
  rewrite !Z.eqb_refl, bool_decide_true by done. destruct (Z.eqb_spec (zlen (compress_chunk chunk).2) 0); [lia|].
  destruct (Z.leb_spec (zlen (compress_chunk chunk).2) len); [|lia]. cbn [andb negb].
  rewrite Hd, st_bind_lift_ok. apply IH; [by rewrite Hw1| |].
  - assert (Hcut : chunk = take (length chunk) (drop (length snapshot) raw)).
    { unfold chunk at 1. f_equal; [unfold zlen in Hz; lia|]. f_equal. unfold zlen. lia. }
    rewrite length_app, <- take_take_drop, <- Hcut, <- Hsnap. done.
  - unfold zlen in *. rewrite length_app. lia.
Qed.

(** a snapshot is downloaded exactly: against an honest peer at the announced tip the client
    ends with the very bytes of the peer's snapshot, through manifest, chunking, compression
    and the content hash. *)
Theorem honest_snapshot_download tip raw w :
  serves (remote w) (ti_height tip) (ti_hash tip) raw -> 0 < zlen raw <= MAX_FAST_SYNC_BUNDLE_SIZE ->
  exists w', download_snapshot tip w = (Ok raw, w').
Proof.
  intros Hs Hlen. destruct (manifest_served _ _ _ _ Hs) as (s1 & Hh & Hs1).
  destruct (served (clock := clock) (remote := remote) _ w _ _ Hh) as (w1 & Hr & Hw1).
  unfold download_snapshot. rewrite (st_bind_ok _ _ _ _ _ Hr), Z.eqb_refl, bool_decide_true by done.
  destruct (Z.eqb_spec (zlen raw) 0); [lia|]. destruct (Z.ltb_spec MAX_FAST_SYNC_BUNDLE_SIZE (zlen raw)); [lia|].
  replace (SNAPSHOT_CHUNK_SIZE =? 0) with false by done. rewrite Z.ltb_irrefl.
  cbn [negb orb]. destruct (chunks_served (Z.to_nat (zlen raw)) (ti_height tip) (ti_hash tip) raw [] w1)
    as (w2 & Hc); [by rewrite Hw1|lia|done|unfold zlen; cbn [length]; lia|].
  rewrite (st_bind_ok _ _ _ _ _ Hc), Z.eqb_refl, bool_decide_true by done. by exists w2.
Qed.
End honest.
