(* ===== verification/SyncPlan.v ===== *)
(** Planning a synchronisation: block locators and the common ancestor they lead to, the
    division of a range among peers, and the fetching of missing parents. *)
From Stdlib Require Import ZArith Lia.
From stdpp Require Import base numbers option strings list sets.
From S2P Require Import Prelude BTree PaqusCore Mempool Compact Snapshot Lmdb Storage Cache NodeState.
From S2P Require Import Node NodeOrphans Message Handler Peer Sync SyncSpec SyncHonest.
Open Scope Z_scope.

Section plan.
Context `{PaqusTypes} `{!TxOps} `{!BlockOps} `{!LedgerOps} `{!EventOps} `{!ForkOps}.
Context `{!ConsensusOps} `{!GenesisOps} `{!Borsh} `{!Lmdb} `{!ErrorDisplay} `{!StorageDisplay}.
Context `{!ChainParams}.
Context (clock : nat -> Z).

(** ** Block locators *)

(** The chain of [l] has the hash [x] at [height]. *)
Definition hash_at (l : Ledger) (height : Z) (x : BlockHash) : Prop :=
  exists h, chain_header l height = Some h /\ header_hash h = Ok x.
(** Every height up to the tip has a header. *)
Definition complete_chain (l : Ledger) (top : Z) : Prop :=
  0 <= top <= U64_MAX /\ ledger_tip_height l = Some top /\
  forall height, 0 <= height <= top -> exists x, hash_at l height x.

(** [locator] lists hashes of the chain at strictly falling heights from [height]. *)
Fixpoint falls_from (l : Ledger) (height : Z) (locator : list BlockHash) : Prop :=
  match locator with
  | [] => True
  | x :: locator => hash_at l height x /\ exists lower, lower < height /\
      (locator <> [] -> 0 <= lower) /\ falls_from l lower locator
  end.

Lemma locator_loop_falls l top fuel height step acc :
  complete_chain l top -> 0 <= height <= top -> 1 <= step -> (Z.to_nat height <= fuel)%nat ->
  zlen acc < MAX_BLOCK_LOCATOR_HASHES ->
  exists locator, locator_loop fuel l height step acc = Ok (acc ++ locator) /\
    locator <> [] /\ falls_from l height locator /\
    zlen acc + zlen locator <= MAX_BLOCK_LOCATOR_HASHES.
Proof.
  intros (Htop & _ & Hall). revert height step acc.
  induction fuel as [|fuel IH]; intros height step acc Hh Hs Hf Hacc; cbn [locator_loop];
    destruct (Hall height Hh) as (x & h & Hc & Hx); rewrite Hc, Hx; cbn [map_err mbind result_bind].
  - assert (height = 0) as -> by lia. exists [x]. cbn [orb Z.eqb]. do 2 (split; [done|]). split.
    + split; [by exists h|]. exists (-1). split_and!; [lia|done|done].
    + unfold zlen in *. cbn [length]. lia.
  - assert (Hone : zlen (acc ++ [x]) = zlen acc + 1) by (unfold zlen; rewrite length_app; cbn [length]; lia).
    assert (Hstop : exists locator, Ok (acc ++ [x]) = Ok (E := string) (acc ++ locator) /\ locator <> [] /\
      falls_from l height locator /\ zlen acc + zlen locator <= MAX_BLOCK_LOCATOR_HASHES).
    { exists [x]. do 2 (split; [done|]). split; [|unfold zlen in *; cbn [length]; lia]. split; [by exists h|].
      exists (height - 1). split_and!; [lia|done|done]. }
    destruct (Z.eqb_spec height 0) as [|Hnz]; cbn [orb]; [exact Hstop|].
    destruct (Z.leb_spec MAX_BLOCK_LOCATOR_HASHES (zlen (acc ++ [x]))); [exact Hstop|].
    set (step' := if 10 <=? zlen (acc ++ [x]) then u64_mul step 2 else step). assert (Hs' : 1 <= step').
    { unfold step'. destruct (_ <=? _); [|done]. unfold u64_mul, saturating_mul, U64_MAX. lia. }
    assert (Hlow : 0 <= u64_sub height step < height) by (unfold u64_sub, saturating_sub; lia).
    destruct (IH (u64_sub height step) step' (acc ++ [x])) as (locator & Hr & Hne & Hfall & Hlen); [lia..|].
    exists (x :: locator). rewrite Hr, <- app_assoc. do 2 (split; [done|]). split.
    + split; [by exists h|]. exists (u64_sub height step). split_and!; [lia|lia|done].
    + unfold zlen in *. cbn [length]. lia.
Qed.

Lemma falls_from_elem l height locator x :
  falls_from l height locator -> x ∈ locator -> 0 <= height ->
  exists height', 0 <= height' <= height /\ hash_at l height' x.
Proof.
  revert height. induction locator as [|y locator IH]; intros height Hf Hx Hh; [by apply elem_of_nil in Hx|].
  destruct Hf as (Hy & lower & Hlt & Hlow & Hf). apply elem_of_cons in Hx as [->|Hx]; [exists height; split; [lia|done]|].
  destruct (IH lower Hf Hx) as (h' & ? & ?); [apply Hlow; by destruct locator; [apply elem_of_nil in Hx|]|].
  exists h'. split; [lia|done].
Qed.

(** a block locator spans the chain: it starts with the tip, lists hashes of the chain at
    falling heights, ends with genesis, and never has more than 33 entries. *)
Theorem locator_spans_chain l top :
  complete_chain l top ->
  exists locator tip_ genesis, ledger_locator l = Ok locator /\
    hash_at l top tip_ /\ head locator = Some tip_ /\
    hash_at l 0 genesis /\ last locator = Some genesis /\
    zlen locator <= 33 /\
    (forall x, x ∈ locator -> exists height, 0 <= height <= top /\ hash_at l height x) /\
    exists body_, falls_from l top body_ /\ (locator = body_ \/ locator = body_ ++ [genesis]).
Proof.
  intros Hchain. pose proof Hchain as (Htop & Htip & Hall). unfold ledger_locator. rewrite Htip.
  destruct (locator_loop_falls l top (Z.to_nat top) top 1 [] Hchain) as (body_ & Hr & Hne & Hf & Hlen);
    [lia|lia|lia|done|]. rewrite Hr. cbn [mbind result_bind app].
  assert (Hz : zlen body_ <= 32) by (unfold MAX_BLOCK_LOCATOR_HASHES, zlen in *; cbn [length] in *; lia).
  destruct (Hall 0 ltac:(lia)) as (genesis & g & Hg & Hgx).
  destruct body_ as [|x body_]; [done|]. destruct Hf as (Hx & Hf').
  assert (Hgen : hash_at l 0 genesis) by (by exists g).
  assert (Helem : forall y, y ∈ x :: body_ -> exists height, 0 <= height <= top /\ hash_at l height y).
  { intros y Hy. apply (falls_from_elem l top (x :: body_)); [done|done|lia]. }
  unfold ends_elsewhere. destruct (last (x :: body_)) as [y|] eqn:Hlast; [|by apply last_None in Hlast].
  rewrite Hg, Hgx. destruct (decide (genesis = y)) as [->|Hgy].
  - rewrite bool_decide_true by done. cbn [negb]. exists (x :: body_), x, y.
    split_and!; [done..|lia|done|]. exists (x :: body_). split; [done|by left].
  - rewrite bool_decide_false by done. cbn [negb map_err mbind result_bind].
    exists ((x :: body_) ++ [genesis]), x, genesis. split_and!; try done.
    + by rewrite last_snoc.
    + unfold zlen in *. rewrite length_app. cbn [length]. cbn [length] in Hz. lia.
    + intros z Hin. apply elem_of_app in Hin as [Hin|Hin]; [by apply Helem|].
      apply list_elem_of_singleton in Hin as ->. exists 0. split; [lia|done].
    + exists (x :: body_). split; [done|by right].
Qed.

(** ** Dividing a range among peers *)

(** The ranges cover the heights from [next] to [target] in pieces of 32, the last one shorter,
    each with its own headers and the next of the available peers in turn. *)
Fixpoint tiles (next target : Z) (headers : list BlockHeader) (available : list string) (turn : nat)
    (ranges : list SyncRange) : Prop :=
  match ranges with
  | [] => target < next
  | r :: ranges =>
      next <= target /\ sr_start r = next /\ sr_target r = Z.min (next + 31) target /\
      sr_headers r = take (Z.to_nat (sr_target r - next + 1)) headers /\
      available !! (turn mod length available)%nat = Some (sr_peer r) /\
      tiles (sr_target r + 1) target (drop (Z.to_nat (sr_target r - next + 1)) headers) available
        (S turn) ranges
  end.

Lemma plan_loop_tiles fuel target headers available next index ranges :
  0 <= next -> target < U64_MAX -> available <> [] -> (range_fuel next target <= fuel)%nat ->
  target - next + 1 <= zlen headers - Z.of_nat index ->
  exists more, plan_loop fuel target headers available next index ranges = Some (ranges ++ more) /\
    tiles next target (drop index headers) available (length ranges) more.
Proof.
  intros Hn Ht Ha. revert next index ranges Hn. unfold range_fuel.
  induction fuel as [|fuel IH]; intros next index ranges Hn Hf Hlen; cbn [plan_loop];
    destruct (Z.ltb_spec target next) as [Hd|Hd].
  1,3: exists []; rewrite app_nil_r; done.
  { lia. }
  assert (Hc : batch_limit next target = Z.min (next + 31) target - next + 1)
    by (unfold batch_limit, MAX_BLOCKS_PER_BATCH; unfold_int; lia).
  destruct (lookup_lt_is_Some_2 available (length ranges mod length available)) as [peer Hp].
  { apply Nat.mod_upper_bound. by destruct available. }
  rewrite Hp. cbn [mbind option_bind]. rewrite Hc.
  set (count := Z.min (next + 31) target - next + 1). assert (Hcount : 1 <= count <= target - next + 1) by lia.
  unfold slice. rewrite bool_decide_true by (unfold zlen in Hlen; lia). cbn [mbind option_bind].
  replace (u64_add next count) with (next + count) by (unfold_int; lia).
  replace (u64_sub (next + count) 1) with (Z.min (next + 31) target) by (unfold_int; lia).
  set (r := {| sr_peer := peer; sr_start := next; sr_target := _; sr_headers := _ |}).
  destruct (IH (next + count) (index + Z.to_nat count)%nat (ranges ++ [r])) as (more & -> & Hm); [lia..|].
  exists (r :: more). rewrite <- app_assoc. split; [done|]. cbn [tiles r sr_start sr_target sr_headers sr_peer].
  split_and!; [lia|done|done|done|done|]. rewrite drop_drop.
  replace (Z.min (next + 31) target + 1) with (next + count) by lia.
  rewrite length_app, Nat.add_1_r in Hm. exact Hm.
Qed.

Lemma tiles_headers next target headers available turn ranges :
  tiles next target headers available turn ranges -> next <= target + 1 ->
  target - next + 1 <= zlen headers ->
  concat (map sr_headers ranges) = take (Z.to_nat (target - next + 1)) headers.
Proof.
  revert next headers turn. induction ranges as [|r ranges IH]; intros next headers turn; cbn.
  { intros. replace (Z.to_nat (target - next + 1)) with 0%nat by lia. done. }
  intros (Hle & _ & Hr & -> & _ & Ht) _ Hlen. rewrite Hr in *. apply IH in Ht; [|lia|].
  2:{ unfold zlen in *. rewrite length_drop. lia. }
  rewrite Ht, take_take_drop. f_equal. lia.
Qed.
Lemma tiles_bounds next target headers available turn ranges r :
  tiles next target headers available turn ranges -> r ∈ ranges ->
  next <= sr_start r <= sr_target r /\ sr_target r <= target /\ sr_target r - sr_start r < 32 /\
  sr_peer r ∈ available.
Proof.
  revert next headers turn. induction ranges as [|r' ranges IH]; intros next headers turn; cbn;
    [by intros _ ?%elem_of_nil|].
  intros (Hle & Hs & Hr & _ & Hp & Ht) Hin. apply elem_of_cons in Hin as [->|Hin].
  - rewrite Hs, Hr. split_and!; try lia. by eapply list_elem_of_lookup_2.
  - destruct (IH _ _ _ Ht Hin) as (? & ? & ? & ?). split_and!; try lia. done.
Qed.

Lemma available_peers_elem target (candidates : list (string * TipInfo)) p :
  p ∈ available_peers target candidates <->
  exists tip_, (p, tip_) ∈ candidates /\ target <= ti_height tip_.
Proof.
  unfold available_peers. change (p ∈ fst <$> sort_by (fun l r => compare_tips r.2 l.2)
    (List.filter (fun c : string * TipInfo => target <=? ti_height c.2) candidates) <->
    exists tip_, (p, tip_) ∈ candidates /\ target <= ti_height tip_).
  rewrite list_elem_of_fmap. setoid_rewrite elem_of_sort_by.
  setoid_rewrite list_elem_of_In. setoid_rewrite filter_In. setoid_rewrite Z.leb_le. split.
  - intros ([q tip_] & -> & Hc). by exists tip_.
  - intros (tip_ & Hc). by exists (p, tip_).
Qed.

(** The plan is no range at all, or tiles. *)
Lemma plan_tiles start target headers (candidates : list (string * TipInfo)) :
  0 <= start <= target -> target < U64_MAX -> target - start + 1 <= zlen headers ->
  exists ranges, plan_parallel_ranges start target headers candidates = Some ranges /\
    ((ranges = [] /\ forall c, c ∈ candidates -> ti_height c.2 < target) \/
     tiles start target headers (available_peers target candidates) 0 ranges).
Proof.
  intros Hs Ht Hlen. unfold plan_parallel_ranges.
  pose proof (available_peers_elem target candidates) as Hav.
  destruct (available_peers target candidates) as [|p available] eqn:E.
  - exists []. split; [done|]. left. split; [done|]. intros [q tip_] Hc. cbn.
    apply Z.nle_gt. intros Hle. assert (q ∈ []) as ?%elem_of_nil by (apply Hav; by exists tip_). done.
  - destruct (plan_loop_tiles (range_fuel start target) target headers (p :: available) start 0 [])
      as (ranges & Hr & Htiles); [lia|done|done|done|unfold zlen in *; lia|].
    exists ranges. split; [exact Hr|]. by right.
Qed.

(** the plan of a parallel download is a partition: given a header for every height, the
    ranges follow each other without gap or overlap from the first height to the target, at most
    32 heights each, their headers put together are the validated headers, no slice is out of
    range, and every range goes to a candidate whose tip reaches the target; without such a
    candidate there is no range at all. *)
Theorem parallel_plan_partitions start target headers candidates :
  0 <= start <= target -> target < U64_MAX -> target - start + 1 <= zlen headers ->
  exists ranges, plan_parallel_ranges start target headers candidates = Some ranges /\
    ((ranges = [] /\ forall c, c ∈ candidates -> ti_height c.2 < target) \/
     (tiles start target headers (available_peers target candidates) 0 ranges /\
      concat (map sr_headers ranges) = take (Z.to_nat (target - start + 1)) headers /\
      forall r, r ∈ ranges -> start <= sr_start r <= sr_target r /\ sr_target r <= target /\
        sr_target r - sr_start r < 32 /\
        exists tip_, (sr_peer r, tip_) ∈ candidates /\ target <= ti_height tip_)).
Proof.
  intros Hs Ht Hlen. destruct (plan_tiles start target headers candidates) as (ranges & Hr & Hcases); [done..|].
  exists ranges. split; [exact Hr|]. destruct Hcases as [Hnone|Htiles]; [by left|right].
  split_and!; [exact Htiles|apply tiles_headers in Htiles; [done|lia|done]|].
  intros r Hin. destruct (tiles_bounds _ _ _ _ _ _ _ Htiles Hin) as (? & ? & ? & Hp).
  split_and!; try lia. by apply available_peers_elem.
Qed.

(** ** Missing parents *)

(** The hash is not queued, and the queue is consistent. *)
Definition forgotten (x : BlockHash) (n : Node) : Prop :=
  pool_wf n /\ x ∉ missing_parent_requests n.
Lemma clock_pool (n : Node) c : pool_wf n -> pool_wf (set_clock_reads c n).
Proof. by apply pool_upto_part. Qed.
Lemma retry_forgotten x y (n : Node) :
  forgotten x n -> y <> x -> forgotten x (retry_missing_parent_request clock y n).2.
Proof.
  intros [Hwf Hx] Hne. unfold retry_missing_parent_request.
  rewrite (st_bind_ok _ _ _ _ _ (eq_refl : current_unix_timestamp clock n = (Ok _, _))).
  cbn [st_modify snd]. split; [by apply queue_request_pool, clock_pool|].
  unfold queue_missing_parent_request_at. destruct (fork_contains _ _); [done|].
  destruct (bt_contains _ _); [done|]. cbn [missing_parent_requests set_missing_parent_requests
    set_missing_parent_request_set set_missing_parent_retry_at set_clock_reads]. set_solver.
Qed.
(** What a drain hands out leaves the queue, once each. *)
Lemma drain_forgets (n : Node) :
  pool_wf n -> exists ready n', drain_missing_parent_requests clock n = (Ok ready, n') /\ pool_wf n' /\
    NoDup ready /\ (forall x, x ∈ ready -> x ∈ missing_parent_requests n /\ x ∉ missing_parent_requests n') /\
    forall x, x ∈ missing_parent_requests n' -> x ∈ missing_parent_requests n.
Proof.
  intros Hwf. unfold drain_missing_parent_requests.
  rewrite (st_bind_ok _ _ _ _ _ (eq_refl : current_unix_timestamp clock n = (Ok _, _))).
  unfold st_step. set (t := clock _). set (n1 := set_clock_reads _ n).
  assert (Hwf1 : pool_wf n1) by (by apply clock_pool).
  destruct (drain_missing_parent_requests_at t n1) as [ready n'] eqn:Hd.
  destruct (drain_spec t n1 ready n' Hwf1 Hd) as (-> & Hq & _ & Hwf'). cbn [fst snd].
  eexists _, n'. split_and!; [done|done| | |].
  - apply NoDup_ListNoDup, List.NoDup_filter, NoDup_ListNoDup. by destruct Hwf as (_ & [] & _).
  - intros x. rewrite Hq, !list_elem_of_In, !filter_In. destruct (due t n1 x); naive_solver.
  - intros x. rewrite Hq, !list_elem_of_In, filter_In. naive_solver.
Qed.

Context {W : Type} `{!PeerWorld W} (local : W -> Node).
(** The lock gives access to the local node. *)
Context (unlocked : forall A (m : ST Node NodeError A) w, exists w',
  with_node m w = (Ok (m (local w)).1, w') /\ local w' = (m (local w)).2).
(** The peer has none of the blocks asked for. *)
Context (lacking : forall hash w, exists reason text w',
  peer_request (GetBlockByHash hash) w = (Ok (Reject reason text), w') /\ local w' = local w).

Lemma node_call_ok {A} text (m : ST Node NodeError A) (a : A) n' w :
  m (local w) = (Ok a, n') -> exists w', node_call text m w = (Ok a, w') /\ local w' = n'.
Proof.
  intros Hm. destruct (unlocked A m w) as (w' & Hw & Hl). exists w'. rewrite Hm in *.
  split; [|done]. unfold node_call. by rewrite (st_bind_ok _ _ _ _ _ Hw).
Qed.
(** The first block the peer lacks ends the loop over the drained hashes. *)
Lemma fetch_parents_stops hash hashes f w :
  pf_fetched f < MAX_MISSING_PARENT_FETCHES_PER_POLL -> 0 <= pf_fetched f -> 0 <= pf_missing f ->
  exists f' w', fetch_parents clock (hash :: hashes) f w = (Ok f', w') /\
    local w' = (retry_missing_parent_request clock hash (local w)).2 /\
    pf_fetched f' = pf_fetched f + 1 /\ 0 <= pf_missing f'.
Proof.
  intros Hf Hf0 Hm. cbn [fetch_parents]. destruct (Z.leb_spec MAX_MISSING_PARENT_FETCHES_PER_POLL (pf_fetched f)); [lia|].
  destruct (lacking hash w) as (reason & text & w1 & Hr & Hl1).
  assert (Hreq : st_try (F := string) (request_block_by_hash clock hash) w = (Ok (Ok false), w1)).
  { unfold st_try, request_block_by_hash. by rewrite (st_bind_ok _ _ _ _ _ Hr). }
  rewrite (st_bind_ok _ _ _ _ _ Hreq).
  assert (Hpos : 0 < saturating_add USIZE_MAX (pf_missing f) 1).
  { unfold saturating_add, USIZE_MAX, U64_MAX. lia. }
  destruct (Z.ltb_spec 0 (saturating_add USIZE_MAX (pf_missing f) 1)); [|lia].
  destruct (node_call_ok id (retry_missing_parent_request clock hash) tt
    (retry_missing_parent_request clock hash (local w1)).2 w1) as (w2 & Hw2 & Hl2); [done|].
  unfold retry_parent. rewrite (st_bind_ok _ _ _ _ _ Hw2). eexists _, w2.
  split; [done|]. cbn [pf_fetched pf_missing]. rewrite Hl2, Hl1. split_and!; [done| |lia].
  unfold MAX_MISSING_PARENT_FETCHES_PER_POLL in *. unfold saturating_add, USIZE_MAX, U64_MAX. lia.
Qed.
Lemma parents_loop_forgotten x fuel f w :
  forgotten x (local w) -> 0 <= pf_fetched f -> 0 <= pf_missing f ->
  exists f' w', parents_loop clock fuel f w = (Ok f', w') /\ forgotten x (local w').
Proof.
  revert f w. induction fuel as [|fuel IH]; intros f w Hx Hf Hm; cbn [parents_loop];
    destruct (Z.leb_spec MAX_MISSING_PARENT_FETCHES_PER_POLL (pf_fetched f)); try (by exists f, w).
  destruct Hx as [Hwf Hx]. destruct (drain_forgets (local w) Hwf) as (ready & n' & Hd & Hwf' & _ & Hready & Hsub).
  destruct (node_call_ok id _ _ _ w Hd) as (w1 & Hw1 & Hl1). rewrite (st_bind_ok _ _ _ _ _ Hw1).
  assert (Hx1 : forgotten x (local w1)) by (rewrite Hl1; split; [done|auto]).
  destruct ready as [|y ready]; [by exists f, w1|].
  destruct (fetch_parents_stops y ready f w1) as (f' & w2 & Hr & Hl2 & Hf' & Hm'); [lia..|].
  rewrite (st_bind_ok _ _ _ _ _ Hr). apply IH; [|lia|done]. rewrite Hl2. apply retry_forgotten; [done|].
  intros ->. by destruct (Hready x (list_elem_of_here _ _)).
Qed.

(** fetching missing parents loses requests. When the peer lacks the first block of a
    drained batch, that hash alone is queued again: every other hash of the batch has left the
    queue when the poll ends, without having been asked for. *)
Theorem missing_parents_dropped first rest x w :
  pool_wf (local w) -> (drain_missing_parent_requests clock (local w)).1 = Ok (first :: rest) -> x ∈ rest ->
  exists r w', request_missing_parent_blocks clock w = (r, w') /\
    x ∈ missing_parent_requests (local w) /\ x ∉ missing_parent_requests (local w').
Proof.
  intros Hwf Hd Hx. destruct (drain_forgets (local w) Hwf) as (ready & n' & Hd' & Hwf' & Hnd & Hready & _).
  rewrite Hd' in Hd. injection Hd as ->. apply NoDup_cons in Hnd as [Hfirst _].
  assert (Hne : first <> x) by (by intros ->). destruct (Hready x) as [Hbefore Hafter]; [by right|].
  unfold request_missing_parent_blocks. change (Z.to_nat MAX_MISSING_PARENT_FETCHES_PER_POLL) with (S 63).
  destruct (node_call_ok id _ _ _ w Hd') as (w1 & Hw1 & Hl1).
  set (f0 := {| pf_requested := false; pf_fetched := 0; pf_missing := 0 |}).
  destruct (fetch_parents_stops first rest f0 w1) as (f1 & w2 & Hr & Hl2 & Hf1 & Hm1); [done..|].
  destruct (parents_loop_forgotten x 63 f1 w2) as (f2 & w3 & Hloop & Hx3); [|cbn in Hf1; lia|done|].
  { rewrite Hl2, Hl1. by apply retry_forgotten. }
  assert (Hall : parents_loop clock (S 63) f0 w = (Ok f2, w3)).
  { cbn [parents_loop]. replace (_ <=? pf_fetched f0) with false by done.
    rewrite (st_bind_ok _ _ _ _ _ Hw1), (st_bind_ok _ _ _ _ _ Hr). exact Hloop. }
  rewrite (st_bind_ok _ _ _ _ _ Hall). destruct (0 <? pf_fetched f2).
  - destruct (unlocked (option BlockHash) (n ← st_get; mret (tip_hash n)) w3) as (w4 & Hw4 & Hl4).
    assert (Hread : read_node tip_hash w3 = (Ok (tip_hash (local w3)), w4)).
    { unfold read_node. by rewrite (st_bind_ok _ _ _ _ _ Hw4). }
    eexists _, w4. split.
    + by rewrite (st_bind_ok (read_node tip_hash ≫= _) _ w3 tt w4) by (by rewrite (st_bind_ok _ _ _ _ _ Hread)).
    + rewrite Hl4. by destruct Hx3.
  - eexists _, w3. split; [done|]. by destruct Hx3.
Qed.
End plan.
