(* ===== verification/SyncParallel.v ===== *)
(** Parallel download: whatever threads and peers do, what is applied are the blocks of the
    validated headers, each once and in order. *)
From Stdlib Require Import ZArith Lia.
From stdpp Require Import base numbers option strings list gmap.
From S2P Require Import Prelude BTree PaqusCore Mempool Compact Snapshot Lmdb Storage Cache NodeState.
From S2P Require Import Node Message Handler Peer Sync SyncSpec SyncPlan.
Open Scope Z_scope.

(** Threads that run in turn do what their tasks do. *)
Lemma run_in_turn_outcomes {S E A} (tasks : list (ST S E A)) s outcomes s' :
  run_in_turn tasks s = (Ok outcomes, s') ->
  Forall2 (fun task outcome => forall r, outcome = Some r -> exists s1 s2, task s1 = (r, s2)) tasks outcomes.
Proof.
  revert s outcomes. induction tasks as [|task tasks IH]; intros s outcomes Hr; cbn [run_in_turn] in Hr.
  { injection Hr as <- <-. constructor. }
  apply st_bind_inv in Hr as [(? & _ & ?)|(r & s1 & Et & Hr)]; [done|].
  apply st_bind_inv in Hr as [(? & _ & ?)|(rest & s2 & Hrest & Hr)]; [done|].
  injection Hr as <- <-. constructor; [|by apply IH in Hrest].
  intros r' [= <-]. unfold st_try in Et. injection Et as Er Es. exists s, s1. rewrite <- Er, <- Es.
  apply surjective_pairing.
Qed.

Section sync_parallel.
Context `{PaqusTypes} `{!TxOps} `{!BlockOps} `{!LedgerOps} `{!EventOps} `{!ForkOps}.
Context `{!ConsensusOps} `{!GenesisOps} `{!Borsh} `{!Lmdb} `{!ErrorDisplay} `{!StorageDisplay}.
Context `{!ChainParams}.
Context (clock : nat -> Z).
Context {W : Type} `{!PeerWorld W}.

(** What a thread returns is what its task returned in some world. *)
Class Threads : Prop :=
  run_threads_outcomes : forall A (tasks : list (ST W string A)) w outcomes w',
    run_threads tasks w = (Ok outcomes, w') ->
    Forall2 (fun task outcome => forall r, outcome = Some r -> exists w1 w2, task w1 = (r, w2)) tasks outcomes.

Lemma try_peers_Ok range addrs peers error failed w start peer bs bad w' :
  try_peers range addrs peers error failed w = (Ok (start, peer, bs, bad), w') ->
  start = sr_start range /\
  exists w1 w2, fetch_blocks (sr_start range) (sr_target range) (sr_headers range) w1 = (Ok bs, w2).
Proof.
  revert error failed w. induction peers as [|a peers IH]; intros error failed w E; [done|].
  cbn [try_peers] in E. apply st_bind_inv in E as [(? & _ & ?)|([] & w1 & _ & E)]; [done|].
  unfold st_try in E. unfold mbind at 1, st_bind at 1 in E. destruct (peer_connect a w1) as [[[]|err] w2];
    cbn [fst snd] in E; [|by apply IH in E].
  unfold mbind at 1, st_bind at 1 in E. destruct (handshake_peer addrs w2) as [[[]|err] w3];
    cbn [fst snd] in E; [|by apply IH in E].
  unfold mbind at 1, st_bind at 1 in E. destruct (fetch_blocks _ _ _ w3) as [[bs'|err] w4] eqn:Ef;
    cbn [fst snd] in E; [|by apply IH in E].
  injection E as <- <- <- <- <-. eauto.
Qed.

(** The tasks of the plan. *)
Definition tasks (ranges : list SyncRange) (candidates : list (string * TipInfo)) (addrs : list string) :=
  map (fun range => fetch_range_with_retries range candidates addrs) ranges.

Lemma join_workers_blocks ranges candidates addrs outcomes next target headers available turn m used failed m' used' failed' :
  tiles next target headers available turn ranges -> 0 <= next -> target < U64_MAX ->
  target - next + 1 <= zlen headers ->
  Forall2 (fun (task : ST W string _) outcome => forall r, outcome = Some r -> exists w1 w2, task w1 = (r, w2))
    (tasks ranges candidates addrs) outcomes ->
  Forall (fun p => p.1 < next) (bt_list m) ->
  join_workers outcomes m used failed = Ok (m', used', failed') ->
  exists bs, bt_values m' = bt_values m ++ bs /\ map header (concat bs) = concat (map sr_headers ranges).
Proof.
  intros Htiles Hn Ht Hlen. revert next headers turn outcomes m used failed Htiles Hn Hlen.
  induction ranges as [|r ranges IH]; intros next headers turn outcomes m used failed Htiles Hn Hlen Hout Hm Hj.
  { cbn in Hout. apply Forall2_nil_inv_l in Hout as ->. injection Hj as <- <- <-.
    exists []. by rewrite app_nil_r. }
  apply Forall2_cons_inv_l in Hout as (outcome & outcomes' & Ho & Hout & ->).
  destruct Htiles as (Hle & Hs & Htg & Hh & _ & Htiles). cbn [join_workers] in Hj.
  destruct outcome as [[[[[start peer] bs] bad]|err]|]; cbn [mbind result_bind] in Hj; [|done..].
  destruct (Ho _ eq_refl) as (w1 & w2 & E). apply try_peers_Ok in E as (-> & w3 & w4 & Ef).
  apply fetch_blocks_headers in Ef as (_ & _ & Hbs); [|rewrite Hs; unfold U64_MAX in *; lia|lia].
  assert (Hsl : zlen (sr_headers r) = sr_target r - sr_start r + 1).
  { rewrite Hh, Hs. unfold zlen in *. rewrite length_take. lia. }
  specialize (Hbs Hsl). rewrite <- Hs in Htiles.
  eapply (IH (sr_target r + 1)) in Hj as (more & Hv & Hmore); [|exact Htiles|lia| |done|].
  - exists (bs :: more). split.
    + rewrite Hv. unfold bt_values. rewrite bt_insert_last, fmap_app, <- app_assoc; [done|].
      eapply Forall_impl; [exact Hm|]. intros [k v] Hk. cbn in *. by rewrite Hs, Z.compare_lt_iff.
    + cbn. by rewrite map_app, Hbs, Hmore.
  - unfold zlen in *. rewrite length_drop. lia.
  - rewrite bt_insert_last; [|eapply Forall_impl; [exact Hm|]; intros [k v] Hk; cbn in *; by rewrite Hs, Z.compare_lt_iff].
    apply Forall_app. split; [eapply Forall_impl; [exact Hm|]; intros [k v] Hk; cbn in *; lia|].
    repeat constructor. cbn. lia.
Qed.

Lemma apply_downloaded_Ok bs height applied w height' applied' w' :
  0 <= height -> height + zlen bs <= U64_MAX ->
  apply_downloaded clock bs height applied w = (Ok (height', applied'), w') ->
  height' = height + zlen bs /\ applied' = applied + zlen bs.
Proof.
  revert height applied w. induction bs as [|b bs IH]; intros height applied w Hh Hlen E; cbn [apply_downloaded] in E.
  { injection E as <- <- <-. unfold zlen. cbn. lia. }
  destruct (negb _); [done|]. apply st_bind_inv in E as [(? & _ & ?)|([] & w1 & _ & E)]; [done|].
  unfold zlen in *. cbn [length] in *. apply IH in E as [-> ->]; unfold_int; lia.
Qed.

(** C14: a parallel download that succeeds has applied every block of the range: the blocks of
    the validated headers, in the order of their heights and each once, however the ranges
    were divided among threads and peers and in whatever order they arrived. When no
    candidate reaches the target nothing was done. *)
Theorem parallel_sync_in_order `{!Threads} start target headers candidates addrs tip_ w report w' :
  0 <= start <= target -> target < U64_MAX -> zlen headers = target - start + 1 ->
  sync_ranges clock start target headers candidates addrs tip_ w = (Ok report, w') ->
  (ps_applied_blocks report = 0 /\ w' = w /\ forall c, c ∈ candidates -> ti_height c.2 < target) \/
  exists bs w1, map header bs = headers /\ ps_applied_blocks report = target - start + 1 /\
    apply_downloaded clock bs start 0 w1 = (Ok (target + 1, target - start + 1), w').
Proof.
  intros Hs Ht Hlen E. unfold sync_ranges in E.
  destruct (plan_tiles start target headers candidates) as (ranges & Hr & Hcases); [done|done|lia|].
  rewrite Hr in E. destruct Hcases as [[-> Hnone]|Htiles]; [injection E as <- <-; by left|right].
  pose proof (tiles_headers _ _ _ _ _ _ Htiles ltac:(lia) ltac:(lia)) as Hh.
  rewrite take_ge in Hh by (unfold zlen in *; lia). destruct ranges as [|r ranges]; [cbn in Htiles; lia|].
  apply st_bind_inv in E as [(? & _ & ?)|(outcomes & w1 & Erun & E)]; [done|].
  apply run_threads_outcomes in Erun.
  destruct (join_workers outcomes ∅ ∅ ∅) as [[[downloaded used] failed]|err] eqn:Ej; st_simpl_in E; [|done].
  eapply join_workers_blocks in Ej as (bs & Hv & Hbs); [|exact Htiles|lia|done|lia|exact Erun|constructor].
  change (bt_values (∅ : BTreeMap Z (list Block)) ++ bs) with bs in Hv. rewrite Hv in E.
  apply st_bind_inv in E as [(? & _ & ?)|([height applied] & w2 & Ea & E)]; [done|].
  assert (Hz : zlen (concat bs) = target - start + 1).
  { rewrite <- Hlen, <- Hh, <- Hbs. unfold zlen. by rewrite length_map. }
  pose proof Ea as Hcount. apply apply_downloaded_Ok in Hcount as [-> ->]; [|lia|lia].
  injection E as <- <-. exists (concat bs), w1. rewrite Hbs, Hh. cbn [ps_applied_blocks snd].
  replace (target + 1) with (start + zlen (concat bs)) by lia. split_and!; [done|lia|].
  by replace (target - start + 1) with (0 + zlen (concat bs)) by lia.
Qed.
End sync_parallel.
