(* ===== verification/Config.v ===== *)
(** The node's configuration: command/config.rs, command/parse.rs, app-config/src/lib.rs and the
    RPC security check of main.rs.

    Defaults, the configuration file, the environment and the command line are applied in this
    order. The state is the process environment; files are a function from paths to contents.
    [Duration] is in seconds, which is all the options can express. Reading a [SocketAddr] from
    text, JSON, hexadecimal and keys is the work of std, serde_json, hex and paqus: class
    [ConfigOps]. Strings are ASCII; [trim] removes ASCII white space. *)
From Stdlib Require Import ZArith Lia Ascii.
From stdpp Require Import base numbers option strings list gmap pretty.
From S2P Require Import Prelude PaqusCore Net Mempool Gossip.
Open Scope Z_scope.

(** ** Text *)

Definition is_space (c : ascii) : bool :=
  let n := Z.of_N (N_of_ascii c) in (n =? 32) || ((9 <=? n) && (n <=? 13)).
Fixpoint trim_start (s : string) : string :=
  match s with
  | String c rest => if is_space c then trim_start rest else s
  | EmptyString => ""
  end.
Definition trim (s : string) : string := String.rev (trim_start (String.rev (trim_start s))).
Definition lower (c : ascii) : ascii :=
  let n := N_of_ascii c in if ((65 <=? n) && (n <=? 90))%N then ascii_of_N (n + 32) else c.
Fixpoint to_ascii_lowercase (s : string) : string :=
  match s with EmptyString => "" | String c s => String (lower c) (to_ascii_lowercase s) end.
Definition starts_with_dash (s : string) : bool :=
  match s with String c _ => bool_decide (c = "-"%char) | EmptyString => false end.
(** [str::split(',')] *)
Fixpoint split_commas (s piece : string) : list string :=
  match s with
  | EmptyString => [piece]
  | String c s =>
      if bool_decide (c = ","%char) then piece :: split_commas s ""
      else split_commas s (piece +:+ String c "")
  end.

(** [str::parse::<u64>()] with its [ParseIntError] texts: an optional plus sign, then decimal
    digits; what exceeds 64 bits is an error. *)
Definition digit (c : ascii) : option Z :=
  let n := Z.of_N (N_of_ascii c) in if (48 <=? n) && (n <=? 57) then Some (n - 48) else None.
Fixpoint parse_digits (s : string) (acc : Z) : Result string Z :=
  match s with
  | EmptyString => Ok acc
  | String c s =>
      match digit c with
      | None => Err "invalid digit found in string"
      | Some d =>
          if U64_MAX <? acc * 10 + d then Err "number too large to fit in target type"
          else parse_digits s (acc * 10 + d)
      end
  end.
Definition parse_u64 (s : string) : Result string Z :=
  match s with
  | EmptyString => Err "cannot parse integer from empty string"
  | String c rest =>
      if bool_decide (c = "+"%char) then
        match rest with EmptyString => Err "invalid digit found in string" | _ => parse_digits rest 0 end
      else parse_digits s 0
  end.

(** ** The configuration *)

Record RunConfig := {
  network : string;
  db_path : string;
  listen_addrs : list SocketAddr;
  rpc_addr : SocketAddr;
  rpc_admin_addr : option SocketAddr;
  rpc_admin_token : option string;
  rpc_tls_cert : option string;
  rpc_tls_key : option string;
  rpc_cors_origins : list string;
  rpc_max_body_bytes : Z;
  rpc_timeout : Z;
  rpc_max_concurrent_requests : Z;
  rpc_max_connections : Z;
  rpc_rate_limit_per_second : Z;
  rpc_rate_limit_burst : Z;
  bootstrap_peers : list SocketAddr;
  peers : list SocketAddr;
  peers_file : option string;
  dns_seeds : list string;
  gateway_url : option string;
  public_addrs : list SocketAddr;
  gateway_heartbeat : Z;
  nat_traversal : bool;
  nat_lease : Z;
  grpc_addr : option SocketAddr;
  shutdown_file : string;
  max_peers : Z;
  fast_sync : bool;
  min_relay_fee : Z;
  market_fee : Z;
  low_fee_expiry : Z;
  mempool_expiry : Z;
  miner_address : Address;
  miner_secret_key : option bytes;
  miner_min_fee_rate : option Z;
  mine : bool;
  mine_interval : Z;
  mine_attempts : Z
}.
(** The record from its fields; [set_field] writes the assignment to one of them. *)
Definition from_fields (c : RunConfig) : RunConfig := {|
  network := network c; db_path := db_path c; listen_addrs := listen_addrs c; rpc_addr :=
  rpc_addr c; rpc_admin_addr := rpc_admin_addr c; rpc_admin_token := rpc_admin_token c;
  rpc_tls_cert := rpc_tls_cert c; rpc_tls_key := rpc_tls_key c; rpc_cors_origins :=
  rpc_cors_origins c; rpc_max_body_bytes := rpc_max_body_bytes c; rpc_timeout := rpc_timeout c;
  rpc_max_concurrent_requests := rpc_max_concurrent_requests c; rpc_max_connections :=
  rpc_max_connections c; rpc_rate_limit_per_second := rpc_rate_limit_per_second c;
  rpc_rate_limit_burst := rpc_rate_limit_burst c; bootstrap_peers := bootstrap_peers c; peers :=
  peers c; peers_file := peers_file c; dns_seeds := dns_seeds c; gateway_url := gateway_url c;
  public_addrs := public_addrs c; gateway_heartbeat := gateway_heartbeat c; nat_traversal :=
  nat_traversal c; nat_lease := nat_lease c; grpc_addr := grpc_addr c; shutdown_file :=
  shutdown_file c; max_peers := max_peers c; fast_sync := fast_sync c; min_relay_fee :=
  min_relay_fee c; market_fee := market_fee c; low_fee_expiry := low_fee_expiry c;
  mempool_expiry := mempool_expiry c; miner_address := miner_address c; miner_secret_key :=
  miner_secret_key c; miner_min_fee_rate := miner_min_fee_rate c; mine := mine c; mine_interval
  := mine_interval c; mine_attempts := mine_attempts c
|}.
Ltac set_field field v c :=
  let t := eval cbv beta delta [from_fields] in (from_fields c) in
  let t := eval pattern (field c) in t in
  match t with ?g _ => exact (g v) end.
Definition set_network (v : string) (c : RunConfig) : RunConfig := ltac:(set_field network v c).
Definition set_db_path (v : string) (c : RunConfig) : RunConfig := ltac:(set_field db_path v c).
Definition set_listen_addrs (v : list SocketAddr) (c : RunConfig) : RunConfig := ltac:(set_field listen_addrs v c).
Definition set_rpc_addr (v : SocketAddr) (c : RunConfig) : RunConfig := ltac:(set_field rpc_addr v c).
Definition set_rpc_admin_addr (v : option SocketAddr) (c : RunConfig) : RunConfig := ltac:(set_field rpc_admin_addr v c).
Definition set_rpc_admin_token (v : option string) (c : RunConfig) : RunConfig := ltac:(set_field rpc_admin_token v c).
Definition set_rpc_tls_cert (v : option string) (c : RunConfig) : RunConfig := ltac:(set_field rpc_tls_cert v c).
Definition set_rpc_tls_key (v : option string) (c : RunConfig) : RunConfig := ltac:(set_field rpc_tls_key v c).
Definition set_rpc_cors_origins (v : list string) (c : RunConfig) : RunConfig := ltac:(set_field rpc_cors_origins v c).
Definition set_rpc_max_body_bytes (v : Z) (c : RunConfig) : RunConfig := ltac:(set_field rpc_max_body_bytes v c).
Definition set_rpc_timeout (v : Z) (c : RunConfig) : RunConfig := ltac:(set_field rpc_timeout v c).
Definition set_rpc_max_concurrent_requests (v : Z) (c : RunConfig) : RunConfig := ltac:(set_field rpc_max_concurrent_requests v c).
Definition set_rpc_max_connections (v : Z) (c : RunConfig) : RunConfig := ltac:(set_field rpc_max_connections v c).
Definition set_rpc_rate_limit_per_second (v : Z) (c : RunConfig) : RunConfig := ltac:(set_field rpc_rate_limit_per_second v c).
Definition set_rpc_rate_limit_burst (v : Z) (c : RunConfig) : RunConfig := ltac:(set_field rpc_rate_limit_burst v c).
Definition set_bootstrap_peers (v : list SocketAddr) (c : RunConfig) : RunConfig := ltac:(set_field bootstrap_peers v c).
Definition set_peers (v : list SocketAddr) (c : RunConfig) : RunConfig := ltac:(set_field peers v c).
Definition set_peers_file (v : option string) (c : RunConfig) : RunConfig := ltac:(set_field peers_file v c).
Definition set_dns_seeds (v : list string) (c : RunConfig) : RunConfig := ltac:(set_field dns_seeds v c).
Definition set_gateway_url (v : option string) (c : RunConfig) : RunConfig := ltac:(set_field gateway_url v c).
Definition set_public_addrs (v : list SocketAddr) (c : RunConfig) : RunConfig := ltac:(set_field public_addrs v c).
Definition set_gateway_heartbeat (v : Z) (c : RunConfig) : RunConfig := ltac:(set_field gateway_heartbeat v c).
Definition set_nat_traversal (v : bool) (c : RunConfig) : RunConfig := ltac:(set_field nat_traversal v c).
Definition set_nat_lease (v : Z) (c : RunConfig) : RunConfig := ltac:(set_field nat_lease v c).
Definition set_grpc_addr (v : option SocketAddr) (c : RunConfig) : RunConfig := ltac:(set_field grpc_addr v c).
Definition set_shutdown_file (v : string) (c : RunConfig) : RunConfig := ltac:(set_field shutdown_file v c).
Definition set_max_peers (v : Z) (c : RunConfig) : RunConfig := ltac:(set_field max_peers v c).
Definition set_fast_sync (v : bool) (c : RunConfig) : RunConfig := ltac:(set_field fast_sync v c).
Definition set_min_relay_fee (v : Z) (c : RunConfig) : RunConfig := ltac:(set_field min_relay_fee v c).
Definition set_market_fee (v : Z) (c : RunConfig) : RunConfig := ltac:(set_field market_fee v c).
Definition set_low_fee_expiry (v : Z) (c : RunConfig) : RunConfig := ltac:(set_field low_fee_expiry v c).
Definition set_mempool_expiry (v : Z) (c : RunConfig) : RunConfig := ltac:(set_field mempool_expiry v c).
Definition set_miner_address (v : Address) (c : RunConfig) : RunConfig := ltac:(set_field miner_address v c).
Definition set_miner_secret_key (v : option bytes) (c : RunConfig) : RunConfig := ltac:(set_field miner_secret_key v c).
Definition set_miner_min_fee_rate (v : option Z) (c : RunConfig) : RunConfig := ltac:(set_field miner_min_fee_rate v c).
Definition set_mine (v : bool) (c : RunConfig) : RunConfig := ltac:(set_field mine v c).
Definition set_mine_interval (v : Z) (c : RunConfig) : RunConfig := ltac:(set_field mine_interval v c).
Definition set_mine_attempts (v : Z) (c : RunConfig) : RunConfig := ltac:(set_field mine_attempts v c).

Inductive OneOrMany (T : Type) := One (value : T) | Many (values : list T).
Arguments One {T} _.
Arguments Many {T} _.
Definition into_vec {T} (x : OneOrMany T) : list T :=
  match x with One value => [value] | Many values => values end.

Record RunConfigFile := {
  f_network : string;
  f_db_path : string;
  f_listen_addr : OneOrMany string;
  f_rpc_addr : string;
  f_rpc_admin_addr : option string;
  f_rpc_admin_token : option string;
  f_rpc_tls_cert : option string;
  f_rpc_tls_key : option string;
  f_rpc_cors_origins : list string;
  f_rpc_max_body_bytes : Z;
  f_rpc_timeout_secs : Z;
  f_rpc_max_concurrent_requests : Z;
  f_rpc_max_connections : Z;
  f_rpc_rate_limit_per_second : Z;
  f_rpc_rate_limit_burst : Z;
  f_bootstrap_peers : list string;
  f_peers : list string;
  f_peers_file : option string;
  f_dns_seeds : list string;
  f_gateway_url : option string;
  f_public_addr : option (OneOrMany string);
  f_gateway_heartbeat_secs : Z;
  f_nat_traversal : bool;
  f_nat_lease_secs : Z;
  f_grpc_addr : option string;
  f_shutdown_file : string;
  f_max_peers : Z;
  f_fast_sync : bool;
  f_min_relay_fee : option Z;
  f_market_fee : option Z;
  f_low_fee_expiry_secs : option Z;
  f_mempool_expiry_secs : option Z;
  f_wallet : option string;
  f_miner_address : option string;
  f_miner_secret_key : option string;
  f_miner_min_fee_rate : option Z;
  f_mine : bool;
  f_mine_interval_secs : Z;
  f_mine_attempts : Z
}.

(** ** Networks: the feature a binary is built with *)

Inductive Network := mainnet | testnet | devnet.
#[global] Instance network_eq_dec : EqDecision Network.
Proof. solve_decision. Defined.

Definition RPC_ADMIN_TOKEN_ENV : string := "PAQUS_RPC_ADMIN_TOKEN".
Definition NODE_RPC_LISTEN_ADDR_ENV : string := "PAQUS_NODE_RPC_LISTEN_ADDR".
Definition NODE_P2P_LISTEN_ADDR_ENV : string := "PAQUS_NODE_P2P_LISTEN_ADDR".
Definition PUBLIC_ADDR_ENV : string := "PAQUS_PUBLIC_ADDR".
Definition BOOTSTRAP_PEERS_ENV : string := "PAQUS_BOOTSTRAP_PEERS".
Definition BOOTSTRAP_PEER_IPV6 : string := "[2404:8000:1044:4d8:e5c4:5b9:93bc:656d]:5555".
Definition DEFAULT_MAX_PEERS : Z := 128.
Definition DEFAULT_GATEWAY_HEARTBEAT : Z := 60.
Definition default_rpc_max_body_bytes : Z := 2 * 1024 * 1024.
Definition default_rpc_timeout_secs : Z := 30.
Definition default_rpc_max_concurrent_requests : Z := 256.
Definition default_rpc_max_connections : Z := 128.
Definition default_rpc_rate_limit_per_second : Z := 50.
Definition default_rpc_rate_limit_burst : Z := 100.
Definition default_nat_lease_secs : Z := 3600.

(** What the code takes from std, serde_json, hex and paqus::crypto. *)
Class ConfigOps := {
  parse_socket : string -> Result string SocketAddr;
  show_socket : SocketAddr -> string;
  hex_decode : string -> option bytes;
  address_from_string : string -> option Address;
  SECRET_KEY_SIZE : Z;
  PUBLIC_KEY_SIZE : Z;
  derive_public_key : bytes -> bytes;
  dual_address_from_public_keys : bytes -> bytes -> Address;
  config_from_json : string -> Result string RunConfigFile;
  (** version, address, secret_key and auth_public_key of a wallet file *)
  wallet_from_json : string -> Result string (Z * string * string * string)
}.

Section config.
Context `{!ConfigOps} (feature : Network).
(** [fs::read] and [fs::read_to_string] *)
Context (read_file : string -> Result IoError string).

Definition current_network : string :=
  match feature with mainnet => "mainnet" | testnet => "testnet" | devnet => "devnet" end.
Definition BOOTSTRAP_PEERS : list string :=
  match feature with mainnet => [BOOTSTRAP_PEER_IPV6] | _ => [] end.
Definition DEFAULT_P2P_PORT : Z :=
  match feature with mainnet => 5555 | testnet => 15555 | devnet => 25555 end.
Definition DEFAULT_RPC_PORT : Z :=
  match feature with mainnet => 6666 | testnet => 16666 | devnet => 26666 end.
Definition data_dir : string := "./data/" +:+ current_network.
Definition DEFAULT_NODE_DB : string := data_dir.
Definition DEFAULT_CONFIG_FILE : string := data_dir +:+ "/node.json".
Definition DEFAULT_PEERS_FILE : string := data_dir +:+ "/peers.json".
Definition DEFAULT_SHUTDOWN_FILE : string := data_dir +:+ "/STOP".

Definition default_with (bootstrap : list SocketAddr) : RunConfig := {|
  network := current_network; db_path := DEFAULT_NODE_DB;
  listen_addrs := [{| ip := V6 (replicate 8 0); port := DEFAULT_P2P_PORT |}];
  rpc_addr := {| ip := V4 127 0 0 1; port := DEFAULT_RPC_PORT |};
  rpc_admin_addr := None; rpc_admin_token := None; rpc_tls_cert := None; rpc_tls_key := None;
  rpc_cors_origins := []; rpc_max_body_bytes := default_rpc_max_body_bytes;
  rpc_timeout := default_rpc_timeout_secs;
  rpc_max_concurrent_requests := default_rpc_max_concurrent_requests;
  rpc_max_connections := default_rpc_max_connections;
  rpc_rate_limit_per_second := default_rpc_rate_limit_per_second;
  rpc_rate_limit_burst := default_rpc_rate_limit_burst;
  bootstrap_peers := bootstrap; peers := []; peers_file := Some DEFAULT_PEERS_FILE;
  dns_seeds := []; gateway_url := None; public_addrs := [];
  gateway_heartbeat := DEFAULT_GATEWAY_HEARTBEAT; nat_traversal := false;
  nat_lease := default_nat_lease_secs; grpc_addr := None;
  shutdown_file := DEFAULT_SHUTDOWN_FILE; max_peers := DEFAULT_MAX_PEERS; fast_sync := false;
  min_relay_fee := params.DEFAULT_MIN_RELAY_FEE; market_fee := params.DEFAULT_MARKET_FEE;
  low_fee_expiry := params.LOW_FEE_EXPIRY_SECS; mempool_expiry := params.MEMPOOL_EXPIRY_SECS;
  miner_address := replicate 20 9; miner_secret_key := None; miner_min_fee_rate := None;
  mine := false; mine_interval := 1; mine_attempts := 1000000
|}.
(** The built-in peers must parse: [expect]. *)
Definition RunConfig_default : option RunConfig :=
  bootstrap ← mapM (fun peer => result_ok (parse_socket peer)) BOOTSTRAP_PEERS;
  Some (default_with bootstrap).
(** The file that [write_default] writes. *)
Definition RunConfigFile_default (c : RunConfig) : RunConfigFile := {|
  f_network := network c; f_db_path := db_path c;
  f_listen_addr := Many (map show_socket (listen_addrs c)); f_rpc_addr := show_socket (rpc_addr c);
  f_rpc_admin_addr := None; f_rpc_admin_token := None; f_rpc_tls_cert := None; f_rpc_tls_key := None;
  f_rpc_cors_origins := []; f_rpc_max_body_bytes := rpc_max_body_bytes c;
  f_rpc_timeout_secs := rpc_timeout c;
  f_rpc_max_concurrent_requests := rpc_max_concurrent_requests c;
  f_rpc_max_connections := rpc_max_connections c;
  f_rpc_rate_limit_per_second := rpc_rate_limit_per_second c;
  f_rpc_rate_limit_burst := rpc_rate_limit_burst c;
  f_bootstrap_peers := map show_socket (bootstrap_peers c); f_peers := map show_socket (peers c);
  f_peers_file := Some DEFAULT_PEERS_FILE; f_dns_seeds := dns_seeds c; f_gateway_url := None;
  f_public_addr := None; f_gateway_heartbeat_secs := gateway_heartbeat c;
  f_nat_traversal := nat_traversal c; f_nat_lease_secs := nat_lease c;
  f_grpc_addr := option_map show_socket (grpc_addr c); f_shutdown_file := shutdown_file c;
  f_max_peers := max_peers c; f_fast_sync := false; f_min_relay_fee := Some (min_relay_fee c);
  f_market_fee := Some (market_fee c); f_low_fee_expiry_secs := Some (low_fee_expiry c);
  f_mempool_expiry_secs := Some (mempool_expiry c); f_wallet := Some "wallet.json";
  f_miner_address := None; f_miner_secret_key := None;
  f_miner_min_fee_rate := miner_min_fee_rate c; f_mine := true;
  f_mine_interval_secs := mine_interval c; f_mine_attempts := mine_attempts c
|}.

(** ** Values: command/parse.rs *)

Definition secret_key (value : option string) : Result string bytes :=
  value ← ok_or value "missing secret key";
  raw ← ok_or (hex_decode value) "invalid secret key hex";
  if zlen raw =? SECRET_KEY_SIZE then Ok raw else Err "secret key has invalid length".
Definition address_string (value : string) : Result string Address :=
  ok_or (address_from_string value) "invalid Paqus address".
Definition address (value : option string) : Result string Address :=
  value ← ok_or value "missing address"; address_string value.
Definition hash_hex (value : string) : Result string Hash :=
  raw ← ok_or (hex_decode value) "invalid hash hex";
  if zlen raw =? Z.of_nat HASH_SIZE then Ok raw else Err "hash has invalid length".

Definition number (flag value : string) : Result string Z :=
  map_err (fun error => "invalid " +:+ flag +:+ ": " +:+ error) (parse_u64 value).
Definition socket (flag value : string) : Result string SocketAddr :=
  map_err (fun error => "invalid socket address for " +:+ flag +:+ ": " +:+ error) (parse_socket value).
Definition parse_sockets (label : string) (values : list string) : Result string (list SocketAddr) :=
  collect_result (fun value => map_err (fun error =>
    "invalid " +:+ label +:+ " `" +:+ value +:+ "` in config: " +:+ error) (parse_socket value)) values.
Definition optional_socket (label : string) (value : option string) : Result string (option SocketAddr) :=
  match value with
  | None => Ok None
  | Some value =>
      map_err (fun error => "invalid " +:+ label +:+ " in config: " +:+ error)
        (a ← parse_socket value; Ok (Some a))
  end.

Definition wallet_address (path : string) : Result string Address :=
  contents ← map_err (fun e => "failed to read mining wallet `" +:+ path +:+ "`: " +:+ io_text e) (read_file path);
  wallet ← map_err (fun e => "invalid plaintext mining wallet `" +:+ path +:+ "`: " +:+ e)
             (wallet_from_json contents);
  let '(version, wallet_addr, wallet_secret, wallet_auth) := wallet in
  if negb (version =? 1) then Err ("unsupported plaintext mining wallet `" +:+ path +:+ "`") else
  addr ← map_err (fun _ => "invalid address in mining wallet `" +:+ path +:+ "`") (address_string wallet_addr);
  key ← map_err (fun e => "invalid secret_key in mining wallet `" +:+ path +:+ "`: " +:+ e)
          (secret_key (Some wallet_secret));
  auth ← ok_or (hex_decode wallet_auth) ("invalid auth_public_key in mining wallet `" +:+ path +:+ "`");
  if negb (zlen auth =? PUBLIC_KEY_SIZE)
  then Err ("invalid auth_public_key in mining wallet `" +:+ path +:+ "`") else
  if negb (bool_decide (dual_address_from_public_keys (derive_public_key key) auth = addr))
  then Err ("mining wallet `" +:+ path +:+ "` address does not match secret_key") else
  Ok addr.

(** ** The configuration file *)

Definition load_file (path : string) : Result string (option RunConfigFile) :=
  match read_file path with
  | Err e =>
      if bool_decide (io_kind e = NotFound) then Ok None
      else Err ("failed to read config " +:+ path +:+ ": " +:+ io_text e)
  | Ok contents =>
      map_err (fun e => "failed to parse config " +:+ path +:+ ": " +:+ e)
        (f ← config_from_json contents; Ok (Some f))
  end.

Definition apply_file (c : RunConfig) (f : RunConfigFile) : Result string RunConfig :=
  listen ← parse_sockets "listen_addr" (into_vec (f_listen_addr f));
  rpc ← map_err (fun e => "invalid rpc_addr in config: " +:+ e) (parse_socket (f_rpc_addr f));
  admin ← optional_socket "rpc_admin_addr" (f_rpc_admin_addr f);
  bootstrap ← parse_sockets "bootstrap_peer" (f_bootstrap_peers f);
  static ← parse_sockets "peer" (f_peers f);
  public ← parse_sockets "public_addr" (match f_public_addr f with Some x => into_vec x | None => [] end);
  grpc ← optional_socket "grpc_addr" (f_grpc_addr f);
  miner ← match f_wallet f with Some path => wallet_address path | None => Ok (miner_address c) end;
  miner ← match f_miner_address f with Some value => address (Some value) | None => Ok miner end;
  key ← match f_miner_secret_key f with
        | Some value => k ← secret_key (Some value); Ok (Some k)
        | None => Ok (miner_secret_key c)
        end;
  Ok {|
    network := to_ascii_lowercase (f_network f); db_path := f_db_path f; listen_addrs := listen;
    rpc_addr := rpc; rpc_admin_addr := admin; rpc_admin_token := f_rpc_admin_token f;
    rpc_tls_cert := f_rpc_tls_cert f; rpc_tls_key := f_rpc_tls_key f;
    rpc_cors_origins := f_rpc_cors_origins f; rpc_max_body_bytes := f_rpc_max_body_bytes f;
    rpc_timeout := f_rpc_timeout_secs f;
    rpc_max_concurrent_requests := f_rpc_max_concurrent_requests f;
    rpc_max_connections := f_rpc_max_connections f;
    rpc_rate_limit_per_second := f_rpc_rate_limit_per_second f;
    rpc_rate_limit_burst := f_rpc_rate_limit_burst f;
    bootstrap_peers := bootstrap; peers := static; peers_file := f_peers_file f;
    dns_seeds := f_dns_seeds f; gateway_url := f_gateway_url f; public_addrs := public;
    gateway_heartbeat := Z.max (f_gateway_heartbeat_secs f) 1;
    nat_traversal := f_nat_traversal f; nat_lease := Z.max (f_nat_lease_secs f) 60;
    grpc_addr := grpc; shutdown_file := f_shutdown_file f; max_peers := Z.max (f_max_peers f) 1;
    fast_sync := f_fast_sync f; min_relay_fee := unwrap_or (min_relay_fee c) (f_min_relay_fee f);
    market_fee := unwrap_or (market_fee c) (f_market_fee f);
    low_fee_expiry := unwrap_or (low_fee_expiry c) (f_low_fee_expiry_secs f);
    mempool_expiry := unwrap_or (mempool_expiry c) (f_mempool_expiry_secs f);
    miner_address := miner; miner_secret_key := key; miner_min_fee_rate := f_miner_min_fee_rate f;
    mine := f_mine f; mine_interval := f_mine_interval_secs f; mine_attempts := f_mine_attempts f
  |}.

(** ** The environment *)

Definition parse_environment_sockets (name value : string) : Result string (list SocketAddr) :=
  match List.filter (fun v => negb (bool_decide (v = "")%string)) (map trim (split_commas value "")) with
  | [] => Err (name +:+ " must contain at least one socket address")
  | values => parse_sockets name values
  end.
(** [if let Ok(value) = std::env::var(name) { .. }] *)
Definition from_env (env : gmap string string) (name : string)
    (assign : string -> RunConfig -> Result string RunConfig) (c : RunConfig) : Result string RunConfig :=
  match env !! name with Some value => assign value c | None => Ok c end.
Definition env_sockets (name : string) (set : list SocketAddr -> RunConfig -> RunConfig)
    (value : string) (c : RunConfig) : Result string RunConfig :=
  addrs ← parse_environment_sockets name value; Ok (set addrs c).
Definition apply_environment (env : gmap string string) (c : RunConfig) : Result string RunConfig :=
  c ← from_env env NODE_RPC_LISTEN_ADDR_ENV (fun value c =>
        a ← map_err (fun e => "invalid " +:+ NODE_RPC_LISTEN_ADDR_ENV +:+ " `" +:+ value +:+ "`: " +:+ e)
              (parse_socket value);
        Ok (set_rpc_addr a c)) c;
  c ← from_env env NODE_P2P_LISTEN_ADDR_ENV (env_sockets NODE_P2P_LISTEN_ADDR_ENV set_listen_addrs) c;
  c ← from_env env PUBLIC_ADDR_ENV (env_sockets PUBLIC_ADDR_ENV set_public_addrs) c;
  from_env env BOOTSTRAP_PEERS_ENV (env_sockets BOOTSTRAP_PEERS_ENV set_bootstrap_peers) c.

(** ** The command line *)

Record ParseState := { ps_config : RunConfig; listen_overridden : bool; public_overridden : bool }.
Definition on_config (f : RunConfig -> RunConfig) (s : ParseState) : ParseState := {|
  ps_config := f (ps_config s); listen_overridden := listen_overridden s;
  public_overridden := public_overridden s |}.

(** An arm of the [match]: an option with a value, a switch, or a refusal. *)
Inductive Arm :=
| Takes (missing : string) (assign : string -> ParseState -> Result string ParseState)
| Switch (assign : RunConfig -> RunConfig)
| Refuse (error : string).

Definition missing_value (flag : string) : string := "missing value for " +:+ flag.
(** [required(..)?.clone()], [number(..)?] and [socket(..)?] assigned to a field *)
Definition text_option (flag : string) (set : string -> RunConfig -> RunConfig) : Arm :=
  Takes (missing_value flag) (fun value s => Ok (on_config (set value) s)).
Definition number_option (flag : string) (set : Z -> RunConfig -> RunConfig) : Arm :=
  Takes (missing_value flag) (fun value s => n ← number flag value; Ok (on_config (set n) s)).
Definition socket_option (flag : string) (set : SocketAddr -> RunConfig -> RunConfig) : Arm :=
  Takes (missing_value flag) (fun value s => a ← socket flag value; Ok (on_config (set a) s)).

Definition add_listen (value : string) (s : ParseState) : Result string ParseState :=
  a ← socket "--listen" value;
  let before := if listen_overridden s then listen_addrs (ps_config s) else [] in
  Ok {| ps_config := set_listen_addrs (before ++ [a]) (ps_config s); listen_overridden := true;
        public_overridden := public_overridden s |}.
Definition add_public (value : string) (s : ParseState) : Result string ParseState :=
  a ← socket "--public-addr" value;
  let before := if public_overridden s then public_addrs (ps_config s) else [] in
  Ok {| ps_config := set_public_addrs (before ++ [a]) (ps_config s);
        listen_overridden := listen_overridden s; public_overridden := true |}.

Definition network_arms : list (string * Arm) := [
  ("--network", text_option "--network" (fun v => set_network (to_ascii_lowercase v)));
  ("--config", Takes (missing_value "--config") (fun _ s => Ok s));
  ("--db", text_option "--db" set_db_path);
  ("--db-path", text_option "--db" set_db_path);
  ("--listen", Takes (missing_value "--listen") add_listen);
  ("--rpc-listen", socket_option "--rpc-listen" set_rpc_addr);
  ("--rpc-admin-listen", socket_option "--rpc-admin-listen" (fun a => set_rpc_admin_addr (Some a)));
  ("--rpc-admin-token", text_option "--rpc-admin-token" (fun v => set_rpc_admin_token (Some v)));
  ("--rpc-tls-cert", text_option "--rpc-tls-cert" (fun v => set_rpc_tls_cert (Some v)));
  ("--rpc-tls-key", text_option "--rpc-tls-key" (fun v => set_rpc_tls_key (Some v)));
  ("--rpc-cors-origin", text_option "--rpc-cors-origin"
     (fun v c => set_rpc_cors_origins (rpc_cors_origins c ++ [v]) c));
  ("--rpc-max-body-bytes", number_option "--rpc-max-body-bytes" set_rpc_max_body_bytes);
  ("--rpc-timeout-secs", number_option "--rpc-timeout-secs" set_rpc_timeout);
  ("--rpc-max-concurrent-requests", number_option "--rpc-max-concurrent-requests" set_rpc_max_concurrent_requests);
  ("--rpc-max-connections", number_option "--rpc-max-connections" set_rpc_max_connections);
  ("--rpc-rate-limit-per-second", number_option "--rpc-rate-limit-per-second" set_rpc_rate_limit_per_second);
  ("--rpc-rate-limit-burst", number_option "--rpc-rate-limit-burst" set_rpc_rate_limit_burst);
  ("--peer", socket_option "--peer" (fun a c => set_peers (peers c ++ [a]) c));
  ("--peers-file", text_option "--peers-file" (fun v => set_peers_file (Some v)));
  ("--dns-seed", text_option "--dns-seed" (fun v c => set_dns_seeds (dns_seeds c ++ [v]) c));
  ("--gateway", text_option "--gateway" (fun v => set_gateway_url (Some v)));
  ("--gateway-url", text_option "--gateway" (fun v => set_gateway_url (Some v)));
  ("--public-addr", Takes (missing_value "--public-addr") add_public);
  ("--gateway-heartbeat-secs", number_option "--gateway-heartbeat-secs"
     (fun n => set_gateway_heartbeat (Z.max n 1)));
  ("--nat-traversal", Switch (set_nat_traversal true));
  ("--nat-lease-secs", number_option "--nat-lease-secs" (fun n => set_nat_lease (Z.max n 60)));
  ("--grpc-listen", socket_option "--grpc-listen" (fun a => set_grpc_addr (Some a)));
  ("--shutdown-file", text_option "--shutdown-file" set_shutdown_file);
  ("--max-peers", number_option "--max-peers" (fun n => set_max_peers (Z.max n 1)));
  ("--fast-sync", Switch (set_fast_sync true))
].
Definition mining_arms : list (string * Arm) := [
  ("--min-relay-fee", number_option "--min-relay-fee" set_min_relay_fee);
  ("--market-fee", number_option "--market-fee" set_market_fee);
  ("--low-fee-expiry-secs", number_option "--low-fee-expiry-secs" set_low_fee_expiry);
  ("--mempool-expiry-secs", number_option "--mempool-expiry-secs" set_mempool_expiry);
  ("--miner", Takes "missing address" (fun v s =>
     a ← address (Some v); Ok (on_config (set_miner_address a) s)));
  ("--wallet", Takes (missing_value "--wallet") (fun v s =>
     a ← wallet_address v; Ok (on_config (set_miner_address a) s)));
  ("--miner-secret-key", Takes "missing secret key" (fun v s =>
     k ← secret_key (Some v); Ok (on_config (set_miner_secret_key (Some k)) s)));
  ("--miner-min-fee-rate", number_option "--miner-min-fee-rate" (fun n => set_miner_min_fee_rate (Some n)));
  ("--premine", Refuse "premine address is fixed by protocol and cannot be overridden");
  ("--mine", Switch (set_mine true));
  ("--mine-interval-secs", number_option "--mine-interval-secs" set_mine_interval);
  ("--mine-attempts", number_option "--mine-attempts" set_mine_attempts)
].
Definition arms : list (string * Arm) := network_arms ++ mining_arms.
Fixpoint find_arm (flag : string) (l : list (string * Arm)) : option Arm :=
  match l with
  | [] => None
  | (name, arm) :: l => if bool_decide (name = flag) then Some arm else find_arm flag l
  end.

(** The [while index < args.len()]. *)
Fixpoint parse_args (args : list string) (s : ParseState) : Result string ParseState :=
  match args with
  | [] => Ok s
  | arg :: rest =>
      match find_arm arg arms with
      | Some (Takes missing assign) =>
          match rest with
          | [] => Err missing
          | value :: rest => s ← assign value s; parse_args rest s
          end
      | Some (Switch assign) => parse_args rest (on_config assign s)
      | Some (Refuse error) => Err error
      | None =>
          if negb (starts_with_dash arg) && bool_decide (db_path (ps_config s) = DEFAULT_NODE_DB)
          then parse_args rest (on_config (set_db_path arg) s)
          else Err ("unknown node run option `" +:+ arg +:+ "`")
      end
  end.

(** [args.windows(2).find_map(..)] *)
Fixpoint config_path_arg (args : list string) : option string :=
  match args with
  | a :: ((b :: _) as rest) => if bool_decide (a = "--config") then Some b else config_path_arg rest
  | _ => None
  end.

Definition normalize (c : RunConfig) : RunConfig :=
  let c := set_market_fee (Z.max (market_fee c) (min_relay_fee c)) c in
  let c := if negb (mempool_expiry c =? 0) && (mempool_expiry c <? low_fee_expiry c)
           then set_low_fee_expiry (mempool_expiry c) c else c in
  let c := set_rpc_max_body_bytes (Z.max (rpc_max_body_bytes c) 1) c in
  let c := set_rpc_timeout (Z.max (rpc_timeout c) 1) c in
  let c := set_rpc_max_concurrent_requests (Z.max (rpc_max_concurrent_requests c) 1) c in
  let c := set_rpc_max_connections (Z.max (rpc_max_connections c) 1) c in
  let c := set_rpc_rate_limit_per_second (Z.max (rpc_rate_limit_per_second c) 1) c in
  set_rpc_rate_limit_burst (Z.max (rpc_rate_limit_burst c) (rpc_rate_limit_per_second c)) c.

Definition validate_network (n : string) : Result string unit :=
  if bool_decide (n ∈ ["mainnet"; "testnet"; "devnet"]) then
    if bool_decide (n = current_network) then Ok tt else
    Err ("this binary is built for " +:+ current_network
         +:+ "; rebuild with `--no-default-features --features " +:+ n +:+ ",sqisign-blockchain-test`")
  else Err ("invalid network `" +:+ n +:+ "`; expected devnet, testnet, or mainnet").

(** [addrs.retain(|addr| seen.insert( *addr))] *)
Definition dedupe (addrs : list SocketAddr) : list SocketAddr := retain_new ∅ addrs.

(** The admin token of the environment, which is removed from it. *)
Definition take_token (c : RunConfig) : ST (gmap string string) string RunConfig :=
  env ← st_get;
  match rpc_admin_token c, env !! RPC_ADMIN_TOKEN_ENV with
  | None, Some token =>
      st_put (delete RPC_ADMIN_TOKEN_ENV env) ;; mret (set_rpc_admin_token (Some token) c)
  | _, _ => mret c
  end.

(** What follows the command line. *)
Definition finish (c : RunConfig) : ST (gmap string string) string RunConfig :=
  let c := set_listen_addrs (dedupe (listen_addrs c)) c in
  let c := set_public_addrs (dedupe (public_addrs c)) c in
  c ← take_token c;
  let c := normalize c in
  st_lift (validate_network (network c)) ;;
  mret c.

Definition parse (args : list string) : ST (gmap string string) string RunConfig :=
  let args := map trim args in
  c ← st_lift (ok_or RunConfig_default "built-in bootstrap peer must be a socket address");
  file ← st_lift (load_file (unwrap_or DEFAULT_CONFIG_FILE (config_path_arg args)));
  c ← st_lift (match file with Some f => apply_file c f | None => Ok c end);
  env ← st_get;
  c ← st_lift (apply_environment env c);
  s ← st_lift (parse_args args {| ps_config := c; listen_overridden := false; public_overridden := false |});
  finish (ps_config s).

(** ** RPC security: main.rs *)

Definition validate_rpc_security (c : RunConfig) : Result string unit :=
  let has_cert := match rpc_tls_cert c with Some _ => true | None => false end in
  let has_key := match rpc_tls_key c with Some _ => true | None => false end in
  if negb (Bool.eqb has_cert has_key)
  then Err "RPC TLS requires both --rpc-tls-cert and --rpc-tls-key" else
  if negb (is_loopback (ip (rpc_addr c))) && negb has_cert
  then Err ("public RPC listener " +:+ show_socket (rpc_addr c) +:+ " is non-loopback and requires TLS") else
  match rpc_admin_addr c with
  | None => Ok tt
  | Some admin_addr =>
      token ← ok_or (rpc_admin_token c) "RPC admin listener requires --rpc-admin-token";
      if Z.of_nat (String.length token) <? 32
      then Err "RPC admin token must contain at least 32 characters" else
      if negb (is_loopback (ip admin_addr)) && negb has_cert
      then Err ("admin RPC listener " +:+ show_socket admin_addr +:+ " is non-loopback and requires TLS") else
      Ok tt
  end.
End config.
