(* ===== verification/ConfigSpec.v ===== *)
(** What the configuration promises: it is well formed however it was put together, options apply
    in order over the environment and the file, the default file reads back as the defaults, and
    the RPC check admits exactly the safe listeners. *)
From Stdlib Require Import ZArith Lia Ascii.
From stdpp Require Import base numbers option strings list gmap.
From S2P Require Import Prelude PaqusCore Net Gossip Config.
Open Scope Z_scope.

Section config_spec.
Context `{!ConfigOps} (feature : Network) (read_file : string -> Result IoError string).
Implicit Types (c : RunConfig) (s : ParseState) (env : gmap string string).

(** ** Well-formed configurations *)

(** What every stage keeps. *)
Record stage_wf c : Prop := {
  stage_peers : 1 <= max_peers c;
  stage_heartbeat : 1 <= gateway_heartbeat c;
  stage_lease : 60 <= nat_lease c
}.
(** What the node relies on. *)
Record config_wf c : Prop := {
  wf_stage : stage_wf c;
  wf_network : network c = current_network feature;
  wf_fees : min_relay_fee c <= market_fee c;
  wf_expiry : mempool_expiry c = 0 \/ low_fee_expiry c <= mempool_expiry c;
  wf_body : 1 <= rpc_max_body_bytes c;
  wf_timeout : 1 <= rpc_timeout c;
  wf_requests : 1 <= rpc_max_concurrent_requests c;
  wf_connections : 1 <= rpc_max_connections c;
  wf_rate : 1 <= rpc_rate_limit_per_second c <= rpc_rate_limit_burst c;
  wf_listen : NoDup (listen_addrs c);
  wf_public : NoDup (public_addrs c)
}.

(** An arm keeps [P] when what it assigns does. *)
Definition arm_keeps (P : RunConfig -> Prop) (a : Arm) : Prop :=
  match a with
  | Takes _ assign => forall value s s', assign value s = Ok s' -> P (ps_config s) -> P (ps_config s')
  | Switch assign => forall c, P c -> P (assign c)
  | Refuse _ => True
  end.
Lemma find_arm_keeps P flag l arm :
  Forall (fun x => arm_keeps P x.2) l -> find_arm flag l = Some arm -> arm_keeps P arm.
Proof.
  induction 1 as [|[name a] l Ha Hl IH]; cbn; [done|]. case_bool_decide; [by intros [= <-]|done].
Qed.
Lemma parse_args_keeps P args s s' :
  Forall (fun x => arm_keeps P x.2) (arms read_file) -> (forall v c, P c -> P (set_db_path v c)) ->
  parse_args feature read_file args s = Ok s' -> P (ps_config s) -> P (ps_config s').
Proof.
  intros Harms Hdb. revert s. induction args as [args IH] using (induction_ltof1 _ length).
  unfold ltof in IH. intros s Hp Hs. destruct args as [|arg rest]; cbn [parse_args] in Hp.
  { by injection Hp as <-. }
  destruct (find_arm arg (arms read_file)) as [[missing assign|assign|error]|] eqn:Ef;
    try (pose proof (find_arm_keeps P _ _ _ Harms Ef) as Hk; cbn in Hk).
  - destruct rest as [|value rest]; [done|]. apply bind_Ok in Hp as (s1 & E1 & Hp).
    eapply (IH rest); [cbn; lia|exact Hp|]. by eapply Hk.
  - eapply (IH rest); [cbn; lia|exact Hp|]. by apply Hk.
  - done.
  - destruct (_ && _); [|done]. eapply (IH rest); [cbn; lia|exact Hp|]. by apply Hdb.
Qed.

Ltac arm_cases tac := repeat first [apply Forall_nil_2 | apply Forall_cons_2]; cbn; try done;
  unfold text_option, number_option, socket_option, add_listen, add_public; cbn;
  intros; repeat match goal with
    | H : _ ≫= _ = Ok _ |- _ => apply bind_Ok in H as (? & ? & H)
    | H : Ok _ = Ok _ |- _ => injection H as <-
    end; tac.
Lemma arms_stage_wf : Forall (fun x => arm_keeps stage_wf x.2) (arms read_file).
Proof.
  unfold arms, network_arms, mining_arms. cbn [app]. arm_cases ltac:(match goal with H : stage_wf _ |- _ => destruct H end; split; cbn; lia).
Qed.
Lemma default_stage_wf c : RunConfig_default feature = Some c -> stage_wf c.
Proof.
  unfold RunConfig_default. destruct (mapM _ _); [|done]. intros [= <-].
  split; cbn; unfold DEFAULT_MAX_PEERS, DEFAULT_GATEWAY_HEARTBEAT, default_nat_lease_secs; lia.
Qed.
Lemma file_stage_wf c f c' : apply_file read_file c f = Ok c' -> stage_wf c'.
Proof.
  unfold apply_file. intros Hf.
  repeat match type of Hf with _ ≫= _ = Ok _ => apply bind_Ok in Hf as (? & _ & Hf) end.
  injection Hf as <-. split; cbn; lia.
Qed.
Lemma from_env_keeps (P : RunConfig -> Prop) env name assign c c' :
  (forall value, assign value c = Ok c' -> P c -> P c') -> from_env env name assign c = Ok c' -> P c -> P c'.
Proof. unfold from_env. destruct (env !! name); [by eauto|]. by intros _ [= <-]. Qed.
Lemma environment_stage_wf env c c' : apply_environment env c = Ok c' -> stage_wf c -> stage_wf c'.
Proof.
  unfold apply_environment. intros He Hc.
  apply bind_Ok in He as (c1 & E1 & He). apply bind_Ok in He as (c2 & E2 & He).
  apply bind_Ok in He as (c3 & E3 & He).
  eapply from_env_keeps; [|exact He|eapply from_env_keeps; [|exact E3|eapply from_env_keeps;
    [|exact E2|eapply from_env_keeps; [|exact E1|exact Hc]]]].
  all: intros value E []; unfold env_sockets in E; apply bind_Ok in E as (a & _ & E); injection E as <-;
    by split.
Qed.

(** The stages of [parse] before the last touches. *)
Lemma parse_stages args env c env' :
  parse feature read_file args env = (Ok c, env') ->
  exists s c1 env1, stage_wf (ps_config s) /\
    take_token (set_public_addrs (dedupe (public_addrs (ps_config s)))
      (set_listen_addrs (dedupe (listen_addrs (ps_config s))) (ps_config s))) env = (Ok c1, env1) /\
    c = normalize c1 /\ validate_network feature (network c) = Ok tt /\ env' = env1.
Proof.
  unfold parse. intros Hp.
  destruct (RunConfig_default feature) as [c0|] eqn:E0; cbn [ok_or] in Hp; st_simpl_in Hp; [|done].
  destruct (load_file _ _) as [file|] eqn:Efile; st_simpl_in Hp; [|done].
  destruct (match file with Some f => apply_file read_file c0 f | None => Ok c0 end) as [c1|] eqn:E1;
    st_simpl_in Hp; [|done].
  destruct (apply_environment env c1) as [c2|] eqn:E2; st_simpl_in Hp; [|done].
  destruct (parse_args _ _ _ _) as [s|] eqn:E3; st_simpl_in Hp; [|done]. unfold finish in Hp.
  apply st_bind_inv in Hp as [(? & _ & ?)|(c3 & env1 & E4 & Hp)]; [done|].
  destruct (validate_network feature (network (normalize c3))) as [[]|] eqn:E5; st_simpl_in Hp; [|done].
  injection Hp as <- <-. exists s, c3, env1. split_and!; [|exact E4|done|done|done].
  eapply parse_args_keeps; [apply arms_stage_wf| |exact E3|]; [intros v c [???]; by split|].
  eapply environment_stage_wf; [exact E2|]. destruct file as [f|]; [by eapply file_stage_wf|].
  injection E1 as <-. by apply default_stage_wf.
Qed.
Lemma take_token_fields c env c1 env1 :
  take_token c env = (Ok c1, env1) -> exists token, c1 = set_rpc_admin_token token c.
Proof.
  unfold take_token. st_simpl. destruct (rpc_admin_token c) as [t|] eqn:Et.
  - intros [= <- <-]. exists (Some t). destruct c. cbn in *. by subst.
  - destruct (env !! RPC_ADMIN_TOKEN_ENV) as [t|]; [intros [= <- <-]; by exists (Some t)|].
    intros [= <- <-]. exists None. destruct c. cbn in *. by subst.
Qed.
Lemma normalize_wf c :
  stage_wf c -> NoDup (listen_addrs c) -> NoDup (public_addrs c) ->
  network c = current_network feature -> config_wf (normalize c).
Proof.
  intros [Hp Hh Hl] Hnl Hnp Hnet. unfold normalize. cbn.
  destruct (Z.eqb_spec (mempool_expiry c) 0), (Z.ltb_spec (mempool_expiry c) (low_fee_expiry c));
    (repeat split; cbn; [lia..|done|lia|lia|lia|lia|lia|lia|lia|lia|done|done]).
Qed.

Lemma normalize_network c : network (normalize c) = network c.
Proof. unfold normalize. cbn. by destruct (_ && _). Qed.
Lemma validate_network_current n : validate_network feature n = Ok tt <-> n = current_network feature.
Proof.
  unfold validate_network. split; [intros E; repeat (case_bool_decide; try done)|intros ->].
  rewrite bool_decide_true; [by rewrite bool_decide_true|]. destruct feature; cbn; set_solver.
Qed.

(** C32: every configuration the parser returns is well formed, whatever the file, the environment
    and the command line say: it is for the network the binary was built for, the market fee is
    at least the relay fee, cheap transactions expire no later than others, every limit is
    positive, bursts are at least the rate, and no listen or public address is repeated. *)
Theorem parse_well_formed args env c env' :
  parse feature read_file args env = (Ok c, env') -> config_wf c.
Proof.
  intros Hp. apply parse_stages in Hp as (s & c1 & env1 & [Hp Hh Hl] & Et & -> & Hnet & _).
  apply take_token_fields in Et as (token & ->). apply normalize_wf; cbn; try done.
  - apply retain_new_spec.
  - apply retain_new_spec.
  - apply validate_network_current in Hnet. by rewrite normalize_network in Hnet.
Qed.

(** ** Options apply in order *)

Lemma parse_args_app args more s s1 :
  parse_args feature read_file args s = Ok s1 ->
  parse_args feature read_file (args ++ more) s = parse_args feature read_file more s1.
Proof.
  revert s. induction args as [args IH] using (induction_ltof1 _ length). unfold ltof in IH.
  intros s Hp. destruct args as [|arg rest]; cbn [parse_args app] in *; [by injection Hp as <-|].
  destruct (find_arm arg (arms read_file)) as [[missing assign|assign|error]|].
  - destruct rest as [|value rest]; [done|]. apply bind_Ok in Hp as (s2 & E & Hp). cbn [app].
    rewrite E. cbn. apply IH; [cbn; lia|done].
  - apply IH; [cbn; lia|done].
  - done.
  - destruct (_ && _); [|done]. apply IH; [cbn; lia|done].
Qed.
Lemma config_path_cons a b args :
  config_path_arg (a :: b :: args) = if bool_decide (a = "--config") then Some b else config_path_arg (b :: args).
Proof. done. Qed.
Lemma config_path_app args flag value :
  last args <> Some "--config" -> flag <> "--config" ->
  config_path_arg (args ++ [flag; value]) = config_path_arg args.
Proof.
  intros Hlast Hflag. induction args as [|a args IH]; [cbn; by rewrite bool_decide_false|].
  destruct args as [|b args].
  - cbn in *. rewrite !bool_decide_false by congruence. done.
  - cbn [app] in *. rewrite !config_path_cons. case_bool_decide; [done|]. by apply IH.
Qed.

(** The steps after the command line do not look at the RPC address. *)
Lemma normalize_rpc_addr a c : normalize (set_rpc_addr a c) = set_rpc_addr a (normalize c).
Proof. unfold normalize. cbn. by destruct (_ && _). Qed.
Lemma network_rpc_addr a c : network (set_rpc_addr a c) = network c.
Proof. done. Qed.
Lemma take_token_rpc_addr a c env c1 env1 :
  take_token c env = (Ok c1, env1) -> take_token (set_rpc_addr a c) env = (Ok (set_rpc_addr a c1), env1).
Proof.
  unfold take_token. st_simpl. cbn [rpc_admin_token set_rpc_addr].
  destruct (rpc_admin_token c), (env !! RPC_ADMIN_TOKEN_ENV); by intros [= <- <-].
Qed.

(** an option on the command line overrides what the file, the environment and every earlier
    option said about its field, and nothing else: appending an RPC listen address to a
    command line that parses changes the RPC address of the result and no other field. *)
Theorem last_option_wins args env c env' value a :
  parse feature read_file args env = (Ok c, env') ->
  last (map trim args) <> Some "--config" -> parse_socket (trim value) = Ok a ->
  parse feature read_file (args ++ ["--rpc-listen"; value]) env = (Ok (set_rpc_addr a c), env').
Proof.
  intros Hp Hlast Ha. unfold parse in *. rewrite map_app.
  change (map trim ["--rpc-listen"; value]) with (["--rpc-listen"; trim value]).
  rewrite config_path_app by done.
  destruct (ok_or (RunConfig_default feature) _) as [c0|]; st_simpl; st_simpl_in Hp; [|done].
  destruct (load_file _ _) as [file|]; st_simpl; st_simpl_in Hp; [|done].
  destruct (match file with Some f => apply_file read_file c0 f | None => Ok c0 end) as [c1|];
    st_simpl; st_simpl_in Hp; [|done].
  destruct (apply_environment env c1) as [c2|]; st_simpl; st_simpl_in Hp; [|done].
  destruct (parse_args _ _ (map trim args) _) as [s|] eqn:E3; st_simpl_in Hp; [|done].
  rewrite (parse_args_app _ _ _ _ E3). cbn [parse_args].
  change (find_arm "--rpc-listen" (arms read_file)) with (Some (socket_option "--rpc-listen" set_rpc_addr)).
  unfold socket_option, socket. rewrite Ha. cbn [map_err mbind result_bind]. st_simpl.
  unfold finish in *. apply st_bind_inv in Hp as [(? & _ & ?)|(c3 & env1 & E4 & Hp)]; [done|].
  apply (take_token_rpc_addr a) in E4. rewrite (st_bind_ok _ _ _ _ _ E4), normalize_rpc_addr.
  rewrite network_rpc_addr. destruct (validate_network feature _) as [[]|]; st_simpl; st_simpl_in Hp; [|done].
  by injection Hp as <- <-.
Qed.

(** ** The default file *)

(** Addresses read back as they are shown. *)
Class SocketLaws : Prop := parse_show_socket : forall a, parse_socket (show_socket a) = Ok a.
Lemma parse_sockets_show `{!SocketLaws} label l : parse_sockets label (map show_socket l) = Ok l.
Proof.
  unfold parse_sockets. induction l as [|a l IH]; [done|]. cbn. rewrite parse_show_socket. cbn. by rewrite IH.
Qed.

(** the configuration file the node writes for a new user reads back as the built-in
    defaults, except that it mines, to the address of the wallet it names. *)
Theorem default_file_roundtrip `{!SocketLaws} c a :
  RunConfig_default feature = Some c -> wallet_address read_file "wallet.json" = Ok a ->
  apply_file read_file c (RunConfigFile_default feature c) = Ok (set_mine true (set_miner_address a c)).
Proof.
  unfold RunConfig_default. destruct (mapM _ _) as [bootstrap|]; [|done]. intros [= <-] Ha.
  assert (Hlow : to_ascii_lowercase (current_network feature) = current_network feature)
    by (by destruct feature).
  unfold apply_file, RunConfigFile_default. cbn -[parse_sockets map wallet_address to_ascii_lowercase current_network].
  rewrite (parse_sockets_show "listen_addr"), parse_show_socket. cbn -[parse_sockets map wallet_address to_ascii_lowercase current_network].
  rewrite !parse_sockets_show, Ha, Hlow.
  change (parse_sockets "peer" (map show_socket [])) with (Ok (E := string) (@nil SocketAddr)).
  change (parse_sockets "public_addr" []) with (Ok (E := string) (@nil SocketAddr)). done.
Qed.

(** ** RPC listeners *)

End config_spec.

Section security.
Context `{!ConfigOps}.

(** The check admits exactly the safe RPC listeners: a certificate comes with its key; an
    address that is not loopback has TLS; an administration listener has a token of at least 32
    characters, and TLS too unless it is loopback. *)
Lemma validate_rpc_security_Ok c :
  validate_rpc_security c = Ok tt <->
  (is_Some (rpc_tls_cert c) <-> is_Some (rpc_tls_key c)) /\
  (is_loopback (ip (rpc_addr c)) = true \/ is_Some (rpc_tls_cert c)) /\
  forall admin, rpc_admin_addr c = Some admin ->
    (exists token, rpc_admin_token c = Some token /\ 32 <= Z.of_nat (String.length token)) /\
    (is_loopback (ip admin) = true \/ is_Some (rpc_tls_cert c)).
Proof.
  unfold validate_rpc_security, is_Some.
  assert (Hadmin : forall tls : bool,
    match rpc_admin_addr c with
    | None => Ok tt
    | Some admin =>
        token ← ok_or (rpc_admin_token c) "RPC admin listener requires --rpc-admin-token";
        if Z.of_nat (String.length token) <? 32
        then Err "RPC admin token must contain at least 32 characters" else
        if negb (is_loopback (ip admin)) && negb tls
        then Err ("admin RPC listener " +:+ show_socket admin +:+ " is non-loopback and requires TLS") else Ok tt
    end = Ok tt <->
    forall admin, rpc_admin_addr c = Some admin ->
      (exists token, rpc_admin_token c = Some token /\ 32 <= Z.of_nat (String.length token)) /\
      (is_loopback (ip admin) = true \/ tls = true)).
  { intros tls. destruct (rpc_admin_addr c) as [admin|]; [|naive_solver].
    destruct (rpc_admin_token c) as [token|]; cbn [ok_or mbind result_bind]; [|naive_solver].
    destruct (Z.ltb_spec (Z.of_nat (String.length token)) 32) as [Hshort|Hlong].
    { split; [done|]. intros Hall. destruct (Hall admin eq_refl) as [(t & [= <-] & ?) _]. lia. }
    destruct (is_loopback (ip admin)) eqn:El, tls; cbn [negb andb]; (split;
      [intros E admin' [= <-]; rewrite ?El; split; [by exists token|by auto]|intros Hall; try done]).
    destruct (Hall admin eq_refl) as [_ [?|?]]; congruence. }
  destruct (rpc_tls_cert c) as [cert|], (rpc_tls_key c) as [key|]; cbn [Bool.eqb negb].
  2:{ split; [done|]. intros ([Hk _] & _). destruct Hk as [? ?]; [by eexists|done]. }
  2:{ split; [done|]. intros ([_ Hk] & _). destruct Hk as [? ?]; [by eexists|done]. }
  - rewrite andb_false_r, (Hadmin true). split; [|naive_solver]. intros Hall. split; [naive_solver|].
    split; [right; by eexists|]. intros admin E. destruct (Hall admin E) as [? _]. split; [done|right; by eexists].
  - specialize (Hadmin false). cbn [negb] in Hadmin.
    destruct (is_loopback (ip (rpc_addr c))); cbn [negb andb].
    + rewrite Hadmin. split; [|naive_solver]. intros Hall. split; [naive_solver|]. split; [by left|].
      intros admin E. destruct (Hall admin E) as [? [?|?]]; [split; [done|by left]|done].
    + split; [done|]. intros (_ & [?|[? ?]] & _); done.
Qed.
End security.

Module ConfigExamples.
(** Addresses as binary numbers. *)
Fixpoint show_bits (p : positive) : string :=
  match p with
  | xH => ""
  | xO p => String.String "0" (show_bits p)
  | xI p => String.String "1" (show_bits p)
  end.
Fixpoint parse_bits (s : string) : option positive :=
  match s with
  | EmptyString => Some xH
  | String.String c s =>
      p ← parse_bits s;
      if bool_decide (c = "0"%char) then Some (xO p) else
      if bool_decide (c = "1"%char) then Some (xI p) else None
  end.
Lemma parse_show_bits p : parse_bits (show_bits p) = Some p.
Proof. induction p as [p IH|p IH|]; cbn; [rewrite IH; reflexivity..|reflexivity]. Qed.
#[global] Instance toy_config_ops : ConfigOps := {
  parse_socket s :=
    match parse_bits s ≫= decode with Some a => Ok a | None => Err "invalid socket address syntax" end;
  show_socket a := show_bits (encode a);
  hex_decode s := if bool_decide (s = "")%string then None else Some [5];
  address_from_string s := Some (ascii_bytes s);
  SECRET_KEY_SIZE := 1;
  PUBLIC_KEY_SIZE := 1;
  derive_public_key k := k;
  dual_address_from_public_keys _ _ := ascii_bytes "mine";
  config_from_json _ := Err "expected value";
  wallet_from_json _ := Ok (1, "mine", "05", "05")
}.
#[global] Instance toy_socket_laws : SocketLaws.
Proof. intros a. cbn. by rewrite parse_show_bits; cbn; rewrite decode_encode. Qed.

(** Only the wallet file exists. *)
Definition disk (path : string) : Result IoError string :=
  if bool_decide (path = "wallet.json") then Ok "{}" else Err {| io_kind := NotFound; io_text := "" |}.
Definition near : SocketAddr := {| ip := V4 127 0 0 1; port := 7000 |}.
Definition far_addr : SocketAddr := {| ip := V4 10 0 0 1; port := 7001 |}.
Definition vars : gmap string string :=
  {[RPC_ADMIN_TOKEN_ENV := "0123456789abcdef0123456789abcdef"; PUBLIC_ADDR_ENV := " ," +:+ show_socket far_addr]}.
Definition line : list string :=
  ["--listen"; show_socket near; " --listen "; show_socket near; "--max-peers"; "0";
   "--min-relay-fee"; "+12"; "--rpc-admin-listen"; show_socket near; "--mine"; "node.db"].
Definition parsed := parse testnet disk line vars.
Definition parsed_config : option RunConfig := result_ok parsed.1.

Lemma parsed_fields :
  option_map (fun c => (listen_addrs c, public_addrs c, max_peers c, market_fee c, db_path c)) parsed_config =
    Some ([near], [far_addr], 1, 12, "node.db").
Proof. vm_compute. reflexivity. Qed.
Lemma token_taken : parsed.2 !! RPC_ADMIN_TOKEN_ENV = None.
Proof. vm_compute. reflexivity. Qed.

Lemma parses : is_ok parsed.1 = true.
Proof. vm_compute. reflexivity. Qed.
Lemma parse_well_formed_witness : exists c env', parsed = (Ok c, env') /\ config_wf testnet c.
Proof.
  pose proof parses as Hok. destruct parsed as [[c|e] env'] eqn:E; [|discriminate Hok].
  exists c, env'. split; [reflexivity|]. exact (parse_well_formed testnet disk line vars c env' E).
Defined.

Lemma last_option_wins_witness : exists c env',
  parse testnet disk line vars = (Ok c, env') /\
  parse testnet disk (line ++ ["--rpc-listen"; show_socket far_addr]) vars = (Ok (set_rpc_addr far_addr c), env').
Proof.
  pose proof parses as Hok. unfold parsed in Hok.
  destruct (parse testnet disk line vars) as [[c|e] env'] eqn:E; [|discriminate Hok].
  exists c, env'. split; [reflexivity|].
  refine (last_option_wins testnet disk line vars c env' (show_socket far_addr) far_addr E _ _).
  - vm_compute. discriminate.
  - vm_compute. reflexivity.
Defined.

Lemma default_file_roundtrip_witness : exists c,
  RunConfig_default testnet = Some c /\
  apply_file disk c (RunConfigFile_default testnet c) = Ok (set_mine true (set_miner_address (ascii_bytes "mine") c)).
Proof.
  eexists. split; [reflexivity|].
  refine (default_file_roundtrip testnet disk _ (ascii_bytes "mine") eq_refl _). vm_compute. reflexivity.
Defined.
End ConfigExamples.
