(* ===== verification/PeerFile.v ===== *)
(** The peer file: [load_peers_file] and [save_peer_states_file] of p2p/mod.rs.

    The file is either the JSON the node writes or a list of addresses, one per line, with
    comments. JSON is serde_json's: class [PeerCacheJson], whose laws are what the node relies on.
    [SystemTime] is in milliseconds after the epoch, negative before it. Text is ASCII. *)
From Stdlib Require Import ZArith Lia Ascii.
From stdpp Require Import base numbers option strings list pretty.
From S2P Require Import Prelude PaqusCore Net Peer Config ConfigSpec.
Open Scope Z_scope.

Record CachedPeer := {
  cached_address : string;
  cached_score : Z;
  cached_failures : Z;
  last_seen_unix : option Z;
  last_success_unix : option Z;
  latency_ms : option Z
}.
(** [serde_json] on [PeerCache], whose only field is the list *)
Class PeerCacheJson := {
  cache_to_json : list CachedPeer -> Result string string;
  cache_from_json : string -> Result string (list CachedPeer)
}.

(** [str::lines]: the pieces between line feeds, without a carriage return at their end; nothing
    after the last line feed is not a line. *)
Definition line_feed : ascii := ascii_of_N 10.
Definition carriage_return : ascii := ascii_of_N 13.
Fixpoint strip_cr (s : string) : string :=
  match s with
  | EmptyString => ""
  | String c EmptyString => if bool_decide (c = carriage_return) then "" else s
  | String c s => String c (strip_cr s)
  end.
Fixpoint lines_from (s line : string) : list string :=
  match s with
  | EmptyString => if bool_decide (line = "") then [] else [line]
  | String c s =>
      if bool_decide (c = line_feed) then strip_cr line :: lines_from s ""
      else lines_from s (line +:+ String c "")
  end.
Definition lines (s : string) : list string := lines_from s "".
(** [line.split('#').next()] *)
Fixpoint before_hash (s : string) : string :=
  match s with
  | EmptyString => ""
  | String c s => if bool_decide (c = "#"%char) then "" else String c (before_hash s)
  end.
Definition starts_with_brace (s : string) : bool :=
  match s with String c _ => bool_decide (c = "{"%char) | EmptyString => false end.

Section peer_file.
Context `{!ConfigOps} `{!PeerCacheJson}.

(** The loop over the lines; [index] counts them from zero. *)
Fixpoint parse_peer_lines (path : string) (index : Z) (ls : list string) : Result string (list SocketAddr) :=
  match ls with
  | [] => Ok []
  | l :: ls =>
      let l := trim (before_hash l) in
      if bool_decide (l = "") then parse_peer_lines path (index + 1) ls else
      peer ← map_err (fun error => "invalid peer in " +:+ path +:+ " line " +:+ pretty (index + 1) +:+ ": " +:+ error)
        (parse_socket l);
      rest ← parse_peer_lines path (index + 1) ls;
      Ok (peer :: rest)
  end.
Definition load_peers_file (read_file : string -> Result IoError string) (path : string)
    : Result string (list SocketAddr) :=
  match read_file path with
  | Err error =>
      if bool_decide (io_kind error = NotFound) then Ok []
      else Err ("failed to read peers file " +:+ path +:+ ": " +:+ io_text error)
  | Ok contents =>
      if starts_with_brace (trim_start contents) then
        cache ← map_err (fun error => "failed to parse peer cache " +:+ path +:+ ": " +:+ error) (cache_from_json contents);
        collect_result (fun peer => map_err (fun error =>
          "invalid peer `" +:+ cached_address peer +:+ "` in " +:+ path +:+ ": " +:+ error)
          (parse_socket (cached_address peer))) cache
      else parse_peer_lines path 0 (lines contents)
  end.

(** [time.duration_since(UNIX_EPOCH)]: none before the epoch *)
Definition unix_secs (time : option Z) : option Z :=
  time ≫= fun t => if t <? 0 then None else Some (t / 1000).
Definition cached_peer (p : PeerState) : CachedPeer := {|
  cached_address := show_socket (addr p);
  cached_score := score p;
  cached_failures := failures p;
  last_seen_unix := unix_secs (last_seen p);
  last_success_unix := unix_secs (last_success p);
  latency_ms := option_map (fun l => l mod 2 ^ 64) (latency p)
|}.
(** [nows] are the readings of [is_banned], one for each peer. *)
Definition unbanned (nows : nat -> Z) (ps : list PeerState) : list PeerState :=
  (filter (fun ip => is_banned (nows ip.1) ip.2 = false) (imap pair ps)).*2.
(** What [fs::write] is given. *)
Definition peer_states_json (path : string) (nows : nat -> Z) (ps : list PeerState) : Result string string :=
  map_err (fun error => "failed to encode peer cache " +:+ path +:+ ": " +:+ error)
    (cache_to_json (map cached_peer (unbanned nows ps))).
Definition save_peer_states_file (write_file : string -> string -> Result IoError unit) (path : string)
    (nows : nat -> Z) (ps : list PeerState) : Result string unit :=
  contents ← peer_states_json path nows ps;
  map_err (fun error => "failed to write peers file " +:+ path +:+ ": " +:+ io_text error) (write_file path contents).
End peer_file.

(** What serde_json promises: an object is printed from its brace on and reads back. *)
Class PeerCacheLaws `{!PeerCacheJson} : Prop := {
  cache_roundtrip cache contents : cache_to_json cache = Ok contents -> cache_from_json contents = Ok cache;
  cache_object cache contents : cache_to_json cache = Ok contents -> starts_with_brace contents = true
}.

Section peer_file_spec.
Context `{!ConfigOps} `{!PeerCacheJson} `{!SocketLaws} `{!PeerCacheLaws}.

Lemma brace_trimmed s : starts_with_brace s = true -> trim_start s = s.
Proof.
  destruct s as [|c s]; [done|]. unfold starts_with_brace. intros Hc%bool_decide_eq_true. by subst c.
Qed.
Lemma unbanned_spec nows ps p :
  p ∈ unbanned nows ps <-> exists i, ps !! i = Some p /\ is_banned (nows i) p = false.
Proof.
  unfold unbanned. rewrite list_elem_of_fmap. split.
  - intros ([i q] & -> & [Hb Hin]%list_elem_of_filter). cbn in *.
    apply list_elem_of_lookup in Hin as [j Hj]. rewrite list_lookup_imap in Hj.
    apply fmap_Some in Hj as (q' & Hq & [= -> ->]). eauto.
  - intros (i & Hi & Hb). exists (i, p). split; [done|]. apply list_elem_of_filter. split; [done|].
    apply list_elem_of_lookup. exists i. by rewrite list_lookup_imap, Hi.
Qed.
Lemma collect_addresses path ps :
  collect_result (fun peer => map_err (fun error =>
    "invalid peer `" +:+ cached_address peer +:+ "` in " +:+ path +:+ ": " +:+ error)
    (parse_socket (cached_address peer))) (map cached_peer ps) = Ok (map addr ps).
Proof.
  induction ps as [|p ps IH]; [done|]. cbn [map collect_result cached_peer cached_address].
  rewrite parse_show_socket. cbn [map_err]. unfold mbind, result_bind. by rewrite IH.
Qed.

(** The peers that are loaded after the table was saved are those that were not banned when they
    were written, in the order of the table, by address only: scores and failures are written
    and not read back. *)
Theorem peers_file_roundtrip path nows ps contents read_file :
  peer_states_json path nows ps = Ok contents -> read_file path = Ok contents ->
  load_peers_file read_file path = Ok (map addr (unbanned nows ps)).
Proof.
  unfold peer_states_json. intros Hc%map_err_Ok Hread. unfold load_peers_file. rewrite Hread.
  pose proof (cache_object _ _ Hc) as Hbrace. rewrite (brace_trimmed contents), Hbrace by done.
  rewrite (cache_roundtrip _ _ Hc). cbn [map_err]. unfold mbind at 1, result_bind at 1.
  apply collect_addresses.
Qed.
End peer_file_spec.
