(* ===== verification/Http.v ===== *)
(** HTTP responses over a socket, as gateway/mod.rs and the wallet's commands.rs read them: the same
    code with different error texts.

    What the server sends is a list of events, as in [Transport]. A Rust [String] is its bytes, checked
    to be UTF-8 where the code checks it; [trim] removes ASCII white space. Sums of lengths wrap around,
    as in a release build; what std says of malformed UTF-8 is left out of the texts. *)
From Stdlib Require Import ZArith Lia Ascii.
From stdpp Require Import base numbers option strings list pretty.
From S2P Require Import Prelude PaqusCore Transport Connection Config PeerFile.
Open Scope Z_scope.

(** ** Text *)

Fixpoint string_of_bytes (b : bytes) : string :=
  match b with [] => "" | x :: b => String (ascii_of_N (Z.to_N x)) (string_of_bytes b) end.

(** [str::from_utf8]: the well-formed byte sequences of the Unicode standard *)
Definition in_range (lo hi x : Z) : bool := (lo <=? x) && (x <=? hi).
Definition continuation : Z -> bool := in_range 128 191.
Fixpoint utf8_valid (b : bytes) : bool :=
  match b with
  | [] => true
  | x :: b =>
      if in_range 0 127 x then utf8_valid b else
      match b with
      | [] => false
      | y :: b =>
          if in_range 194 223 x then continuation y && utf8_valid b else
          match b with
          | [] => false
          | z :: b =>
              if ((x =? 224) && in_range 160 191 y) || (in_range 225 236 x && continuation y)
                 || ((x =? 237) && in_range 128 159 y) || (in_range 238 239 x && continuation y)
              then continuation z && utf8_valid b else
              match b with
              | [] => false
              | w :: b =>
                  (((x =? 240) && in_range 144 191 y) || (in_range 241 243 x && continuation y)
                   || ((x =? 244) && in_range 128 143 y))
                  && continuation z && continuation w && utf8_valid b
              end
          end
      end
  end.

(** Where [\r\n\r\n] starts *)
Definition blank_line : bytes := [13; 10; 13; 10].
Fixpoint find_blank (b : bytes) : option nat :=
  if bool_decide (take 4 b = blank_line) then Some 0%nat else
  match b with [] => None | _ :: b => S <$> find_blank b end.

(** [line.split_once(':')] *)
Fixpoint split_colon (s before : string) : option (string * string) :=
  match s with
  | EmptyString => None
  | String c s => if bool_decide (c = ":"%char) then Some (before, s) else split_colon s (before +:+ String c "")
  end.
Definition CRLF : string := String carriage_return (String line_feed "").

(** ** Responses *)

Definition content_length (line : string) : option Z :=
  parts ← split_colon line "";
  if bool_decide (to_ascii_lowercase parts.1 = "content-length") then result_ok (parse_u64 (trim parts.2)) else None.
(** [headers.lines().find_map(content_length)] *)
Definition header_length (headers : bytes) : option Z := head (omap content_length (lines (string_of_bytes headers))).

(** [who] is "gateway" or "rpc" in the error texts. *)
Definition response_body_complete (who : string) (response : bytes) : Result string bool :=
  match find_blank response with
  | None => Ok false
  | Some header_end =>
      let headers := take header_end response in
      if negb (utf8_valid headers) then Err ("failed to decode " +:+ who +:+ " response headers") else
      match header_length headers with
      | None => Ok false
      | Some n => Ok ((Z.of_nat header_end + 4 + n) mod 2 ^ 64 <=? zlen response)
      end
  end.

(** [stream.read(&mut buffer)] until the end, a failure, or a complete body *)
Fixpoint read_loop (who waiting : string) (fuel : nat) (response : bytes) (s : list ReadEvent) : Result string bytes :=
  match fuel with
  | O => Err "out of fuel"
  | S fuel =>
      match s with
      | [] | Arrives [] :: _ => Ok response
      | Arrives b :: s =>
          let response := response ++ take 4096 b in
          complete ← response_body_complete who response;
          if complete : bool then Ok response else
          read_loop who waiting fuel response (match drop 4096 b with [] => s | b => Arrives b :: s end)
      | Breaks error :: _ =>
          if bool_decide (io_kind error = WouldBlock) || bool_decide (io_kind error = TimedOut) then
            complete ← response_body_complete who response;
            if complete : bool then Ok response
            else Err ("failed to read " +:+ who +:+ " response: timed out waiting for " +:+ waiting)
          else Err ("failed to read " +:+ who +:+ " response: " +:+ io_text error)
      end
  end.

(** * Theorems and witnesses

    Reading an HTTP response: where the headers end, when the body is complete, and that a complete
    response is what the loop returns, however it arrives. *)

(** ** The end of the headers *)

Lemma find_blank_short b : (length b < 4)%nat -> find_blank b = None.
Proof.
  induction b as [|x b IH]; intros Hl; cbn [find_blank]; rewrite bool_decide_eq_false_2; try done.
  - rewrite IH by (cbn in Hl; lia). done.
  - intros E. apply (f_equal length) in E. rewrite length_take in E. cbn [length] in *; change (length blank_line) with 4%nat in E; lia.
Qed.
Lemma find_blank_take head tail i :
  find_blank (head ++ blank_line) = Some (length head) ->
  find_blank (take i (head ++ blank_line ++ tail)) =
  if decide (length head + 4 <= i)%nat then Some (length head) else None.
Proof.
  assert (Hshort : forall i (l : bytes), (i < 4)%nat -> find_blank (take i l) = None).
  { intros j l Hj. apply find_blank_short. rewrite length_take. lia. }
  revert i. induction head as [|x head IH]; intros i Hhead; cbn [app length Nat.add] in *.
  { destruct (decide (4 <= i)%nat) as [Hi|Hi]; [|apply Hshort; lia].
    do 4 (destruct i as [|i]; [lia|]). reflexivity. }
  destruct i as [|i]; [rewrite decide_False by lia; by apply Hshort; lia|].
  cbn [find_blank] in Hhead. case_bool_decide as Hx; [discriminate|].
  destruct (find_blank (head ++ blank_line)) as [k|] eqn:Hk; [|discriminate]. injection Hhead as ->.
  assert (Hnot : take 4 (take (S i) (x :: head ++ blank_line ++ tail)) <> blank_line).
  { rewrite take_take. intros E. apply Hx. etrans; [|exact E].
    pose proof (f_equal length E) as El. rewrite length_take in El. change (length blank_line) with 4%nat in El.
    rewrite Nat.min_l by lia.
    change (x :: head ++ blank_line ++ tail) with ((x :: head) ++ blank_line ++ tail).
    rewrite app_assoc. symmetry. apply (take_app_le ((x :: head) ++ blank_line)). rewrite length_app. cbn. lia. }
  change (take (S i) (x :: head ++ blank_line ++ tail)) with (x :: take i (head ++ blank_line ++ tail)) in *.
  cbn [find_blank]. rewrite bool_decide_eq_false_2 by done.
  rewrite IH by done. repeat case_decide; try lia; done.
Qed.

(** ** UTF-8 *)

Lemma utf8_valid_app a b : utf8_valid a = true -> utf8_valid b = true -> utf8_valid (a ++ b) = true.
Proof.
  intros Ha Hb. remember (length a) as n eqn:Hn. revert a Hn Ha.
  induction (lt_wf n) as [n _ IH]. intros [|x a] Hn Ha; [done|]. cbn [utf8_valid app] in *.
  assert (Hrec : forall c, (length c < n)%nat -> utf8_valid c = true -> utf8_valid (c ++ b) = true) by eauto.
  cbn in Hn. destruct (in_range 0 127 x); [apply Hrec; [lia|done]|].
  destruct a as [|y a]; [done|]. cbn [app]. cbn in Hn.
  destruct (in_range 194 223 x).
  { apply andb_prop in Ha as [-> Ha]. apply Hrec; [lia|done]. }
  destruct a as [|z a]; [done|]. cbn [app]. cbn in Hn. match goal with |- (if ?c then _ else _) = _ => destruct c end.
  { apply andb_prop in Ha as [-> Ha]. apply Hrec; [lia|done]. }
  destruct a as [|w a]; [done|]. cbn [app]. cbn in Hn. apply andb_prop in Ha as [Hc Ha]. rewrite Hc. apply Hrec; [lia|done].
Qed.

(** ** Reading a response *)

Section response.
Context (who waiting : string) (head body : bytes).
Context (Hblank : find_blank (head ++ blank_line) = Some (length head)).
Context (Hhead : utf8_valid head = true) (Hbody : utf8_valid body = true).
Context (Hlength : header_length head = Some (zlen body)).
Abbreviation response := (head ++ blank_line ++ body).
Context (Hfits : zlen response <= U64_MAX).

Lemma complete_prefix i :
  response_body_complete who (take i response) = Ok (bool_decide (length response <= i)%nat).
Proof.
  unfold response_body_complete. rewrite find_blank_take by done.
  assert (Hl : length response = (length head + 4 + length body)%nat) by (rewrite !length_app; cbn; lia).
  destruct (decide (length head + 4 <= i)%nat) as [Hi|Hi].
  - rewrite take_take, Nat.min_l, take_app_length by lia. rewrite Hhead, Hlength. cbn [negb]. f_equal.
    unfold zlen in *. rewrite length_take. rewrite Z.mod_small by (unfold U64_MAX in *; lia).
    destruct (Z.leb_spec (Z.of_nat (length head) + 4 + Z.of_nat (length body)) (Z.of_nat (i `min` length response)));
      symmetry; [apply bool_decide_eq_true_2|apply bool_decide_eq_false_2]; lia.
  - rewrite bool_decide_eq_false_2 by lia. done.
Qed.

Lemma read_loop_body fuel got pieces rest :
  got ++ concat pieces = response -> (length got < length response)%nat -> Forall (fun p => p <> []) pieces ->
  (stream_weight (map Arrives pieces) < fuel)%nat ->
  read_loop who waiting fuel got (map Arrives pieces ++ rest) = Ok response.
Proof.
  revert got pieces. induction fuel as [|fuel IH]; intros got pieces E Hgot Hne Hf; [lia|].
  destruct pieces as [|b pieces]; [cbn [concat] in E; rewrite app_nil_r in E; rewrite E in Hgot; lia|].
  apply Forall_cons in Hne as [Hb Hne]. destruct b as [|x b]; [done|]. set (p := x :: b) in *.
  change (read_loop who waiting (S fuel) got (map Arrives (p :: pieces) ++ rest)) with
    (complete ← response_body_complete who (got ++ take 4096 p);
     if complete : bool then Ok (got ++ take 4096 p) else
     read_loop who waiting fuel (got ++ take 4096 p)
       (match drop 4096 p with [] => map Arrives pieces ++ rest | b => Arrives b :: map Arrives pieces ++ rest end)).
  set (got' := got ++ take 4096 p).
  assert (Hgot' : got' = take (length got') response).
  { rewrite <- E. cbn [concat].
    replace (p ++ concat pieces) with (take 4096 p ++ drop 4096 p ++ concat pieces)
      by (by rewrite app_assoc, take_drop).
    rewrite app_assoc. fold got'. by rewrite take_app_length. }
  assert (Hmore : (length got < length got')%nat) by (subst got' p; rewrite length_app; cbn; lia).
  rewrite Hgot', complete_prefix. unfold mbind, result_bind. case_bool_decide as Hc; [by rewrite take_ge|].
  rewrite <- Hgot'.
  assert (Hrest : got' ++ drop 4096 p ++ concat pieces = response).
  { subst got'. rewrite <- app_assoc, (app_assoc (take _ _)), take_drop. exact E. }
  assert (Hw : stream_weight (map Arrives (p :: pieces)) = (S (length p) + stream_weight (map Arrives pieces))%nat) by done.
  assert (Hp : length p = S (length b)) by done.
  destruct (drop 4096 p) as [|y q] eqn:Ed.
  - apply IH; [done|lia|done|lia].
  - apply (IH got' ((y :: q) :: pieces)); [done|lia|by constructor|].
    apply (f_equal length) in Ed. rewrite length_drop in Ed.
    change (stream_weight (map Arrives ((y :: q) :: pieces))) with (S (length (y :: q)) + stream_weight (map Arrives pieces))%nat.
    lia.
Qed.
End response.

Lemma weight_app s t : stream_weight (s ++ t) = (stream_weight s + stream_weight t)%nat.
Proof. induction s as [|[b|e] s IH]; cbn [app stream_weight]; [done|rewrite IH; lia..]. Qed.
