(* ===== verification/Service.v ===== *)
(** The network service of the node binary (main.rs): the turn of the main loop that accepts,
    dials and polls peers, and the thread of an inbound peer.

    The service and the threads share the peer table and the two tables of connections, each
    behind a lock. [ServiceEnv] says what happens around this thread: clocks and the shutdown flag,
    which locks are poisoned, what the other threads did to the tables before a lock is taken, what
    [accept] returns and in which order a [HashMap] is walked, each as a function of the number of
    readings made. A connection is a [Link]: what [Connection] keeps of it besides the shared node.
    Console output is left out. *)
From Stdlib Require Import ZArith Lia.
From stdpp Require Import base numbers option strings list gmap.
From S2P Require Import Prelude BTree PaqusCore Net Mempool Compact Snapshot Recovery Lmdb Storage Cache Miner.
From S2P Require Import NodeState Node Message Transport Handler Peer Sync Connection Config PeerFile.
Open Scope Z_scope.

Definition MAX_PEER_FAILURES : Z := 8.

(** [sort_by_key] with the key [(score, latency in ms or u64::MAX, failures)] *)
Definition peer_latency_key (p : PeerState) : Z :=
  match latency p with Some l => l mod 2 ^ 64 | None => U64_MAX end.
Definition compare_peers (p q : PeerState) : comparison :=
  match score p ?= score q with
  | Eq => match peer_latency_key p ?= peer_latency_key q with
          | Eq => failures p ?= failures q
          | c => c
          end
  | c => c
  end.

Inductive Table := PeerTable | OutboundTable | InboundTable.

Section service.
Context `{PaqusTypes} `{!TxOps} `{!BlockOps} `{!LedgerOps} `{!EventOps} `{!ForkOps}.
Context `{!ConsensusOps} `{!GenesisOps} `{!Borsh} `{!Lmdb} `{!ErrorDisplay} `{!StorageDisplay}.
Context `{!ChainParams} `{!EnvelopeBorsh} `{!ConfigOps} `{!PeerCacheJson} {Ch : Type} `{!Write Ch}.
Context (clock : nat -> Z).

(** A connection apart from the node it works for. *)
Record Link := {
  link_connection : PeerConnection;
  link_outgoing : Ch;
  link_incoming : list ReadEvent;
  link_channel : list Recv
}.
Record Tables := {
  t_peers : gmap SocketAddr PeerState;
  t_outbound : gmap SocketAddr Link;
  t_inbound : gmap SocketAddr Link
}.
Definition set_t_peers (x : gmap SocketAddr PeerState) (t : Tables) : Tables :=
  {| t_peers := x; t_outbound := t_outbound t; t_inbound := t_inbound t |}.
Definition set_t_outbound (x : gmap SocketAddr Link) (t : Tables) : Tables :=
  {| t_peers := t_peers t; t_outbound := x; t_inbound := t_inbound t |}.
Definition set_t_inbound (x : gmap SocketAddr Link) (t : Tables) : Tables :=
  {| t_peers := t_peers t; t_outbound := t_outbound t; t_inbound := x |}.

(** [sv_spawned]: the accepted connections a thread was started for, the last one first;
    [sv_file]: what the peer file holds *)
Record Service := {
  sv_node : Node;
  sv_counters : NetworkMetrics;
  sv_readings : nat;
  sv_tables : Tables;
  sv_spawned : list (SocketAddr * (Ch * list ReadEvent));
  sv_file : option string
}.
Definition set_tables (f : Tables -> Tables) (s : Service) : Service := {|
  sv_node := sv_node s; sv_counters := sv_counters s; sv_readings := sv_readings s;
  sv_tables := f (sv_tables s); sv_spawned := sv_spawned s; sv_file := sv_file s |}.
Definition set_sv_readings (k : nat) (s : Service) : Service := {|
  sv_node := sv_node s; sv_counters := sv_counters s; sv_readings := k;
  sv_tables := sv_tables s; sv_spawned := sv_spawned s; sv_file := sv_file s |}.
Definition set_spawned (x : list (SocketAddr * (Ch * list ReadEvent))) (s : Service) : Service := {|
  sv_node := sv_node s; sv_counters := sv_counters s; sv_readings := sv_readings s;
  sv_tables := sv_tables s; sv_spawned := x; sv_file := sv_file s |}.
Definition set_file (x : option string) (s : Service) : Service := {|
  sv_node := sv_node s; sv_counters := sv_counters s; sv_readings := sv_readings s;
  sv_tables := sv_tables s; sv_spawned := sv_spawned s; sv_file := x |}.

Record ServiceEnv := {
  se_world : Environment Ch;
  (** [SystemTime::now()] in milliseconds *)
  se_wall : nat -> Z;
  se_poisoned : Table -> nat -> bool;
  (** what the other threads did to the tables *)
  se_others : nat -> Tables -> Tables;
  (** the results of [accept] on a listener up to [WouldBlock] or an error *)
  se_accept : nat -> list (SocketAddr * (Ch * list ReadEvent));
  (** the order in which a map with these keys is walked *)
  se_order : nat -> list SocketAddr -> list SocketAddr;
  (** [configure_stream] and [try_clone] on an accepted stream *)
  se_configure : nat -> Result string unit;
  (** [fs::write] to the peer file *)
  se_write : nat -> Result IoError unit
}.
Context (env : ServiceEnv).

(** [Err tt] is an early return. *)
Abbreviation Serve := (ST Service unit).
Abbreviation World_ := (World Ch).

Definition see {A} (f : nat -> A) : Serve A :=
  fun s => (Ok (f (sv_readings s)), set_sv_readings (S (sv_readings s)) s).
Definition now : Serve Z := see (env_instant (se_world env)).
Definition wall : Serve Z := see (se_wall env).
Definition stopping : Serve bool := see (env_stop (se_world env)).

(** [table.lock()]: whether it succeeds; the tables are then as the other threads left them. *)
Definition lock (t : Table) : Serve bool :=
  bad ← see (se_poisoned env t);
  others ← see (se_others env);
  st_modify (set_tables others) ;;
  mret (negb bad).
(** the same while this thread holds the peer table, which the others cannot change *)
Definition lock_inside (t : Table) : Serve bool :=
  bad ← see (se_poisoned env t);
  others ← see (se_others env);
  st_modify (set_tables (fun t => set_t_peers (t_peers t) (others t))) ;;
  mret (negb bad).
Definition tables : Serve Tables := s ← st_get; mret (sv_tables s).
Definition on_tables (f : Tables -> Tables) : Serve unit := st_modify (set_tables f).
(** [if let Ok(mut guard) = table.lock()] around a change *)
Definition if_locked (t : Table) (body : Serve unit) : Serve unit :=
  ok ← lock t; if ok : bool then body else mret tt.
(** [map.keys()], [map.values()] *)
Definition keys_in_order {A} (m : gmap SocketAddr A) : Serve (list SocketAddr) :=
  order ← see (se_order env); mret (order (map_to_list m).*1).
Definition values_in_order {A} (m : gmap SocketAddr A) : Serve (list A) :=
  keys ← keys_in_order m; mret (omap (fun a => m !! a) keys).

(** ** Programs on a connection *)

Definition world_of (l : Link) (s : Service) : World_ := {|
  connection := link_connection l; outgoing := link_outgoing l; incoming := link_incoming l;
  channel := link_channel l; shared_node := sv_node s; counters := sv_counters s;
  readings := sv_readings s |}.
Definition link_of (w : World_) : Link := {|
  link_connection := connection w; link_outgoing := outgoing w; link_incoming := incoming w;
  link_channel := channel w |}.
Definition from_world (w : World_) (s : Service) : Service := {|
  sv_node := shared_node w; sv_counters := counters w; sv_readings := readings w;
  sv_tables := sv_tables s; sv_spawned := sv_spawned s; sv_file := sv_file s |}.
Definition on_link {A} (m : ST World_ string A) (l : Link) : Serve (Result string A * Link) :=
  fun s => let '(r, w) := m (world_of l s) in (Ok (r, link_of w), from_world w s).

(** What a link is before [connect] makes the connection. *)
Context (unconnected : Link).

#[local] Instance service_world : PeerWorld World_ := connection_world clock (se_world env).

(** ** The peer table *)

(** [peers.entry(a).or_insert_with(|| PeerState::new(a))] *)
Definition enter_peer (a : SocketAddr) : Serve unit :=
  t ← tables;
  match t_peers t !! a with
  | Some _ => mret tt
  | None => at_ ← now; w ← wall; on_tables (fun t => set_t_peers (<[a := peer_new a at_ w]> (t_peers t)) t)
  end.
(** a change of [peers.get_mut(a)], if it is there *)
Definition change_peer (a : SocketAddr) (f : PeerState -> PeerState) : Serve unit :=
  on_tables (fun t => set_t_peers (alter f a (t_peers t)) t).
Definition fail_peer (a : SocketAddr) : Serve unit :=
  ban ← now; at_ ← now; w ← wall; change_peer a (mark_failed ban at_ w).
(** [if let Ok(mut peers) = peers.lock() { peers.entry(addr).or_insert_with(..).mark_failed() }] *)
Definition penalise (a : SocketAddr) : Serve unit :=
  if_locked PeerTable (enter_peer a ;; fail_peer a).

(** [peers.filter(|peer| !peer.is_banned())], the clock read for each *)
Definition without_banned (ps : list PeerState) : Serve (list PeerState) :=
  s ← st_get;
  st_modify (fun s => set_sv_readings (sv_readings s + length ps) s) ;;
  mret (unbanned (fun i => env_instant (se_world env) (sv_readings s + i)) ps).

(** ** Exchanging addresses *)

Definition known_peer_infos (self_addrs : list SocketAddr) (requester : option SocketAddr) (limit : nat)
    : Serve (list PeerInfo) :=
  ok ← lock PeerTable;
  t ← tables;
  known ← (if ok : bool then ps ← values_in_order (t_peers t); ps ← without_banned ps; mret (map addr ps)
           else mret []);
  ok ← lock OutboundTable;
  t ← tables;
  connected ← (if ok : bool then keys_in_order (t_outbound t) else mret []);
  let addrs := filter (fun a => (a ∉ self_addrs) /\ requester <> Some a) (known ++ connected) in
  mret (map (fun a => {| pi_address := show_socket a |}) (take limit (Gossip.dedupe_peers addrs))).

Definition promote_one (self_addrs : list SocketAddr) (info : PeerInfo) : Serve unit :=
  match parse_socket (pi_address info) with
  | Err _ => mret tt
  | Ok a =>
      if decide (a ∈ self_addrs) then mret tt else
      ok ← lock_inside OutboundTable;
      t ← tables;
      if ok && bool_decide (is_Some (t_outbound t !! a)) then mret tt else enter_peer a
  end.
Definition promote_message_peers (m : NetworkMessage) (self_addrs : list SocketAddr) : Serve unit :=
  match m with
  | Peers infos => if_locked PeerTable (st_for (promote_one self_addrs) infos)
  | _ => mret tt
  end.

Definition self_addrs (c : RunConfig) : list SocketAddr := public_addrs c ++ listen_addrs c.

(** ** The thread of an inbound peer *)

(** [write_message] to the peer; whether it succeeds *)
Definition answer (id : Z) (m : NetworkMessage) (l : Link) : Serve (bool * Link) :=
  written ← on_link (write_envelope "" (envelope_response id m)) l;
  mret (is_ok written.1, written.2).

(** The [loop]; the link after it is the connection when the thread ends. *)
Fixpoint inbound_loop (fuel : nat) (self : list SocketAddr) (a : SocketAddr) (window : RequestWindow) (l : Link)
    : Serve Link :=
  match fuel with
  | O => st_fail tt
  | S fuel =>
      stop ← stopping;
      if stop : bool then mret l else
      now1 ← now;
      window ← (if PEER_REQUEST_WINDOW <=? saturating_sub now1 (request_window_started window) then
                  now2 ← now; mret {| request_window_started := now2; request_count := 0 |}
                else mret window);
      got ← on_link (st_zoom (fun w => (incoming w, counters w)) set_incoming
                       (st_map_err show_network_error read_message)) l;
      let l := got.2 in
      match got.1 with
      | Err _ => mret l
      | Ok e =>
          let count := saturating_add U32_MAX (request_count window) 1 in
          let window := {| request_window_started := request_window_started window; request_count := count |} in
          if MAX_PEER_REQUESTS_PER_WINDOW <? count then penalise a ;; mret l else
          promote_message_peers (message e) self ;;
          match message e with
          | GetPeers =>
              infos ← known_peer_infos self (Some a) 64;
              sent ← answer (request_id e) (Peers infos) l;
              if sent.1 : bool then inbound_loop fuel self a window sent.2 else mret sent.2
          | m =>
              handled ← on_link (with_lock (se_world env) (handle_message clock m)) l;
              let l := handled.2 in
              match handled.1 with
              | Err _ => mret l
              | Ok (Err _) => penalise a ;; mret l
              | Ok (Ok None) => inbound_loop fuel self a window l
              | Ok (Ok (Some response)) =>
                  promote_message_peers response self ;;
                  sent ← answer (request_id e) response l;
                  if sent.1 : bool then inbound_loop fuel self a window sent.2 else mret sent.2
              end
          end
      end
  end.

(** Entering the connection in the inbound table. *)
Definition track_inbound (a : SocketAddr) (stream : Ch * list ReadEvent) : Serve unit :=
  cloned ← see (se_configure env);
  match cloned with
  | Err _ => mret tt
  | Ok _ =>
      at_ ← now;
      let tracked := {| link_connection := connection_new (show_socket a) false at_;
        link_outgoing := stream.1; link_incoming := stream.2; link_channel := [] |} in
      ok ← lock OutboundTable;
      t ← tables;
      if ok && bool_decide (is_Some (t_outbound t !! a)) then mret tt else
      if_locked InboundTable (
        t ← tables;
        match t_inbound t !! a with
        | Some _ => mret tt
        | None => on_tables (fun t => set_t_inbound (<[a := tracked]> (t_inbound t)) t)
        end)
  end.

Definition inbound_peer (self : list SocketAddr) (a : SocketAddr) (stream : Ch * list ReadEvent)
    : Serve (option Link) :=
  configured ← see (se_configure env);
  match configured with
  | Err _ => mret None
  | Ok _ =>
      track_inbound a stream ;;
      started ← now;
      l ← inbound_loop (S (stream_weight stream.2)) self a
            {| request_window_started := started; request_count := 0 |}
            {| link_connection := link_connection unconnected; link_outgoing := stream.1;
               link_incoming := stream.2; link_channel := [] |};
      if_locked InboundTable (on_tables (fun t => set_t_inbound (delete a (t_inbound t)) t)) ;;
      mret (Some l)
  end.

(** ** One turn of the service *)

(** [listener.accept()] until there is nobody left, on every listener *)
Definition accept_all (c : RunConfig) : Serve unit :=
  st_for (fun _ =>
    accepted ← see (se_accept env);
    st_modify (fun s => set_spawned (rev accepted ++ sv_spawned s) s)) (listen_addrs c).

(** The peers of this turn: none of our own addresses, none that is banned, the best first. *)
Definition choose_peers (c : RunConfig) : Serve (list SocketAddr) :=
  ok ← lock PeerTable;
  if negb ok then st_fail tt else
  on_tables (fun t => set_t_peers (fold_left (fun ps a => delete a ps) (self_addrs c) (t_peers t)) t) ;;
  t ← tables;
  ps ← values_in_order (t_peers t);
  candidates ← without_banned ps;
  mret (map addr (take (Z.to_nat (max_peers c)) (sort_by compare_peers candidates))).

(** [peers.lock().ok()?.get(addr).map(|peer| peer.sync_window)] *)
Definition window_of (a : SocketAddr) : Serve (option Z) :=
  ok ← lock PeerTable;
  t ← tables;
  mret (if ok : bool then option_map sync_window (t_peers t !! a) else None).
Fixpoint windows_of (addrs : list SocketAddr) : Serve (list Z) :=
  match addrs with
  | [] => mret []
  | a :: addrs => w ← window_of a; ws ← windows_of addrs; mret (from_option (fun w => [w]) [] w ++ ws)
  end.

(** The address a report of the synchronisation names. *)
Definition named (addrs : list SocketAddr) (text : string) : list SocketAddr :=
  take 1 (filter (fun a => show_socket a = text) addrs).

(** Catching up with several peers at once, when there is no connection yet. *)
Definition sync_first (c : RunConfig) (addrs : list SocketAddr) : Serve unit :=
  stop ← stopping;
  if stop : bool then st_fail tt else
  ws ← windows_of addrs;
  let window := match ws with [] => 64 | w :: ws => fold_left Z.max ws w end in
  done_ ← on_link (sync_from_peers_parallel clock (map show_socket addrs) (map show_socket (public_addrs c)) window)
            unconnected;
  match done_.1 with
  | Err _ => mret tt
  | Ok report =>
      if_locked PeerTable (
        st_for (fun a => at_ ← now; w ← wall; change_peer a (mark_synced (ps_remote_tip report) (ps_applied_blocks report) at_ w))
          (ps_used_peer_addrs report ≫= named addrs) ;;
        st_for fail_peer (ps_failed_peer_addrs report ≫= named addrs))
  end.

Definition should_connect (a : SocketAddr) : Serve bool :=
  ok ← lock PeerTable;
  if negb ok then st_fail tt else
  ok ← lock_inside OutboundTable;
  t ← tables;
  if ok && bool_decide (is_Some (t_outbound t !! a)) then mret false else
  match t_peers t !! a with
  | None => mret false
  | Some p => now1 ← now; now2 ← now; mret (negb (is_banned now1 p) && (next_attempt p <=? now2))
  end.

Definition keep_connection (a : SocketAddr) (l : Link) : Serve unit :=
  if_locked OutboundTable (on_tables (fun t => set_t_outbound (<[a := l]> (t_outbound t)) t)).

Definition dial (a : SocketAddr) : Serve unit :=
  connected ← on_link (connect (se_world env) (show_socket a)) unconnected;
  match connected.1 with
  | Ok _ =>
      if_locked InboundTable (on_tables (fun t => set_t_inbound (delete a (t_inbound t)) t)) ;;
      keep_connection a connected.2
  | Err _ => if_locked PeerTable (fail_peer a)
  end.

(** [connections.remove(&addr)] *)
Definition take_connection (a : SocketAddr) : Serve (option Link) :=
  ok ← lock OutboundTable;
  if negb ok then mret None else
  t ← tables;
  on_tables (fun t => set_t_outbound (delete a (t_outbound t)) t) ;;
  mret (t_outbound t !! a).

Definition discover (c : RunConfig) (infos : list PeerInfo) : Serve unit :=
  if_locked PeerTable (st_for (fun info =>
    match parse_socket (pi_address info) with
    | Err _ => mret tt
    | Ok a => if decide (a ∈ public_addrs c \/ a ∈ listen_addrs c) then mret tt else enter_peer a
    end) infos).

(** After a failed poll: the connection is gone, and a peer that failed too often too. *)
Definition poll_failed (a : SocketAddr) : Serve unit :=
  if_locked PeerTable (
    fail_peer a ;;
    on_tables (fun t =>
      match t_peers t !! a with
      | Some p => if MAX_PEER_FAILURES <? failures p then set_t_peers (delete a (t_peers t)) t else t
      | None => t
      end)).

Definition poll_succeeded (a : SocketAddr) (poll : PeerPoll) : Serve unit :=
  if_locked PeerTable (
    w ← wall; at_ ← now; w' ← wall;
    change_peer a (fun p =>
      match poll with
      | PollIdle remote_tip latency => mark_ok (Some remote_tip) at_ w' (set_latency latency w p)
      | PollSynced remote_tip blocks latency => mark_synced remote_tip blocks at_ w' (set_latency latency w p)
      end)).

Definition poll_peer (c : RunConfig) (a : SocketAddr) (l : Link) : Serve unit :=
  window ← window_of a;
  polled ← on_link (poll_peer_connection clock (map show_socket (public_addrs c)) (unwrap_or 64 window)) l;
  match polled.1 with
  | Err _ => poll_failed a
  | Ok poll =>
      pooled ← on_link (sync_mempool_connection clock) polled.2;
      asked ← on_link request_peers_connection pooled.2;
      discover c (unwrap_or [] (result_ok asked.1)) ;;
      poll_succeeded a poll ;;
      keep_connection a asked.2
  end.

Definition serve_peer (c : RunConfig) (a : SocketAddr) : Serve unit :=
  should ← should_connect a;
  (if should : bool then dial a else mret tt) ;;
  taken ← take_connection a;
  match taken with
  | None => mret tt
  | Some l => poll_peer c a l
  end.
Fixpoint serve_peers (c : RunConfig) (addrs : list SocketAddr) : Serve unit :=
  match addrs with
  | [] => mret tt
  | a :: addrs =>
      stop ← stopping;
      if stop : bool then mret tt else serve_peer c a ;; serve_peers c addrs
  end.

Definition save_peers (c : RunConfig) : Serve unit :=
  match peers_file c with
  | None => mret tt
  | Some path =>
      if_locked PeerTable (
        t ← tables;
        ps ← values_in_order (t_peers t);
        s ← st_get;
        st_modify (fun s => set_sv_readings (sv_readings s + length ps) s) ;;
        written ← see (se_write env);
        match peer_states_json path (fun i => env_instant (se_world env) (sv_readings s + i)) ps, written with
        | Ok contents, Ok _ => st_modify (set_file (Some contents))
        | _, _ => mret tt
        end)
  end.

Definition service_network_once (c : RunConfig) : Serve unit :=
  stop ← stopping;
  if stop : bool then mret tt else
  accept_all c ;;
  addrs ← choose_peers c;
  ok ← lock OutboundTable;
  t ← tables;
  let has_outbound := ok && negb (bool_decide (t_outbound t = ∅)) in
  (if negb (bool_decide (addrs = [])) && negb has_outbound then sync_first c addrs else mret tt) ;;
  serve_peers c addrs ;;
  save_peers c.
End service.
