(* ===== verification/ServiceSpec.v ===== *)
(** The network service: whatever peers send, whenever locks are poisoned and whatever other
    threads do to the tables, the node and the peer table keep their invariants; the peers of a
    turn are the best ones; an inbound thread ends, and it ends at the first silence. *)
From Stdlib Require Import ZArith Lia.
From stdpp Require Import base numbers option strings list gmap relations sorting.
From S2P Require Import Prelude BTree PaqusCore Net Mempool MempoolInv Compact Snapshot Recovery Lmdb Storage Cache Miner.
From S2P Require Import NodeState Node NodeOrphans NodeMempool Message Transport Handler HandlerSpec Gossip Peer.
From S2P Require Import Sync Connection ConnectionSpec ReaderSpec Session Config PeerFile Service.
Open Scope Z_scope.

Section service_spec.
Context `{PaqusTypes} `{!TxOps} `{!BlockOps} `{!LedgerOps} `{!EventOps} `{!ForkOps}.
Context `{!ConsensusOps} `{!GenesisOps} `{!Borsh} `{!Lmdb} `{!ErrorDisplay} `{!StorageDisplay}.
Context `{!ChainParams} `{!EnvelopeBorsh} `{!ConfigOps} `{!PeerCacheJson} {Ch : Type} `{!Write Ch}.
Context (clock : nat -> Z) (env : ServiceEnv (Ch := Ch)) (unconnected : Link (Ch := Ch)).

(** ** Invariants *)

Section keeps.
(** The other threads change the node by its operations and keep the peer table well formed. *)
Context (Hnode : forall t n, rtc (node_step clock) n (env_others (se_world env) t n)).
Context (Htables : forall k t, peer_table_wf (t_peers t) -> peer_table_wf (t_peers (se_others env k t))).
Context (n0 : Node).
Definition served (s : Service (Ch := Ch)) : Prop :=
  rtc (node_step clock) n0 (sv_node s) /\ peer_table_wf (t_peers (sv_tables s)).

Lemma served_see {A} (f : nat -> A) : st_preserves served (see f).
Proof. by intros s Hs. Qed.
Lemma served_tables : st_preserves served tables.
Proof. by intros s Hs. Qed.
Lemma served_on_tables f :
  (forall t, peer_table_wf (t_peers t) -> peer_table_wf (t_peers (f t))) -> st_preserves served (on_tables f).
Proof. intros Hf s [Hn Ht]. split; [done|]. by apply Hf. Qed.
Lemma served_change a f :
  (forall p, addr (f p) = addr p) -> (forall p, peer_wf p -> peer_wf (f p)) -> st_preserves served (change_peer a f).
Proof. intros Ha Hf. apply served_on_tables. intros t Ht. by apply peer_table_alter. Qed.
Lemma served_lock t : st_preserves served (lock env t).
Proof. intros s [Hn Ht]. split; [done|]. exact (Htables (S (sv_readings s)) _ Ht). Qed.
Lemma served_lock_inside t : st_preserves served (lock_inside env t).
Proof. by intros s [Hn Ht]. Qed.
Lemma served_link {A} (m : ST (World Ch) string A) l :
  st_preserves (node_from clock n0) m -> st_preserves served (on_link m l).
Proof.
  intros Hm s [Hn Ht]. unfold on_link. pose proof (Hm (world_of l s) Hn) as Hw.
  destruct (m (world_of l s)) as [r w]. by split.
Qed.
Lemma served_if_locked t body : st_preserves served body -> st_preserves served (if_locked env t body).
Proof. intros Hb. unfold if_locked. st_steps ltac:(first [apply served_lock | done]). Qed.

Ltac serves tac := st_steps ltac:(first
  [ tac | apply served_see | apply served_tables | apply served_lock | apply served_lock_inside
  | apply served_if_locked | apply served_link
  | progress unfold keys_in_order, values_in_order, now, wall, stopping
  | match goal with |- st_preserves served (st_modify _) => apply st_preserves_modify; by intros ? [? ?] end
  | match goal with |- st_preserves served (on_tables (fun t => set_t_outbound _ t)) => by apply served_on_tables end
  | match goal with |- st_preserves served (on_tables (fun t => set_t_inbound _ t)) => by apply served_on_tables end ]).

Lemma served_enter a : st_preserves served (enter_peer env a).
Proof.
  unfold enter_peer. serves ltac:(apply served_on_tables; intros t' Ht; cbn;
    apply peer_table_insert; [done|apply peer_new_wf|done]).
Qed.
Lemma served_fail a : st_preserves served (fail_peer env a).
Proof.
  unfold fail_peer. serves ltac:(apply served_change; [done|intros p; apply peer_step_wf; constructor]).
Qed.
Lemma served_penalise a : st_preserves served (penalise env a).
Proof. unfold penalise. serves ltac:(first [apply served_enter | apply served_fail]). Qed.
Lemma served_without_banned ps : st_preserves served (without_banned env ps).
Proof. unfold without_banned. serves fail. Qed.
Lemma served_known self requester limit : st_preserves served (known_peer_infos env self requester limit).
Proof. unfold known_peer_infos. serves ltac:(apply served_without_banned). Qed.
Lemma served_promote m self : st_preserves served (promote_message_peers env m self).
Proof.
  unfold promote_message_peers, promote_one. destruct m; try apply st_preserves_ret.
  serves ltac:(apply served_enter).
Qed.

Lemma write_node text e : st_preserves (node_from clock n0) (write_envelope (Ch := Ch) text e).
Proof. by apply zoom_other. Qed.
Lemma read_node_from :
  st_preserves (node_from clock n0) (st_zoom (fun w : World Ch => (incoming w, counters w)) set_incoming
    (st_map_err show_network_error read_message)).
Proof. by apply zoom_other. Qed.
Lemma handle_node m :
  st_preserves (node_from clock n0) (with_lock (se_world env) (handle_message clock m)).
Proof. apply node_from_lock; [exact Hnode|]. intros w. apply handled_moves. Qed.
Lemma served_answer id m l : st_preserves served (answer id m l).
Proof. unfold answer. serves ltac:(apply write_node). Qed.

Lemma served_inbound_loop fuel self a window l :
  st_preserves served (inbound_loop clock env fuel self a window l).
Proof.
  revert window l. induction fuel as [|fuel IH]; intros window l; cbn [inbound_loop];
    serves ltac:(first [apply IH | apply read_node_from | apply handle_node | apply served_penalise
      | apply served_promote | apply served_known | apply served_answer]).
Qed.
Lemma served_inbound self a stream : st_preserves served (inbound_peer clock env unconnected self a stream).
Proof. unfold inbound_peer, track_inbound. serves ltac:(apply served_inbound_loop). Qed.

#[local] Instance spec_guarded :
    Guarded clock (W := World Ch) (PeerWorld0 := service_world clock env) (node_from clock n0) := connection_guarded clock (se_world env) Hnode n0.

Lemma served_self_removed c :
  st_preserves served (on_tables (fun t => set_t_peers (fold_left (fun ps a => delete a ps) (self_addrs c) (t_peers t)) t)).
Proof.
  apply served_on_tables. intros t Ht. cbn. revert Ht. generalize (t_peers t) as ps.
  induction (self_addrs c) as [|a l IH]; intros ps Ht; [done|]. by apply IH, peer_table_delete.
Qed.
Lemma served_choose c : st_preserves served (choose_peers env c).
Proof. unfold choose_peers. serves ltac:(first [apply served_self_removed | apply served_without_banned]). Qed.
Lemma served_window a : st_preserves served (window_of env a).
Proof. unfold window_of. serves fail. Qed.
Lemma served_windows addrs : st_preserves served (windows_of env addrs).
Proof.
  induction addrs as [|a addrs IH]; cbn [windows_of]; serves ltac:(first [apply IH | apply served_window]).
Qed.
Lemma synced_wf tip k at_ w p : peer_wf p -> peer_wf (mark_synced tip k at_ w p).
Proof. apply peer_step_wf. constructor. Qed.
Lemma served_sync_first c addrs : st_preserves served (sync_first clock env unconnected c addrs).
Proof.
  unfold sync_first. serves ltac:(first [apply served_windows | refine (guard_parallel clock _ _ _ _) | apply served_fail
    | apply served_change; [done|apply synced_wf] ]).
Qed.
Lemma connect_node a : st_preserves (node_from clock n0) (connect (Ch := Ch) (se_world env) a).
Proof. destruct spec_guarded as [_ _ Hc _ _ _ _ _ _ _ _]. apply Hc. Qed.
Lemma served_dial a : st_preserves served (dial env unconnected a).
Proof. unfold dial, keep_connection. serves ltac:(first [apply connect_node | apply served_fail]). Qed.
Lemma served_poll_failed a : st_preserves served (poll_failed env a).
Proof.
  unfold poll_failed. serves ltac:(first [apply served_fail | apply served_on_tables; intros t Ht;
    destruct (t_peers t !! a) as [p|]; [|done]; destruct (MAX_PEER_FAILURES <? failures p); [|done];
    by apply peer_table_delete ]).
Qed.
Lemma served_poll_succeeded a poll : st_preserves served (poll_succeeded env a poll).
Proof.
  unfold poll_succeeded. serves ltac:(apply served_change; destruct poll; [done|done|intros p Hp..];
    (eapply peer_step_wf; [constructor|]; eapply peer_step_wf; [constructor|done])).
Qed.
Lemma served_discover c infos : st_preserves served (discover env c infos).
Proof. unfold discover. serves ltac:(apply served_enter). Qed.
Lemma guard_request_peers : st_preserves (node_from clock n0) (request_peers_connection (PeerWorld0 := service_world clock env)).
Proof. unfold request_peers_connection. destruct spec_guarded as [Hr _ _ _ _ _ _ _ _ _ _]. st_steps ltac:(apply Hr). Qed.
Lemma served_serve_peer c a : st_preserves served (serve_peer clock env unconnected c a).
Proof.
  unfold serve_peer, should_connect, take_connection, poll_peer, keep_connection.
  serves ltac:(first [apply served_dial | apply served_window | refine (guard_poll clock _ _ _) | refine (guard_mempool clock _)
    | apply guard_request_peers | apply served_poll_failed | apply served_poll_succeeded | apply served_discover]).
Qed.
Lemma served_serve_peers c addrs : st_preserves served (serve_peers clock env unconnected c addrs).
Proof.
  induction addrs as [|a addrs IH]; cbn [serve_peers]; serves ltac:(first [apply IH | apply served_serve_peer]).
Qed.
Lemma served_once c : st_preserves served (service_network_once clock env unconnected c).
Proof.
  unfold service_network_once, accept_all, save_peers.
  serves ltac:(first [apply served_choose | apply served_sync_first | apply served_serve_peers]).
Qed.
End keeps.

(** What the threads of the node do: a turn of the service, or the life of an inbound peer. *)
Inductive ServiceActivity :=
| Turn (c : RunConfig)
| InboundPeer (self : list SocketAddr) (a : SocketAddr) (stream : Ch * list ReadEvent).
Definition service_act (s : Service (Ch := Ch)) (x : ServiceActivity) : Service (Ch := Ch) :=
  match x with
  | Turn c => (service_network_once clock env unconnected c s).2
  | InboundPeer self a stream => (inbound_peer clock env unconnected self a stream s).2
  end.

(** C8: through any turns of the service and any inbound peers, whatever the peers send, whenever locks
    are poisoned, connections break or the clock jumps, and whatever the other threads do to the
    node with its operations and to well-formed tables in between, the node keeps its invariants
    and every entry of the peer table is filed under its address with score, window and ban in
    bounds. *)
Theorem service_keeps_node l e c accs n0 activities s :
  (forall t n, rtc (node_step clock) n (env_others (se_world env) t n)) ->
  (forall k t, peer_table_wf (t_peers t) -> peer_table_wf (t_peers (se_others env k t))) ->
  try_with_genesis_accounts l e c accs = Ok n0 -> rtc (node_step clock) n0 (sv_node s) ->
  peer_table_wf (t_peers (sv_tables s)) ->
  let after := fold_left service_act activities s in
  pool_wf (sv_node after) /\ mempool_wf (mempool (sv_node after)) /\ peer_table_wf (t_peers (sv_tables after)).
Proof.
  intros Hnode Htables Hnew Hn Ht after.
  assert (Hafter : served n0 after).
  { subst after. assert (Hs : served n0 s) by done. clear Hn Ht. revert s Hs.
    induction activities as [|x activities IH]; intros s Hs; [done|]. apply IH.
    destruct x; [by apply served_once|by apply served_inbound]. }
  destruct Hafter as [Hn' Ht']. destruct (node_steps_wf clock _ _ _ _ n0 _ Hnew Hn'). done.
Qed.

End service_spec.

(** * The peers of a turn

    Which peers a turn of the service deals with, and which addresses the node gives to others. *)

(** ** The order of peers *)

Lemma compare_peers_spec p q :
  compare_peers p q <> Gt <->
  score p < score q \/ (score p = score q /\
    (peer_latency_key p < peer_latency_key q \/ (peer_latency_key p = peer_latency_key q /\ failures p <= failures q))).
Proof.
  unfold compare_peers. destruct (Z.compare_spec (score p) (score q)); [|naive_solver lia..].
  destruct (Z.compare_spec (peer_latency_key p) (peer_latency_key q)); [|naive_solver lia..].
  change ((failures p ?= failures q) <> Gt) with (failures p <= failures q). lia.
Qed.
Lemma compare_peers_total p q : compare_peers p q = Gt -> compare_peers q p <> Gt.
Proof.
  intros Hgt. destruct (compare_peers q p) eqn:E; try done. exfalso.
  assert (Hn : ~ (compare_peers p q <> Gt) /\ ~ (compare_peers q p <> Gt)) by (split; intros Hx; by apply Hx).
  rewrite !compare_peers_spec in Hn. lia.
Qed.
Lemma compare_peers_trans p q r : compare_peers p q <> Gt -> compare_peers q r <> Gt -> compare_peers p r <> Gt.
Proof. rewrite !compare_peers_spec. lia. Qed.

(** The best [n] of a list, and the others. *)
Lemma best_first n (ps : list PeerState) p q :
  p ∈ take n (sort_by compare_peers ps) -> q ∈ ps -> q ∉ take n (sort_by compare_peers ps) ->
  compare_peers p q <> Gt.
Proof.
  intros Hp Hq Hnot.
  pose proof (sort_by_sorted _ compare_peers_total compare_peers_trans ps) as Hs.
  rewrite <- (elem_of_sort_by compare_peers) in Hq.
  rewrite <- (take_drop n (sort_by compare_peers ps)) in Hs, Hq.
  apply elem_of_app in Hq as [Hq|Hq]; [done|]. by apply (StronglySorted_app_1_elem_of _ _ _ p q Hs).
Qed.
Lemma unbanned_sublist nows ps : unbanned nows ps `sublist_of` ps.
Proof.
  unfold unbanned. trans ((imap pair ps).*2); [apply fmap_sublist, sublist_filter|].
  apply (reflexive_eq (R := sublist)), list_eq. intros i. rewrite list_lookup_fmap, list_lookup_imap.
  by destruct (ps !! i).
Qed.

Section peers.
Context `{PaqusTypes} `{!TxOps} `{!BlockOps} `{!LedgerOps} `{!EventOps} `{!ForkOps}.
Context `{!ConsensusOps} `{!GenesisOps} `{!Borsh} `{!Lmdb} `{!ErrorDisplay} `{!StorageDisplay}.
Context `{!ChainParams} `{!EnvelopeBorsh} `{!ConfigOps} `{!PeerCacheJson} {Ch : Type} `{!Write Ch}.
Context (env : ServiceEnv (Ch := Ch)).
(** A [HashMap] is walked in some order, each key once. *)
Context (Horder : forall k l, se_order env k l ≡ₚ l).

Lemma values_spec k (ps : gmap SocketAddr PeerState) :
  peer_table_wf ps ->
  let vs := omap (fun a => ps !! a) (se_order env k (map_to_list ps).*1) in
  NoDup (map addr vs) /\ forall p, p ∈ vs <-> ps !! addr p = Some p.
Proof.
  intros Hwf vs.
  assert (Hkeys : forall a, a ∈ se_order env k (map_to_list ps).*1 <-> is_Some (ps !! a)).
  { intros a. rewrite Horder. rewrite list_elem_of_fmap. split.
    - intros ([b p] & -> & Hb%elem_of_map_to_list). by exists p.
    - intros [p Hp]. exists (a, p). by rewrite elem_of_map_to_list. }
  assert (Hmap : forall l, (forall a, a ∈ l -> is_Some (ps !! a)) -> map addr (omap (fun a => ps !! a) l) = l).
  { induction l as [|a l IH]; intros Hl; [done|]. cbn. destruct (Hl a) as [p Hp]; [by left|].
    rewrite Hp. cbn. rewrite IH by (intros b Hb; apply Hl; by right). by destruct (Hwf _ _ Hp) as [-> _]. }
  split.
  - subst vs. rewrite Hmap by (intros a; apply Hkeys). rewrite Horder. apply NoDup_fst_map_to_list.
  - intros p. subst vs. rewrite list_elem_of_omap. split.
    + intros (a & _ & Hp). by destruct (Hwf _ _ Hp) as [-> _].
    + intros Hp. exists (addr p). split; [apply Hkeys; by exists p|done].
Qed.

Lemma deleted_self l (ps : gmap SocketAddr PeerState) a :
  fold_left (fun ps a => delete a ps) l ps !! a = if decide (a ∈ l) then None else ps !! a.
Proof.
  revert ps. induction l as [|b l IH]; intros ps; cbn [fold_left]; [done|]. rewrite IH.
  destruct (decide (a ∈ l)); [rewrite decide_True by (by right); done|].
  destruct (decide (a = b)) as [->|]; [rewrite decide_True by (by left); apply lookup_delete_eq|].
  rewrite lookup_delete_ne, decide_False by (try done; rewrite elem_of_cons; naive_solver). done.
Qed.

Definition without_self (c : RunConfig) (t : Tables (Ch := Ch)) : gmap SocketAddr PeerState :=
  fold_left (fun ps a => delete a ps) (self_addrs c) (t_peers t).
Lemma choose_run c s addrs s' :
  choose_peers env c s = (Ok addrs, s') ->
  exists k nows, t_peers (sv_tables s') = without_self c (se_others env (S (sv_readings s)) (sv_tables s)) /\
    let table := t_peers (sv_tables s') in
    addrs = map addr (take (Z.to_nat (max_peers c)) (sort_by compare_peers
      (unbanned (fun i => env_instant (se_world env) (nows i)) (omap (fun a => table !! a) (se_order env k (map_to_list table).*1))))).
Proof.
  unfold choose_peers, lock, see, tables, on_tables, values_in_order, keys_in_order, without_banned.
  unfold mbind, st_bind, st_get, st_modify, mret, st_ret.
  destruct (se_poisoned env PeerTable (sv_readings s)); [discriminate|]. intros [= <- <-].
  eexists _, (fun i => _). by split.
Qed.

(** C25: the peers of a turn are different peers of the table, at most as many as configured, none of
    them one of the node's own addresses, which are no longer in the table, and none of them
    banned when it was looked at; and every other peer of the table was banned when it was looked
    at or comes after all of them in the order of score, latency and failures. *)
Theorem chosen_peers_best c s addrs s' :
  (forall k t, peer_table_wf (t_peers t) -> peer_table_wf (t_peers (se_others env k t))) ->
  peer_table_wf (t_peers (sv_tables s)) -> choose_peers env c s = (Ok addrs, s') ->
  let table := t_peers (sv_tables s') in
  NoDup addrs /\ zlen addrs <= Z.max 0 (max_peers c) /\ Forall (fun a => table !! a = None) (self_addrs c) /\
  forall a, a ∈ addrs -> exists p, table !! a = Some p /\
    (exists k, is_banned (env_instant (se_world env) k) p = false) /\
    forall b q, table !! b = Some q -> b ∉ addrs ->
      (exists k, is_banned (env_instant (se_world env) k) q = true) \/ compare_peers p q <> Gt.
Proof.
  intros Hothers Hwf E table. apply choose_run in E as (k & nows' & Htable & E). cbv zeta in E.
  fold table in Htable, E. clearbody table.
  set (nows := fun i => env_instant (se_world env) (nows' i)) in E. set (vs := omap _ _) in E.
  assert (Hself : forall a, a ∈ self_addrs c -> table !! a = None).
  { intros a Ha. rewrite Htable. unfold without_self. by rewrite deleted_self, decide_True. }
  assert (Hwf1 : peer_table_wf table).
  { intros a p. rewrite Htable. unfold without_self. rewrite deleted_self. destruct (decide _); [done|].
    apply (Hothers (S (sv_readings s)) _ Hwf). }
  destruct (values_spec k table Hwf1) as [Hnd Hvs]. fold vs in Hnd, Hvs.
  set (n := Z.to_nat (max_peers c)) in E. set (chosen := take n (sort_by compare_peers (unbanned nows vs))) in E.
  assert (Hchosen : forall p, p ∈ chosen -> p ∈ unbanned nows vs).
  { intros p Hp. rewrite <- (elem_of_sort_by compare_peers). revert Hp. apply sublist_subseteq, sublist_take. }
  subst addrs. split_and!.
  - eapply sublist_NoDup; [|apply fmap_sublist, sublist_take]. rewrite sort_by_perm.
    eapply sublist_NoDup; [exact Hnd|apply fmap_sublist, unbanned_sublist].
  - unfold zlen. rewrite length_map. subst chosen. rewrite length_take. subst n. lia.
  - by apply Forall_forall.
  - intros a (p & -> & Hp)%list_elem_of_fmap. pose proof (Hchosen p Hp) as Hu.
    apply unbanned_spec in Hu as (i & Hi & Hb). exists p. split_and!.
    + apply Hvs. by eapply list_elem_of_lookup_2.
    + eauto.
    + intros b q Hq Hnot. pose proof (Hwf1 _ _ Hq) as [Hqb _]. subst b. apply Hvs in Hq as Hin.
      apply list_elem_of_lookup in Hin as [j Hj].
      destruct (is_banned (nows j) q) eqn:Hbq; [left; eauto|right].
      apply (best_first n (unbanned nows vs)); [done|apply unbanned_spec; eauto|].
      intros Hc. apply Hnot. apply list_elem_of_fmap. by exists q.
Qed.

(** The answer to [GetPeers]: different addresses, at most [limit], none of them the node's own or
    the one of the peer that asks. *)
Lemma known_peers_answer self requester limit s infos s' :
  known_peer_infos env self requester limit s = (Ok infos, s') ->
  exists addrs, infos = map (fun a => {| pi_address := show_socket a |}) addrs /\
    NoDup addrs /\ (length addrs <= limit)%nat /\ Forall (fun a => a ∉ self /\ requester <> Some a) addrs.
Proof.
  unfold known_peer_infos. intros E.
  repeat (apply st_bind_inv in E as [(? & _ & E)|(? & ? & _ & E)]; [discriminate E|]).
  injection E as <- _. eexists. split; [done|].
  match goal with |- context [dedupe_peers ?l] => set (l' := l); destruct (retain_new_spec (∅ : gset SocketAddr) l') as (Hnd & _ & Hel) end.
  fold (dedupe_peers l') in Hnd, Hel. split_and!.
  - eapply sublist_NoDup; [exact Hnd|apply sublist_take].
  - rewrite length_take. lia.
  - apply Forall_forall. intros a Ha. apply (sublist_subseteq _ _ (sublist_take _ _)), Hel in Ha as [Ha _].
    by apply list_elem_of_filter in Ha as [Ha _].
Qed.
End peers.

(** * The thread of an inbound peer

    It ends whatever the peer sends, and it reads nothing that arrives after the first silence of
    the peer. *)

(** Code that returns, from every state, with a result that satisfies [Q]. *)
Definition st_returns {S E A} (Q : A -> Prop) (m : ST S E A) : Prop :=
  forall s, exists a, (m s).1 = Ok a /\ Q a.
Lemma returns_ret {S E A} (Q : A -> Prop) (a : A) : Q a -> st_returns (S := S) (E := E) Q (mret a).
Proof. intros Ha s. by exists a. Qed.
Lemma returns_bind {S E A B} (R : A -> Prop) (Q : B -> Prop) (m : ST S E A) (k : A -> ST S E B) :
  st_returns R m -> (forall a, R a -> st_returns Q (k a)) -> st_returns Q (m ≫= k).
Proof.
  intros Hm Hk s. destruct (Hm s) as (a & Ha & HR). destruct (m s) as [r s1] eqn:Em. cbn in Ha. subst r.
  unfold mbind, st_bind. rewrite Em. by apply Hk.
Qed.
Lemma returns_then {S E A B} (Q : B -> Prop) (m : ST S E A) (k : A -> ST S E B) :
  st_returns (fun _ => True) m -> (forall a, st_returns Q (k a)) -> st_returns Q (m ≫= k).
Proof. intros Hm Hk. apply (returns_bind (fun _ => True)); auto. Qed.
Lemma returns_for {S E A} (f : A -> ST S E unit) l :
  (forall a, st_returns (fun _ => True) (f a)) -> st_returns (fun _ => True) (st_for f l).
Proof. intros Hf. induction l as [|x l IH]; cbn [st_for]; [by apply returns_ret|]. by apply returns_then. Qed.

(** ** Reading *)

Section reading.
Context `{PaqusTypes} `{!ChainParams} `{!EnvelopeBorsh}.
Context (e : IoError) (rest : list ReadEvent) (He : io_kind e <> Interrupted).
(** The break is still to come. *)
Definition before (s : list ReadEvent) : Prop := exists pre, s = pre ++ Breaks e :: rest.

Lemma read_exact_before phase expected received s r s' :
  before s -> read_exact_logged phase expected received s = (r, s') ->
  before s' \/ (is_ok r = false /\ s' = rest).
Proof.
  intros (pre & ->). revert received.
  induction pre as [|[b|e'] pre IH]; intros received E; cbn [app read_exact_logged] in E.
  - destruct (expected <=? zlen received); [injection E as <- <-; left; by exists []|].
    rewrite bool_decide_eq_false_2 in E by done. injection E as <- <-. by right.
  - destruct (expected <=? zlen received); [injection E as <- <-; left; by exists (Arrives b :: pre)|].
    set (free := Z.to_nat (expected - zlen received)) in *.
    destruct (take free b) as [|x got]; [injection E as <- <-; left; by exists pre|].
    destruct (drop free b) as [|y left_]; [by apply IH in E|].
    injection E as <- <-. left. by exists (Arrives (y :: left_) :: pre).
  - destruct (expected <=? zlen received); [injection E as <- <-; left; by exists (Breaks e' :: pre)|].
    case_bool_decide; [by apply IH in E|]. injection E as <- <-. left. by exists pre.
Qed.
Lemma read_message_before s k r s' k' :
  before s -> read_message (s, k) = (r, (s', k')) -> before s' \/ (is_ok r = false /\ s' = rest).
Proof.
  intros Hs. unfold read_message, on_channel. unfold mbind at 1, st_bind at 1. cbn [fst snd].
  destruct (read_exact_logged "length" _ [] s) as [[h|err] s1] eqn:E1; cbn [fst snd];
    apply read_exact_before in E1 as [Hq|[Hq Hq']]; try done; cycle 1.
  { intros [= <- <- <-]. by left. }
  { intros [= <- <- <-]. by right. }
  destruct (MAX_NETWORK_MESSAGE_SIZE <? _); [intros [= <- <- <-]; by left|].
  unfold mbind at 1, st_bind at 1. cbn [fst snd].
  destruct (read_exact_logged "payload" _ [] s1) as [[b|err] s2] eqn:E2; cbn [fst snd];
    apply read_exact_before in E2 as [Hq2|[Hq2 Hq2']]; try done; cycle 1.
  { intros [= <- <- <-]. by left. }
  { intros [= <- <- <-]. by right. }
  unfold mbind, st_bind, st_lift. destruct (envelope_from_bytes b); intros [= <- <- <-]; by left.
Qed.
End reading.

Section inbound.
Context `{PaqusTypes} `{!TxOps} `{!BlockOps} `{!LedgerOps} `{!EventOps} `{!ForkOps}.
Context `{!ConsensusOps} `{!GenesisOps} `{!Borsh} `{!Lmdb} `{!ErrorDisplay} `{!StorageDisplay}.
Context `{!ChainParams} `{!EnvelopeBorsh} `{!ConfigOps} `{!PeerCacheJson} {Ch : Type} `{!Write Ch}.
Context (clock : nat -> Z) (env : ServiceEnv (Ch := Ch)) (unconnected : Link (Ch := Ch)).

(** Everything the thread does around reading returns. *)
Abbreviation returns := (st_returns (fun _ => True)).
Lemma returns_see {A} (f : nat -> A) : returns (see (Ch := Ch) f).
Proof. intros s. by eexists. Qed.
Lemma returns_tables : returns (tables (Ch := Ch)).
Proof. intros s. by eexists. Qed.
Lemma returns_modify f : returns (st_modify (S := Service (Ch := Ch)) (E := unit) f).
Proof. intros s. by eexists. Qed.
Lemma returns_lock t : returns (lock env t).
Proof. intros s. by eexists. Qed.
Lemma returns_lock_inside t : returns (lock_inside env t).
Proof. intros s. by eexists. Qed.
Ltac returning tac := repeat first
  [ progress tac | apply returns_see | apply returns_tables | apply returns_modify | apply returns_lock
  | apply returns_lock_inside | by apply returns_ret | apply returns_then; [|intros ?]
  | apply returns_for; intros ? | progress unfold if_locked, now, wall, stopping, on_tables, change_peer, fail_peer
  | match goal with |- st_returns _ (match ?x with _ => _ end) => destruct x end
  | match goal with |- st_returns _ st_get => by intros s; eexists end ].
Lemma returns_enter a : returns (enter_peer env a).
Proof. unfold enter_peer. returning fail. Qed.
Lemma returns_penalise a : returns (penalise env a).
Proof. unfold penalise. returning ltac:(apply returns_enter). Qed.
Lemma returns_promote m self : returns (promote_message_peers env m self).
Proof.
  unfold promote_message_peers, promote_one. destruct m; try by apply returns_ret.
  returning ltac:(apply returns_enter).
Qed.
Lemma returns_known self requester limit : returns (known_peer_infos env self requester limit).
Proof. unfold known_peer_infos, values_in_order, keys_in_order, without_banned. returning fail. Qed.
Lemma returns_track a stream : returns (track_inbound env a stream).
Proof. unfold track_inbound. returning fail. Qed.

(** A program on the link that does not read. *)
Lemma returns_link {A} (m : ST (World Ch) string A) l :
  (forall w, incoming (m w).2 = incoming w) ->
  st_returns (fun rl => link_incoming rl.2 = link_incoming l) (on_link m l).
Proof.
  intros Hm s. unfold on_link. specialize (Hm (world_of l s)). destruct (m (world_of l s)) as [r w].
  by eexists.
Qed.
Lemma returns_answer id m l : st_returns (fun bl => link_incoming bl.2 = link_incoming l) (answer (Ch := Ch) id m l).
Proof.
  unfold answer. eapply returns_bind; [apply returns_link|intros [r l'] Hl; by apply returns_ret].
  intros w. unfold write_envelope, st_zoom. by destruct (st_map_err _ _ _).
Qed.
Lemma handle_incoming {E A} (m : ST (Node * NetworkMetrics) E A) w :
  incoming (with_lock (Ch := Ch) (se_world env) m w).2 = incoming w.
Proof.
  unfold with_lock, observe, mbind, st_bind, st_zoom, st_try, st_fail. cbn.
  by destruct (env_poisoned _ _).
Qed.

(** [I] holds of the stream while the thread runs, [J] when it has ended. *)
Section loop.
Context (I J : list ReadEvent -> Prop).
Context (Hread : forall s k r s' k', I s -> read_message (s, k) = (r, (s', k')) ->
  if is_ok r then I s' else J s').
Context (Hend : forall s, I s -> J s).

Lemma inbound_loop_returns fuel self a window l :
  I (link_incoming l) -> (stream_weight (link_incoming l) < fuel)%nat ->
  st_returns (fun l' => J (link_incoming l')) (inbound_loop clock env fuel self a window l).
Proof.
  revert window l. induction fuel as [|fuel IH]; intros window l HI Hf; [lia|]. cbn [inbound_loop].
  apply returns_then; [apply returns_see|intros stop]. destruct stop; [by apply returns_ret, Hend|].
  apply returns_then; [apply returns_see|intros now1].
  apply returns_then; [returning fail|intros window'].
  apply (returns_bind (fun got => match got.1 with
    | Ok _ => I (link_incoming got.2) /\ (stream_weight (link_incoming got.2) < fuel)%nat
    | Err _ => J (link_incoming got.2) end)).
  { intros s. unfold on_link, st_zoom, st_map_err.
    change (incoming (world_of l s)) with (link_incoming l).
    destruct (read_message (link_incoming l, _)) as [r [s' k']] eqn:Er. eexists. split; [done|].
    cbn. specialize (Hread _ _ _ _ _ HI Er). apply read_message_takes in Er as Hw.
    destruct r; cbn in *; [|done]. split; [done|]. destruct Hw as [[_ ?]|]; [done|lia]. }
  intros [[e|err] l1] Hl1; cbn [fst snd] in *; [|by apply returns_ret].
  destruct Hl1 as [HI1 Hf1].
  destruct (MAX_PEER_REQUESTS_PER_WINDOW <? _).
  { apply returns_then; [apply returns_penalise|intros _; by apply returns_ret, Hend]. }
  apply returns_then; [apply returns_promote|intros _].
  assert (Hsend : forall id m w l2, link_incoming l2 = link_incoming l1 ->
    st_returns (fun l' => J (link_incoming l'))
      (sent ← answer id m l2; if sent.1 : bool then inbound_loop clock env fuel self a w sent.2 else mret sent.2)).
  { intros id m w l2 Hl2. eapply returns_bind; [apply returns_answer|intros [ok l3] Hl3]. cbn in *.
    rewrite Hl2 in Hl3. destruct ok; [apply IH|apply returns_ret, Hend]; by rewrite Hl3. }
  assert (Hhandle : forall m w, st_returns (fun l' => J (link_incoming l'))
    (handled ← on_link (with_lock (se_world env) (handle_message clock m)) l1;
     match handled.1 with
     | Err _ => mret handled.2
     | Ok (Err _) => penalise env a ;; mret handled.2
     | Ok (Ok None) => inbound_loop clock env fuel self a w handled.2
     | Ok (Ok (Some response)) =>
         promote_message_peers env response self ;;
         sent ← answer (request_id e) response handled.2;
         if sent.1 : bool then inbound_loop clock env fuel self a w sent.2 else mret sent.2
     end)).
  { intros m w. eapply returns_bind; [apply returns_link, handle_incoming|intros [r l2] Hl2]. cbn in *.
    destruct r as [[[response|]|err]|text].
    - apply returns_then; [apply returns_promote|intros _]. by apply Hsend.
    - apply IH; by rewrite Hl2.
    - apply returns_then; [apply returns_penalise|intros _]. apply returns_ret, Hend. by rewrite Hl2.
    - apply returns_ret, Hend. by rewrite Hl2. }
  destruct (message e); try apply Hhandle.
  apply returns_then; [apply returns_known|intros infos]. by apply Hsend.
Qed.

Lemma inbound_peer_returns self a out events :
  I events -> st_returns (fun ol => forall l, ol = Some l -> J (link_incoming l))
    (inbound_peer clock env unconnected self a (out, events)).
Proof.
  intros HI. unfold inbound_peer. apply returns_then; [apply returns_see|intros configured].
  destruct configured; [|by apply returns_ret].
  apply returns_then; [apply returns_track|intros _]. apply returns_then; [apply returns_see|intros started].
  eapply returns_bind; [apply inbound_loop_returns; [exact HI|cbn; lia]|intros l Hl]. cbn in Hl.
  apply returns_then; [returning fail|intros _]. apply returns_ret. by intros l' [= <-].
Qed.
End loop.


(** Silence ends it: [Breaks e] is the read timeout of 250 ms, or any other failure but an
    interrupted call. The thread ends, and nothing that arrives after the break is read, however
    well formed it is and although the socket is still open. The reader of an outbound connection
    goes on after the same timeout. *)
Theorem inbound_ends_at_silence self a out before_break e rest s :
  io_kind e <> Interrupted ->
  exists ol, (inbound_peer clock env unconnected self a (out, before_break ++ Breaks e :: rest) s).1 = Ok ol /\
    forall l, ol = Some l -> exists unread, link_incoming l = unread ++ rest.
Proof.
  intros He.
  apply (inbound_peer_returns (before e rest) (fun s => exists unread, s = unread ++ rest)).
  - intros s0 k r s' k' Hs Er. destruct (read_message_before e rest He _ _ _ _ _ Hs Er) as [Hb|[Hr ->]].
    + destruct r; [done|]. destruct Hb as [pre ->]. exists (pre ++ [Breaks e]). by rewrite <- app_assoc.
    + rewrite Hr. by exists [].
  - intros s0 [pre ->]. exists (pre ++ [Breaks e]). by rewrite <- app_assoc.
  - by exists before_break.
Qed.
End inbound.
