(* ===== verification/RpcAccess.v ===== *)
(** Who may call the RPC: the listeners, the administration token, the rate limiter and the
    request counters of rpc/api.rs.

    A handler is a program in [ST S HttpError]; a middleware is a function from handlers to
    handlers. [axum]'s routing, the concurrency limit, timeout and body limit are layers of
    third-party code around it. *)
From Stdlib Require Import ZArith Lia Ascii SpecFloat.
From stdpp Require Import base numbers option strings list gmap.
From S2P Require Import Prelude PaqusCore Net Float Config.
Open Scope Z_scope.

(** ** Responses *)

Inductive StatusCode :=
| BAD_REQUEST | UNAUTHORIZED | NOT_FOUND | CONFLICT | TOO_MANY_REQUESTS
| INTERNAL_SERVER_ERROR | SERVICE_UNAVAILABLE.
(** What is not a success: [rpc_error], [rpc_transaction_rejected] *)
Inductive HttpError :=
| rpc_error (code : StatusCode) (error : string)
| rpc_transaction_rejected (status error : string).

(** ** The administration token *)

(** [difference |= usize::from(left[i] ^ right[i])] over the longer length, a missing byte
    being 0 *)
Fixpoint byte_differences (length : nat) (left right : bytes) : Z :=
  match length with
  | O => 0
  | S length =>
      Z.lor (Z.lxor (unwrap_or 0 (head left)) (unwrap_or 0 (head right)))
        (byte_differences length (tail left) (tail right))
  end.
Definition constant_time_eq (left right : bytes) : bool :=
  Z.lor (Z.lxor (zlen left) (zlen right))
    (byte_differences (Nat.max (length left) (length right)) left right) =? 0.

(** [str::as_bytes] *)
Fixpoint as_bytes (s : string) : bytes :=
  match s with
  | EmptyString => []
  | String c s => Z.of_N (N_of_ascii c) :: as_bytes s
  end.
Fixpoint strip_prefix (prefix s : string) : option string :=
  match prefix, s with
  | EmptyString, _ => Some s
  | String c prefix, String d s => if bool_decide (c = d) then strip_prefix prefix s else None
  | String _ _, EmptyString => None
  end.

Section middleware.
Context {S A : Type}.
Implicit Types (next : ST S HttpError A).

(** [authorization] is the header of the request, if it has one and it is text. *)
Definition require_admin_auth (expected : string) (authorization : option string) next
    : ST S HttpError A :=
  let supplied := authorization ≫= strip_prefix "Bearer " in
  if match supplied with
     | Some token => constant_time_eq (as_bytes token) (as_bytes expected)
     | None => false
     end
  then next else st_fail (rpc_error UNAUTHORIZED "admin authentication required").
End middleware.

(** ** The rate limiter *)

Record RateBucket := { tokens : f64; updated_at : Z }.
(** [buckets] is [None] when its lock is poisoned. *)
Record RpcRateLimiter := {
  buckets : option (gmap IpAddr RateBucket); rate_per_second : f64; burst : f64
}.
Definition RpcRateLimiter_new (rate_per_second burst : Z) : RpcRateLimiter := {|
  buckets := Some ∅; rate_per_second := f64_of_u64 rate_per_second; burst := f64_of_u64 burst
|}.
(** [now] is the [Instant] read, in nanoseconds; [duration_since] saturates. *)
Definition allow (now : Z) (ip : IpAddr) (l : RpcRateLimiter) : bool * RpcRateLimiter :=
  match buckets l with
  | None => (false, l)
  | Some m =>
      let bucket := unwrap_or {| tokens := burst l; updated_at := now |} (m !! ip) in
      let elapsed := as_secs_f64 (Z.max (now - updated_at bucket) 0) in
      let refilled := f64_min (f64_add (tokens bucket) (f64_mul elapsed (rate_per_second l))) (burst l) in
      let granted := negb (f64_lt refilled (f64_of_u64 1)) in
      let left := if granted then f64_sub refilled (f64_of_u64 1) else refilled in
      (granted, {| buckets := Some (<[ip := {| tokens := left; updated_at := now |}]> m);
                   rate_per_second := rate_per_second l; burst := burst l |})
  end.

(** ** The request counters *)

Record RpcMetrics := { requests_total : Z; errors_total : Z; latency_micros_total : Z }.
(** [fetch_add] wraps around; [elapsed] is in microseconds. *)
Definition track_rpc_request (failed : bool) (elapsed : Z) (k : RpcMetrics) : RpcMetrics := {|
  requests_total := u64_wrapping_add (requests_total k) 1;
  errors_total := if failed then u64_wrapping_add (errors_total k) 1 else errors_total k;
  latency_micros_total := u64_wrapping_add (latency_micros_total k) (Z.min elapsed U64_MAX)
|}.

(** ** A server: counting around limiting around the token around the handler *)

Record Server (S : Type) := {
  limiter : RpcRateLimiter; counters : RpcMetrics; rpc_state : S
}.
Arguments limiter {S}.
Arguments counters {S}.
Arguments rpc_state {S}.
Arguments Build_Server {S}.

Record Request := {
  (** [ConnectInfo], when the listener provides it *)
  peer : option SocketAddr;
  authorization : option string
}.

Section server.
Context {S A : Type}.

Definition enforce_rate_limit (now : Z) (r : Request) (next : ST S HttpError A)
    : ST (Server S) HttpError A :=
  fun s =>
    let ip := match peer r with Some a => ip a | None => V4 0 0 0 0 end in
    let '(allowed, limiter') := allow now ip (limiter s) in
    if allowed then
      let '(response, state) := next (rpc_state s) in
      (response, {| limiter := limiter'; counters := counters s; rpc_state := state |})
    else (Err (rpc_error TOO_MANY_REQUESTS "RPC rate limit exceeded"),
          {| limiter := limiter'; counters := counters s; rpc_state := rpc_state s |}).

Definition tracked (elapsed : Z) (next : ST (Server S) HttpError A) : ST (Server S) HttpError A :=
  fun s =>
    let '(response, s) := next s in
    (response, {| limiter := limiter s;
                  counters := track_rpc_request (is_err response) elapsed (counters s);
                  rpc_state := rpc_state s |}).

Definition serve_public (now elapsed : Z) (r : Request) (handler : ST S HttpError A) :=
  tracked elapsed (enforce_rate_limit now r handler).
Definition serve_admin (token : string) (now elapsed : Z) (r : Request) (handler : ST S HttpError A) :=
  tracked elapsed (enforce_rate_limit now r (require_admin_auth token (authorization r) handler)).
End server.

(** ** Listeners *)

Record RpcServerConfig := {
  public_addr : SocketAddr;
  admin_addr : option SocketAddr;
  admin_token : option string;
  tls_cert : option string;
  tls_key : option string;
  cors_origins : list string
}.
(** A listener thread: its label, its address, and whether it speaks TLS. *)
Record Listener := { label : string; listens_at : SocketAddr; tls : bool; token : option string }.

Section listeners.
Context `{!ConfigOps}.
(** [HeaderValue::from_str] accepts it. *)
Context (header_value : string -> bool).
(** The thread could be spawned. *)
Context (spawned : string -> Result string unit).

Definition secure_router (c : RpcServerConfig) : Result string unit :=
  _ ← collect_result (fun origin =>
        if header_value origin then Ok origin else Err ("invalid RPC CORS origin `" +:+ origin +:+ "`"))
      (cors_origins c);
  Ok tt.

Definition spawn_rpc_listener (label : string) (a : SocketAddr) (cert key token : option string)
    : Result string Listener :=
  if negb (is_loopback (ip a)) && negb (bool_decide (is_Some cert) && bool_decide (is_Some key))
  then Err (label +:+ " RPC listener " +:+ show_socket a
            +:+ " is non-loopback and requires --rpc-tls-cert and --rpc-tls-key") else
  _ ← map_err (fun error => "failed to spawn rpc server: " +:+ error) (spawned label);
  Ok {| label := label; listens_at := a;
        tls := bool_decide (is_Some cert) && bool_decide (is_Some key); token := token |}.

Definition start_rpc_servers (c : RpcServerConfig) : Result string (list Listener) :=
  _ ← secure_router c;
  public ← spawn_rpc_listener "public" (public_addr c) (tls_cert c) (tls_key c) None;
  match admin_addr c with
  | None => Ok [public]
  | Some a =>
      token ← ok_or (admin_token c)
        "RPC admin listener requires --rpc-admin-token or rpc_admin_token";
      _ ← secure_router c;
      admin ← spawn_rpc_listener "admin" a (tls_cert c) (tls_key c) (Some token);
      Ok [public; admin]
  end.
End listeners.

(** The [RpcServerConfig] [run_node] builds from the configuration. *)
Definition rpc_server_config (c : RunConfig) : RpcServerConfig := {|
  public_addr := rpc_addr c; admin_addr := rpc_admin_addr c; admin_token := rpc_admin_token c;
  tls_cert := rpc_tls_cert c; tls_key := rpc_tls_key c; cors_origins := rpc_cors_origins c
|}.

(** * Theorems and witnesses

    What the RPC's access control guarantees: the token comparison is equality, nothing of the
    administration interface runs without the token, bursts are bounded per address, and every
    listener off loopback is encrypted. *)
From S2P Require Import ConfigSpec.

(** ** The token *)

Lemma byte_differences_0 n l r :
  length l = n -> length r = n -> byte_differences n l r = 0 <-> l = r.
Proof.
  revert l r. induction n as [|n IH]; intros [|x l] [|y r] Hl Hr; try discriminate; [done|].
  cbn in *. rewrite Z.lor_eq_0_iff, Z.lxor_eq_0_iff, IH by lia. naive_solver.
Qed.

(** the constant-time comparison of the administration token is equality: no prefix,
    extension or other string of bytes passes for the token. *)
Theorem constant_time_eq_exact left right : constant_time_eq left right = true <-> left = right.
Proof.
  unfold constant_time_eq. rewrite Z.eqb_eq, Z.lor_eq_0_iff, Z.lxor_eq_0_iff. unfold zlen.
  split; [|intros ->; split; [done|by rewrite Nat.max_id; apply byte_differences_0]].
  intros [Hl Hd]. apply Nat2Z.inj in Hl. apply (byte_differences_0 (length left)); [done..|].
  by rewrite Hl, Nat.max_id in Hd; rewrite Hl.
Qed.

Lemma strip_prefix_Some p s t : strip_prefix p s = Some t <-> s = p +:+ t.
Proof.
  revert s. induction p as [|c p IH]; intros s; cbn; [naive_solver|].
  destruct s as [|d s]; [by split|]. case_bool_decide as Hc.
  - subst. rewrite IH. split; [by intros ->|by intros [= ->]].
  - split; [done|by intros [= -> ->]].
Qed.
Lemma as_bytes_inj s t : as_bytes s = as_bytes t -> s = t.
Proof.
  revert t. induction s as [|c s IH]; intros [|d t]; cbn; try done. intros [= Hc Hs].
  apply N2Z.inj in Hc. f_equal; [|by apply IH].
  by rewrite <-(ascii_N_embedding c), <-(ascii_N_embedding d), Hc.
Qed.

Lemma require_admin_auth_spec {S A} expected header (next : ST S HttpError A) :
  require_admin_auth expected header next =
  if decide (header = Some ("Bearer " +:+ expected)) then next
  else st_fail (rpc_error UNAUTHORIZED "admin authentication required").
Proof.
  unfold require_admin_auth. destruct header as [h|]; [|by rewrite decide_False].
  cbn [mbind option_bind]. destruct (strip_prefix "Bearer " h) as [t|] eqn:E.
  - apply strip_prefix_Some in E as ->. case_decide as Hd.
    + apply (inj Some), (inj (String.append "Bearer ")) in Hd as ->. by rewrite (proj2 (constant_time_eq_exact _ _) eq_refl).
    + destruct (constant_time_eq _ _) eqn:Et; [|done]. apply constant_time_eq_exact, as_bytes_inj in Et.
      by subst.
  - rewrite decide_False; [done|]. intros [= ->].
    by rewrite (proj2 (strip_prefix_Some _ _ _) eq_refl) in E.
Qed.

(** C21: nothing of the administration interface runs without the token: a request whose
    [Authorization] header is not exactly [Bearer] and the token is answered with an error and
    leaves the state as it was, and one with the token that the rate limiter grants gets
    exactly what the handler answers and does. *)
Theorem admin_needs_token {S A} token now elapsed r (handler : ST S HttpError A) (s : Server S) :
  let '(response, s') := serve_admin token now elapsed r handler s in
  (authorization r <> Some ("Bearer " +:+ token) ->
     is_err response = true /\ rpc_state s' = rpc_state s) /\
  (authorization r = Some ("Bearer " +:+ token) ->
     (allow now (match peer r with Some a => ip a | None => V4 0 0 0 0 end) (limiter s)).1 = true ->
     (response, rpc_state s') = handler (rpc_state s)).
Proof.
  unfold serve_admin, tracked, enforce_rate_limit.
  destruct (allow _ _ _) as [[] l]; rewrite ?require_admin_auth_spec; cbn; [|naive_solver].
  case_decide; [|cbn; naive_solver].
  destruct (handler (rpc_state s)) as [response state]; naive_solver.
Qed.

(** ** The rate limiter *)

(** How many of the requests of [who] are granted among requests of several addresses that
    arrive at one instant. *)
Fixpoint granted (now : Z) (who : IpAddr) (ips : list IpAddr) (l : RpcRateLimiter) : Z :=
  match ips with
  | [] => 0
  | ip :: ips =>
      let '(ok, l) := allow now ip l in
      (if ok && bool_decide (ip = who) then 1 else 0) + granted now who ips l
  end.
Definition requests_of (who : IpAddr) (ips : list IpAddr) : Z := zlen (filter (eq who) ips).

(** [who] has [c] requests left at [now]. *)
Record credit (now : Z) (who : IpAddr) (rate b c : Z) (l : RpcRateLimiter) : Prop := {
  credit_rate : rate_per_second l = exact rate;
  credit_burst : burst l = exact b;
  credit_bucket : exists m, buckets l = Some m /\
    unwrap_or {| tokens := exact b; updated_at := now |} (m !! who) =
    {| tokens := exact c; updated_at := now |}
}.

Lemma allow_credit now who rate b c l :
  0 <= rate -> 0 <= c <= b -> b < 2 ^ 53 -> credit now who rate b c l ->
  (allow now who l).1 = (1 <=? c) /\
  credit now who rate b (if 1 <=? c then c - 1 else c) (allow now who l).2.
Proof.
  intros Hr Hc Hb [Er Eb (m & Em & Ec)]. unfold allow. rewrite Em, Er, Eb, Ec.
  cbn [tokens updated_at]. rewrite Z.sub_diag. change (as_secs_f64 (Z.max 0 0)) with (S754_zero false).
  rewrite zero_mul_exact, exact_add_zero, exact_min by lia.
  rewrite Z.min_l, of_u64_exact, exact_lt by lia. cbn [fst snd].
  replace (negb (c <? 1)) with (1 <=? c) by (destruct (Z.ltb_spec c 1), (Z.leb_spec 1 c); cbn; lia).
  split; [done|]. split; [done..|]. eexists; split; [done|]. rewrite lookup_insert_eq. cbn.
  f_equal. destruct (Z.leb_spec 1 c); [by rewrite exact_pred by lia|done].
Qed.

Lemma allow_others now who ip rate b c l :
  ip <> who -> credit now who rate b c l -> credit now who rate b c (allow now ip l).2.
Proof.
  intros Hne [Er Eb (m & Em & Ec)]. unfold allow. rewrite Em. split; [done..|].
  eexists; split; [done|]. by rewrite lookup_insert_ne.
Qed.

Lemma granted_credit now who rate b c ips l :
  0 <= rate -> 0 <= c <= b -> b < 2 ^ 53 -> credit now who rate b c l ->
  granted now who ips l = Z.min c (requests_of who ips).
Proof.
  intros Hr Hc Hb. revert c l Hc. induction ips as [|ip ips IH]; intros c l Hc Hl; cbn [granted].
  { unfold requests_of, zlen. cbn. lia. }
  destruct (decide (ip = who)) as [->|Hne].
  - destruct (allow_credit now who rate b c l Hr Hc Hb Hl) as [Eok Hl'].
    destruct (allow now who l) as [ok l']. cbn [fst snd] in *. rewrite Eok, bool_decide_true by done.
    assert (E : requests_of who (who :: ips) = 1 + requests_of who ips).
    { unfold requests_of, zlen. rewrite filter_cons_True by done. cbn. lia. }
    rewrite E. assert (0 <= requests_of who ips) by (unfold requests_of, zlen; lia).
    rewrite (IH (if 1 <=? c then c - 1 else c) l') by (done || (destruct (Z.leb_spec 1 c); lia)).
    destruct (Z.leb_spec 1 c); cbn; lia.
  - pose proof (allow_others now who ip rate b c l Hne Hl) as Hl'.
    destruct (allow now ip l) as [ok l']. cbn [snd] in Hl'.
    rewrite bool_decide_false, andb_false_r by done. rewrite (IH c l' Hc Hl').
    unfold requests_of. by rewrite filter_cons_False by congruence.
Qed.

(** in a burst, an address gets exactly as many requests through as its burst allows, or all
    of them if there are fewer, whatever other addresses send in between. Counting in floating
    point loses nothing below 2^53. *)
Theorem burst_per_address now who ips rate b :
  0 <= rate < 2 ^ 53 -> 0 <= b < 2 ^ 53 ->
  granted now who ips (RpcRateLimiter_new rate b) = Z.min b (requests_of who ips).
Proof.
  intros Hr Hb. apply (granted_credit now who rate b); [lia..|].
  split; cbn; [by apply of_u64_exact..|]. exists ∅. split; [done|]. by rewrite lookup_empty.
Qed.

(** ** Listeners *)

Definition listener_safe (l : Listener) : Prop :=
  (is_loopback (ip (listens_at l)) = true \/ tls l = true) /\
  (label l = "admin" -> exists t, token l = Some t /\ 32 <= Z.of_nat (String.length t)).

Section listeners.
Context `{!ConfigOps} (header_value : string -> bool) (spawned : string -> Result string unit).

Lemma spawn_ok lbl a cert key t :
  is_loopback (ip a) = true \/ is_Some cert /\ is_Some key -> spawned lbl = Ok tt ->
  spawn_rpc_listener spawned lbl a cert key t =
  Ok {| label := lbl; listens_at := a;
        tls := bool_decide (is_Some cert) && bool_decide (is_Some key); token := t |}.
Proof.
  intros Ha Hs. unfold spawn_rpc_listener. destruct Ha as [->|[Hc Hk]]; cbn [negb andb].
  - by rewrite Hs.
  - rewrite !(bool_decide_true (is_Some _)) by done. cbn. rewrite andb_false_r. by rewrite Hs.
Qed.

Lemma secure_router_ok c : Forall (fun o => header_value o = true) (cors_origins c) ->
  secure_router header_value c = Ok tt.
Proof.
  unfold secure_router. intros Ho. induction Ho as [|o os Ho Hos IH]; cbn; [done|]. rewrite Ho.
  cbn. destruct (collect_result _ os); done.
Qed.

(** a configuration that passes [validate_rpc_security] starts its listeners, and safely: a
    public one, and an administration one exactly when it has an address; each is on loopback or
    encrypted, and the administration one has a token of at least 32 characters. *)
Theorem validated_listeners_start c :
  validate_rpc_security c = Ok tt ->
  Forall (fun o => header_value o = true) (rpc_cors_origins c) -> (forall l, spawned l = Ok tt) ->
  exists listeners, start_rpc_servers header_value spawned (rpc_server_config c) = Ok listeners /\
    map listens_at listeners = rpc_addr c :: option_list (rpc_admin_addr c) /\
    Forall listener_safe listeners.
Proof.
  intros Hv Ho Hs. apply validate_rpc_security_Ok in Hv as (Hpair & Hpub & Hadmin).
  assert (Htls : forall a, is_loopback (ip a) = true \/ is_Some (rpc_tls_cert c) ->
    is_loopback (ip a) = true \/ is_Some (rpc_tls_cert c) /\ is_Some (rpc_tls_key c)) by tauto.
  assert (Hsafe : forall a, is_loopback (ip a) = true \/ is_Some (rpc_tls_cert c) ->
    is_loopback (ip a) = true \/
    bool_decide (is_Some (rpc_tls_cert c)) && bool_decide (is_Some (rpc_tls_key c)) = true)
    by (intros a [|Hc]; [by left|right; rewrite !bool_decide_true by tauto; done]).
  unfold start_rpc_servers. rewrite secure_router_ok by done. cbn.
  rewrite spawn_ok by auto. cbn. destruct (rpc_admin_addr c) as [a|].
  - destruct (Hadmin a eq_refl) as ((t & -> & Ht) & Ha). cbn.
    rewrite spawn_ok by auto. cbn. eexists. split; [done|]. split; [done|].
    apply Forall_cons; split; [split; cbn; [auto|done]|]. apply Forall_singleton.
    split; cbn; [auto|]. intros _. by exists t.
  - eexists. split; [done|]. split; [done|]. apply Forall_singleton. split; cbn; [auto|done].
Qed.
End listeners.

Module AccessExamples.
Import ConfigSpec.ConfigExamples.
Definition admin_ip : IpAddr := V4 127 0 0 1.
Definition other_ip : IpAddr := V4 10 0 0 7.

(** The limiter of two requests: the third is refused, another address is not affected. *)
Lemma burst_per_address_witness :
  granted 5 admin_ip [admin_ip; other_ip; admin_ip; admin_ip] (RpcRateLimiter_new 1 2) = 2.
Proof. rewrite burst_per_address by lia. reflexivity. Defined.

Lemma validated_listeners_start_witness : exists c listeners,
  parsed_config = Some c /\
  start_rpc_servers (fun _ => true) (fun _ => Ok tt) (rpc_server_config c) = Ok listeners /\
  map listens_at listeners = rpc_addr c :: option_list (rpc_admin_addr c) /\
  Forall listener_safe listeners.
Proof.
  pose proof parses as Hok. unfold parsed_config.
  assert (Hv : match result_ok parsed.1 with Some c => validate_rpc_security c = Ok tt /\ rpc_cors_origins c = [] | None => False end)
    by (vm_compute; split; reflexivity).
  destruct (result_ok parsed.1) as [c|]; [|destruct Hv]. destruct Hv as [Hv Hc].
  destruct (validated_listeners_start (fun _ => true) (fun _ => Ok tt) c Hv) as (l & Hl).
  - rewrite Hc. constructor.
  - reflexivity.
  - exists c, l. split; [reflexivity|exact Hl].
Defined.
End AccessExamples.
