(* ===== verification/Gateway.v ===== *)
(** The gateway: gateway/mod.rs, which registers the node with a directory over plain HTTP and asks
    it for peers, and [service_gateway_once] of main.rs.

    Connecting, the socket's timeouts and writing the request are a parameter: what the server then
    sends. JSON is serde_json's: class [GatewayJson]. *)
From Stdlib Require Import ZArith Lia Ascii.
From stdpp Require Import base numbers option strings list gmap pretty.
From S2P Require Import Prelude BTree PaqusCore Net Mempool Compact Snapshot Recovery Lmdb Storage Cache Miner.
From S2P Require Import NodeState Node Message Transport Handler Peer Sync Connection Config PeerFile RpcAccess Http Service.
Open Scope Z_scope.

(** ** Text *)

(** [str::trim_end_matches('/')] and [contains('/')] *)
Fixpoint drop_slashes (s : string) : string :=
  match s with
  | String c rest => if bool_decide (c = "/"%char) then drop_slashes rest else s
  | EmptyString => ""
  end.
Definition trim_slashes (s : string) : string := String.rev (drop_slashes (String.rev s)).
Fixpoint has_slash (s : string) : bool :=
  match s with EmptyString => false | String c s => bool_decide (c = "/"%char) || has_slash s end.

Definition starts_with (prefix s : string) : bool := bool_decide (is_Some (strip_prefix prefix s)).
Definition read_http_response (s : list ReadEvent) : Result string string :=
  response ← read_loop "gateway" "response" (S (stream_weight s)) [] s;
  if negb (utf8_valid response) then Err "failed to decode gateway response" else
  match find_blank response with
  | None => Err ("invalid gateway response: " +:+ string_of_bytes response)
  | Some n =>
      let head := string_of_bytes (take n response) in
      let body := string_of_bytes (drop (n + 4) response) in
      if negb (starts_with "HTTP/1.1 200" head) && negb (starts_with "HTTP/1.1 201" head)
      then Err ("gateway returned error: " +:+ body) else Ok body
  end.

(** ** Requests *)

Record RegisterRequest := {
  r_peer_id : option string; r_address : string; r_chain_id : Z; r_chain_name : string;
  r_protocol_stage : string; r_protocol_version : Z; r_network_magic : string;
  r_best_height : option Z; r_tip_hash : option string
}.
Record HeartbeatRequest := {
  h_peer_id : option string; h_address : string; h_best_height : option Z; h_tip_hash : option string
}.
Class GatewayJson := {
  register_json : RegisterRequest -> Result string string;
  heartbeat_json : HeartbeatRequest -> Result string string;
  (** the addresses of a [PeersResponse] *)
  peers_response_json : string -> Result string (list string)
}.

Section gateway.
Context `{!ChainParams} `{!ConfigOps} `{!GatewayJson}.
(** [connect_timeout], [configure_stream] and [write_all] *)
Context (exchange : SocketAddr -> bytes -> Result string (list ReadEvent)).

Definition GatewayEndpoint_parse (url : string) : Result string SocketAddr :=
  let value := match strip_prefix "http://" url with
               | Some v => v
               | None => unwrap_or url (strip_prefix "https://" url)
               end in
  let value := trim_slashes value in
  if has_slash value then Err "gateway url path is not supported; use host:port" else
  map_err (fun error => "invalid gateway address `" +:+ url +:+ "`: " +:+ error) (parse_socket value).

Definition get (gateway_url path : string) : Result string string :=
  endpoint ← GatewayEndpoint_parse gateway_url;
  let request := "GET " +:+ path +:+ " HTTP/1.1" +:+ CRLF +:+ "host: " +:+ show_socket endpoint +:+ CRLF
    +:+ "connection: close" +:+ CRLF +:+ CRLF in
  s ← exchange endpoint (as_bytes request);
  read_http_response s.
Definition post_json (gateway_url path : string) (json : Result string string) : Result string string :=
  endpoint ← GatewayEndpoint_parse gateway_url;
  body ← map_err (fun error => "failed to encode gateway request: " +:+ error) json;
  let request := "POST " +:+ path +:+ " HTTP/1.1" +:+ CRLF +:+ "host: " +:+ show_socket endpoint +:+ CRLF
    +:+ "content-type: application/json" +:+ CRLF +:+ "content-length: " +:+ pretty (zlen (as_bytes body)) +:+ CRLF
    +:+ "connection: close" +:+ CRLF +:+ CRLF +:+ body in
  s ← exchange endpoint (as_bytes request);
  read_http_response s.

Definition network_magic_hex : string := hex_encode params_network_magic.
Definition register_peer (gateway_url : string) (public_addr : SocketAddr) (best_height : option Z)
    (tip_hash : option string) : Result string unit :=
  _ ← post_json gateway_url "/v1/node/register" (register_json {|
    r_peer_id := None; r_address := show_socket public_addr; r_chain_id := params_chain_id;
    r_chain_name := params_chain_name; r_protocol_stage := params_protocol_stage;
    r_protocol_version := params_protocol_version; r_network_magic := network_magic_hex;
    r_best_height := best_height; r_tip_hash := tip_hash |});
  Ok tt.
Definition heartbeat_peer (gateway_url : string) (public_addr : SocketAddr) (best_height : option Z)
    (tip_hash : option string) : Result string unit :=
  _ ← post_json gateway_url "/v1/node/heartbeat" (heartbeat_json {|
    h_peer_id := None; h_address := show_socket public_addr; h_best_height := best_height; h_tip_hash := tip_hash |});
  Ok tt.
Definition peers_path (limit : Z) (exclude : option SocketAddr) : string :=
  "/v1/peers?chain_id=" +:+ pretty params_chain_id +:+ "&chain_name=" +:+ params_chain_name
  +:+ "&protocol_stage=" +:+ params_protocol_stage +:+ "&protocol_version=" +:+ pretty params_protocol_version
  +:+ "&network_magic=" +:+ network_magic_hex +:+ "&limit=" +:+ pretty limit
  +:+ match exclude with Some a => "&exclude=" +:+ show_socket a | None => "" end.
Definition request_gateway_peers (gateway_url : string) (limit : Z) (exclude : option SocketAddr)
    : Result string (list PeerInfo) :=
  body ← get gateway_url (peers_path limit exclude);
  addresses ← map_err (fun error => "failed to parse gateway peers response: " +:+ error +:+ ": " +:+ body)
    (peers_response_json body);
  Ok (map (fun a => {| pi_address := a |}) addresses).
End gateway.

(** ** The service *)

Section service.
Context `{PaqusTypes} `{!TxOps} `{!BlockOps} `{!LedgerOps} `{!EventOps} `{!ForkOps}.
Context `{!ConsensusOps} `{!GenesisOps} `{!Borsh} `{!Lmdb} `{!ErrorDisplay} `{!StorageDisplay}.
Context `{!ChainParams} `{!EnvelopeBorsh} `{!ConfigOps} `{!GatewayJson} {Ch : Type} `{!Write Ch}.
Context (env : ServiceEnv (Ch := Ch)) (unconnected : Link (Ch := Ch)).
(** The server's answers, by the number of readings made *)
Context (server : nat -> SocketAddr -> bytes -> Result string (list ReadEvent)).

Definition node_tip : ST Service unit (option Z * option string) :=
  tip ← on_link (with_lock (E := NodeError) (se_world env) (node_only (
          n ← st_get; mret (tip_height n, hex_encode <$> tip_hash n)))) unconnected;
  mret (match tip.1 with Ok (Ok tip) => tip | _ => (None, None) end).

(** [last] is [last_gateway]; its new value is returned. [gateway_heartbeat] is in seconds. *)
Definition service_gateway_once (c : RunConfig) (last : Z) (public_fallback : option SocketAddr)
    : ST Service unit Z :=
  match gateway_url c with
  | None => mret last
  | Some url =>
      now1 ← now env;
      if saturating_sub now1 last <? secs (gateway_heartbeat c) then mret last else
      last ← now env;
      let public_addr := match head (public_addrs c) with
                         | Some a => a
                         | None => unwrap_or (rpc_addr c) public_fallback
                         end in
      tip ← node_tip;
      registering ← see server;
      let _ := register_peer registering url public_addr tip.1 tip.2 in
      beating ← see server;
      let _ := heartbeat_peer beating url public_addr tip.1 tip.2 in
      asking ← see server;
      match request_gateway_peers asking url (max_peers c) (Some public_addr) with
      | Err _ => mret last
      | Ok discovered =>
          if_locked env PeerTable (st_for (fun info =>
            match parse_socket (pi_address info) with
            | Err _ => mret tt
            | Ok a => enter_peer env a
            end) discovered) ;;
          mret last
      end
  end.
End service.

(** * Theorems and witnesses

    The gateway client reads exactly the announced body, however the response arrives; the addresses
    a gateway names enter the peer table as new peers only. *)
From stdpp Require Import relations.
From S2P Require Import MempoolInv.
From S2P Require Import NodeOrphans NodeMempool Session.
From S2P Require Import ServiceSpec.

(** ** Reading a response *)

(** A response with status 200 and a content length reaches the caller as its body, exactly:
    however the bytes are cut into pieces, and whatever follows - more bytes, silence until the
    timeout because the server keeps the connection open, or its end. *)
Theorem http_body_exact head body pieces rest :
  find_blank (head ++ blank_line) = Some (length head) ->
  utf8_valid head = true -> utf8_valid body = true ->
  header_length head = Some (zlen body) -> starts_with "HTTP/1.1 200" (string_of_bytes head) = true ->
  zlen (head ++ blank_line ++ body) <= U64_MAX ->
  concat pieces = head ++ blank_line ++ body -> Forall (fun p => p <> []) pieces ->
  read_http_response (map Arrives pieces ++ rest) = Ok (string_of_bytes body).
Proof.
  intros Hblank Hhead Hbody Hlength Hok Hfits E Hne. unfold read_http_response.
  rewrite (read_loop_body "gateway" "response" head body) with (got := []); try done; cycle 1.
  { rewrite !length_app. cbn. lia. }
  { rewrite weight_app. lia. }
  cbn [mbind result_bind]. rewrite !utf8_valid_app by done. cbn [negb].
  pose proof (find_blank_take head body (length (head ++ blank_line ++ body)) Hblank) as Hf.
  rewrite take_ge in Hf by lia. rewrite decide_True in Hf by (rewrite !length_app; cbn; lia).
  rewrite Hf, take_app_length, Hok. cbn [negb andb]. f_equal. f_equal.
  rewrite app_assoc, drop_app_length'; [done|]. rewrite length_app. cbn. lia.
Qed.

(** ** The service *)

Section service.
Context `{PaqusTypes} `{!TxOps} `{!BlockOps} `{!LedgerOps} `{!EventOps} `{!ForkOps}.
Context `{!ConsensusOps} `{!GenesisOps} `{!Borsh} `{!Lmdb} `{!ErrorDisplay} `{!StorageDisplay}.
Context `{!ChainParams} `{!EnvelopeBorsh} `{!ConfigOps} `{!GatewayJson} {Ch : Type} `{!Write Ch}.
Context (clock : nat -> Z) (env : ServiceEnv (Ch := Ch)) (unconnected : Link (Ch := Ch)).
Context (server : nat -> SocketAddr -> bytes -> Result string (list ReadEvent)).
Context (Hnode : forall t n, rtc (node_step clock) n (env_others (se_world env) t n)).
Context (Htables : forall k t, peer_table_wf (t_peers t) -> peer_table_wf (t_peers (se_others env k t))).

(** Whatever the gateway answers, the node only changes by its operations and the peer table stays
    well formed. *)
Lemma served_gateway n0 c last fallback :
  st_preserves (served clock n0) (service_gateway_once env unconnected server c last fallback).
Proof.
  unfold service_gateway_once, node_tip, if_locked. st_steps ltac:(first
    [ apply served_see | by apply served_lock | apply served_enter
    | apply served_link, node_from_lock; [exact Hnode|]; intros ?; apply node_only_moves; intros ?; apply rtc_refl ]).
Qed.
End service.

Module GatewayExamples.
Definition head : bytes := as_bytes ("HTTP/1.1 200 OK" +:+ CRLF +:+ "Content-Length: 2").
Definition body : bytes := as_bytes "{}".
Definition whole : bytes := head ++ blank_line ++ body.
Definition pieces : list bytes := [take 20 whole; take 18 (drop 20 whole); drop 38 whole].
Definition silence : IoError := {| io_kind := TimedOut; io_text := "timed out" |}.

Lemma http_body_exact_witness : read_http_response (map Arrives pieces ++ [Breaks silence]) = Ok (string_of_bytes body).
Proof.
  refine (http_body_exact head body pieces [Breaks silence] _ _ _ _ _ _ _ _);
    [vm_compute; reflexivity..|vm_compute; discriminate|vm_compute; reflexivity|].
  repeat (constructor; [vm_compute; discriminate|]). constructor.
Defined.

(** A content length close to the largest integer wraps around: a response whose body has not
    arrived counts as complete. *)
Definition boundless : bytes :=
  as_bytes ("HTTP/1.1 200 OK" +:+ CRLF +:+ "Content-Length: 18446744073709551615" +:+ CRLF +:+ CRLF).
Lemma length_wraps : response_body_complete "gateway" boundless = Ok true.
Proof. vm_compute. reflexivity. Qed.
End GatewayExamples.
