(* ===== verification/Mining.v ===== *)
(** Mining rounds: mining.rs.

    A round prepares a candidate under the node's lock, searches without it, and takes the lock
    again to apply the block if the tip has not moved. What happens outside is [MinerEnv]: the
    clocks, the shutdown flag, a poisoned lock and what other threads did to the node before it is
    locked, as functions of the number of readings made. [Instant] is in nanoseconds; adding the
    mining interval to it does not overflow. Console output is left out. *)
From Stdlib Require Import ZArith Lia.
From stdpp Require Import base numbers option strings list gmap pretty relations.
From S2P Require Import Prelude BTree PaqusCore Mempool MempoolInv Compact Recovery Lmdb Storage Cache Miner.
From S2P Require Import NodeState Node NodeOrphans NodeMempool Config.
Open Scope Z_scope.

Definition UNLIMITED_MINE_NONCE_EPOCH_SIZE : Z := Z.shiftl 1 48.

(** [AtomicU64] counters *)
Record MiningStats := { last_hashrate_hps : Z; last_attempts : Z; next_nonce : Z }.

(** [attempts * 10^9 / nanoseconds], at most [u64::MAX] *)
Definition update_stats (attempts elapsed : Z) (s : MiningStats) : MiningStats := {|
  last_hashrate_hps := Z.min (attempts * 1000000000 / Z.max elapsed 1) U64_MAX;
  last_attempts := attempts;
  next_nonce := next_nonce s
|}.
Definition next_start_nonce (mine_attempts : Z) (s : MiningStats) : Z * MiningStats :=
  if mine_attempts =? 0 then
    ((next_nonce s * UNLIMITED_MINE_NONCE_EPOCH_SIZE) mod 2 ^ 64,
     {| last_hashrate_hps := last_hashrate_hps s; last_attempts := last_attempts s;
        next_nonce := u64_wrapping_add (next_nonce s) 1 |})
  else
    (next_nonce s,
     {| last_hashrate_hps := last_hashrate_hps s; last_attempts := last_attempts s;
        next_nonce := u64_wrapping_add (next_nonce s) mine_attempts |}).

Section mining.
Context `{PaqusTypes} `{!TxOps} `{!BlockOps} `{!LedgerOps} `{!EventOps} `{!ForkOps}.
Context `{!ConsensusOps} `{!GenesisOps} `{!Borsh} `{!Lmdb} `{!ErrorDisplay} `{!StorageDisplay}.
Context `{!ChainParams}.
Context (clock : nat -> Z).

Record MinerWorld := { miner_node : Node; miner_stats : MiningStats; miner_readings : nat }.
Record MinerEnv := {
  me_nanos : nat -> Z;
  (** the seconds of [SystemTime::now()], none before the epoch *)
  me_unix : nat -> option Z;
  me_stop : nat -> bool;
  me_poisoned : nat -> bool;
  me_others : nat -> Node -> Node
}.
Context (env : MinerEnv).
Abbreviation Mine := (ST MinerWorld string).

Definition set_miner_node (n : Node) (w : MinerWorld) : MinerWorld :=
  {| miner_node := n; miner_stats := miner_stats w; miner_readings := miner_readings w |}.
Definition set_miner_stats (s : MiningStats) (w : MinerWorld) : MinerWorld :=
  {| miner_node := miner_node w; miner_stats := s; miner_readings := miner_readings w |}.
Definition set_miner_readings (k : nat) (w : MinerWorld) : MinerWorld :=
  {| miner_node := miner_node w; miner_stats := miner_stats w; miner_readings := k |}.

Definition reading {A} (f : nat -> A) : Mine A :=
  fun w => (Ok (f (miner_readings w)), set_miner_readings (S (miner_readings w)) w).
(** [node_state.lock()]: the guard is the node the other threads left. *)
Definition lock_node : Mine unit :=
  poisoned ← reading (me_poisoned env);
  if poisoned : bool then st_fail "node state lock poisoned" else
  others ← reading (me_others env);
  st_modify (fun w => set_miner_node (others (miner_node w)) w).
Definition on_locked {E A} (text : E -> string) (m : ST Node E A) : Mine A :=
  st_zoom miner_node set_miner_node (st_map_err text m).

Definition unix_timestamp : Mine Z :=
  now ← reading (me_unix env); st_lift (ok_or now "system clock is before unix epoch").
Definition candidate_timestamp (_ : Node) (now : Z) : Z := now.

(** The candidate, the consensus rules and the search parameters, taken under the lock. *)
Definition prepare_round (c : RunConfig) (now : Z) : Mine (Block * Consensus * MiningConfig) :=
  lock_node ;;
  on_locked show_mempool_error (st_zoom mempool set_mempool (evict_by_policy now)) ;;
  w ← st_get;
  let n := miner_node w in
  let timestamp := candidate_timestamp n now in
  difficulty ← st_lift (map_err show_node_error (next_difficulty_at n timestamp));
  let rate := unwrap_or (dynamic_market_fee_rate (mempool n)) (miner_min_fee_rate c) in
  candidate ← st_lift (map_err (fun e => "failed to prepare mining candidate: " +:+ show_consensus e)
    (prepare_candidate_block (mempool n) (ledger n) (miner_address c) MAX_BLOCK_DECODE_ITEMS rate difficulty));
  nonce ← st_zoom miner_stats set_miner_stats (st_step (next_start_nonce (mine_attempts c)));
  mret (candidate, consensus n, {| mining_difficulty := difficulty; start_nonce := nonce;
    max_attempts := mine_attempts c; transaction_limit := MAX_BLOCK_DECODE_ITEMS; min_fee_rate := rate |}).

(** [shutdown_requested.load() || rebuild_deadline.is_some_and(..)] before an attempt *)
Definition should_stop (start : nat) (deadline : option Z) (attempt : Z) : bool :=
  let k := (start + Z.to_nat attempt)%nat in
  me_stop env k || match deadline with Some d => d <=? me_nanos env k | None => false end.

Definition extends_tip (candidate : Block) (n : Node) : bool :=
  if block_is_genesis candidate then match tip_hash n with None => true | Some _ => false end
  else bool_decide (tip_hash n = Some (block_previous_hash candidate)).

(** Applying what was found, if the tip has not moved. *)
Definition apply_mined (candidate : Block) (result : MiningResult) : Mine (option Block) :=
  lock_node ;;
  w ← st_get;
  if negb (extends_tip candidate (miner_node w)) then mret None else
  on_locked (fun e => "failed to apply mined block: " +:+ show_node_error e)
    (apply_block clock (result_block result)) ;;
  on_locked (fun e => "failed to flush mined block: " +:+ show_node_error e) flush_to_storage ;;
  mret (Some (result_block result)).

Definition mine_once (c : RunConfig) : Mine (option Block) :=
  now ← unix_timestamp;
  round ← prepare_round c now;
  let '(candidate, rules, cfg) := round in
  started ← reading (me_nanos env);
  let deadline := if mine_attempts c =? 0 then Some (started + mine_interval c * 1000000000) else None in
  w ← st_get;
  search ← st_lift (map_err (fun e => "mining failed: " +:+ show_consensus e)
    (mine_prepared_block_until_with_attempts candidate rules cfg (should_stop (miner_readings w) deadline)));
  let '(mined, attempted) := search in
  st_modify (fun w => set_miner_readings (miner_readings w + S (Z.to_nat attempted)) w) ;;
  ended ← reading (me_nanos env);
  let elapsed := Z.max 0 (ended - started) in
  match mined with
  | None => st_modify (fun w => set_miner_stats (update_stats attempted elapsed (miner_stats w)) w) ;; mret None
  | Some result =>
      st_modify (fun w => set_miner_stats (update_stats (result_attempts result) elapsed (miner_stats w)) w) ;;
      apply_mined candidate result
  end.
End mining.

(** * Theorems and witnesses

    Mining rounds: what a round that finds a block has done, the node's invariants through a round
    with other threads at work, and rounds that never try the same nonce twice. *)
From S2P Require Import Toy.
From S2P Require Import StorageExamples NodeExamples HandlerSpec ConfigSpec.

(** ** Nonces *)

(** The start nonces of [k] rounds one after the other. *)
Fixpoint round_starts (k : nat) (attempts : Z) (s : MiningStats) : list Z :=
  match k with
  | O => []
  | S k => (next_start_nonce attempts s).1 :: round_starts k attempts (next_start_nonce attempts s).2
  end.
(** How many nonces a round has to itself. *)
Definition round_span (attempts : Z) : Z :=
  if attempts =? 0 then UNLIMITED_MINE_NONCE_EPOCH_SIZE else attempts.

Lemma epoch_size : UNLIMITED_MINE_NONCE_EPOCH_SIZE = 2 ^ 48.
Proof. reflexivity. Qed.
(** Up to multiples of 2^64 the [i]-th start is [i] spans after the first. *)
Lemma round_starts_lookup k attempts s i start :
  round_starts k attempts s !! i = Some start ->
  exists q, start = (if attempts =? 0 then next_nonce s * 2 ^ 48 else next_nonce s)
    + Z.of_nat i * round_span attempts + q * 2 ^ 64.
Proof.
  unfold round_span. rewrite epoch_size. revert s i. induction k as [|k IH]; intros s i Hs; [done|].
  cbn [round_starts] in Hs. unfold next_start_nonce in Hs. rewrite epoch_size in Hs.
  destruct i as [|i]; cbn [lookup list_lookup] in Hs; [|apply IH in Hs as (q & ->)]; clear IH.
  - destruct (attempts =? 0); cbn [fst] in Hs; injection Hs as <-; [|exists 0; lia].
    exists (- (next_nonce s * 2 ^ 48 / 2 ^ 64)). pose proof (Z.div_mod (next_nonce s * 2 ^ 48) (2 ^ 64)). lia.
  - destruct (attempts =? 0); cbn [snd next_nonce]; unfold u64_wrapping_add.
    + pose proof (Z.div_mod (next_nonce s + 1) (2 ^ 64) ltac:(lia)) as E.
      exists (q - ((next_nonce s + 1) / 2 ^ 64) * 2 ^ 48). lia.
    + pose proof (Z.div_mod (next_nonce s + attempts) (2 ^ 64) ltac:(lia)) as E.
      exists (q - (next_nonce s + attempts) / 2 ^ 64). lia.
Qed.
Lemma round_starts_length k attempts s : length (round_starts k attempts s) = k.
Proof. revert s. induction k as [|k IH]; intros s; cbn; [done|]. by rewrite IH. Qed.

(** rounds do not repeat each other's work: as long as the spans of [k] rounds fit into 64
    bits, no nonce is tried in two of them, whatever the counter started with; an unlimited
    round has 2^48 nonces to itself, a limited one as many as its attempts. *)
Theorem rounds_disjoint k attempts s i j start_i start_j x y :
  0 <= attempts -> Z.of_nat k * round_span attempts <= 2 ^ 64 ->
  round_starts k attempts s !! i = Some start_i -> round_starts k attempts s !! j = Some start_j ->
  i <> j -> 0 <= x < round_span attempts -> 0 <= y < round_span attempts ->
  u64_wrapping_add start_i x <> u64_wrapping_add start_j y.
Proof.
  intros Ha Hk Hi Hj Hne Hx Hy E. pose proof (lookup_lt_Some _ _ _ Hi) as Hil.
  pose proof (lookup_lt_Some _ _ _ Hj) as Hjl. rewrite round_starts_length in *.
  apply round_starts_lookup in Hi as (qi & ->), Hj as (qj & ->).
  unfold u64_wrapping_add in E. revert E. set (span := round_span attempts) in *.
  set (base := if attempts =? 0 then _ else _). intros E.
  assert (Hq : exists q, (Z.of_nat i - Z.of_nat j) * span + (x - y) = q * 2 ^ 64).
  { set (a := base + Z.of_nat i * span + qi * 2 ^ 64 + x) in *.
    set (b := base + Z.of_nat j * span + qj * 2 ^ 64 + y) in *.
    exists (a / 2 ^ 64 - b / 2 ^ 64 - qi + qj).
    pose proof (Z.div_mod a (2 ^ 64) ltac:(lia)). pose proof (Z.div_mod b (2 ^ 64) ltac:(lia)). lia. }
  destruct Hq as [q Hq]. assert (Hspan : 0 < span) by lia.
  assert (Hlt : - (Z.of_nat k * span) < (Z.of_nat i - Z.of_nat j) * span + (x - y) < Z.of_nat k * span) by nia.
  assert (q = 0) as -> by nia. nia.
Qed.

Section mining_spec.
Context `{PaqusTypes} `{!TxOps} `{!BlockOps} `{!LedgerOps} `{!EventOps} `{!ForkOps}.
Context `{!ConsensusOps} `{!GenesisOps} `{!Borsh} `{!Lmdb} `{!ErrorDisplay} `{!StorageDisplay}.
Context `{!ChainParams}.
Context (clock : nat -> Z) (env : MinerEnv).
Implicit Types (c : RunConfig) (w : MinerWorld) (b : Block) (n : Node).

(** ** A round that finds a block *)

(** Peels the steps of a round that succeeds. *)
Ltac peel Hst := apply st_bind_inv in Hst as [(? & _ & ?)|(? & ? & ? & Hst)]; [done|].

Lemma prepare_round_Ok c now w candidate rules cfg w' :
  prepare_round env c now w = (Ok (candidate, rules, cfg), w') ->
  exists n, rules = consensus n /\ max_attempts cfg = mine_attempts c /\
    prepare_candidate_block (mempool n) (ledger n) (miner_address c) MAX_BLOCK_DECODE_ITEMS
      (Miner.min_fee_rate cfg) (mining_difficulty cfg) = Ok candidate.
Proof.
  unfold prepare_round. intros E. peel E. peel E. st_simpl_in E.
  destruct (next_difficulty_at _ _) as [d|]; cbn [map_err] in E; st_simpl_in E; [|done].
  destruct (prepare_candidate_block _ _ _ _ _ _) as [b|] eqn:Eb; cbn [map_err] in E; st_simpl_in E; [|done].
  peel E. injection E as <- <- <- _. eexists. split_and!; [done|done|exact Eb].
Qed.
Lemma on_locked_Ok {E A} (text : E -> string) (f : ST Node E A) w a w' :
  on_locked text f w = (Ok a, w') ->
  f (miner_node w) = (Ok a, miner_node w') /\ miner_stats w' = miner_stats w.
Proof.
  unfold on_locked, st_zoom, st_map_err. destruct (f (miner_node w)) as [[a'|e] n']; [|done].
  by intros [= -> <-].
Qed.
Lemma apply_mined_Ok candidate result w b w' :
  apply_mined clock env candidate result w = (Ok (Some b), w') ->
  b = result_block result /\ exists n1 n2, extends_tip candidate n1 = true /\
    apply_block clock b n1 = (Ok tt, n2) /\ flush_to_storage n2 = (Ok tt, miner_node w').
Proof.
  unfold apply_mined. intros E. peel E. st_simpl_in E.
  destruct (extends_tip candidate _) eqn:Et; cbn [negb] in E; [|done].
  apply st_bind_inv in E as [(? & _ & ?)|([] & w2 & E2 & E)]; [done|].
  apply st_bind_inv in E as [(? & _ & ?)|([] & w3 & E3 & E)]; [done|].
  apply on_locked_Ok in E2 as [E2 _]. apply on_locked_Ok in E3 as [E3 _]. injection E as <- <-. eauto 10.
Qed.


(** ** The node through a round *)

Section rounds.
Context (Hothers : forall t n, rtc (node_step clock) n (me_others env t n)) (n0 : Node).
Definition miner_from w : Prop := rtc (node_step clock) n0 (miner_node w).

Lemma reading_from {A} (f : nat -> A) : st_preserves miner_from (reading f).
Proof. by intros w Hw. Qed.
Lemma lock_from : st_preserves miner_from (lock_node env).
Proof.
  intros w Hw. unfold lock_node, mbind, st_bind, reading. destruct (me_poisoned env _); [exact Hw|].
  unfold st_modify, miner_from. cbn [miner_node set_miner_node snd]. etrans; [exact Hw|apply Hothers].
Qed.
Lemma on_locked_from {E A} (text : E -> string) (f : ST Node E A) :
  (forall n, node_step clock n (f n).2) -> st_preserves miner_from (on_locked text f).
Proof.
  intros Hf w Hw. unfold on_locked, st_zoom, st_map_err, miner_from in *. specialize (Hf (miner_node w)).
  destruct (f (miner_node w)) as [r n']. cbn. by eapply rtc_r.
Qed.
Lemma evict_steps now n : node_step clock n (st_zoom mempool set_mempool (evict_by_policy now) n).2.
Proof.
  pose proof (step_evict clock now n) as Hs. revert Hs. unfold on_mempool, st_zoom.
  by destruct (evict_by_policy now (mempool n)).
Qed.
Lemma mine_once_from c : st_preserves miner_from (mine_once clock env c).
Proof.
  unfold mine_once, unix_timestamp, prepare_round, apply_mined. st_steps ltac:(first
    [ apply reading_from | apply lock_from
    | apply on_locked_from; intros n; first [apply evict_steps | constructor]
    | apply st_preserves_modify; by intros ? ?
    | apply st_preserves_zoom; by intros ]).
Qed.
End rounds.

(** mining round after mining round the node keeps its invariants, whatever other threads do
    with its operations while a search is running, and whatever a round returns. *)
Theorem mining_keeps_node l e rules accs start cs w :
  (forall t n, rtc (node_step clock) n (me_others env t n)) ->
  try_with_genesis_accounts l e rules accs = Ok start -> miner_node w = start ->
  let after := fold_left (fun w c => (mine_once clock env c w).2) cs w in
  pool_wf (miner_node after) /\ mempool_wf (mempool (miner_node after)).
Proof.
  intros Hothers Hnew Hw after. apply (node_steps_wf clock _ _ _ _ start _ Hnew).
  change (miner_from start after). subst after.
  assert (H0' : miner_from start w) by (unfold miner_from; by rewrite Hw). clear Hw. revert w H0'.
  induction cs as [|c cs IH]; intros w Hw; [done|]. cbn. by apply IH, mine_once_from.
Qed.
End mining_spec.

Module MiningExamples.
Import Toy StorageToy NodeToy MinerExamples ConfigExamples.

Definition alone : MinerEnv := {|
  me_nanos k := Z.of_nat k * 1000; me_unix _ := Some 60; me_stop _ := false; me_poisoned _ := false;
  me_others _ n := n |}.
Definition rig : RunConfig :=
  set_mine_attempts 500 (default_with testnet []).
Definition idle_stats : MiningStats := {| last_hashrate_hps := 0; last_attempts := 0; next_nonce := 0 |}.
Definition bench : MinerWorld := {| miner_node := fresh; miner_stats := idle_stats; miner_readings := 0 |}.
Definition round := mine_once clock alone rig bench.
Definition found (r : Result string (option Block)) : bool := match r with Ok (Some _) => true | _ => false end.
Lemma round_finds : found round.1 = true.
Proof. vm_compute. reflexivity. Qed.
End MiningExamples.

Module MiningWitnesses.
Import Toy StorageToy NodeToy MinerExamples ConfigExamples MiningExamples.
#[local] Opaque fresh.

Lemma rounds_disjoint_witness :
  u64_wrapping_add 0 99 <> u64_wrapping_add 200 5.
Proof.
  refine (rounds_disjoint 3 100 idle_stats 0 2 0 200 99 5 _ _ _ _ _ _ _).
  - lia.
  - vm_compute. discriminate.
  - reflexivity.
  - reflexivity.
  - discriminate.
  - unfold round_span. cbn. lia.
  - unfold round_span. cbn. lia.
Defined.


Lemma mining_keeps_node_witness :
  pool_wf (miner_node (fold_left (fun w c => (mine_once clock alone c w).2) [rig; rig] bench)) /\
  mempool_wf (mempool (miner_node (fold_left (fun w c => (mine_once clock alone c w).2) [rig; rig] bench))).
Proof.
  refine (mining_keeps_node clock alone _ _ _ _ fresh [rig; rig] bench _ fresh_eq eq_refl).
  intros t n. apply rtc_refl.
Defined.
End MiningWitnesses.
