(* ===== verification/Rpc.v ===== *)
(** The RPC handlers that change the node: rpc/transactions.rs, rpc/mining.rs, rpc/recovery.rs and
    [rpc_add_peer] of rpc/api.rs.

    A handler is a program on [RpcState]: the node, the peer table and the connections behind
    their locks, and the counters. A lock that was poisoned stays poisoned. The JSON of a request
    is its record; a response is the record the handler would render. Decoding and signing are
    the paqus crate's, class [RpcOps]; connecting and sending are parameters, as in [Gossip]. *)
From Stdlib Require Import ZArith Lia Ascii.
From stdpp Require Import base numbers option strings list gmap pretty.
From S2P Require Import Prelude BTree PaqusCore Net Mempool Compact Recovery Lmdb Storage Cache Miner.
From S2P Require Import NodeState Node Message Handler Gossip Peer Config Mining RpcAccess.
Open Scope Z_scope.

Record Mutex (A : Type) := { poisoned : bool; guarded : A }.
Arguments poisoned {A}.
Arguments guarded {A}.
Arguments Build_Mutex {A}.
Definition set_guarded {A} (a : A) (m : Mutex A) : Mutex A := {| poisoned := poisoned m; guarded := a |}.

(** [u64::checked_*] *)
Definition checked_mul (a b : Z) : option Z := if a * b <=? U64_MAX then Some (a * b) else None.
Definition checked_add (a b : Z) : option Z := if a + b <=? U64_MAX then Some (a + b) else None.
Definition checked_sub (a b : Z) : option Z := if b <=? a then Some (a - b) else None.

(** [KeyPair] *)
Record KeyPair := { public_key : bytes; secret_key_bytes : bytes }.

(** What the handlers take from the paqus crate. *)
Class RpcOps `{PaqusTypes} := {
  address_to_string : Address -> string;
  (** the text of [address_from_string]'s error on this text *)
  address_error : string -> string;
  (** [try_from_slice] of the signed transactions, with the error's text *)
  batch_from_slice : bytes -> Result string SignedBatchTransfer;
  qcash_from_slice : bytes -> Result string SignedQCashTransaction;
  protocol_from_slice : bytes -> Result string SignedProtocolTransaction;
  batch_hash : SignedBatchTransfer -> Result CodecError TransactionHash;
  qcash_hash : SignedQCashTransaction -> Result CodecError TransactionHash;
  (** [paqus::transaction::BatchTransfer], the unsigned transfer *)
  Transfer : Type;
  Transfer_new : Address -> list TransferOutput -> Transfer;
  with_last_state : Hash -> Transfer -> Transfer;
  signing_bytes : Transfer -> Result CodecError bytes;
  transfer_validate : Transfer -> Result TransactionError unit;
  transaction_bytes : Transfer -> Result CodecError bytes;
  transfer_total_amount : Transfer -> Result TransactionError Amount;
  MAX_BATCH_OUTPUTS : Z;
  sign : bytes -> bytes -> bytes;
  (** [SignedBatchTransfer::new_authorized] *)
  new_authorized : Transfer -> bytes -> bytes -> bytes -> bytes -> SignedBatchTransfer;
  XPQ : Z;
  FAUCET_MAX_REQUEST : Z;
  faucet_keypairs : KeyPair * KeyPair;
  (** [canonical_bytes] of a rollback proof *)
  bundle_bytes : RollbackProofBundle -> Result CodecError bytes
}.

(** ** Requests and responses *)

Record SubmitTxResponse := { accepted : bool; hash_text : string }.
(** [already_pending] is rendered only when it holds. *)
Record QCashSubmitResponse := {
  qcash_accepted : bool; already_pending : bool; qcash_hash_text : string; pending_status : string
}.
Record FaucetResponse := {
  coin : string; amount_xpq : Z; faucet_recipient : string; faucet_hash : string
}.
Record MiningTemplateResponse := {
  job_id : string; block_text : string; template_height : Z; template_previous_hash : string;
  template_difficulty : Z; algorithm : string
}.
Record SubmitBlockResponse := { block_accepted : bool; accepted_height : Z; accepted_hash : string }.
Record AddPeerResponse := { peer_accepted : bool; peer_text : string; known_peers : Z }.
Record RollbackIssueResponse := {
  id_text : string;
  disconnected_height : Z;
  disconnected_hash : string;
  response_transaction_index : Z;
  response_transaction_hash : string;
  family_text : string;
  affected_texts : list string;
  signed_transaction : string;
  rollback_proof_text : option string;
  status_text : string;
  reconfirmed_height : option Z;
  reconfirmed_block_hash : option string;
  response_detected_at : Z;
  response_retry_attempts : Z;
  response_last_error : option string
}.

Section rpc.
Context `{PaqusTypes} `{!TxOps} `{!BlockOps} `{!LedgerOps} `{!EventOps} `{!ForkOps}.
Context `{!ConsensusOps} `{!GenesisOps} `{!Borsh} `{!Lmdb} `{!ErrorDisplay} `{!StorageDisplay}.
Context `{!ChainParams} `{!ConfigOps} `{!RpcOps}.
Context (clock : nat -> Z).
Context {Conn : Type} (connect : SocketAddr -> Result string Conn).
Context (send : NetworkMessage -> ST Conn string unit).

Record RpcState := {
  node : Mutex Node;
  rpc_peers : Mutex (gmap SocketAddr PeerState);
  peer_connections : Mutex (gmap SocketAddr Conn);
  inbound_connections : Mutex (gmap SocketAddr Conn);
  accepted_tx_total : Z;
  broadcast_tx_total : Z
}.
Abbreviation Rpc := (ST RpcState HttpError).

Definition set_node (n : Node) (s : RpcState) : RpcState := {|
  node := set_guarded n (node s); rpc_peers := rpc_peers s; peer_connections := peer_connections s;
  inbound_connections := inbound_connections s; accepted_tx_total := accepted_tx_total s;
  broadcast_tx_total := broadcast_tx_total s |}.
Definition set_rpc_peers (p : gmap SocketAddr PeerState) (s : RpcState) : RpcState := {|
  node := node s; rpc_peers := set_guarded p (rpc_peers s); peer_connections := peer_connections s;
  inbound_connections := inbound_connections s; accepted_tx_total := accepted_tx_total s;
  broadcast_tx_total := broadcast_tx_total s |}.
Definition set_connections (out inn : gmap SocketAddr Conn) (s : RpcState) : RpcState := {|
  node := node s; rpc_peers := rpc_peers s;
  peer_connections := set_guarded out (peer_connections s);
  inbound_connections := set_guarded inn (inbound_connections s);
  accepted_tx_total := accepted_tx_total s; broadcast_tx_total := broadcast_tx_total s |}.
(** [fetch_add(1)] on the two counters *)
Definition count_accepted (s : RpcState) : RpcState := {|
  node := node s; rpc_peers := rpc_peers s; peer_connections := peer_connections s;
  inbound_connections := inbound_connections s;
  accepted_tx_total := u64_wrapping_add (accepted_tx_total s) 1;
  broadcast_tx_total := broadcast_tx_total s |}.
Definition count_broadcast (s : RpcState) : RpcState := {|
  node := node s; rpc_peers := rpc_peers s; peer_connections := peer_connections s;
  inbound_connections := inbound_connections s; accepted_tx_total := accepted_tx_total s;
  broadcast_tx_total := u64_wrapping_add (broadcast_tx_total s) 1 |}.

Definition internal (error : string) : HttpError := rpc_error INTERNAL_SERVER_ERROR error.
Definition bad_request (error : string) : HttpError := rpc_error BAD_REQUEST error.
(** [match state.node.lock()] around a program on the node *)
Definition with_node {A} (m : ST Node HttpError A) : Rpc A :=
  s ← st_get;
  if poisoned (node s) then st_fail (internal "state_lock_failed") else
  st_zoom (fun s => guarded (node s)) set_node m.
Definition broadcast (m : NetworkMessage) : Rpc BroadcastReport :=
  st_step (fun s =>
    let '(report, out, inn) := broadcast_to_peers connect send (poisoned (rpc_peers s))
      (poisoned (peer_connections s)) (poisoned (inbound_connections s))
      (map_to_list (guarded (rpc_peers s))).*1 m
      (guarded (peer_connections s)) (guarded (inbound_connections s)) in
    (report, set_connections out inn s)).

(** ** command/parse.rs: signed transactions *)

Definition from_hex {A} (kind : string) (decode : bytes -> Result string A) (value : string)
    : Result string A :=
  raw ← ok_or (hex_decode value) ("invalid " +:+ kind +:+ "transaction hex");
  map_err (fun error => "invalid signed " +:+ kind +:+ "transaction bytes: " +:+ error) (decode raw).
Definition signed_transaction_from_hex := from_hex "" batch_from_slice.
Definition signed_qcash_transaction_from_hex := from_hex "QCash " qcash_from_slice.
Definition signed_protocol_transaction_from_hex := from_hex "protocol " protocol_from_slice.

(** ** Submitting transactions *)

Definition is_duplicate_submission (e : NodeError) : bool :=
  match e with NodeMempool DuplicateTransaction => true | _ => false end.
Definition transaction_rejection_status (e : NodeError) : string :=
  match e with
  | NodeMempool (InvalidTransaction ValidityExpired)
  | NodeMempool (InvalidLedgerState (LedgerInvalidTransaction ValidityExpired)) => "expired"
  | _ => "rejected"
  end.
(** Under the lock: [true] when the transaction is new, [false] when it was pending already. *)
Definition submit_locked (hash : TransactionHash) (tx : SignedProtocolTransaction) (flush : bool)
    : ST Node HttpError bool :=
  n ← st_get;
  let already_pending := contains (mempool n) hash in
  submitted ← st_try (submit_protocol_transaction clock tx);
  match submitted with
  | Err e =>
      if already_pending && is_duplicate_submission e then mret false else
      st_fail (rpc_transaction_rejected (transaction_rejection_status e) (show_node_error e))
  | Ok _ =>
      (if flush
       then st_map_err (fun e => internal ("failed to flush transaction: " +:+ show_node_error e)) flush_to_storage
       else mret tt) ;;
      mret true
  end.
Definition submit_response (hash : TransactionHash) : SubmitTxResponse :=
  {| accepted := true; hash_text := hex_encode hash |}.

Definition rpc_submit_tx (request : string) : Rpc SubmitTxResponse :=
  tx ← st_lift (map_err (rpc_transaction_rejected "rejected") (signed_transaction_from_hex request));
  hash ← st_lift (map_err (fun e => internal (show_codec e)) (batch_hash tx));
  fresh ← with_node (submit_locked hash (BatchTransfer tx) true);
  if negb fresh then mret (submit_response hash) else
  st_modify count_accepted ;;
  broadcast (MsgTransaction (BatchTransfer tx)) ;;
  st_modify count_broadcast ;;
  mret (submit_response hash).

Definition rpc_submit_protocol_tx (request : string) : Rpc SubmitTxResponse :=
  tx ← st_lift (map_err (rpc_transaction_rejected "rejected") (signed_protocol_transaction_from_hex request));
  hash ← st_lift (map_err (fun e => internal (show_codec e)) (tx_hash tx));
  fresh ← with_node (submit_locked hash tx true);
  if negb fresh then mret (submit_response hash) else
  broadcast (MsgTransaction tx) ;;
  mret (submit_response hash).

(** Neither flushed nor broadcast. *)
Definition rpc_submit_qcash_tx (request : string) : Rpc QCashSubmitResponse :=
  tx ← st_lift (map_err (rpc_transaction_rejected "rejected") (signed_qcash_transaction_from_hex request));
  hash ← st_lift (map_err (fun e => internal (show_codec e)) (qcash_hash tx));
  fresh ← with_node (submit_locked hash (QCash tx) false);
  mret {| qcash_accepted := true; already_pending := negb fresh; qcash_hash_text := hex_encode hash;
          pending_status := "pending" |}.

(** ** The faucet of the test networks *)

(** [others] is what other threads do to the node between the two times it is locked; [coin] is
    the feature's coin name. *)
Definition faucet_amount (requested : option Z) : Result HttpError Z :=
  let amount_xpq := unwrap_or 100 requested in
  match checked_mul amount_xpq XPQ with
  | Some amount =>
      if (0 <? amount) && (amount <=? FAUCET_MAX_REQUEST) then Ok amount else
      Err (rpc_transaction_rejected "invalid_amount"
        ("faucet amount must be between 1 and " +:+ pretty (FAUCET_MAX_REQUEST / XPQ) +:+ " XPQ"))
  | None =>
      Err (rpc_transaction_rejected "invalid_amount"
        ("faucet amount must be between 1 and " +:+ pretty (FAUCET_MAX_REQUEST / XPQ) +:+ " XPQ"))
  end.
Definition faucet_address : Address :=
  dual_address_from_public_keys (public_key faucet_keypairs.1) (public_key faucet_keypairs.2).
(** The transfer, from the faucet account's view. *)
Definition faucet_transfer (recipient : Address) (amount : Amount) (n : Node) : Result HttpError Transfer :=
  account ← ok_or (account_view n faucet_address) (rpc_error SERVICE_UNAVAILABLE
    "faucet account is absent; reset this test-network database to the faucet genesis");
  if view_balance account <? amount
  then Err (rpc_error SERVICE_UNAVAILABLE "faucet balance exhausted") else
  Ok (with_last_state (view_statement account)
        (Transfer_new faucet_address [{| to := ToAddress recipient; amount := amount |}])).
Definition sign_faucet (t : Transfer) (payload : bytes) : SignedBatchTransfer :=
  new_authorized t (public_key faucet_keypairs.1) (sign (secret_key_bytes faucet_keypairs.1) payload)
    (public_key faucet_keypairs.2) (sign (secret_key_bytes faucet_keypairs.2) payload).
Definition submit_faucet (tx : SignedBatchTransfer) : ST Node HttpError unit :=
  submitted ← st_try (submit_transaction clock tx);
  match submitted with
  | Err e => st_fail (rpc_transaction_rejected (transaction_rejection_status e) (show_node_error e))
  | Ok _ => st_map_err (fun e => internal (show_node_error e)) flush_to_storage
  end.
Definition rpc_faucet (others : Node -> Node) (coin address : string) (requested : option Z)
    : Rpc FaucetResponse :=
  recipient ← st_lift (map_err (rpc_transaction_rejected "invalid_address") (address_string address));
  amount ← st_lift (faucet_amount requested);
  transfer ← with_node (n ← st_get; st_lift (faucet_transfer recipient amount n));
  payload ← st_lift (map_err (fun e => internal (show_codec e)) (signing_bytes transfer));
  let signed := sign_faucet transfer payload in
  hash ← st_lift (map_err (fun e => internal (show_codec e)) (batch_hash signed));
  with_node (st_modify others ;; submit_faucet signed) ;;
  broadcast (MsgTransaction (BatchTransfer signed)) ;;
  mret {| coin := coin; amount_xpq := unwrap_or 100 requested; faucet_recipient := address;
          faucet_hash := hex_encode hash |}.

(** ** Mining for others *)

(** [now] is [unix_timestamp()]. *)
Definition template_locked (miner : Address) (now : Z) : ST Node HttpError Block :=
  st_map_err (fun e => internal (show_mempool_error e))
    (st_zoom mempool set_mempool (evict_by_policy now)) ;;
  n ← st_get;
  let timestamp := candidate_timestamp n now in
  difficulty ← st_lift (map_err (fun e => internal ("difficulty_unavailable: " +:+ show_node_error e))
    (next_difficulty_at n timestamp));
  st_lift (map_err (fun e => internal ("template_failed: " +:+ show_consensus e))
    (prepare_candidate_block (mempool n) (ledger n) miner MAX_BLOCK_DECODE_ITEMS
       (dynamic_market_fee_rate (mempool n)) difficulty)).
(** The hash is asked first, so its error is the one reported. *)
Definition template_response (candidate : Block) : Result CodecError MiningTemplateResponse :=
  hash ← block_hash candidate;
  raw ← block_bytes candidate;
  Ok {| job_id := hex_encode hash; block_text := hex_encode raw;
        template_height := block_height candidate;
        template_previous_hash := hex_encode (block_previous_hash candidate);
        template_difficulty := block_difficulty candidate; algorithm := params_pow_algorithm |}.
Definition rpc_mining_template (now : Result string Z) (miner : string) : Rpc MiningTemplateResponse :=
  miner ← st_lift (ok_or (address_from_string miner) (bad_request "invalid_miner_address"));
  now ← st_lift (map_err internal now);
  candidate ← with_node (template_locked miner now);
  st_lift (map_err (fun e => internal (show_codec e)) (template_response candidate)).

Definition submit_block_locked (b : Block) : ST Node HttpError unit :=
  st_map_err (fun e => bad_request ("block_rejected: " +:+ show_node_error e)) (apply_block clock b) ;;
  st_map_err (fun e => internal ("block_flush_failed: " +:+ show_node_error e)) flush_to_storage.
Definition rpc_submit_mined_block (block : string) : Rpc SubmitBlockResponse :=
  raw ← st_lift (ok_or (hex_decode block) (bad_request "invalid_block_hex"));
  b ← st_lift (map_err (fun e => bad_request ("invalid_block: " +:+ show_codec e)) (decode_block raw));
  hash ← st_lift (map_err (fun e => bad_request (show_codec e)) (block_hash b));
  with_node (submit_block_locked b) ;;
  broadcast (MsgBlock b) ;;
  mret {| block_accepted := true; accepted_height := block_height b; accepted_hash := hex_encode hash |}.
(** ** Rollback records *)

Definition family_name (f : TransactionFamily) : string :=
  match f with FamilyBatchTransfer => "batchtransfer" | FamilyQCash => "qcash" end.
Definition rollback_issue_response (issue : RollbackIssue) (proof_bundle : option RollbackProofBundle)
    : Result string RollbackIssueResponse :=
  let '(text, height, block) :=
    match status issue with
    | Detected => ("detected", None, None)
    | Requeued => ("requeued", None, None)
    | Conflict => ("conflict", None, None)
    | Reconfirmed height hash => ("reconfirmed", Some height, Some (hex_encode hash))
    end in
  raw ← map_err (fun e => "failed to encode recovery transaction: " +:+ show_codec e)
          (tx_to_bytes (issue_transaction issue));
  proof ← match proof_bundle with
          | None => Ok None
          | Some bundle =>
              encoded ← map_err (fun e => "failed to encode rollback proof bundle: " +:+ show_codec e)
                          (bundle_bytes bundle);
              Ok (Some (hex_encode encoded))
          end;
  Ok {| id_text := hex_encode (issue_id issue);
        disconnected_height := disconnected_block_height issue;
        disconnected_hash := hex_encode (disconnected_block_hash issue);
        response_transaction_index := transaction_index issue;
        response_transaction_hash := hex_encode (issue_transaction_hash issue);
        family_text := family_name (family issue);
        affected_texts := map address_to_string (issue_affected_accounts issue);
        signed_transaction := hex_encode raw; rollback_proof_text := proof; status_text := text;
        reconfirmed_height := height; reconfirmed_block_hash := block;
        response_detected_at := detected_at issue; response_retry_attempts := retry_attempts issue;
        response_last_error := last_error issue |}.
Definition rollback_issue_list_response (issues : list RollbackIssue)
    : Result string (list RollbackIssueResponse) :=
  collect_result (fun issue => rollback_issue_response issue None) issues.
Definition parse_rollback_issue_id (value : string) : Result string RollbackIssueId :=
  raw ← ok_or (hex_decode value) "invalid_rollback_issue_id";
  if zlen raw =? 32 then Ok raw else Err "invalid_rollback_issue_id".

(** The record with its proof, as the two handlers answer. *)
Definition answer_issue (n : Node) (found : option RollbackIssue) : Result HttpError RollbackIssueResponse :=
  issue ← ok_or found (rpc_error NOT_FOUND "rollback_issue_not_found");
  map_err internal
    (bundle ← map_err show_node_error (rollback_proof_bundle n issue);
     rollback_issue_response issue (Some bundle)).
Definition rpc_account_rollback_issues (address : string) : Rpc (list RollbackIssueResponse) :=
  a ← st_lift (ok_or (address_from_string address) (bad_request (address_error address)));
  with_node (n ← st_get;
    issues ← st_lift (map_err (fun e => internal (show_node_error e)) (rollback_issues_for_account n a));
    st_lift (map_err internal (rollback_issue_list_response issues))).
Definition rpc_rollback_issue (id : string) : Rpc RollbackIssueResponse :=
  id ← st_lift (map_err bad_request (parse_rollback_issue_id id));
  with_node (n ← st_get;
    found ← st_lift (map_err (fun e => internal (show_node_error e)) (rollback_issue n id));
    st_lift (answer_issue n found)).
Definition rpc_retry_rollback_issue (id : string) : Rpc RollbackIssueResponse :=
  id ← st_lift (map_err bad_request (parse_rollback_issue_id id));
  with_node (
    found ← st_map_err (fun e => internal (show_node_error e)) (retry_rollback_issue clock id);
    n ← st_get;
    st_lift (answer_issue n found)).

(** ** Peers *)

(** [at_] and [wall] are the clocks [PeerState::new] reads. *)
Definition rpc_add_peer (at_ wall : Z) (request : string) : Rpc AddPeerResponse :=
  peer ← st_lift (map_err (fun error => bad_request ("invalid peer address: " +:+ error)) (parse_socket request));
  s ← st_get;
  if poisoned (rpc_peers s) then st_fail (internal "state_lock_failed") else
  let peers := guarded (rpc_peers s) in
  let peers := match peers !! peer with
               | Some _ => peers
               | None => <[peer := peer_new peer at_ wall]> peers
               end in
  st_modify (set_rpc_peers peers) ;;
  mret {| peer_accepted := true; peer_text := show_socket peer; known_peers := Z.of_nat (size peers) |}.
End rpc.
