(* ===== verification/RpcSpec.v ===== *)
(** The RPC handlers and the node: what the answer to a submission means, and that every request
    keeps the node and the peer table well formed. *)
From Stdlib Require Import ZArith Lia.
From stdpp Require Import base numbers option strings list gmap relations.
From S2P Require Import Prelude BTree PaqusCore Net Mempool MempoolInv Compact Recovery Lmdb Storage Cache Miner.
From S2P Require Import NodeState Node NodeOrphans NodeMempool Message Handler HandlerSpec Gossip Peer.
From S2P Require Import Config Mining RpcAccess Rpc.
Open Scope Z_scope.

Section rpc_spec.
Context `{PaqusTypes} `{!TxOps} `{!BlockOps} `{!LedgerOps} `{!EventOps} `{!ForkOps}.
Context `{!ConsensusOps} `{!GenesisOps} `{!Borsh} `{!Lmdb} `{!ErrorDisplay} `{!StorageDisplay}.
Context `{!ChainParams} `{!ConfigOps} `{!RpcOps}.
Context (clock : nat -> Z).
Context {Conn : Type} (connect : SocketAddr -> Result string Conn).
Context (send : NetworkMessage -> ST Conn string unit).
Implicit Types (s : RpcState (Conn := Conn)) (n : Node).

Definition pool s : Mempool := mempool (guarded (node s)).

(** ** Submitting *)

(** A hash that is pooled is not admitted again, and asking changes nothing. *)
Lemma insert_pooled l now tx h m :
  tx_hash tx = Ok h -> is_Some (mp_transactions m !! h) ->
  exists e, insert_validated l now tx m = (Err e, m).
Proof.
  intros Hh Hin. unfold insert_validated.
  destruct (tx_to_bytes tx) as [b|e]; cbn [map_err]; st_simpl; [|by eexists].
  destruct (_ <? _); [by eexists|]. rewrite Hh. cbn [map_err]. st_simpl.
  destruct (1 <? _); [by eexists|].
  rewrite (proj2 (bt_contains_true _ _) Hin). cbn [orb]. by eexists.
Qed.

(** What is pooled under a hash has it. *)
Definition pooled (m : Mempool) (h : TransactionHash) (tx : SignedProtocolTransaction) : Prop :=
  mp_transactions m !! h = Some tx /\ tx_hash tx = Ok h.

Lemma flush_mempool n : mempool (flush_to_storage n).2 = mempool n.
Proof.
  assert (Hk : st_keeps mempool flush_to_storage) by (unfold flush_to_storage; keep).
  by apply st_keeps_eq.
Qed.

Lemma submit_run tx n :
  exists k, submit_protocol_transaction clock tx n =
    let '(r, m) := insert_validated (ledger n) (clock (clock_reads n)) tx (mempool n) in
    (map_err NodeMempool r, set_mempool m (set_clock_reads k n)).
Proof.
  exists (S (clock_reads n)). unfold submit_protocol_transaction, current_unix_timestamp, on_mempool, mbind, st_bind, st_get. cbn.
  by destruct (insert_validated _ _ _ _) as [[]].
Qed.

Lemma submit_locked_Ok h tx flush n fresh n' :
  mempool_wf (mempool n) -> tx_hash tx = Ok h -> submit_locked clock h tx flush n = (Ok fresh, n') ->
  if fresh : bool then pooled (mempool n') h tx
  else mempool n' = mempool n /\ exists tx', pooled (mempool n) h tx'.
Proof.
  intros Hwf Hh Hrun. unfold submit_locked in Hrun. st_simpl_in Hrun.
  unfold st_try, mbind, st_bind in Hrun. destruct (submit_run tx n) as [k Hsub].
  rewrite Hsub in Hrun. destruct (insert_validated _ _ _ _) as [r m] eqn:Ei.
  pose proof (insert_validated_inv _ _ _ _ _ _ Hwf Ei) as Hcase.
  destruct Hcase as [(e & -> & _)|(h1 & m1 & -> & Had & ->)]; cbn [map_err fst snd] in Hrun.
  - destruct (contains (mempool n) h) eqn:Hin; cbn [andb] in Hrun; [|done].
    unfold contains in Hin. apply bt_contains_true in Hin.
    destruct (is_duplicate_submission (NodeMempool e)); [|done]. injection Hrun as <- <-.
    destruct (insert_pooled (ledger n) (clock (clock_reads n)) tx h _ Hh Hin) as [e' Ei'].
    rewrite Ei in Ei'. injection Ei' as _ ->. split; [done|]. destruct Hin as [tx' Htx].
    exists tx'. split; [done|]. exact (proj1 (wf_entry _ Hwf _ _ Htx)).
  - pose proof (ad_hash _ _ _ _ _ _ Had) as Hh1. rewrite Hh in Hh1. injection Hh1 as <-.
    assert (Hp : pooled (admitted h tx (clock (clock_reads n)) m1) h tx).
    { split; [|done]. cbn. apply bt_lookup_insert_eq. }
    destruct flush; [|by injection Hrun as <- <-].
    unfold st_map_err in Hrun.
    pose proof (flush_mempool (set_mempool (admitted h tx (clock (clock_reads n)) m1) (set_clock_reads k n))) as Hf.
    destruct (flush_to_storage _) as [[] n2]; [|done]. injection Hrun as <- <-. cbn in Hf. by rewrite Hf.
Qed.

Lemma with_node_run {A} (m : ST Node HttpError A) s r s' :
  with_node m s = (r, s') ->
  poisoned (node s) = true /\ r = Err (internal "state_lock_failed") /\ s' = s \/
  poisoned (node s) = false /\ exists n', m (guarded (node s)) = (r, n') /\ s' = set_node n' s.
Proof.
  unfold with_node. st_simpl. destruct (poisoned (node s)); [by intros [= <- <-]; left|].
  unfold st_zoom. destruct (m (guarded (node s))) as [r1 n']. intros [= <- <-]. right. eauto.
Qed.
Lemma broadcast_node m s : node (broadcast connect send m s).2 = node s.
Proof. unfold broadcast, st_step. by destruct (broadcast_to_peers _ _ _ _ _ _ _ _ _) as [[report out] inn]. Qed.
Lemma broadcast_Ok m s : exists report, (broadcast connect send m s).1 = Ok report.
Proof. unfold broadcast, st_step. by destruct (broadcast_to_peers _ _ _ _ _ _ _ _ _) as [[report out] inn]; eexists. Qed.

(** What a submission leaves behind, from the state before to the state after. *)
Definition submitted (tx : SignedProtocolTransaction) (text : string) s s' : Prop :=
  exists h, tx_hash tx = Ok h /\ text = hex_encode h /\
    (pooled (pool s') h tx \/ pool s' = pool s /\ exists tx', pooled (pool s) h tx').

Lemma submitted_intro h tx flush s fresh s1 s' :
  mempool_wf (pool s) -> tx_hash tx = Ok h ->
  with_node (submit_locked clock h tx flush) s = (Ok fresh, s1) -> node s' = node s1 ->
  submitted tx (hex_encode h) s s'.
Proof.
  intros Hwf Hh Hrun Hn. exists h. split; [done|]. split; [done|].
  apply with_node_run in Hrun as [(_ & [=] & _)|(_ & n' & Hrun & ->)].
  apply submit_locked_Ok in Hrun; [|done..]. unfold pool in *. rewrite Hn. cbn.
  destruct fresh; [by left|by right].
Qed.

(** The hash of a signed transfer is the hash the node files it under. *)
Class HashLaws : Prop := {
  batch_hash_law t : batch_hash t = tx_hash (BatchTransfer t);
  qcash_hash_law t : qcash_hash t = tx_hash (QCash t)
}.

Lemma submit_tx_Ok `{!HashLaws} request s r s' :
  mempool_wf (pool s) -> rpc_submit_tx clock connect send request s = (Ok r, s') ->
  exists tx, signed_transaction_from_hex request = Ok tx /\
    submitted (BatchTransfer tx) (hash_text r) s s'.
Proof.
  intros Hwf. unfold rpc_submit_tx. destruct (signed_transaction_from_hex request) as [tx|]; cbn [map_err]; st_simpl; [|done].
  rewrite batch_hash_law. destruct (tx_hash _) as [h|] eqn:Hh; cbn [map_err]; st_simpl; [|done].
  intros Hrun. exists tx. split; [done|].
  apply st_bind_inv in Hrun as [(? & _ & ?)|(fresh & s1 & Hlock & Hrun)]; [done|].
  destruct fresh; cbn [negb] in Hrun.
  - st_simpl_in Hrun. unfold mbind, st_bind in Hrun.
    pose proof (broadcast_node (MsgTransaction (BatchTransfer tx)) (count_accepted s1)) as Hb.
    destruct (broadcast _ _ _ _) as [[] s2]; [|done]. cbn in Hrun. injection Hrun as <- <-.
    by apply (submitted_intro h _ true s true s1).
  - injection Hrun as <- <-. by apply (submitted_intro h _ true s false s1).
Qed.
Lemma submit_protocol_Ok request s r s' :
  mempool_wf (pool s) -> rpc_submit_protocol_tx clock connect send request s = (Ok r, s') ->
  exists tx, signed_protocol_transaction_from_hex request = Ok tx /\ submitted tx (hash_text r) s s'.
Proof.
  intros Hwf. unfold rpc_submit_protocol_tx. destruct (signed_protocol_transaction_from_hex request) as [tx|]; cbn [map_err]; st_simpl; [|done].
  destruct (tx_hash _) as [h|] eqn:Hh; cbn [map_err]; st_simpl; [|done].
  intros Hrun. exists tx. split; [done|].
  apply st_bind_inv in Hrun as [(? & _ & ?)|(fresh & s1 & Hlock & Hrun)]; [done|].
  destruct fresh; cbn [negb] in Hrun.
  - unfold mbind, st_bind in Hrun. pose proof (broadcast_node (MsgTransaction tx) s1) as Hb.
    destruct (broadcast _ _ _ _) as [[] s2]; [|done]. injection Hrun as <- <-.
    by apply (submitted_intro h _ true s true s1).
  - injection Hrun as <- <-. by apply (submitted_intro h _ true s false s1).
Qed.
Lemma submit_qcash_Ok `{!HashLaws} request s r s' :
  mempool_wf (pool s) -> rpc_submit_qcash_tx clock request s = (Ok r, s') ->
  exists tx, signed_qcash_transaction_from_hex request = Ok tx /\
    submitted (QCash tx) (qcash_hash_text r) s s'.
Proof.
  intros Hwf. unfold rpc_submit_qcash_tx. destruct (signed_qcash_transaction_from_hex request) as [tx|]; cbn [map_err]; st_simpl; [|done].
  rewrite qcash_hash_law. destruct (tx_hash _) as [h|] eqn:Hh; cbn [map_err]; st_simpl; [|done].
  intros Hrun. exists tx. split; [done|].
  apply st_bind_inv in Hrun as [(? & _ & ?)|(fresh & s1 & Hlock & Hrun)]; [done|].
  injection Hrun as <- <-. by apply (submitted_intro h _ false s fresh s1).
Qed.

(** C9: a transaction that is reported as accepted is in the pool under the hash reported, by
    each of the three ways to submit one: it was admitted, or a transaction with its hash was
    pooled before and the pool is as it was. *)
Theorem accepted_is_pooled `{!HashLaws} request s :
  mempool_wf (pool s) ->
  (forall r s', rpc_submit_tx clock connect send request s = (Ok r, s') ->
     exists tx, signed_transaction_from_hex request = Ok tx /\ submitted (BatchTransfer tx) (hash_text r) s s') /\
  (forall r s', rpc_submit_protocol_tx clock connect send request s = (Ok r, s') ->
     exists tx, signed_protocol_transaction_from_hex request = Ok tx /\ submitted tx (hash_text r) s s') /\
  (forall r s', rpc_submit_qcash_tx clock request s = (Ok r, s') ->
     exists tx, signed_qcash_transaction_from_hex request = Ok tx /\ submitted (QCash tx) (qcash_hash_text r) s s').
Proof.
  intros Hwf. split_and!; intros r s' Hrun;
    [by apply submit_tx_Ok|by apply submit_protocol_Ok|by apply submit_qcash_Ok].
Qed.

(** ** Every request keeps the node *)

(** The requests that change something; [others] are the other threads while the faucet does
    not hold the node. *)
Inductive RpcCall :=
| CallSubmitTx (request : string)
| CallSubmitProtocolTx (request : string)
| CallSubmitQCashTx (request : string)
| CallFaucet (others : Node -> Node) (coin address : string) (amount : option Z)
| CallTemplate (now : Result string Z) (miner : string)
| CallSubmitBlock (block : string)
| CallRetry (id : string)
| CallAddPeer (at_ wall : Z) (peer : string).
Definition serve (c : RpcCall) s : RpcState :=
  match c with
  | CallSubmitTx request => (rpc_submit_tx clock connect send request s).2
  | CallSubmitProtocolTx request => (rpc_submit_protocol_tx clock connect send request s).2
  | CallSubmitQCashTx request => (rpc_submit_qcash_tx clock request s).2
  | CallFaucet others coin address amount =>
      (rpc_faucet clock connect send others coin address amount s).2
  | CallTemplate now miner => (rpc_mining_template now miner s).2
  | CallSubmitBlock block => (rpc_submit_mined_block clock connect send block s).2
  | CallRetry id => (rpc_retry_rollback_issue clock id s).2
  | CallAddPeer at_ wall peer => (rpc_add_peer at_ wall peer s).2
  end.
Definition lawful (c : RpcCall) : Prop :=
  match c with CallFaucet others _ _ _ => forall n, rtc (node_step clock) n (others n) | _ => True end.

Section from.
Context (n0 : Node).
Definition from n : Prop := rtc (node_step clock) n0 n.
Definition rpc_from s : Prop := from (guarded (node s)) /\ peer_table_wf (guarded (rpc_peers s)).

Lemma from_step {E A} (f : ST Node E A) : (forall n, node_step clock n (f n).2) -> st_preserves from f.
Proof. intros Hf n Hn. eapply rtc_r; [exact Hn|apply Hf]. Qed.
Lemma with_node_from {A} (m : ST Node HttpError A) : st_preserves from m -> st_preserves rpc_from (with_node m).
Proof.
  intros Hm s [Hn Hp]. destruct (with_node m s) as [r s'] eqn:E.
  apply with_node_run in E as [(_ & _ & ->)|(_ & n' & E & ->)]; [done|].
  split; [|done]. cbn. specialize (Hm _ Hn). by rewrite E in Hm.
Qed.
Lemma broadcast_from m : st_preserves rpc_from (broadcast connect send m).
Proof.
  intros s Hs. unfold broadcast, st_step, rpc_from in *.
  by destruct (broadcast_to_peers _ _ _ _ _ _ _ _ _) as [[report out] inn].
Qed.
Lemma submit_from tx : st_preserves from (submit_protocol_transaction clock tx).
Proof. apply from_step. constructor. Qed.
Lemma apply_block_from b : st_preserves from (apply_block clock b).
Proof. apply from_step. constructor. Qed.
Lemma flush_from : st_preserves from flush_to_storage.
Proof. apply from_step. constructor. Qed.
Lemma retry_from id : st_preserves from (retry_rollback_issue clock id).
Proof. apply from_step. constructor. Qed.
Lemma evict_from now : st_preserves from (st_zoom mempool set_mempool (evict_by_policy now)).
Proof. apply from_step. intros n. apply evict_steps. Qed.
Ltac rpc_steps tac := st_steps ltac:(first
  [ tac | apply broadcast_from | apply submit_from | apply apply_block_from | apply flush_from
  | apply retry_from | apply evict_from | apply st_preserves_try | apply st_preserves_map_err
  | match goal with |- st_preserves rpc_from (with_node _) => apply with_node_from end
  | match goal with |- st_preserves rpc_from (st_modify _) =>
      apply st_preserves_modify; by intros ? [? ?] end ]).

Lemma submit_locked_from h tx flush : st_preserves from (submit_locked clock h tx flush).
Proof. unfold submit_locked. rpc_steps fail. Qed.
Lemma submit_faucet_from tx : st_preserves from (submit_faucet clock tx).
Proof. unfold submit_faucet, submit_transaction. rpc_steps fail. Qed.

Lemma add_peer_from at_ wall request : st_preserves rpc_from (rpc_add_peer at_ wall request).
Proof.
  unfold rpc_add_peer. destruct (parse_socket request) as [a|]; cbn [map_err]; [|by intros s Hs].
  intros s [Hn Hp]. st_simpl. destruct (poisoned (rpc_peers s)); [done|]. split; [done|]. cbn.
  destruct (guarded (rpc_peers s) !! a) as [p|] eqn:E; [done|].
  apply map_Forall_insert_2; [|done]. split; [done|apply peer_new_wf].
Qed.

Lemma serve_from c : lawful c -> st_preserves (E := HttpError) rpc_from (fun s => (Ok tt, serve c s)).
Proof.
  intros Hc s. change (rpc_from s -> rpc_from (serve c s)). revert s.
  destruct c as [request|request|request|others coin address amount|now miner|block|id|at_ wall peer];
    cbn [serve lawful] in *.
  - change (st_preserves rpc_from (rpc_submit_tx clock connect send request)).
    unfold rpc_submit_tx. rpc_steps ltac:(apply submit_locked_from).
  - change (st_preserves rpc_from (rpc_submit_protocol_tx clock connect send request)).
    unfold rpc_submit_protocol_tx. rpc_steps ltac:(apply submit_locked_from).
  - change (st_preserves rpc_from (rpc_submit_qcash_tx (Conn := Conn) clock request)).
    unfold rpc_submit_qcash_tx. rpc_steps ltac:(apply submit_locked_from).
  - change (st_preserves rpc_from (rpc_faucet clock connect send others coin address amount)).
    assert (Hothers : st_preserves (E := HttpError) from (st_modify others))
      by (intros n Hn; unfold from in *; cbn; etrans; [exact Hn|apply Hc]).
    assert (Hlock : forall tx, st_preserves from (st_modify others ;; submit_faucet clock tx)).
    { intros tx. apply st_preserves_bind; [exact Hothers|]. intros _. apply submit_faucet_from. }
    unfold rpc_faucet. rpc_steps ltac:(idtac; match goal with
      |- st_preserves from (mbind _ (st_modify others)) => apply Hlock end).
  - change (st_preserves rpc_from (rpc_mining_template (Conn := Conn) now miner)).
    unfold rpc_mining_template, template_locked. rpc_steps fail.
  - change (st_preserves rpc_from (rpc_submit_mined_block clock connect send block)).
    unfold rpc_submit_mined_block, submit_block_locked. rpc_steps fail.
  - change (st_preserves rpc_from (rpc_retry_rollback_issue (Conn := Conn) clock id)).
    unfold rpc_retry_rollback_issue. rpc_steps fail.
  - apply add_peer_from.
Qed.
End from.

(** C7: whatever requests the RPC serves, in whatever order and with whatever arguments, the node
    keeps its invariants and so does the table of peers. *)
Theorem rpc_keeps_node l e rules accs n0 cs s :
  try_with_genesis_accounts l e rules accs = Ok n0 -> guarded (node s) = n0 ->
  peer_table_wf (guarded (rpc_peers s)) -> Forall lawful cs ->
  let after := fold_left (fun s c => serve c s) cs s in
  pool_wf (guarded (node after)) /\ mempool_wf (pool after) /\
  peer_table_wf (guarded (rpc_peers after)).
Proof.
  intros Hnew Hn Hp Hcs after.
  assert (Hafter : rpc_from n0 after).
  { subst after. assert (Hs : rpc_from n0 s) by (split; [rewrite Hn; apply rtc_refl|done]).
    clear Hn Hp. revert s Hs. induction Hcs as [|c cs Hc Hcs IH]; intros s Hs; [done|].
    cbn. apply IH. by apply (serve_from n0 c Hc s Hs). }
  destruct Hafter as [Hfrom Htable]. unfold pool.
  destruct (node_steps_wf clock _ _ _ _ _ _ Hnew Hfrom) as [? ?]. done.
Qed.
End rpc_spec.
