(* ===== verification/RpcEvents.v ===== *)
(** Protocol events over the RPC: rpc/events.rs.

    Lists of events are filtered and paged; the event stream walks the finalized heights. A turn
    of the stream's loop sees the node as other threads left it, so a run of the stream takes the
    nodes seen at its turns. Waiting a second between turns and the SSE framing are left out. *)
From Stdlib Require Import ZArith Lia.
From stdpp Require Import base numbers option strings list gmap.
From S2P Require Import Prelude BTree PaqusCore Net Mempool Compact Recovery Lmdb Storage Cache Miner.
From S2P Require Import NodeState Node Handler Config RpcAccess Rpc.
Open Scope Z_scope.

Record EventQuery := {
  offset : option Z; limit : option Z; kind : option string;
  from_height : option Z; to_height : option Z
}.
Record ProtocolEventResponse (E : Type) := { event_id_text : string; event : E }.
Arguments Build_ProtocolEventResponse {E}.
Arguments event_id_text {E}.
Arguments event {E}.
Record ProtocolEventListResponse (E : Type) := {
  total : Z; list_offset : Z; list_limit : Z; events : list (ProtocolEventResponse E)
}.
Arguments Build_ProtocolEventListResponse {E}.
Arguments total {E}.
Arguments events {E}.

Definition protocol_event_kind_name (k : ProtocolEventKind) : string :=
  match k with
  | EventBatchTransfer _ _ => "transfer"
  | QCashWithdrawn _ => "qcash_withdrawn"
  | QCashRedeemed _ _ => "qcash_redeemed"
  | QCashRecoverRedeemed _ _ => "qcash_recover_redeemed"
  | EventGenesisAllocation _ => "genesis_allocation"
  | CoinbasePaid _ => "coinbase_paid"
  end.
Definition is_protocol_event_kind (k : string) : bool :=
  bool_decide (k ∈ ["transfer"; "qcash_withdrawn"; "qcash_redeemed"; "qcash_recover_redeemed";
                    "genesis_allocation"; "coinbase_paid"]).
Definition protocol_event_involves_address (k : ProtocolEventKind) (a : Address) : bool :=
  match k with
  | EventBatchTransfer from to => bool_decide (from = a) || bool_decide (to = a)
  | QCashWithdrawn signer => bool_decide (signer = a)
  | QCashRedeemed signer recipient => bool_decide (signer = a) || bool_decide (recipient = a)
  | QCashRecoverRedeemed signer claimant => bool_decide (signer = a) || bool_decide (claimant = a)
  | EventGenesisAllocation recipient => bool_decide (recipient = a)
  | CoinbasePaid miner => bool_decide (miner = a)
  end.
(** [Option::is_none_or] *)
Definition is_none_or {A} (p : A -> bool) (o : option A) : bool :=
  match o with Some a => p a | None => true end.

Section events.
Context `{PaqusTypes} `{!TxOps} `{!BlockOps} `{!LedgerOps} `{!EventOps} `{!ForkOps}.
Context `{!ConsensusOps} `{!GenesisOps} `{!Borsh} `{!Lmdb} `{!ErrorDisplay} `{!StorageDisplay}.
Context `{!ConfigOps} `{!RpcOps}.
Context {Conn : Type}.
Abbreviation Rpc := (ST (RpcState (Conn := Conn)) HttpError).
Implicit Types (n : Node).

Definition protocol_event_response (e : ProtocolEvent) : Result CodecError (ProtocolEventResponse ProtocolEvent) :=
  id ← event_id e; Ok {| event_id_text := hex_encode id; event := e |}.

Definition DEFAULT_LIMIT : Z := 100.
Definition MAX_LIMIT : Z := 500.
(** The filter of a list query, with the kind in lower case. *)
Definition event_matches (q : EventQuery) (kind : option string) (e : ProtocolEvent) : bool :=
  is_none_or (fun height => height <=? event_block_height e) (from_height q) &&
  is_none_or (fun height => event_block_height e <=? height) (to_height q) &&
  is_none_or (fun kind => bool_decide (protocol_event_kind_name (event_kind e) = kind)) kind.
Definition protocol_event_list (es : list ProtocolEvent) (q : EventQuery)
    : Result string (ProtocolEventListResponse ProtocolEvent) :=
  let offset := unwrap_or 0 (offset q) in
  let limit := unwrap_or DEFAULT_LIMIT (limit q) in
  if (limit =? 0) || (MAX_LIMIT <? limit) then Err "event_limit_must_be_between_1_and_500" else
  if match from_height q, to_height q with Some from, Some to => to <? from | _, _ => false end
  then Err "event_height_range_is_invalid" else
  let kind := to_ascii_lowercase <$> kind q in
  if negb (is_none_or is_protocol_event_kind kind) then Err "unknown_event_kind" else
  let filtered := List.filter (event_matches q kind) es in
  page ← map_err show_codec (collect_result protocol_event_response
    (take (Z.to_nat limit) (drop (Z.to_nat offset) filtered)));
  Ok {| total := zlen filtered; list_offset := offset; list_limit := limit; events := page |}.

(** [tip.checked_sub(FINALITY_DEPTH)] *)
Definition finalized_event_height (tip : option BlockHeight) : option Z :=
  height ← tip; checked_sub height FINALITY_DEPTH.

(** ** Handlers *)

(** Answering from the locked node, which stays as it is. *)
Definition read_node {A} (f : Node -> Result HttpError A) : Rpc A :=
  with_node (n ← st_get; st_lift (f n)).
Definition load_failed {A} (what : string) (r : Result StorageError A) : Result HttpError A :=
  map_err (fun e => internal (what +:+ show_storage_error e)) r.
Definition list_response (q : EventQuery) (loaded : Result HttpError (list ProtocolEvent)) :=
  es ← loaded; map_err bad_request (protocol_event_list es q).
Definition rpc_event (id : string) : Rpc (ProtocolEventResponse ProtocolEvent) :=
  id ← st_lift (map_err bad_request (hash_hex id));
  read_node (fun n =>
    found ← load_failed "failed to load event: " (load_protocol_event id (storage n));
    e ← ok_or found (rpc_error NOT_FOUND "event_not_found");
    map_err (fun e => internal (show_codec e)) (protocol_event_response e)).
Definition rpc_block_events (height : Z) (q : EventQuery)
    : Rpc (ProtocolEventListResponse ProtocolEvent) :=
  read_node (fun n =>
    found ← load_failed "failed to load block: " (load_block_by_height height (storage n));
    b ← ok_or found (rpc_error NOT_FOUND "block_not_found");
    hash ← map_err (fun e => internal (show_codec e)) (block_hash b);
    list_response q (load_failed "failed to load block events: " (load_block_events hash (storage n)))).
Definition rpc_transaction_events (hash : string) (q : EventQuery)
    : Rpc (ProtocolEventListResponse ProtocolEvent) :=
  hash ← st_lift (map_err bad_request (hash_hex hash));
  read_node (fun n => list_response q
    (load_failed "failed to load transaction events: " (load_transaction_events hash (storage n)))).
Definition rpc_address_events (address : string) (q : EventQuery)
    : Rpc (ProtocolEventListResponse ProtocolEvent) :=
  a ← st_lift (map_err bad_request (address_string address));
  read_node (fun n => list_response q
    (load_failed "failed to load address events: " (load_address_events a (storage n)))).

(** ** The stream *)

Record EventStream := {
  next_height : Z; stream_kind : option string; stream_address : option Address;
  stream_pending : list ProtocolEvent
}.
Definition rpc_event_stream (from : option Z) (kind address : option string) : Rpc EventStream :=
  let kind := to_ascii_lowercase <$> kind in
  if negb (is_none_or is_protocol_event_kind kind) then st_fail (bad_request "unknown_event_kind") else
  a ← match address with
      | Some text => a ← st_lift (map_err bad_request (address_string text)); mret (Some a)
      | None => mret None
      end;
  next ← match from with
         | Some height => mret height
         | None => read_node (fun n => Ok
             match finalized_event_height (tip_height n) with
             | Some height => saturating_add U64_MAX height 1
             | None => 0
             end)
         end;
  mret {| next_height := next; stream_kind := kind; stream_address := a; stream_pending := [] |}.

Definition stream_wants (s : EventStream) (e : ProtocolEvent) : bool :=
  is_none_or (fun kind => bool_decide (protocol_event_kind_name (event_kind e) = kind)) (stream_kind s) &&
  is_none_or (fun a => protocol_event_involves_address (event_kind e) a) (stream_address s).
(** The events of a height; what cannot be loaded has none. *)
Definition height_events n (height : Z) : list ProtocolEvent :=
  match load_block_by_height height (storage n) with
  | Ok (Some b) =>
      match block_hash b with
      | Ok hash => match load_block_events hash (storage n) with Ok es => es | Err _ => [] end
      | Err _ => []
      end
  | _ => []
  end.
(** A turn with nothing pending: the next height, if it is final. *)
Definition poll_stream n (s : EventStream) : EventStream :=
  match finalized_event_height (tip_height n) with
  | Some finalized =>
      if finalized <? next_height s then s else
      {| next_height := saturating_add U64_MAX (next_height s) 1; stream_kind := stream_kind s;
         stream_address := stream_address s;
         stream_pending := stream_pending s ++ List.filter (stream_wants s) (height_events n (next_height s)) |}
  | None => s
  end.
(** Sending what is pending: the stream ends at an event without an identifier. *)
Fixpoint send_pending (es : list ProtocolEvent) : list ProtocolEvent * bool :=
  match es with
  | [] => ([], true)
  | e :: es =>
      match event_id e with
      | Ok _ => let '(sent, on) := send_pending es in (e :: sent, on)
      | Err _ => ([], false)
      end
  end.
Definition drain_stream (s : EventStream) : EventStream := {|
  next_height := next_height s; stream_kind := stream_kind s; stream_address := stream_address s;
  stream_pending := [] |}.
(** The events sent and the stream left, if it did not end, when the loop sees these nodes; a
    poisoned lock, [None], ends it. *)
Fixpoint run_stream (nodes : list (option Node)) (s : EventStream) : list ProtocolEvent * option EventStream :=
  let '(sent, on) := send_pending (stream_pending s) in
  if negb on then (sent, None) else
  match nodes with
  | [] => (sent, Some (drain_stream s))
  | None :: _ => (sent, None)
  | Some n :: nodes =>
      let '(rest, s) := run_stream nodes (poll_stream n (drain_stream s)) in (sent ++ rest, s)
  end.
End events.
