(* ===== verification/RpcEventsSpec.v ===== *)
(** Events over the RPC are neither lost nor repeated: the pages of a list make up the list, and
    the stream sends the events of the finalized heights once and in order. *)
From Stdlib Require Import ZArith Lia.
From stdpp Require Import base numbers option strings list gmap.
From S2P Require Import Prelude BTree PaqusCore Net Mempool Compact Recovery Lmdb Storage Cache Miner.
From S2P Require Import NodeState Node Handler Config RpcAccess Rpc RpcEvents.
Open Scope Z_scope.

(** Consecutive slices of a list. *)
Lemma concat_slices {A} (l : list A) (size k : nat) :
  concat (map (fun i => take size (drop (i * size) l)) (seq 0 k)) = take (k * size) l.
Proof.
  induction k as [|k IH]; [done|]. rewrite seq_S, map_app, concat_app, IH. cbn.
  rewrite app_nil_r, take_take_drop. f_equal. lia.
Qed.

Section events_spec.
Context `{PaqusTypes} `{!TxOps} `{!BlockOps} `{!LedgerOps} `{!EventOps} `{!ForkOps}.
Context `{!ConsensusOps} `{!GenesisOps} `{!Borsh} `{!Lmdb} `{!ErrorDisplay} `{!StorageDisplay}.
Implicit Types (n : Node) (e : ProtocolEvent).

(** ** Pages *)

Definition identified e : Prop := exists id, event_id e = Ok id.
Definition at_offset (o : Z) (q : EventQuery) : EventQuery := {|
  offset := Some o; limit := limit q; kind := kind q; from_height := from_height q;
  to_height := to_height q |}.
Definition selected (es : list ProtocolEvent) (q : EventQuery) : list ProtocolEvent :=
  List.filter (event_matches q (to_ascii_lowercase <$> kind q)) es.

Lemma responses_Ok es : Forall identified es ->
  exists rs, collect_result protocol_event_response es = Ok rs /\ map event rs = es.
Proof.
  induction 1 as [|e es [id Hid] _ (rs & Hrs & Hmap)]; [by exists []|].
  assert (He : protocol_event_response e = Ok {| event_id_text := hex_encode id; event := e |})
    by (unfold protocol_event_response; by rewrite Hid).
  cbn [collect_result]. rewrite He, Hrs. cbn. eexists. split; [done|]. cbn. by f_equal.
Qed.

(** A query that is answered at one offset is answered at every offset. *)
Lemma page_Ok es q r o :
  Forall identified es -> protocol_event_list es q = Ok r ->
  exists p, protocol_event_list es (at_offset o q) = Ok p /\ total p = zlen (selected es q) /\
    map event (events p) =
    take (Z.to_nat (unwrap_or DEFAULT_LIMIT (limit q))) (drop (Z.to_nat o) (selected es q)).
Proof.
  intros Hid Hq. unfold protocol_event_list in *. cbn [at_offset limit kind from_height to_height offset unwrap_or].
  destruct (_ || _); [done|]. destruct (match from_height q with Some _ => _ | None => _ end); [done|].
  destruct (negb _); [done|]. fold (selected es q) in Hq.
  change (List.filter (event_matches (at_offset o q) (to_ascii_lowercase <$> kind q)) es) with (selected es q).
  destruct (responses_Ok (take (Z.to_nat (unwrap_or DEFAULT_LIMIT (limit q))) (drop (Z.to_nat o) (selected es q))))
    as (rs & Hrs & Hmap).
  { apply Forall_take, Forall_drop. unfold selected. rewrite Forall_forall in *.
    intros e He%list_elem_of_In%filter_In. apply Hid, list_elem_of_In. tauto. }
  rewrite Hrs. cbn. eexists. split; [done|]. done.
Qed.

(** the pages of a list of events make up the list: asking for page after page gives every
    event the query selects, once and in order, and each page reports how many there are. *)
Theorem pages_make_up_list es q r l (k : nat) :
  Forall identified es -> protocol_event_list es q = Ok r ->
  l = unwrap_or DEFAULT_LIMIT (limit q) -> 0 <= l -> zlen (selected es q) <= Z.of_nat k * l ->
  exists pages,
    collect_result (fun i => protocol_event_list es (at_offset (Z.of_nat i * l) q)) (seq 0 k) = Ok pages /\
    concat (map (fun p => map event (events p)) pages) = selected es q /\
    Forall (fun p => total p = zlen (selected es q)) pages.
Proof.
  intros Hid Hq Hl Hpos Hk.
  assert (Hpages : forall is_, exists pages,
    collect_result (fun i => protocol_event_list es (at_offset (Z.of_nat i * l) q)) is_ = Ok pages /\
    map (fun p => map event (events p)) pages =
      map (fun i => take (Z.to_nat l) (drop (i * Z.to_nat l) (selected es q))) is_ /\
    Forall (fun p => total p = zlen (selected es q)) pages).
  { induction is_ as [|i is_ (pages & Hc & Hm & Ht)]; [by exists []|].
    destruct (page_Ok es q r (Z.of_nat i * l) Hid Hq) as (p & Hp & Htot & Hev).
    rewrite <-Hl in Hev. exists (p :: pages). cbn. rewrite Hp, Hc. cbn. split; [done|]. split; [|by constructor].
    f_equal; [|done]. rewrite Hev. do 2 f_equal. lia. }
  destruct (Hpages (seq 0 k)) as (pages & Hc & Hm & Ht). exists pages. split; [done|]. split; [|done].
  rewrite Hm, concat_slices. apply take_ge. unfold zlen in Hk. nia.
Qed.

(** ** The stream *)

(** Whatever the database holds, the events it returns have identifiers. *)
Lemma scan_prefix_Forall {A} (P : A -> Prop) prefix g items out :
  (forall raw a, g raw = Ok a -> P a) -> scan_items (scan_prefix prefix g) items = Ok out -> Forall P out.
Proof.
  intros Hg. revert out. induction items as [|item items IH]; intros out Hs; cbn in Hs.
  { injection Hs as <-. constructor. }
  apply bind_Ok in Hs as (kv & _ & Hs). apply bind_Ok in Hs as (sc & Hsc & Hs).
  destruct sc as [| |a]; [by apply IH|injection Hs as <-; constructor|].
  apply bind_Ok in Hs as (rest & Hrest & [= <-]). constructor; [|by apply IH].
  unfold scan_prefix in Hsc. destruct (cmp kv.1 prefix); [|done|];
    (destruct (starts_with _ _); [|done]; apply bind_Ok in Hsc as (a' & Ha & [= ->]); by eapply Hg).
Qed.
Lemma loaded_identified db prefix env es :
  load_indexed_events db prefix env = Ok es -> Forall identified es.
Proof.
  unfold load_indexed_events, with_ro. intros Hl. apply bind_Ok in Hl as (t & _ & Hl).
  apply bind_Ok in Hl as (items & _ & Hl). apply bind_Ok in Hl as (l & Hscan & [= <-]).
  eapply Permutation_Forall; [symmetry; apply sort_by_perm|].
  eapply scan_prefix_Forall; [|exact Hscan]. intros raw e He.
  apply bind_Ok in He as (id & _ & He). apply bind_Ok in He as (o & _ & He).
  apply bind_Ok in He as (e' & _ & He). destruct (negb (event_validate e')); [done|].
  apply bind_Ok in He as (i & Hi & He). destruct (negb _); [done|]. injection He as ->.
  apply map_err_Ok in Hi. by exists i.
Qed.
Lemma height_events_identified n h : Forall identified (height_events n h).
Proof.
  unfold height_events. destruct (load_block_by_height h (storage n)) as [[b|]|]; try constructor.
  destruct (block_hash b) as [hash|]; [|constructor].
  destruct (load_block_events hash (storage n)) as [es|] eqn:E; [|constructor].
  by eapply loaded_identified.
Qed.

Lemma send_identified es : Forall identified es -> send_pending es = (es, true).
Proof. induction 1 as [|e es [id Hid] _ IH]; cbn; [done|]. by rewrite Hid, IH. Qed.
Lemma filter_identified f es : Forall identified es -> Forall identified (List.filter f es).
Proof.
  rewrite !Forall_forall. intros Hes e He%list_elem_of_In%filter_In. apply Hes, list_elem_of_In. tauto.
Qed.

(** The node's finalized heights hold the events [ev]. *)
Definition serves (ev : Z -> list ProtocolEvent) n : Prop :=
  forall finalized, finalized_event_height (tip_height n) = Some finalized ->
    finalized < U64_MAX /\ forall h, h <= finalized -> height_events n h = ev h.
Definition finalized_at n (h : Z) : Prop :=
  exists finalized, finalized_event_height (tip_height n) = Some finalized /\ h <= finalized.
(** What the stream sends for a height *)
Definition wanted (s : EventStream) (ev : Z -> list ProtocolEvent) (h : Z) : list ProtocolEvent :=
  List.filter (stream_wants s) (ev h).

Lemma poll_spec ev n s : serves ev n -> 0 <= next_height s -> stream_pending s = [] ->
  (exists h, h = next_height s /\ finalized_at n h /\ Forall identified (wanted s ev h) /\
     poll_stream n s = {| next_height := h + 1; stream_kind := stream_kind s;
       stream_address := stream_address s; stream_pending := wanted s ev h |}) \/
  (~ finalized_at n (next_height s) /\ poll_stream n s = s).
Proof.
  intros Hs Hn Hp. unfold poll_stream, finalized_at.
  destruct (finalized_event_height (tip_height n)) as [f|] eqn:Ef; [|right; naive_solver].
  destruct (Hs f Ef) as [Hmax Hev]. destruct (Z.ltb_spec f (next_height s)); [right; naive_solver lia|].
  left. exists (next_height s). split; [done|]. split; [by exists f|]. split.
  - apply filter_identified. rewrite <-Hev by done. apply height_events_identified.
  - rewrite Hp, Hev by done. unfold saturating_add. f_equal; lia.
Qed.

Lemma run_stream_spec ev nodes s :
  Forall (serves ev) nodes -> 0 <= next_height s -> Forall identified (stream_pending s) ->
  exists j s', run_stream (map Some nodes) s =
      (stream_pending s ++ concat (map (wanted s ev) (seqZ (next_height s) j)), Some s') /\
    0 <= j /\ next_height s' = next_height s + j /\
    (forall h, next_height s <= h < next_height s + j -> exists n, n ∈ nodes /\ finalized_at n h) /\
    (forall h, (forall n, n ∈ nodes -> finalized_at n h) ->
       next_height s <= h < next_height s + zlen nodes -> h < next_height s + j).
Proof.
  intros Hserve. revert s. induction Hserve as [|n nodes Hn _ IH]; intros s Hs Hid.
  { exists 0, (drain_stream s). cbn. rewrite send_identified by done. cbn. rewrite app_nil_r.
    unfold zlen. cbn. split_and!; [done|lia|lia|intros; lia|intros; lia]. }
  cbn [run_stream map]. rewrite send_identified by done. cbn [negb].
  destruct (poll_spec ev n (drain_stream s) Hn Hs eq_refl) as [(h & -> & Hf & Hw & ->)|[Hnf ->]].
  - change (next_height (drain_stream s)) with (next_height s) in *.
    change (wanted (drain_stream s) ev) with (wanted s ev) in *.
    destruct (IH {| next_height := next_height s + 1; stream_kind := stream_kind s;
                    stream_address := stream_address s; stream_pending := wanted s ev (next_height s) |}
                ltac:(cbn; lia) Hw) as (j & s' & Hrun & Hj & Hnext & Hsafe & Hlive).
    cbn [stream_kind stream_address drain_stream]. rewrite Hrun. cbn [next_height stream_pending] in *.
    exists (1 + j), s'. rewrite (seqZ_cons _ (1 + j)) by lia. cbn [map concat].
    replace (Z.pred (1 + j)) with j by lia. replace (Z.succ (next_height s)) with (next_height s + 1) by lia.
    split_and!; [done|lia|lia| |].
    + intros h Hh. destruct (Z.eq_dec h (next_height s)) as [->|Hne]; [exists n; split; [left|done]|].
      destruct (Hsafe h ltac:(lia)) as (m & Hm & ?). exists m. split; [by right|done].
    + intros h Hall Hh. destruct (Z.eq_dec h (next_height s)) as [->|Hne]; [lia|].
      unfold zlen in *. cbn [length] in Hh.
      specialize (Hlive h ltac:(intros m Hm; apply Hall; by right) ltac:(lia)). lia.
  - destruct (IH (drain_stream s) Hs ltac:(constructor)) as (j & s' & Hrun & Hj & Hnext & Hsafe & Hlive).
    rewrite Hrun. cbn [next_height stream_pending drain_stream app] in *. exists j, s'.
    split_and!; [done|lia|lia| |].
    + intros h Hh. destruct (Hsafe h Hh) as (m & Hm & ?). exists m. split; [by right|done].
    + intros h Hall Hh. exfalso. apply Hnf. destruct (Hall n ltac:(left)) as (f & Ef & Hle).
      exists f. split; [done|lia].
Qed.

(** C33: the event stream sends the events of the finalized heights from where it starts, each
    height once, in order and in full as far as the filter selects, whatever node each turn
    sees: nothing that is not final is sent, and a height that is final at every turn is
    sent within as many turns as it is heights ahead. As long as the node can be locked the
    stream does not end. *)
Theorem event_stream_exact ev nodes s :
  Forall (serves ev) nodes -> 0 <= next_height s -> stream_pending s = [] ->
  exists j s', run_stream (map Some nodes) s = (concat (map (wanted s ev) (seqZ (next_height s) j)), Some s') /\
    next_height s' = next_height s + j /\
    (forall h, next_height s <= h < next_height s + j -> exists n, n ∈ nodes /\ finalized_at n h) /\
    (forall h, (forall n, n ∈ nodes -> finalized_at n h) ->
       next_height s <= h < next_height s + zlen nodes -> h < next_height s + j).
Proof.
  intros Hserve Hs Hp. destruct (run_stream_spec ev nodes s Hserve Hs) as (j & s' & Hrun & _ & Hrest).
  { rewrite Hp. constructor. }
  rewrite Hp in Hrun. by exists j, s'.
Qed.
End events_spec.
