(* ===== verification/RpcRead.v ===== *)
(** What the RPC reads from the node: drafts of transfers (rpc/api.rs), and transactions, blocks,
    accounts, supply and coins (rpc/explorer.rs).

    Responses are records with the fields that are computed; fields the code sets to a constant
    ([fee: 0], [nonce: 0], fixed texts) are left out. *)
From Stdlib Require Import ZArith Lia Ascii.
From stdpp Require Import base numbers option strings list gmap pretty.
From S2P Require Import Prelude BTree PaqusCore Net Mempool Compact Recovery Lmdb Storage Cache Miner.
From S2P Require Import NodeState Node Handler Config RpcAccess Rpc RpcEvents.
Open Scope Z_scope.

(** [paqus::ledger::TransactionLifecycle]: the variants the node names, the others by number *)
Inductive TransactionLifecycle := LifecyclePending | LifecycleFinalized | LifecycleOther (n : Z).
#[global] Instance lifecycle_eq_dec : EqDecision TransactionLifecycle.
Proof. solve_decision. Defined.
(** [paqus::state::QCashUtxo], the fields the node reads *)
Record QCashUtxo := {
  coin_id : QCashCoinId; denomination : Z; issued_height : BlockHeight; output_index : Z;
  withdraw_tx_hash : TransactionHash; withdrawer : Address
}.

(** What the explorer takes from the paqus crate. *)
Class ExplorerOps `{PaqusTypes} := {
  account_statement_height : Account -> BlockHeight;
  (** [authorization.is_some()], [credits.len()] *)
  account_authorized : Account -> bool;
  account_credits : Account -> Z;
  canonical_transaction_lifecycle : Z -> TransactionLifecycle;
  lifecycle_text : TransactionLifecycle -> string;
  ledger_total_supply : Ledger -> Result LedgerError Amount;
  qcash_total_value : QCashUtxoSet -> Result LedgerError Amount;
  qcash_redeemable_balance_at : QCashUtxoSet -> BlockHeight -> Result LedgerError Amount;
  qcash_coins : QCashUtxoSet -> list QCashUtxo;
  qcash_coin : QCashUtxoSet -> QCashCoinId -> option QCashUtxo;
  QCASH_REDEEM_DELAY : Z;
  allocation_amount : GenesisAllocation -> Amount;
  tx_authorization_addresses : SignedProtocolTransaction -> list Address
}.

(** ** Requests and responses *)

Record DraftTransferRequest := {
  draft_request_signer : string; draft_outputs : list (string * Z);
  fee_rate_per_byte : option Z; allow_pending : bool
}.
Record DraftTransferResponse := {
  draft_response_signer : string; draft_transaction : string; draft_signing_bytes : string;
  draft_last_state : string; draft_response_outputs : list (string * Z); total_output : Z;
  draft_pending_outgoing : Z; draft_pending_hashes : list string; authorization_registered : bool;
  recommended_fee_rate : Z; selected_fee_rate : Z; estimated_virtual_size : Z; estimated_fee : Z
}.
Record AccountResponse := {
  account_text : string; confirmed : Z; available : Z; unspendable : Z; response_pending : PendingBalance;
  statement_text : string; statement_height : Z; statement_current : bool;
  response_authorized : bool; credits : Z
}.
Record ChainStatsResponse := {
  stats_height : Z; blocks_count : Z; genesis_premine : Z; mined_supply : Z; onchain_supply : Z;
  qcash_offchain_supply : Z; qcash_redeemable_supply : Z; qcash_pending_supply : Z;
  total_known_supply : Z; pending_transactions : Z
}.
Record ProtocolTxResponse := {
  tx_family_text : string; operation : string; txid : string; tx_signer_text : string;
  authorization_texts : list string; tx_recipient : option string; tx_amount : option Z;
  tx_outputs : list (string * Z); payload_size : Z; tx_block_height : option Z;
  tx_block_hash : option string; depth : Z; is_confirmed : bool; is_finalized : bool; tx_status : string
}.
Record QCashUtxoResponse := {
  utxo_id : string; utxo_denomination : Z; utxo_status : string; utxo_height : Z;
  utxo_issued_height : Z; redeemable_height : Z; remaining_redeem_delay_blocks : Z;
  utxo_output_index : Z; utxo_withdraw_hash : string; utxo_withdrawer : string
}.
(** The three answers of a lookup by file name *)
Inductive CoinLookup :=
| CoinFound (coin : QCashUtxoResponse)
| CoinUnknown (prefix : string)
| CoinAmbiguous (prefix : string) (matches : Z).

(** ** Text *)

Definition upper (c : ascii) : ascii :=
  let n := N_of_ascii c in if ((97 <=? n) && (n <=? 122))%N then ascii_of_N (n - 32) else c.
Fixpoint to_ascii_uppercase (s : string) : string :=
  match s with EmptyString => "" | String c s => String (upper c) (to_ascii_uppercase s) end.
Definition is_ascii_hexdigit (c : ascii) : bool :=
  let n := Z.of_N (N_of_ascii c) in
  ((48 <=? n) && (n <=? 57)) || ((65 <=? n) && (n <=? 70)) || ((97 <=? n) && (n <=? 102)).
Fixpoint all_chars (p : ascii -> bool) (s : string) : bool :=
  match s with EmptyString => true | String c s => p c && all_chars p s end.
Definition strip_suffix (suffix s : string) : option string :=
  String.rev <$> strip_prefix (String.rev suffix) (String.rev s).
(** What follows the last underscore, or all of it *)
Fixpoint after_underscore (s suffix : string) : string :=
  match s with
  | EmptyString => suffix
  | String c rest => after_underscore rest (if bool_decide (c = "_"%char) then rest else suffix)
  end.

Section read.
Context `{PaqusTypes} `{!TxOps} `{!BlockOps} `{!LedgerOps} `{!EventOps} `{!ForkOps}.
Context `{!ConsensusOps} `{!GenesisOps} `{!Borsh} `{!Lmdb} `{!ErrorDisplay} `{!StorageDisplay}.
Context `{!ConfigOps} `{!RpcOps} `{!ExplorerOps}.
Context {Conn : Type}.
Abbreviation Rpc := (ST (RpcState (Conn := Conn)) HttpError).
Implicit Types (n : Node).

(** ** Drafts *)

(** The [for output in request.outputs], with the block miner outputs seen so far. *)
Fixpoint draft_targets (os : list (string * Z)) (miner_outputs : Z) : Result HttpError (list TransferOutput) :=
  match os with
  | [] => Ok []
  | (text, value) :: os =>
      if value =? 0 then Err (bad_request "transfer_amount_must_be_positive") else
      target ← (if bool_decide (text = "block_miner") || bool_decide (text = "miner") then Ok BlockMiner else
                a ← map_err bad_request (address_string text); Ok (ToAddress a));
      let miner_outputs :=
        if bool_decide (target = BlockMiner) then saturating_add USIZE_MAX miner_outputs 1 else miner_outputs in
      if bool_decide (target = BlockMiner) && (1 <? miner_outputs)
      then Err (bad_request "at_most_one_block_miner_fee_output") else
      rest ← draft_targets os miner_outputs;
      Ok ({| to := target; amount := value |} :: rest)
  end.
(** With the node: the basis, the transaction and the fee. *)
Definition draft_locked (request : DraftTransferRequest) (signer : Address) (outputs : list TransferOutput) n
    : Result HttpError DraftTransferResponse :=
  basis ← ok_or (draft_basis n signer) (rpc_error NOT_FOUND "account_not_found");
  if negb (allow_pending request)
     && ((0 <? pending_outgoing basis) || negb (bool_decide (pending_outgoing_hashes basis = [])))
  then Err (rpc_error CONFLICT "pending_outgoing_transaction") else
  let transaction := with_last_state (latest_statement basis) (Transfer_new signer outputs) in
  _ ← map_err (fun e => bad_request ("invalid_transaction: " +:+ show_transaction e))
        (transfer_validate transaction);
  payload ← map_err (fun e => internal (show_codec e)) (transaction_bytes transaction);
  to_sign ← map_err (fun e => internal (show_codec e)) (signing_bytes transaction);
  let rate := Z.max (unwrap_or (recommended_fee_rate_per_byte basis) (fee_rate_per_byte request))
                    (min_relay_fee_rate_per_byte basis) in
  Ok {| draft_response_signer := address_to_string (draft_signer basis);
        draft_transaction := hex_encode payload; draft_signing_bytes := hex_encode to_sign;
        draft_last_state := hex_encode (latest_statement basis);
        draft_response_outputs := draft_outputs request;
        total_output := match transfer_total_amount transaction with Ok a => a | Err _ => 0 end;
        draft_pending_outgoing := pending_outgoing basis;
        draft_pending_hashes := map hex_encode (pending_outgoing_hashes basis);
        authorization_registered :=
          match ledger_account (ledger n) (draft_signer basis) with
          | Some account => account_authorized account
          | None => false
          end;
        recommended_fee_rate := recommended_fee_rate_per_byte basis; selected_fee_rate := rate;
        estimated_virtual_size := zlen payload; estimated_fee := u64_mul rate (zlen payload) |}.
Definition rpc_draft_transfer (request : DraftTransferRequest) : Rpc DraftTransferResponse :=
  signer ← st_lift (map_err bad_request (address_string (draft_request_signer request)));
  if bool_decide (draft_outputs request = [])
  then st_fail (bad_request "at_least_one_transfer_output_required") else
  if MAX_BATCH_OUTPUTS <? zlen (draft_outputs request)
  then st_fail (bad_request "too_many_transfer_outputs") else
  outputs ← st_lift (draft_targets (draft_outputs request) 0);
  read_node (draft_locked request signer outputs).

(** ** Accounts *)

Definition account_response (account : Account) (height : BlockHeight) (pending : PendingBalance)
    (current : bool) : AccountResponse := {|
  account_text := address_to_string (account_address account); confirmed := account_balance account;
  available := account_available_balance_at account height;
  unspendable := account_immature_balance_at account height; response_pending := pending;
  statement_text := hex_encode (account_statement account);
  statement_height := account_statement_height account; statement_current := current;
  response_authorized := account_authorized account; credits := account_credits account |}.
Definition rpc_accounts : Rpc (list AccountResponse) :=
  read_node (fun n =>
    let height := unwrap_or 0 (tip_height n) in
    Ok (map (fun account => account_response account height
              (pending_balance n (account_address account)) true)
          (bt_values (ledger_accounts (ledger n))))).

Definition with_statement (statement : Hash) (l : Ledger) : option Account :=
  List.find (fun account => bool_decide (account_statement account = statement)) (bt_values (ledger_accounts l)).
(** The [for height in 1..=tip]: replaying the stored chain until the statement appears. *)
Fixpoint replay_for (statement : Hash) n (heights : list Z) (replay : Ledger)
    : Result string (option (Account * BlockHeight * bool)) :=
  match heights with
  | [] => Ok None
  | height :: heights =>
      loaded ← map_err (fun e => "failed to load account statement history: " +:+ show_storage_error e)
                 (load_block_by_height height (storage n));
      b ← ok_or loaded ("canonical block " +:+ pretty height +:+ " is unavailable");
      let '(applied, replay) := ledger_apply_block b replay in
      _ ← map_err (fun e => "failed to replay account statement history: " +:+ show_ledger e) applied;
      match with_statement statement replay with
      | Some account => Ok (Some (account, height, false))
      | None => replay_for statement n heights replay
      end
  end.
Definition find_account_statement n (statement : Hash)
    : Result string (option (Account * BlockHeight * bool)) :=
  match with_statement statement (ledger n) with
  | Some account => Ok (Some (account, unwrap_or (account_statement_height account) (tip_height n), true))
  | None =>
      genesis ← map_err show_genesis genesis_ledger;
      match with_statement statement genesis with
      | Some account => Ok (Some (account, 0, false))
      | None => replay_for statement n (seqZ 1 (unwrap_or 0 (tip_height n))) genesis
      end
  end.
Definition rpc_account_by_statement (statement : string) : Rpc AccountResponse :=
  statement ← st_lift (map_err bad_request (hash_hex statement));
  read_node (fun n =>
    found ← map_err internal (find_account_statement n statement);
    '(account, height, current) ← ok_or found (rpc_error NOT_FOUND "account_statement_not_found");
    let pending := if current : bool then pending_balance n (account_address account) else pending_default in
    Ok (account_response account height pending current)).

(** ** Supply *)

(** [try_fold(0, checked_add)] *)
Fixpoint sum_allocations (l : list GenesisAllocation) (acc : Z) : option Z :=
  match l with
  | [] => Some acc
  | a :: l => acc ← checked_add acc (allocation_amount a); sum_allocations l acc
  end.
Definition chain_stats n : Result string ChainStatsResponse :=
  let height := unwrap_or 0 (tip_height n) in
  let utxos := ledger_qcash_utxos (ledger n) in
  onchain ← map_err (fun e => "failed to calculate on-chain supply: " +:+ show_ledger e)
              (ledger_total_supply (ledger n));
  offchain ← map_err (fun e => "failed to calculate QCash supply: " +:+ show_ledger e)
               (qcash_total_value utxos);
  redeemable ← map_err (fun e => "failed to calculate redeemable QCash supply: " +:+ show_ledger e)
                 (qcash_redeemable_balance_at utxos height);
  pending ← ok_or (checked_sub offchain redeemable) "redeemable QCash supply exceeds total QCash supply";
  known ← ok_or (checked_add onchain offchain) "total known supply overflow";
  genesis ← ok_or (chain_block (ledger n) 0) "genesis block is unavailable";
  premine ← ok_or (sum_allocations (block_genesis_allocations genesis) 0) "genesis premine overflow";
  mined ← ok_or (checked_sub known premine) "genesis premine exceeds current supply";
  Ok {| stats_height := height; blocks_count := saturating_add U64_MAX height 1;
        genesis_premine := premine; mined_supply := mined; onchain_supply := onchain;
        qcash_offchain_supply := offchain; qcash_redeemable_supply := redeemable;
        qcash_pending_supply := pending; total_known_supply := known;
        pending_transactions := bt_len (mp_transactions (mempool n)) |}.
Definition rpc_stats : Rpc ChainStatsResponse := read_node (fun n => map_err internal (chain_stats n)).

(** ** Coins *)

Definition qcash_file_lookup_prefix (name : string) : Result string string :=
  let stem := match strip_suffix ".QCash" name with
              | Some stem => stem
              | None => unwrap_or name (strip_suffix ".XPQ" name)
              end in
  let prefix := after_underscore stem stem in
  let len := Z.of_nat (String.length prefix) in
  if negb ((9 <=? len) && (len <=? 64)) || negb (all_chars is_ascii_hexdigit prefix)
  then Err "invalid_qcash_file_name_or_coin_id_prefix" else Ok (to_ascii_uppercase prefix).
Definition qcash_utxo_value (c : QCashUtxo) (height : BlockHeight) : QCashUtxoResponse :=
  let redeemable := saturating_add U64_MAX (issued_height c) QCASH_REDEEM_DELAY in
  {| utxo_id := hex_encode (coin_id c); utxo_denomination := denomination c;
     utxo_status := if redeemable <=? height then "redeemable" else "pending";
     utxo_height := height; utxo_issued_height := issued_height c; redeemable_height := redeemable;
     remaining_redeem_delay_blocks := u64_sub redeemable height; utxo_output_index := output_index c;
     utxo_withdraw_hash := hex_encode (withdraw_tx_hash c);
     utxo_withdrawer := address_to_string (withdrawer c) |}.
Definition rpc_qcash_utxos : Rpc (list QCashUtxoResponse) :=
  read_node (fun n =>
    Ok (map (fun c => qcash_utxo_value c (unwrap_or 0 (tip_height n)))
          (qcash_coins (ledger_qcash_utxos (ledger n))))).
(** [None] is [spent_or_unknown]. *)
Definition rpc_qcash_coin (id : string) : Rpc (option QCashUtxoResponse) :=
  id ← st_lift (map_err bad_request (hash_hex id));
  read_node (fun n =>
    Ok ((fun c => qcash_utxo_value c (unwrap_or 0 (tip_height n)))
          <$> qcash_coin (ledger_qcash_utxos (ledger n)) id)).
Definition matches_prefix (prefix : string) (c : QCashUtxo) : bool :=
  match strip_prefix (to_ascii_uppercase prefix) (to_ascii_uppercase (hex_encode (coin_id c))) with
  | Some _ => true
  | None => false
  end.
Definition lookup_coin (prefix : string) n : CoinLookup :=
  match List.filter (matches_prefix prefix) (qcash_coins (ledger_qcash_utxos (ledger n))) with
  | [c] => CoinFound (qcash_utxo_value c (unwrap_or 0 (tip_height n)))
  | [] => CoinUnknown prefix
  | cs => CoinAmbiguous prefix (zlen cs)
  end.
Definition rpc_qcash_file (name : string) : Rpc CoinLookup :=
  prefix ← st_lift (map_err bad_request (qcash_file_lookup_prefix name));
  read_node (fun n => Ok (lookup_coin prefix n)).

(** ** Transactions *)

(** operation, recipient, amount and outputs *)
Definition tx_details (tx : SignedProtocolTransaction)
    : string * option string * option Z * list (string * Z) :=
  match tx with
  | BatchTransfer t =>
      let outputs := map (fun o => (match target_address (to o) with
                                    | Some a => address_to_string a
                                    | None => "block_miner"
                                    end, amount o)) (batch_outputs t) in
      ("transfer", fst <$> head outputs, result_ok (batch_total_amount t), outputs)
  | QCash t =>
      match qcash_kind t with
      | Withdraw amount => ("qcash_withdraw", None, Some amount, [])
      | Redeem recipient _ => ("qcash_redeem", Some (address_to_string recipient), None, [])
      | RecoverRedeem claimant _ => ("qcash_recover_redeem", Some (address_to_string claimant), None, [])
      end
  end.
Definition tx_depth (block_height tip_height : option Z) : Z :=
  match block_height, tip_height with
  | Some height, Some tip => saturating_add U64_MAX (u64_sub tip height) 1
  | _, _ => 0
  end.
Definition protocol_tx_response (tx : SignedProtocolTransaction) (block_height : option BlockHeight)
    (block_hash : option BlockHash) (tip_height : option BlockHeight) : Result string ProtocolTxResponse :=
  id ← map_err show_codec (tx_hash tx);
  let '(operation, recipient, amount, outputs) := tx_details tx in
  let depth := tx_depth block_height tip_height in
  let lifecycle := match block_height with
                   | Some _ => canonical_transaction_lifecycle depth
                   | None => LifecyclePending
                   end in
  raw ← map_err show_codec (tx_to_bytes tx);
  Ok {| tx_family_text := match tx_family tx with FamilyBatchTransfer => "transfer" | FamilyQCash => "qcash" end;
        operation := operation; txid := hex_encode id; tx_signer_text := address_to_string (tx_signer tx);
        authorization_texts := map address_to_string (tx_authorization_addresses tx);
        tx_recipient := recipient; tx_amount := amount; tx_outputs := outputs; payload_size := zlen raw;
        tx_block_height := block_height; tx_block_hash := hex_encode <$> block_hash; depth := depth;
        is_confirmed := negb (bool_decide (lifecycle = LifecyclePending));
        is_finalized := bool_decide (lifecycle = LifecycleFinalized); tx_status := lifecycle_text lifecycle |}.
Definition is_tx (hash : TransactionHash) (tx : SignedProtocolTransaction) : bool :=
  match tx_hash tx with Ok txid => bool_decide (txid = hash) | Err _ => false end.
Definition rpc_tx (hash : string) : Rpc ProtocolTxResponse :=
  hash ← st_lift (map_err bad_request (hash_hex hash));
  read_node (fun n =>
    match List.find (is_tx hash) (pool_transactions (mempool n)) with
    | Some tx => map_err internal (protocol_tx_response tx None None None)
    | None =>
        found ← load_failed "failed to load transaction: " (load_protocol_transaction hash (storage n));
        '(location, tx) ← ok_or found (rpc_error NOT_FOUND "transaction_not_found");
        map_err internal (protocol_tx_response tx (Some (tl_block_height location))
          (Some (tl_block_hash location)) (tip_height n))
    end).
(** [filter_map(.. .ok())] *)
Definition rpc_mempool : Rpc (list ProtocolTxResponse) :=
  read_node (fun n =>
    Ok (omap (fun tx => result_ok (protocol_tx_response tx None None None)) (pool_transactions (mempool n)))).
End read.
