(* ===== verification/RpcReadSpec.v ===== *)
(** What the read-only RPC answers mean: a draft is the transfer that was asked for, on the
    account's latest statement and with the fee of the node's policy; an account statement is
    found at the first height that has it; the supply adds up. *)
From Stdlib Require Import ZArith Lia.
From stdpp Require Import base numbers option strings list gmap.
From S2P Require Import Prelude BTree PaqusCore Net Mempool Compact Recovery Lmdb Storage Cache Miner.
From S2P Require Import NodeState Node Handler Config RpcAccess Rpc RpcEvents RpcRead.
Open Scope Z_scope.

Section read_spec.
Context `{PaqusTypes} `{!TxOps} `{!BlockOps} `{!LedgerOps} `{!EventOps} `{!ForkOps}.
Context `{!ConsensusOps} `{!GenesisOps} `{!Borsh} `{!Lmdb} `{!ErrorDisplay} `{!StorageDisplay}.
Context `{!ConfigOps} `{!RpcOps} `{!ExplorerOps}.
Context {Conn : Type}.
Implicit Types (n : Node) (s : RpcState (Conn := Conn)).

(** Reading leaves everything as it was. *)
Lemma read_node_run {A} (f : Node -> Result HttpError A) s :
  read_node f s = (if poisoned (node s) then Err (internal "state_lock_failed") else f (guarded (node s)), s).
Proof.
  unfold read_node, with_node. st_simpl. destruct (poisoned (node s)) eqn:E; [done|].
  unfold st_zoom. st_simpl. unfold st_lift. f_equal. by destruct s as [[]].
Qed.

(** ** Drafts *)

Definition drafted (asked : string * Z) (o : TransferOutput) : Prop :=
  amount o = asked.2 /\ asked.2 <> 0 /\
  match to o with
  | BlockMiner => asked.1 = "block_miner" \/ asked.1 = "miner"
  | ToAddress a => address_string asked.1 = Ok a
  end.
Definition miner_outputs (os : list TransferOutput) : Z :=
  zlen (filter (fun o => to o = BlockMiner) os).

Lemma draft_targets_Ok asked k os :
  0 <= k <= 1 -> draft_targets asked k = Ok os ->
  Forall2 drafted asked os /\ k + miner_outputs os <= 1.
Proof.
  revert k os. induction asked as [|[text value] asked IH]; intros k os Hk Hrun; cbn [draft_targets] in Hrun.
  { injection Hrun as <-. split; [constructor|]. unfold miner_outputs, zlen. cbn. lia. }
  destruct (Z.eqb_spec value 0) as [|Hv]; [done|].
  apply bind_Ok in Hrun as (target & Ht & Hrun).
  assert (Hd : drafted (text, value) {| to := target; amount := value |}).
  { split; [done|]. split; [done|]. cbn [to fst]. destruct (bool_decide _ || bool_decide _) eqn:Em.
    - injection Ht as <-. apply orb_true_iff in Em as [Em|Em]; apply bool_decide_eq_true in Em; auto.
    - apply bind_Ok in Ht as (a & Ha%map_err_Ok & [= <-]). done. }
  case_bool_decide as Hm; cbn [andb] in Hrun.
  - assert (Hsat : saturating_add USIZE_MAX k 1 = k + 1) by (unfold saturating_add, USIZE_MAX, U64_MAX; lia).
    rewrite Hsat in Hrun.
    destruct (Z.ltb_spec 1 (k + 1)); [done|]. apply bind_Ok in Hrun as (rest & Hrest & [= <-]).
    apply IH in Hrest as [Hall Hc]; [|lia]. split; [by constructor|].
    unfold miner_outputs, zlen in *. rewrite filter_cons_True by done. cbn [length]. lia.
  - apply bind_Ok in Hrun as (rest & Hrest & [= <-]). apply IH in Hrest as [Hall Hc]; [|lia].
    split; [by constructor|]. unfold miner_outputs in *. by rewrite filter_cons_False.
Qed.

(** a draft is the transfer that was asked for: every output of the request, in order, with
    its amount and target, at most one of them to the block miner; from the account's latest
    statement; accepted by the protocol's own check; and drafted over pending payments only if
    that was allowed. The fee it suggests is the drafted size at a rate not below the relay
    minimum. Nothing changes. *)
Theorem draft_is_what_was_asked request s r s' :
  rpc_draft_transfer request s = (Ok r, s') ->
  s' = s /\ exists signer basis outputs payload,
    address_string (draft_request_signer request) = Ok signer /\
    draft_basis (guarded (node s)) signer = Some basis /\
    Forall2 drafted (draft_outputs request) outputs /\ miner_outputs outputs <= 1 /\
    (let t := with_last_state (latest_statement basis) (Transfer_new signer outputs) in
     transfer_validate t = Ok tt /\ transaction_bytes t = Ok payload /\
     draft_transaction r = hex_encode payload) /\
    (allow_pending request = false ->
       pending_outgoing basis <= 0 /\ pending_outgoing_hashes basis = []) /\
    min_relay_fee_rate_per_byte basis <= selected_fee_rate r /\
    estimated_fee r = u64_mul (selected_fee_rate r) (zlen payload).
Proof.
  unfold rpc_draft_transfer. destruct (address_string _) as [signer|] eqn:Es; cbn [map_err]; st_simpl; [|done].
  case_bool_decide; [done|]. destruct (_ <? _); [done|].
  destruct (draft_targets _ _) as [outputs|] eqn:Eo; cbn [map_err]; st_simpl; [|done].
  rewrite read_node_run. intros [= Hrun <-]. split; [done|].
  destruct (poisoned (node s)); [done|]. unfold draft_locked in Hrun.
  apply bind_Ok in Hrun as (basis & Hb%ok_or_Ok & Hrun).
  destruct (negb (allow_pending request) && _) eqn:Ep; [done|].
  apply bind_Ok in Hrun as ([] & Hv%map_err_Ok & Hrun).
  apply bind_Ok in Hrun as (payload & Hp%map_err_Ok & Hrun).
  apply bind_Ok in Hrun as (to_sign & _ & [= <-]). cbn.
  apply draft_targets_Ok in Eo as [Hall Hc]; [|lia].
  exists signer, basis, outputs, payload. split_and!; try done; [|lia].
  intros Ha. rewrite Ha in Ep. cbn in Ep. apply orb_false_iff in Ep as [Hz Hh].
  apply Z.ltb_ge in Hz. apply negb_false_iff, bool_decide_eq_true in Hh. done.
Qed.

(** ** Account statements *)

(** The ledger after the stored blocks of these heights. *)
Fixpoint replay_chain n (heights : list Z) (l : Ledger) : option Ledger :=
  match heights with
  | [] => Some l
  | h :: heights =>
      b ← (match load_block_by_height h (storage n) with Ok o => o | Err _ => None end);
      match ledger_apply_block b l with
      | (Ok _, l) => replay_chain n heights l
      | (Err _, _) => None
      end
  end.
Definition replayed n (genesis : Ledger) (h : BlockHeight) : option Ledger :=
  replay_chain n (seqZ 1 h) genesis.
(** No account has the statement after any height up to [h]. *)
Definition unknown_until n genesis statement (h : Z) : Prop :=
  forall h', 0 <= h' < h -> exists l, replayed n genesis h' = Some l /\ with_statement statement l = None.

Lemma replay_chain_app n hs1 hs2 l :
  replay_chain n (hs1 ++ hs2) l = replay_chain n hs1 l ≫= replay_chain n hs2.
Proof.
  revert l. induction hs1 as [|h hs1 IH]; intros l; [done|]. cbn.
  destruct (match load_block_by_height h (storage n) with Ok o => o | Err _ => None end) as [b|]; [|done].
  cbn. destruct (ledger_apply_block b l) as [[] l']; [apply IH|done].
Qed.
Lemma replayed_succ n g k l : 0 <= k -> replayed n g k = Some l ->
  replayed n g (k + 1) = replay_chain n [k + 1] l.
Proof.
  intros Hk Hl. unfold replayed in *. rewrite (seqZ_app 1 k 1) by lia. rewrite replay_chain_app, Hl. cbn [mbind option_bind].
  by replace (1 + k) with (k + 1) by lia.
Qed.

Lemma with_statement_Some st l a : with_statement st l = Some a ->
  account_statement a = st /\ a ∈ bt_values (ledger_accounts l).
Proof.
  unfold with_statement. intros [Hin Heq]%List.find_some. apply bool_decide_eq_true in Heq.
  split; [done|]. by apply list_elem_of_In.
Qed.

Lemma replay_for_spec st n g k m l r :
  0 <= k -> 0 <= m -> replayed n g k = Some l -> unknown_until n g st (k + 1) ->
  replay_for st n (seqZ (k + 1) m) l = Ok r ->
  match r with
  | Some (a, h, current) => current = false /\ account_statement a = st /\ k < h <= k + m /\
      unknown_until n g st h /\
      exists l', replayed n g h = Some l' /\ a ∈ bt_values (ledger_accounts l')
  | None => unknown_until n g st (k + m + 1)
  end.
Proof.
  intros Hk Hm. revert k l Hk. pattern m. apply natlike_ind; [| |done]; clear m Hm.
  { intros k l Hk Hl Hu [= <-]. by replace (k + 0 + 1) with (k + 1) by lia. }
  intros m Hm0 IH k l Hk Hl Hu.
  rewrite seqZ_cons by lia. replace (Z.pred (Z.succ m)) with m by lia. cbn [replay_for]. intros Hrun.
  apply bind_Ok in Hrun as (o & Ho%map_err_Ok & Hrun). apply bind_Ok in Hrun as (b & Hb%ok_or_Ok & Hrun).
  subst o. destruct (ledger_apply_block b l) as [applied l'] eqn:Ea.
  apply bind_Ok in Hrun as ([] & Hap%map_err_Ok & Hrun). subst applied.
  assert (Hl' : replayed n g (k + 1) = Some l').
  { rewrite (replayed_succ n g k l Hk Hl). cbn. rewrite Ho. cbn. by rewrite Ea. }
  destruct (with_statement st l') as [a|] eqn:Ew.
  - injection Hrun as <-. apply with_statement_Some in Ew as [Hst Hin].
    split_and!; [done|done|lia|lia|done|by exists l'].
  - assert (Hu' : unknown_until n g st (k + 1 + 1)).
    { intros h' Hh'. destruct (Z.eq_dec h' (k + 1)) as [->|]; [by exists l'|apply Hu; lia]. }
    replace (Z.succ (k + 1)) with (k + 1 + 1) in Hrun by lia.
    specialize (IH (k + 1) l' ltac:(lia) Hl' Hu' Hrun).
    destruct r as [[[a h] current]|].
    + destruct IH as (? & ? & ? & ? & ?). split_and!; try done; lia.
    + by replace (k + Z.succ m + 1) with (k + 1 + m + 1) by lia.
Qed.

(** looking up an account statement gives an account that has it: a current one if the ledger
    has one, otherwise one of the chain replayed from genesis to the first height at which any
    account has it. When the answer is that there is none, no height up to the tip has it. *)
Theorem statement_at_first_height n statement r :
  (forall h, tip_height n = Some h -> 0 <= h) -> find_account_statement n statement = Ok r ->
  match r with
  | Some (a, h, true) => account_statement a = statement /\ a ∈ bt_values (ledger_accounts (ledger n))
  | Some (a, h, false) => account_statement a = statement /\ with_statement statement (ledger n) = None /\
      exists g l, genesis_ledger = Ok g /\ replayed n g h = Some l /\
        a ∈ bt_values (ledger_accounts l) /\ unknown_until n g statement h
  | None => with_statement statement (ledger n) = None /\
      exists g, genesis_ledger = Ok g /\ unknown_until n g statement (unwrap_or 0 (tip_height n) + 1)
  end.
Proof.
  intros Htip Hrun. unfold find_account_statement in Hrun.
  destruct (with_statement statement (ledger n)) as [a|] eqn:Ec.
  { injection Hrun as <-. by apply with_statement_Some in Ec. }
  apply bind_Ok in Hrun as (g & Hg%map_err_Ok & Hrun).
  destruct (with_statement statement g) as [a|] eqn:Eg.
  { injection Hrun as <-. apply with_statement_Some in Eg as [Hst Hin].
    split; [done|]. split; [done|]. exists g, g. split_and!; [done|done|done|intros h Hh; lia]. }
  assert (Hu : unknown_until n g statement (0 + 1)).
  { intros h Hh. replace h with 0 by lia. by exists g. }
  assert (Hm : 0 <= unwrap_or 0 (tip_height n)) by (destruct (tip_height n); [by apply Htip|done]).
  pose proof (replay_for_spec statement n g 0 _ g r ltac:(lia) Hm eq_refl Hu Hrun) as Hspec.
  destruct r as [[[a h] current]|].
  - destruct Hspec as (-> & Hst & Hh & Hun & l & Hl & Hin). split; [done|]. split; [done|]. by exists g, l.
  - split; [done|]. exists g. split; [done|]. by replace (unwrap_or 0 (tip_height n) + 1) with (0 + unwrap_or 0 (tip_height n) + 1) by lia.
Qed.

(** ** Supply *)

(** The reported supplies add up, in 64 bits. *)
Lemma supply_adds_up n r : chain_stats n = Ok r ->
  genesis_premine r + mined_supply r = total_known_supply r /\
  onchain_supply r + qcash_redeemable_supply r + qcash_pending_supply r = total_known_supply r /\
  total_known_supply r <= U64_MAX.
Proof.
  unfold chain_stats, checked_sub, checked_add. intros Hrun.
  apply bind_Ok in Hrun as (onchain & _ & Hrun). apply bind_Ok in Hrun as (offchain & _ & Hrun).
  apply bind_Ok in Hrun as (redeemable & _ & Hrun).
  apply bind_Ok in Hrun as (pending & Hp%ok_or_Ok & Hrun). apply bind_Ok in Hrun as (known & Hk%ok_or_Ok & Hrun).
  apply bind_Ok in Hrun as (genesis & _ & Hrun). apply bind_Ok in Hrun as (premine & _ & Hrun).
  apply bind_Ok in Hrun as (mined & Hm%ok_or_Ok & [= <-]). cbn.
  destruct (Z.leb_spec redeemable offchain); [|done]. destruct (Z.leb_spec (onchain + offchain) U64_MAX); [|done].
  destruct (Z.leb_spec premine known); [|done]. injection Hp as <-. injection Hk as <-. injection Hm as <-. lia.
Qed.
End read_spec.
