(* ===== verification/RpcExamples.v ===== *)
(** The RPC on the toy protocol: submissions, a draft, an account statement, pages of events and
    a stream over a chain with a finalized block. *)
From Stdlib Require Import ZArith Lia.
From stdpp Require Import base numbers option strings list gmap relations.
From S2P Require Import Prelude BTree PaqusCore Toy Net Mempool MempoolInv Compact Recovery Lmdb Storage StorageExamples.
From S2P Require Import Cache Miner NodeState Node NodeOrphans NodeMempool NodeExamples Message Handler HandlerSpec.
From S2P Require Import Gossip Peer Config Mining RpcAccess Rpc RpcSpec RpcEvents RpcEventsSpec RpcRead RpcReadSpec.
Open Scope Z_scope.

Module RpcToy.
Import Toy StorageToy NodeToy.

Definition pay_batch : Batch :=
  {| b_from := alice; b_outputs := [{| to := ToAddress bob; amount := 10 |}; {| to := BlockMiner; amount := 1 |}];
     b_state := zero_hash; b_expiry := 0 |}.
(** A text stands for the value it names. *)
#[global] Instance named_ops : ConfigOps := {
  parse_socket s := if bool_decide (s = "peer")%string then Ok {| ip := V4 10 0 0 1; port := 5555 |} else Err "invalid";
  show_socket _ := "peer";
  hex_decode s :=
    if bool_decide (s = "pay")%string then Some (ser pay_batch) else
    if bool_decide (s = "a1")%string then Some (ser a1) else
    if bool_decide (s = "zero")%string then Some zero_hash else None;
  address_from_string s :=
    if bool_decide (s = "alice")%string then Some alice else
    if bool_decide (s = "bob")%string then Some bob else None;
  SECRET_KEY_SIZE := 1;
  PUBLIC_KEY_SIZE := 1;
  derive_public_key k := k;
  dual_address_from_public_keys k _ := k;
  config_from_json _ := Err "expected value";
  wallet_from_json _ := Err "expected value"
}.
#[global] Instance rpc_ops : RpcOps := {
  address_to_string _ := "address";
  address_error _ := "invalid";
  batch_from_slice raw := match Toy.parse raw with Some t => Ok t | None => Err "invalid" end;
  qcash_from_slice raw := match Toy.parse raw with Some t => Ok t | None => Err "invalid" end;
  protocol_from_slice raw := match Toy.parse raw with Some t => Ok t | None => Err "invalid" end;
  batch_hash t := tx_hash (BatchTransfer t);
  qcash_hash t := tx_hash (QCash t);
  Transfer := Batch;
  Transfer_new a os := {| b_from := a; b_outputs := os; b_state := []; b_expiry := 0 |};
  with_last_state h t := {| b_from := b_from t; b_outputs := b_outputs t; b_state := h; b_expiry := b_expiry t |};
  signing_bytes t := Ok (ser t);
  transfer_validate t := Ok tt;
  transaction_bytes t := Ok (ser t);
  transfer_total_amount t := Ok (Toy.total t);
  MAX_BATCH_OUTPUTS := 16;
  sign _ _ := [];
  new_authorized t _ _ _ _ := t;
  XPQ := 1;
  FAUCET_MAX_REQUEST := 1000;
  faucet_keypairs := ({| public_key := alice; secret_key_bytes := [] |}, {| public_key := alice; secret_key_bytes := [] |});
  bundle_bytes _ := Ok []
}.
#[global] Instance hash_laws : HashLaws.
Proof. split; reflexivity. Qed.
#[global] Instance explorer_ops : ExplorerOps := {
  account_statement_height _ := 0;
  account_authorized _ := true;
  account_credits _ := 0;
  canonical_transaction_lifecycle d := if 6 <? d then LifecycleFinalized else LifecyclePending;
  lifecycle_text _ := "pending";
  ledger_total_supply _ := Ok 0;
  qcash_total_value _ := Ok 0;
  qcash_redeemable_balance_at _ _ := Ok 0;
  qcash_coins _ := [];
  qcash_coin _ _ := None;
  QCASH_REDEEM_DELAY := 10;
  allocation_amount a := a.2;
  tx_authorization_addresses _ := []
}.

(** Every peer can be reached, a connection counts what was sent on it. *)
Definition dial (_ : SocketAddr) : Result string Z := Ok 0.
Definition deliver (_ : NetworkMessage) : ST Z string unit := st_modify (fun k => k + 1).
Definition free {A} (a : A) : Mutex A := {| poisoned := false; guarded := a |}.
Definition served : RpcState (Conn := Z) := {|
  node := free fresh; rpc_peers := free ∅; peer_connections := free ∅; inbound_connections := free ∅;
  accepted_tx_total := 0; broadcast_tx_total := 0 |}.

(** A chain of seven blocks, of which the first is final, with an event in it. *)
Definition tall_ledger : Ledger :=
  Nat.iter 6 (fun l => extend l (next_block l [])) ledger0.
Definition genesis_hash : BlockHash := hash32 (ser (header genesis_block : Header)).
Definition with_event : LmdbEnv :=
  (with_rw (put_value WEvent events_by_id (hash32 [3]) 3 ;;
            put_value WEventId block_event_index (block_event_key genesis_hash 3) (hash32 [3]))
     (save_ledger tall_ledger empty_store).2).2.
Definition final_node : Node := set_ledger tall_ledger (set_storage with_event fresh).
End RpcToy.

Module RpcWitnesses.
Import Toy StorageToy NodeToy RpcToy.

Lemma fresh_lawful : mempool_wf (pool served).
Proof. exact (new_node_lawful _ _ _ _ _ fresh_eq). Qed.

Definition submission := rpc_submit_tx clock dial deliver "pay" served.
Lemma submission_ok : is_ok submission.1 = true.
Proof. vm_compute. reflexivity. Qed.
Lemma accepted_is_pooled_witness : exists r s' tx,
  submission = (Ok r, s') /\ submitted (BatchTransfer tx) (hash_text r) served s'.
Proof.
  pose proof submission_ok as Hok. unfold submission in *.
  destruct (rpc_submit_tx clock dial deliver "pay" served) as [[r|e] s'] eqn:E; [|discriminate Hok].
  destruct (proj1 (accepted_is_pooled clock dial deliver "pay" served fresh_lawful) r s' E) as (tx & _ & Hs).
  exists r, s', tx. split; [reflexivity|exact Hs].
Defined.

Definition calls : list RpcCall :=
  [CallSubmitTx "pay"; CallAddPeer 1 2 "peer"; CallFaucet (fun n => n) "tXPQ" "bob" (Some 5);
   CallSubmitBlock "a1"; CallTemplate (Ok 2000) "bob"; CallRetry "zero"].
Lemma rpc_keeps_node_witness :
  let after := fold_left (fun s c => serve clock dial deliver c s) calls served in
  pool_wf (guarded (node after)) /\ mempool_wf (pool after) /\
  peer_table_wf (guarded (rpc_peers after)).
Proof.
  refine (rpc_keeps_node clock dial deliver _ _ _ _ fresh calls served fresh_eq eq_refl _ _).
  - apply map_Forall_empty.
  - repeat constructor; intros n; apply rtc_refl.
Defined.

Definition ask : DraftTransferRequest := {|
  draft_request_signer := "alice"; draft_outputs := [("bob", 7); ("miner", 2)];
  fee_rate_per_byte := None; allow_pending := false |}.
Definition draft := rpc_draft_transfer ask served.
Lemma draft_ok : is_ok draft.1 = true.
Proof. vm_compute. reflexivity. Qed.
Lemma draft_is_what_was_asked_witness : exists r s', draft = (Ok r, s') /\ s' = served.
Proof.
  pose proof draft_ok as Hok. unfold draft in *.
  destruct (rpc_draft_transfer ask served) as [[r|e] s'] eqn:E; [|discriminate Hok].
  exists r, s'. split; [reflexivity|exact (proj1 (draft_is_what_was_asked ask served r s' E))].
Defined.

Definition unknown_statement : Hash := replicate 32 9.
Lemma unknown_eq : find_account_statement final_node unknown_statement = Ok None.
Proof. vm_compute. reflexivity. Qed.
Lemma final_tip : Node.tip_height final_node = Some 6.
Proof. vm_compute. reflexivity. Qed.
Lemma final_height h : Node.tip_height final_node = Some h -> 0 <= h.
Proof. rewrite final_tip. intros [= <-]. lia. Qed.
Lemma statement_at_first_height_witness :
  with_statement unknown_statement (ledger final_node) = None /\
  exists g, genesis_ledger = Ok g /\
    unknown_until final_node g unknown_statement (unwrap_or 0 (Node.tip_height final_node) + 1).
Proof. exact (statement_at_first_height final_node unknown_statement None final_height unknown_eq). Defined.

Definition pages_of : EventQuery :=
  {| offset := None; limit := Some 2; kind := Some "COINBASE_PAID"; from_height := None; to_height := None |}.
Definition three : list ProtocolEvent := [4; 5; 6].
Definition first_page := protocol_event_list three pages_of.
Lemma first_page_ok : is_ok first_page = true.
Proof. vm_compute. reflexivity. Qed.
Lemma pages_make_up_list_witness : exists pages,
  collect_result (fun i => protocol_event_list three (at_offset (Z.of_nat i * 2) pages_of)) (seq 0 2) = Ok pages /\
  concat (map (fun p => map event (events p)) pages) = three.
Proof.
  pose proof first_page_ok as Hok. unfold first_page in Hok.
  destruct (protocol_event_list three pages_of) as [r|] eqn:E; [|discriminate Hok].
  destruct (pages_make_up_list three pages_of r 2 2) as (pages & Hc & Hm & _).
  - repeat constructor; eexists; reflexivity.
  - exact E.
  - reflexivity.
  - lia.
  - vm_compute. discriminate.
  - exists pages. split; [exact Hc|]. rewrite Hm. vm_compute. reflexivity.
Defined.

(** The final block's event, and nothing else. *)
Definition genesis_events (h : Z) : list ProtocolEvent := height_events final_node h.
Definition opened : EventStream :=
  {| next_height := 0; stream_kind := None; stream_address := None; stream_pending := [] |}.
Lemma final_serves : serves genesis_events final_node.
Proof.
  intros f. rewrite final_tip. intros [= <-]. split; [reflexivity|]. intros h _. unfold genesis_events. reflexivity.
Qed.
Lemma genesis_event : genesis_events 0 = [3].
Proof. vm_compute. reflexivity. Qed.
Lemma event_stream_exact_witness : exists j s',
  run_stream [Some final_node; Some final_node] opened = (concat (map (wanted opened genesis_events) (seqZ 0 j)), Some s') /\
  0 < j.
Proof.
  destruct (event_stream_exact genesis_events [final_node; final_node] opened) as (j & s' & Hrun & _ & _ & Hlive).
  - apply Forall_cons; split; [exact final_serves|]. apply Forall_cons; split; [exact final_serves|].
    constructor.
  - reflexivity.
  - reflexivity.
  - exists j, s'. split; [exact Hrun|].
    refine (Hlive 0 _ ltac:(split; reflexivity)). intros n Hn. exists 0.
    rewrite !elem_of_cons, elem_of_nil in Hn. destruct Hn as [->|[->|[]]].
    all: rewrite final_tip; split; reflexivity.
Defined.
End RpcWitnesses.
