(* ===== verification/WalletCore.v ===== *)
(** The wallet library: wallet-core/src/lib.rs.

    A wallet is a spending key and the public half of an authorization key that a password
    derives; its address commits to both. Keys, signatures, addresses and transactions are the
    paqus crate's, hexadecimal text the hex crate's, JSON serde_json's, mnemonics bip39's and
    random bytes getrandom's: class [WalletOps]. Clearing secrets from memory is left out. *)
From Stdlib Require Import ZArith Lia Ascii.
From stdpp Require Import base numbers option strings list.
From S2P Require Import Prelude PaqusCore Handler Config.
Open Scope Z_scope.

Definition WALLET_VERSION : Z := 1.
Definition PAQUS_MNEMONIC_12_ENTROPY_BYTES : Z := 16.
Definition PAQUS_MNEMONIC_24_ENTROPY_BYTES : Z := 32.

(** Keys and signatures are byte strings. *)
Record Wallet := {
  mnemonic : option string;
  wallet_addr : Address;
  wallet_public_key : bytes;
  wallet_secret_key : bytes;
  auth_public_key : option bytes;
  auth_secret_key : option bytes
}.
Record AuthorizationKeys := { authorization_public_key : bytes; authorization_secret_key : bytes }.
(** The JSON of a wallet file; the optional fields are left out when they are [None]. *)
Record WalletFile := {
  file_version : Z;
  file_address : string;
  file_mnemonic : option string;
  file_public_key : string;
  file_secret_key : string;
  file_auth_public_key : option string;
  file_auth_secret_key : option string
}.

Class WalletOps := {
  WALLET_PUBLIC_KEY_SIZE : Z;
  WALLET_SECRET_KEY_SIZE : Z;
  unhex : string -> option bytes;
  address_text : Address -> string;
  address_of_text : string -> Result string Address;
  public_key_of : bytes -> bytes;
  dual_address : bytes -> bytes -> Address;
  hash_of : bytes -> Hash;
  (** public and secret key *)
  keypair_of_seed : bytes -> bytes * bytes;
  (** [authorization_keypair_from_password(password, public_key)] *)
  authorization_keypair : bytes -> bytes -> Result string (bytes * bytes);
  sign_with : bytes -> bytes -> bytes;
  to_vec_pretty : WalletFile -> Result string bytes;
  from_slice : bytes -> Result string WalletFile;
  mnemonic_from_entropy : bytes -> Result string string;
  mnemonic_parse_normalized : string -> Result string bytes
}.
(** A kind of transaction and its signed form: transfers and QCash transactions. *)
Class Signable (T Signed : Type) := {
  to_sign : T -> Result string bytes;
  stored_authorized : T -> bytes -> bytes -> Signed;
  fully_authorized : T -> bytes -> bytes -> bytes -> bytes -> Signed;
  validate_stored_keys : BlockHeight -> bytes -> bytes -> Signed -> Result string unit;
  validate_signed : Signed -> Result string unit
}.

(** ** Text *)

(** [str::split_whitespace] on ASCII: the maximal runs without white space. *)
Fixpoint words_from (s word : string) : list string :=
  match s with
  | EmptyString => if bool_decide (word = "") then [] else [word]
  | String c s =>
      if is_space c then (if bool_decide (word = "") then [] else [word]) ++ words_from s ""
      else words_from s (word +:+ String c "")
  end.
Definition split_whitespace (s : string) : list string := words_from s "".
(** [join(" ")] *)
Fixpoint join (ws : list string) : string :=
  match ws with
  | [] => ""
  | [w] => w
  | w :: ws => w +:+ String " " (join ws)
  end.
Fixpoint string_bytes (s : string) : bytes :=
  match s with EmptyString => [] | String c s => Z.of_N (N_of_ascii c) :: string_bytes s end.
Definition PAQUS_MNEMONIC_SPEND_TAG : bytes := string_bytes "PAQUS_WALLET_SPEND_ML_DSA44_V1".

Section wallet.
Context `{!WalletOps}.

Definition from_keys_with_authorization (public_key secret_key auth_key : bytes)
    (auth_secret : option bytes) : Wallet := {|
  mnemonic := None; wallet_addr := dual_address public_key auth_key;
  wallet_public_key := public_key; wallet_secret_key := secret_key;
  auth_public_key := Some auth_key; auth_secret_key := auth_secret |}.
Definition wallet_address_string (w : Wallet) : string := address_text (wallet_addr w).

(** ** Files *)

(** The authorization secret is never written. *)
Definition wallet_file (w : Wallet) : WalletFile := {|
  file_version := WALLET_VERSION; file_address := address_text (wallet_addr w);
  file_mnemonic := mnemonic w; file_public_key := hex_encode (wallet_public_key w);
  file_secret_key := hex_encode (wallet_secret_key w);
  file_auth_public_key := hex_encode <$> auth_public_key w; file_auth_secret_key := None |}.
Definition wallet_file_bytes (w : Wallet) : Result string bytes :=
  map_err (fun e => "failed to encode wallet file: " +:+ e) (to_vec_pretty (wallet_file w)).

Definition decode_key (size : Z) (value label : string) : Result string bytes :=
  raw ← ok_or (unhex value) ("invalid " +:+ label +:+ " hex");
  if zlen raw =? size then Ok raw else Err ("invalid " +:+ label +:+ " length").
Definition set_mnemonic (m : option string) (w : Wallet) : Wallet := {|
  mnemonic := m; wallet_addr := wallet_addr w; wallet_public_key := wallet_public_key w;
  wallet_secret_key := wallet_secret_key w; auth_public_key := auth_public_key w;
  auth_secret_key := auth_secret_key w |}.
Definition wallet_from_file_bytes (raw : bytes) : Result string Wallet :=
  file ← map_err (fun e => "failed to parse wallet: " +:+ e) (from_slice raw);
  if negb (file_version file =? WALLET_VERSION) then Err "unsupported wallet format" else
  a ← map_err (fun e => "invalid wallet address: " +:+ e) (address_of_text (file_address file));
  public_key ← decode_key WALLET_PUBLIC_KEY_SIZE (file_public_key file) "public key";
  secret_key ← decode_key WALLET_SECRET_KEY_SIZE (file_secret_key file) "secret key";
  auth_text ← ok_or (file_auth_public_key file) "wallet is missing authorization public key";
  auth_key ← decode_key WALLET_PUBLIC_KEY_SIZE auth_text "authorization public key";
  auth_secret ← match file_auth_secret_key file with
                | Some text =>
                    key ← decode_key WALLET_SECRET_KEY_SIZE text "authorization secret key"; Ok (Some key)
                | None => Ok None
                end;
  if negb (bool_decide (public_key_of secret_key = public_key))
  then Err "wallet public key does not match secret key" else
  let w := set_mnemonic (file_mnemonic file)
             (from_keys_with_authorization public_key secret_key auth_key auth_secret) in
  if negb (bool_decide (wallet_addr w = a))
  then Err "wallet address does not match its key material" else Ok w.

Definition authorization_keys_from_password (w : Wallet) (password : string)
    : Result string AuthorizationKeys :=
  keys ← map_err (fun e => "authorization key derivation failed: " +:+ e)
           (authorization_keypair (string_bytes password) (wallet_public_key w));
  if negb (bool_decide (auth_public_key w = Some keys.1))
  then Err "authorization password does not match this wallet" else
  Ok {| authorization_public_key := keys.1; authorization_secret_key := keys.2 |}.

(** ** Mnemonics *)

Definition encode_paqus_mnemonic (entropy : bytes) : Result string string :=
  map_err (fun e => "failed to encode mnemonic: " +:+ e) (mnemonic_from_entropy entropy).
(** [fill] is [getrandom::fill] of that many bytes. *)
Definition generate_paqus_mnemonic (fill : Z -> Result string bytes) (words : Z) : Result string string :=
  len ← (if words =? 12 then Ok PAQUS_MNEMONIC_12_ENTROPY_BYTES else
         if words =? 24 then Ok PAQUS_MNEMONIC_24_ENTROPY_BYTES else
         Err "mnemonic words must be 12 or 24");
  entropy ← map_err (fun e => "secure random generation failed: " +:+ e) (fill len);
  encode_paqus_mnemonic entropy.
Definition decode_paqus_mnemonic (phrase : string) : Result string bytes :=
  let normalized := join (map to_ascii_lowercase (split_whitespace phrase)) in
  let word_count := length (split_whitespace normalized) in
  if negb (bool_decide (word_count ∈ [12; 24]%nat))
  then Err "invalid Paqus mnemonic: expected 12 or 24 words" else
  map_err (fun e => "invalid Paqus mnemonic: " +:+ e) (mnemonic_parse_normalized normalized).
Definition tagged_wallet_hash (tag raw : bytes) : Hash := hash_of (tag ++ raw).
Definition wallet_from_paqus_mnemonic (phrase auth_password : string) : Result string Wallet :=
  entropy ← decode_paqus_mnemonic phrase;
  let spend := keypair_of_seed (tagged_wallet_hash PAQUS_MNEMONIC_SPEND_TAG entropy) in
  authorization ← map_err (fun e => "authorization key derivation failed: " +:+ e)
                    (authorization_keypair (string_bytes auth_password) spend.1);
  Ok (from_keys_with_authorization spend.1 spend.2 authorization.1 None).

(** ** Signing *)

Definition stored_authorization_keys (w : Wallet) : option AuthorizationKeys :=
  public_key ← auth_public_key w;
  secret_key ← auth_secret_key w;
  Some {| authorization_public_key := public_key; authorization_secret_key := secret_key |}.

Section sign.
Context {T Signed : Type} `{!Signable T Signed}.
(** What the two signing methods share: both signatures over the same bytes, the keys in the
    transaction unless the account has them, and the protocol's own check of the result. *)
Definition sign_both (w : Wallet) (t : T) (raw : bytes) (authorization : AuthorizationKeys)
    (registered : bool) : Result string Signed :=
  let signature := sign_with (wallet_secret_key w) raw in
  let auth_signature := sign_with (authorization_secret_key authorization) raw in
  let signed :=
    if registered then stored_authorized t signature auth_signature
    else fully_authorized t (wallet_public_key w) signature
           (authorization_public_key authorization) auth_signature in
  _ ← (if registered
       then validate_stored_keys 0 (wallet_public_key w) (authorization_public_key authorization) signed
       else validate_signed signed);
  Ok signed.
Definition sign_transaction (w : Wallet) (t : T) (authorization : option AuthorizationKeys)
    (registered : bool) : Result string Signed :=
  raw ← map_err (fun e => "failed to serialize transaction: " +:+ e) (to_sign t);
  authorization ← ok_or (match authorization with
                         | Some keys => Some keys
                         | None => stored_authorization_keys w
                         end) "authorization password is required";
  map_err (fun e => "signed transaction failed validation: " +:+ e) (sign_both w t raw authorization registered).
Definition sign_qcash_transaction (w : Wallet) (t : T) (authorization : AuthorizationKeys)
    (registered : bool) : Result string Signed :=
  raw ← map_err (fun e => "failed to serialize QCash transaction: " +:+ e) (to_sign t);
  map_err (fun e => "signed QCash transaction failed validation: " +:+ e)
    (sign_both w t raw authorization registered).
End sign.
End wallet.
