(* ===== verification/WalletSpec.v ===== *)
(** The wallet library: a wallet file reads back as the wallet, what is read is consistent, a
    mnemonic typed with any spacing and case gives the wallet back, and a signature is made with
    the wallet's own keys only. *)
From Stdlib Require Import ZArith Lia Ascii.
From stdpp Require Import base numbers option strings list.
From S2P Require Import Prelude PaqusCore Toy Handler Config WalletCore.
Open Scope Z_scope.

(** ** Words *)

Fixpoint spaceless (s : string) : bool :=
  match s with EmptyString => true | String c s => negb (is_space c) && spaceless s end.
(** A word: not empty, without white space *)
Definition is_word (w : string) : Prop := w <> "" /\ spaceless w = true.

Lemma append_cons c a b : String c a +:+ b = String c (a +:+ b).
Proof. reflexivity. Qed.
Lemma append_nil_r s : s +:+ "" = s.
Proof. induction s as [|c s IH]; [done|by rewrite append_cons, IH]. Qed.
Lemma append_assoc (a b c : string) : (a +:+ b) +:+ c = a +:+ (b +:+ c).
Proof. induction a as [|x a IH]; [done|by rewrite !append_cons, IH]. Qed.

Lemma words_from_word w rest acc :
  spaceless w = true -> words_from (w +:+ rest) acc = words_from rest (acc +:+ w).
Proof.
  revert acc. induction w as [|c w IH]; intros acc Hw; [by rewrite append_nil_r|].
  rewrite append_cons. cbn in Hw |- *. apply andb_true_iff in Hw as [Hc Hw]. apply negb_true_iff in Hc. rewrite Hc, IH by done.
  by rewrite append_assoc.
Qed.
Lemma split_join ws : Forall is_word ws -> split_whitespace (join ws) = ws.
Proof.
  unfold split_whitespace. induction 1 as [|w ws [Hne Hw] Hws IH]; [done|].
  destruct ws as [|w' ws].
  - cbn [join]. rewrite <-(append_nil_r w) at 1. rewrite words_from_word by done. cbn [words_from].
    change ("" +:+ w) with w. by rewrite bool_decide_false.
  - change (join (w :: w' :: ws)) with (w +:+ String " " (join (w' :: ws))).
    rewrite words_from_word by done. cbn [words_from]. change (is_space " "%char) with true.
    change (("" +:+ w)) with w. rewrite bool_decide_false by done. cbn [app]. by rewrite IH.
Qed.

(** ** What the wallet relies on *)

Definition is_byte (x : Z) : Prop := 0 <= x < 256.
Class WalletLaws `{!WalletOps} : Prop := {
  unhex_law b : Forall is_byte b -> unhex (hex_encode b) = Some b;
  unhex_bytes s b : unhex s = Some b -> Forall is_byte b;
  address_law p q : address_of_text (address_text (dual_address p q)) = Ok (dual_address p q);
  json_law f raw : to_vec_pretty f = Ok raw -> from_slice raw = Ok f;
  (** bip39: 12 or 24 lower-case words for 16 or 32 bytes, which they encode *)
  bip39_law entropy phrase : zlen entropy = 16 \/ zlen entropy = 32 ->
    mnemonic_from_entropy entropy = Ok phrase ->
    mnemonic_parse_normalized phrase = Ok entropy /\
    exists ws, phrase = join ws /\ Forall (fun w => is_word w /\ to_ascii_lowercase w = w) ws /\
      length ws ∈ [12; 24]%nat
}.

Section wallet_spec.
Context `{!WalletOps} `{!WalletLaws}.

(** A key of the right size *)
Definition is_key (size : Z) (k : bytes) : Prop := Forall is_byte k /\ zlen k = size.
(** The public key is the secret key's, and the address commits to both public keys. *)
Record wallet_wf (w : Wallet) : Prop := {
  wf_public : is_key WALLET_PUBLIC_KEY_SIZE (wallet_public_key w);
  wf_secret : is_key WALLET_SECRET_KEY_SIZE (wallet_secret_key w);
  wf_pair : public_key_of (wallet_secret_key w) = wallet_public_key w;
  wf_auth : exists k, auth_public_key w = Some k /\ is_key WALLET_PUBLIC_KEY_SIZE k /\
    wallet_addr w = dual_address (wallet_public_key w) k
}.
(** The wallet without the secret half of its authorization key *)
Definition forget_authorization (w : Wallet) : Wallet := {|
  mnemonic := mnemonic w; wallet_addr := wallet_addr w; wallet_public_key := wallet_public_key w;
  wallet_secret_key := wallet_secret_key w; auth_public_key := auth_public_key w;
  auth_secret_key := None |}.

Lemma decode_key_Ok size text label k : decode_key size text label = Ok k -> is_key size k.
Proof.
  unfold decode_key. intros Hd. apply bind_Ok in Hd as (raw & Hraw%ok_or_Ok & Hd).
  destruct (Z.eqb_spec (zlen raw) size) as [Hs|]; [|done]. injection Hd as <-.
  split; [by eapply unhex_bytes|done].
Qed.
Lemma decode_encoded size label k : is_key size k -> decode_key size (hex_encode k) label = Ok k.
Proof. intros [Hb Hs]. unfold decode_key. rewrite unhex_law by done. cbn. by rewrite Hs, Z.eqb_refl. Qed.

(** What is read is consistent. *)
Lemma wallet_loaded_wf raw w : wallet_from_file_bytes raw = Ok w -> wallet_wf w.
Proof.
  unfold wallet_from_file_bytes. intros Hrun. apply bind_Ok in Hrun as (file & _ & Hrun).
  destruct (negb _); [done|]. apply bind_Ok in Hrun as (a & _ & Hrun).
  apply bind_Ok in Hrun as (pk & Hpk%decode_key_Ok & Hrun). apply bind_Ok in Hrun as (sk & Hsk%decode_key_Ok & Hrun).
  apply bind_Ok in Hrun as (text & _ & Hrun). apply bind_Ok in Hrun as (ak & Hak%decode_key_Ok & Hrun).
  apply bind_Ok in Hrun as (asec & _ & Hrun). case_bool_decide as Hpair; [|done]. cbn [negb] in Hrun.
  case_bool_decide; [|done]. injection Hrun as <-. split; cbn; [done..|]. by exists ak.
Qed.

(** C34: a wallet file reads back as the wallet that was written, all but the authorization secret,
    which is never written; and whatever file is read, the wallet is consistent: the public key
    is the secret key's and the address commits to both public keys. *)
Theorem wallet_file_roundtrip w raw :
  wallet_wf w -> wallet_file_bytes w = Ok raw ->
  wallet_from_file_bytes raw = Ok (forget_authorization w) /\
  forall raw' w', wallet_from_file_bytes raw' = Ok w' -> wallet_wf w'.
Proof.
  intros [Hpk Hsk Hpair (ak & Hauth & Hak & Haddr)] Hw. split; [|intros; by eapply wallet_loaded_wf].
  unfold wallet_file_bytes in Hw. apply map_err_Ok, json_law in Hw.
  unfold wallet_from_file_bytes. rewrite Hw. cbn -[decode_key hex_encode].
  rewrite Haddr, address_law. cbn -[decode_key hex_encode].
  rewrite (decode_encoded _ "public key" _ Hpk). cbn -[decode_key hex_encode].
  rewrite (decode_encoded _ "secret key" _ Hsk). cbn -[decode_key hex_encode].
  rewrite Hauth. cbn -[decode_key hex_encode]. rewrite (decode_encoded _ _ _ Hak). cbn.
  rewrite bool_decide_true by done. cbn. rewrite bool_decide_true by done. cbn.
  unfold set_mnemonic, from_keys_with_authorization, forget_authorization. cbn. by rewrite Hauth, Haddr.
Qed.

(** ** Mnemonics *)

Lemma mnemonic_typed entropy phrase typed password :
  zlen entropy = PAQUS_MNEMONIC_12_ENTROPY_BYTES \/ zlen entropy = PAQUS_MNEMONIC_24_ENTROPY_BYTES ->
  encode_paqus_mnemonic entropy = Ok phrase ->
  map to_ascii_lowercase (split_whitespace typed) = split_whitespace phrase ->
  decode_paqus_mnemonic typed = Ok entropy /\
  wallet_from_paqus_mnemonic typed password = wallet_from_paqus_mnemonic phrase password.
Proof.
  intros Hlen Henc Htyped. unfold encode_paqus_mnemonic in Henc. apply map_err_Ok in Henc.
  apply bip39_law in Henc as (Hparse & ws & -> & Hws & Hcount); [|done].
  assert (Hwords : Forall is_word ws) by (eapply Forall_impl; [exact Hws|by intros w [? _]]).
  assert (Hlower : map to_ascii_lowercase ws = ws).
  { clear -Hws. induction Hws as [|w ws [_ Hw] _ IH]; cbn; [done|]. by rewrite Hw, IH. }
  assert (Hdecode : forall text, map to_ascii_lowercase (split_whitespace text) = ws ->
    decode_paqus_mnemonic text = Ok entropy).
  { intros text Ht. unfold decode_paqus_mnemonic. rewrite Ht, split_join by done.
    rewrite bool_decide_true by done. cbn [negb]. by rewrite Hparse. }
  rewrite split_join in Htyped by done. split; [by apply Hdecode|].
  unfold wallet_from_paqus_mnemonic. rewrite !Hdecode; [done|by rewrite split_join|done].
Qed.
Lemma typed_recovers entropy phrase typed password :
  zlen entropy = PAQUS_MNEMONIC_12_ENTROPY_BYTES \/ zlen entropy = PAQUS_MNEMONIC_24_ENTROPY_BYTES ->
  encode_paqus_mnemonic entropy = Ok phrase ->
  map to_ascii_lowercase (split_whitespace typed) = split_whitespace phrase ->
  wallet_from_paqus_mnemonic typed password = wallet_from_paqus_mnemonic phrase password.
Proof. intros Hlen Henc Ht. by apply (mnemonic_typed entropy phrase typed password). Qed.
(** a mnemonic recovers the wallet however it is typed: a phrase with the same words as the
    generated one, in any case and with any white space, decodes to the same entropy and
    gives the same wallet. *)
Theorem mnemonic_recovers_wallet entropy phrase typed password :
  zlen entropy = PAQUS_MNEMONIC_12_ENTROPY_BYTES \/ zlen entropy = PAQUS_MNEMONIC_24_ENTROPY_BYTES ->
  encode_paqus_mnemonic entropy = Ok phrase ->
  map to_ascii_lowercase (split_whitespace typed) = split_whitespace phrase ->
  decode_paqus_mnemonic typed = Ok entropy /\
  wallet_from_paqus_mnemonic typed password = wallet_from_paqus_mnemonic phrase password.
Proof. apply mnemonic_typed. Qed.

(** ** Signing *)

(** a wallet signs with its own keys or not at all: what is signed carries the signature of
    the spending key, and of an authorization key that was given or is the wallet's own, over the
    same bytes, and has passed the protocol's check; without an authorization key nothing is
    signed. Keys derived from a password are the ones the address commits to. *)
Theorem wallet_signs_with_own_keys {T Signed : Type} `{!Signable T Signed} w t given registered (signed : Signed) :
  sign_transaction w t given registered = Ok signed ->
  exists raw keys, to_sign t = Ok raw /\
    (given = Some keys \/ given = None /\ stored_authorization_keys w = Some keys) /\
    let signature := sign_with (wallet_secret_key w) raw in
    let auth_signature := sign_with (authorization_secret_key keys) raw in
    if registered then
      signed = stored_authorized t signature auth_signature /\
      validate_stored_keys 0 (wallet_public_key w) (authorization_public_key keys) signed = Ok tt
    else
      signed = fully_authorized t (wallet_public_key w) signature (authorization_public_key keys) auth_signature /\
      validate_signed signed = Ok tt.
Proof.
  unfold sign_transaction, sign_both. intros Hrun. apply bind_Ok in Hrun as (raw & Hraw%map_err_Ok & Hrun).
  apply bind_Ok in Hrun as (keys & Hkeys%ok_or_Ok & Hrun). apply map_err_Ok in Hrun.
  apply bind_Ok in Hrun as ([] & Hvalid & [= <-]). exists raw, keys. split; [done|].
  split; [destruct given; naive_solver|]. by destruct registered.
Qed.

(** A password gives keys only when it is the wallet's. *)
Lemma password_keys w password keys :
  authorization_keys_from_password w password = Ok keys ->
  auth_public_key w = Some (authorization_public_key keys) /\
  authorization_keypair (string_bytes password) (wallet_public_key w) =
    Ok (authorization_public_key keys, authorization_secret_key keys).
Proof.
  unfold authorization_keys_from_password. intros Hrun.
  apply bind_Ok in Hrun as ([pk sk] & Hk%map_err_Ok & Hrun). cbn in Hrun.
  case_bool_decide; [|done]. by injection Hrun as <-.
Qed.
End wallet_spec.

Module WalletExamples.
Import Toy.

(** [hex::decode] *)
Definition unhex_digit (c : ascii) : option Z :=
  let n := Z.of_N (N_of_ascii c) in
  if (48 <=? n) && (n <=? 57) then Some (n - 48) else
  if (97 <=? n) && (n <=? 102) then Some (n - 87) else None.
Fixpoint unhex_toy (s : string) : option bytes :=
  match s with
  | EmptyString => Some []
  | String c (String d s) =>
      x ← unhex_digit c; y ← unhex_digit d; rest ← unhex_toy s; Some (x * 16 + y :: rest)
  | String _ EmptyString => None
  end.
Definition words12 : list string := replicate 12 "ab".
Definition entropy12 : bytes := replicate 16 0.
#[global] Instance file_ser : Ser WalletFile :=
  ser_iso (A := Z * (string * (option string * (string * (string * (option string * option string))))))
    (fun f => (file_version f, (file_address f, (file_mnemonic f, (file_public_key f,
       (file_secret_key f, (file_auth_public_key f, file_auth_secret_key f)))))))
    (fun p => {| file_version := p.1; file_address := p.2.1; file_mnemonic := p.2.2.1;
       file_public_key := p.2.2.2.1; file_secret_key := p.2.2.2.2.1;
       file_auth_public_key := p.2.2.2.2.2.1; file_auth_secret_key := p.2.2.2.2.2.2 |}).
#[global] Instance file_ser_law : SerLaw WalletFile.
Proof. apply ser_iso_law. by intros []. Qed.
(** A key made from the first byte *)
Definition first_byte (s : bytes) : bytes := [match s with x :: _ => x mod 256 | [] => 0 end].
#[global] Instance toy_wallet : WalletOps := {
  WALLET_PUBLIC_KEY_SIZE := 1;
  WALLET_SECRET_KEY_SIZE := 1;
  unhex := unhex_toy;
  address_text a := hex_encode a;
  address_of_text text := match unhex_toy text with Some a => Ok a | None => Err "invalid" end;
  public_key_of k := k;
  dual_address p q := map (fun x => x mod 256) (p ++ q);
  hash_of b := b;
  keypair_of_seed s := (first_byte s, first_byte s);
  authorization_keypair password _ := Ok (first_byte password, first_byte password);
  sign_with k b := k ++ b;
  to_vec_pretty f := Ok (ser f);
  from_slice raw := match parse raw with Some f => Ok f | None => Err "invalid" end;
  mnemonic_from_entropy e := if bool_decide (e = entropy12) then Ok (join words12) else Err "size";
  mnemonic_parse_normalized p := if bool_decide (p = join words12) then Ok entropy12 else Err "word"
}.
#[global] Instance toy_sign : Signable bytes (bytes * bytes) := {
  to_sign t := Ok t;
  stored_authorized _ s a := (s, a);
  fully_authorized _ _ s _ a := (s, a);
  validate_stored_keys _ _ _ _ := Ok tt;
  validate_signed _ := Ok tt
}.

Lemma unhex_digit_law n : 0 <= n < 16 -> unhex_digit (hex_digit n) = Some n.
Proof.
  intros Hn. assert (Hin : n ∈ [0; 1; 2; 3; 4; 5; 6; 7; 8; 9; 10; 11; 12; 13; 14; 15])
    by (rewrite !elem_of_cons; lia).
  rewrite !elem_of_cons, elem_of_nil in Hin. repeat destruct Hin as [->|Hin]; try done.
Qed.
Lemma unhex_digit_range c n : unhex_digit c = Some n -> 0 <= n < 16.
Proof.
  unfold unhex_digit. destruct (_ && _) eqn:E1.
  { intros [= <-]. lia. }
  destruct ((97 <=? _) && _) eqn:E2; [|done]. intros [= <-]. lia.
Qed.
Lemma unhex_range s : forall b, unhex_toy s = Some b -> Forall is_byte b.
Proof.
  induction s as [s IH] using (induction_ltof1 _ String.length). intros b.
  destruct s as [|c [|d s]]; cbn; [by intros [= <-]; constructor|done|].
  destruct (unhex_digit c) as [x|] eqn:Ex; [|done]. cbn. destruct (unhex_digit d) as [y|] eqn:Ey; [|done].
  cbn. destruct (unhex_toy s) as [rest|] eqn:Er; [|done]. intros [= <-].
  apply unhex_digit_range in Ex, Ey. constructor; [unfold is_byte; lia|].
  refine (IH s _ rest Er). unfold ltof. cbn. lia.
Qed.
Lemma unhex_encoded b : Forall is_byte b -> unhex_toy (hex_encode b) = Some b.
Proof.
  induction 1 as [|x b Hx _ IH]; [done|]. unfold is_byte in Hx.
  change (hex_encode (x :: b)) with (String (hex_digit (x / 16)) (String (hex_digit (x mod 16)) (hex_encode b))).
  cbn. rewrite !unhex_digit_law by (first [apply Z.mod_pos_bound; lia|split; [apply Z.div_pos; lia|apply Z.div_lt_upper_bound; lia]]).
  cbn. rewrite IH. cbn. do 2 f_equal. rewrite (Z.div_mod x 16) at 3 by lia. lia.
Qed.
#[global] Instance toy_wallet_laws : WalletLaws.
Proof.
  split.
  - apply unhex_encoded.
  - apply unhex_range.
  - intros k q. cbn. rewrite unhex_encoded; [done|]. apply Forall_fmap, Forall_true.
    intros x. unfold is_byte. cbn. pose proof (Z.mod_pos_bound x 256). lia.
  - intros f raw [= <-].
    change (match parse (ser f) with Some f => Ok f | None => Err "invalid" end = Ok f). by rewrite parse_ser.
  - intros e phrase _. cbn. case_bool_decide as He; [|done]. intros [= <-]. subst e. split; [done|].
    exists words12. split; [done|]. split; [by repeat constructor|]. by left.
Qed.

Definition purse : Wallet := from_keys_with_authorization [5] [5] [5] (Some [5]).
Lemma purse_wf : wallet_wf purse.
Proof.
  split; [split; [repeat constructor; lia|done]..|done|]. exists [5]. split; [done|].
  split; [split; [repeat constructor; lia|done]|done].
Qed.
Lemma wallet_file_roundtrip_witness : exists raw,
  wallet_file_bytes purse = Ok raw /\ wallet_from_file_bytes raw = Ok (forget_authorization purse).
Proof.
  eexists. split; [reflexivity|]. exact (proj1 (wallet_file_roundtrip purse _ purse_wf eq_refl)).
Defined.
Lemma mnemonic_recovers_wallet_witness :
  decode_paqus_mnemonic ("  AB ab Ab " +:+ join (replicate 9 "aB")) = Ok entropy12.
Proof.
  refine (proj1 (mnemonic_recovers_wallet entropy12 (join words12) _ "secret" _ _ _)).
  - left. reflexivity.
  - reflexivity.
  - vm_compute. reflexivity.
Defined.
Lemma wallet_signs_with_own_keys_witness : exists raw keys,
  to_sign (Signed := bytes * bytes) [1; 2] = Ok raw /\ stored_authorization_keys purse = Some keys.
Proof.
  assert (E : sign_transaction (Signed := bytes * bytes) purse [1; 2] None true = Ok ([5; 1; 2], [5; 1; 2]))
    by (vm_compute; reflexivity).
  destruct (wallet_signs_with_own_keys purse [1; 2] None true _ E)
    as (raw & keys & Hraw & [Hk|[_ Hk]] & _); [discriminate Hk|].
  exists raw, keys. split; [exact Hraw|exact Hk].
Defined.
End WalletExamples.
