(* ===== verification/WalletAmount.v ===== *)
(** Amounts of XPQ as the wallet reads and shows them: [parse_xpq_amount] and [fee_for_rate] of the
    wallet's commands.rs, [format_xpq] of rpc_display.rs.

    An amount is a number of units, a [u64]; one XPQ is [XPQ] units. The crate documents that this is
    ten to the number of decimals: class [CoinUnits]. Text is ASCII. *)
From Stdlib Require Import ZArith Lia Ascii.
From stdpp Require Import base numbers option strings list pretty.
From S2P Require Import Prelude PaqusCore Config.
Open Scope Z_scope.

Class CoinUnits := {
  XPQ_units : Z;
  DECIMALS : Z;
  decimals_bounded : 0 <= DECIMALS <= 19;
  units_decimal : XPQ_units = 10 ^ DECIMALS
}.

(** ** Text *)

(** [str::split(c)] *)
Fixpoint split_on (sep : ascii) (s piece : string) : list string :=
  match s with
  | EmptyString => [piece]
  | String c s =>
      if bool_decide (c = sep) then piece :: split_on sep s "" else split_on sep s (piece +:+ String c "")
  end.
Definition starts_with_char (c : ascii) (s : string) : bool :=
  match s with String d _ => bool_decide (d = c) | EmptyString => false end.
Fixpoint all_digits (s : string) : bool :=
  match s with EmptyString => true | String c s => bool_decide (is_Some (digit c)) && all_digits s end.
Fixpoint zeros (n : nat) : string := match n with O => "" | S n => String "0" (zeros n) end.
Definition checked (z : Z) : option Z := if z <=? U64_MAX then Some z else None.

Section amount.
Context `{!CoinUnits}.

(** [while padded.len() < decimals { padded.push('0') }] *)
Definition pad_fraction (s : string) : string := s +:+ zeros (Z.to_nat DECIMALS - String.length s).

Definition fraction_units (fractional : option string) : Result string Z :=
  match fractional with
  | None | Some "" => Ok 0
  | Some value =>
      if DECIMALS <? Z.of_nat (String.length value)
      then Err ("XPQ supports at most " +:+ pretty DECIMALS +:+ " decimal places") else
      if negb (all_digits value) then Err "fractional XPQ part must contain digits only" else
      map_err (fun error => "fractional XPQ part is invalid: " +:+ error) (parse_u64 (pad_fraction value))
  end.
Definition whole_units (whole : string) : Result string Z :=
  if bool_decide (whole = "") then Ok 0
  else map_err (fun error => "whole XPQ part is too large: " +:+ error) (parse_u64 whole).

Definition parse_xpq_amount (value : string) : Result string Z :=
  let value := trim value in
  if bool_decide (value = "") then Err "amount is empty" else
  if starts_with_char "-" value then Err "amount cannot be negative" else
  let parts := split_on "." value "" in
  let whole := default "" (parts !! 0%nat) in
  let fractional := parts !! 1%nat in
  if bool_decide (is_Some (parts !! 2%nat)) then Err "amount has more than one decimal point" else
  if bool_decide (whole = "") && bool_decide (default "" fractional = "") then Err "amount is empty" else
  if negb (all_digits whole) then Err "whole XPQ part must contain digits only" else
  w ← whole_units whole;
  f ← fraction_units fractional;
  ok_or (units ← checked (w * XPQ_units); checked (units + f)) "amount is too large".

Definition parse_amount (value : option string) (flag : string) : Result string Z :=
  value ← ok_or value ("missing value for " +:+ flag);
  map_err (fun error => "invalid XPQ amount for " +:+ flag +:+ ": " +:+ error) (parse_xpq_amount value).

(** ** Fees *)

Definition DEFAULT_TRANSACTION_FEE : Z := XPQ_units / 1000000.
Definition parse_fee (value : option string) : Result string Z :=
  value ← ok_or value "missing value for --fee";
  if bool_decide (to_ascii_lowercase value = "auto") then Ok DEFAULT_TRANSACTION_FEE else
  map_err (fun error => "invalid XPQ amount for --fee: " +:+ error) (parse_xpq_amount value).
Definition fee_for_rate (fee_rate virtual_size : Z) : Result string Z :=
  ok_or (checked (fee_rate * Z.max virtual_size 1)) "automatic transaction fee overflow".

(** ** Showing *)

(** A comma before every third digit from the right; [left] counts the digits to come. *)
Fixpoint group_digits (s : string) (first : bool) : string :=
  match s with
  | EmptyString => ""
  | String c rest =>
      (if negb first && (Z.of_nat (String.length s) mod 3 =? 0) then "," else "")
      +:+ String c (group_digits rest false)
  end.
Definition format_grouped_u64 (value : Z) : string := group_digits (pretty value) true.
(** [{fractional:0width$}] *)
Definition padded_fraction (f : Z) : string :=
  zeros (Z.to_nat DECIMALS - String.length (pretty f)) +:+ pretty f.
Definition format_xpq (units : Z) : string :=
  format_grouped_u64 (units / XPQ_units) +:+ "." +:+ padded_fraction (units mod XPQ_units) +:+ " XPQ".
Definition amount_units_text (value : string) : string :=
  match parse_u64 value with Ok units => format_xpq units | Err _ => value end.
End amount.

(** * Theorems and witnesses

    What the wallet reads as an amount is the amount: decimal text is converted exactly, or refused
    when it does not fit. *)
From S2P Require Import Toy Handler WalletCore WalletSpec.

(** ** Strings *)

Lemma rev_app_rev_app (s t u : string) : String.rev_app (String.rev_app s t) u = String.rev_app t (s +:+ u).
Proof. revert t u. induction s as [|c s IH]; intros t u; cbn; [done|]. rewrite IH. done. Qed.
Lemma string_rev_rev (s : string) : String.rev (String.rev s) = s.
Proof. unfold String.rev. rewrite rev_app_rev_app. cbn. apply append_nil_r. Qed.
Lemma spaceless_rev_app s t : spaceless s = true -> spaceless t = true -> spaceless (String.rev_app s t) = true.
Proof.
  revert t. induction s as [|c s IH]; intros t Hs Ht; cbn; [done|]. cbn in Hs. apply andb_prop in Hs as [Hc Hs].
  apply IH; [done|]. cbn. by rewrite Hc.
Qed.
Lemma spaceless_app s t : spaceless (s +:+ t) = spaceless s && spaceless t.
Proof. induction s as [|c s IH]; [done|]. rewrite append_cons. cbn. by rewrite IH, andb_assoc. Qed.
Lemma trim_start_spaceless s : spaceless s = true -> trim_start s = s.
Proof. destruct s as [|c s]; [done|]. cbn. intros [Hc _]%andb_prop. by destruct (is_space c). Qed.
Lemma trim_spaceless s : spaceless s = true -> trim s = s.
Proof.
  intros Hs. unfold trim. rewrite (trim_start_spaceless s Hs), (trim_start_spaceless (String.rev s)).
  - apply string_rev_rev.
  - by apply spaceless_rev_app.
Qed.

(** ** Decimal digits *)

(** The number a text of digits denotes. *)
Fixpoint decimal_from (acc : Z) (s : string) : Z :=
  match s with
  | EmptyString => acc
  | String c s => decimal_from (acc * 10 + default 0 (digit c)) s
  end.
Definition decimal (s : string) : Z := decimal_from 0 s.

Lemma digit_spec c d : digit c = Some d -> 0 <= d <= 9 /\ is_space c = false /\ c <> "."%char /\ c <> "-"%char /\ c <> "+"%char.
Proof.
  unfold digit, is_space. set (n := Z.of_N (N_of_ascii c)).
  destruct (Z.leb_spec 48 n); destruct (Z.leb_spec n 57); try discriminate. intros [= <-].
  split; [lia|]. split.
  - apply orb_false_intro; [lia|]. apply andb_false_intro2. lia.
  - split_and!; intros ->; vm_compute in n; subst n; lia.
Qed.
Lemma decimal_from_le acc s : 0 <= acc -> acc <= decimal_from acc s.
Proof.
  revert acc. induction s as [|c s IH]; intros acc Hacc; cbn; [lia|].
  assert (0 <= default 0 (digit c)).
  { destruct (digit c) as [d|] eqn:E; cbn; [|lia]. apply digit_spec in E. lia. }
  etrans; [|apply IH]; lia.
Qed.
Lemma decimal_from_app acc s t : decimal_from acc (s +:+ t) = decimal_from (decimal_from acc s) t.
Proof. revert acc. induction s as [|c s IH]; intros acc; cbn; [done|]. apply IH. Qed.
Lemma decimal_zeros acc n : decimal_from acc (zeros n) = acc * 10 ^ Z.of_nat n.
Proof.
  revert acc. induction n as [|n IH]; intros acc; cbn [zeros decimal_from]; [lia|].
  rewrite IH. change (default 0 (digit "0")) with 0. rewrite Nat2Z.inj_succ, Z.pow_succ_r; lia.
Qed.
Lemma parse_digits_decimal s acc :
  all_digits s = true -> 0 <= acc <= U64_MAX ->
  parse_digits s acc = if decimal_from acc s <=? U64_MAX then Ok (decimal_from acc s)
                       else Err "number too large to fit in target type".
Proof.
  revert acc. induction s as [|c s IH]; intros acc Hs Hacc; cbn [parse_digits decimal_from].
  { destruct (Z.leb_spec acc U64_MAX); [done|lia]. }
  cbn in Hs. apply andb_prop in Hs as [Hc Hs]. apply bool_decide_eq_true in Hc as [d Hd].
  rewrite Hd. change (default 0 (Some d)) with d. destruct (digit_spec c d Hd) as [Hr _].
  destruct (Z.ltb_spec U64_MAX (acc * 10 + d)).
  - pose proof (decimal_from_le (acc * 10 + d) s).
    destruct (Z.leb_spec (decimal_from (acc * 10 + d) s) U64_MAX); [lia|done].
  - apply IH; [done|lia].
Qed.
Lemma parse_u64_decimal s :
  s <> "" -> all_digits s = true ->
  parse_u64 s = if decimal s <=? U64_MAX then Ok (decimal s) else Err "number too large to fit in target type".
Proof.
  intros Hne Hs. destruct s as [|c s]; [done|]. unfold parse_u64. rewrite bool_decide_eq_false_2.
  - apply parse_digits_decimal; [done|]. unfold U64_MAX. lia.
  - cbn in Hs. apply andb_prop in Hs as [Hc _]. apply bool_decide_eq_true in Hc as [d Hd].
    by destruct (digit_spec _ _ Hd) as (_ & _ & _ & _ & ?).
Qed.
Lemma digits_app s t : all_digits (s +:+ t) = all_digits s && all_digits t.
Proof. induction s as [|c s IH]; [done|]. rewrite append_cons. cbn. by rewrite IH, andb_assoc. Qed.
Lemma digits_zeros n : all_digits (zeros n) = true.
Proof. induction n; [done|]. cbn. done. Qed.
Lemma digits_spaceless s : all_digits s = true -> spaceless s = true.
Proof.
  induction s as [|c s IH]; [done|]. cbn. intros [Hc Hs]%andb_prop. apply bool_decide_eq_true in Hc as [d Hd].
  apply digit_spec in Hd as (_ & -> & _). by apply IH.
Qed.
Lemma zeros_length n : String.length (zeros n) = n.
Proof. induction n; cbn; [done|]. by f_equal. Qed.
Lemma split_digits sep s t piece :
  (forall c, is_Some (digit c) -> c <> sep) -> all_digits s = true ->
  split_on sep (s +:+ t) piece = split_on sep t (piece +:+ s).
Proof.
  intros Hsep. revert piece. induction s as [|c s IH]; intros piece Hs; [by rewrite append_nil_r|].
  cbn in Hs. apply andb_prop in Hs as [Hc Hs]. apply bool_decide_eq_true in Hc.
  change (String c s +:+ t) with (String c (s +:+ t)). cbn [split_on].
  rewrite bool_decide_eq_false_2 by auto. rewrite IH by done. by rewrite append_assoc.
Qed.
Lemma dot_digits c : is_Some (digit c) -> c <> "."%char.
Proof. intros [d Hd]. by destruct (digit_spec _ _ Hd) as (_ & _ & ? & _). Qed.

(** ** Amounts *)

Section amounts.
Context `{!CoinUnits}.

Lemma fraction_exact f :
  all_digits f = true -> Z.of_nat (String.length f) <= DECIMALS ->
  fraction_units (Some f) = Ok (decimal f * 10 ^ (DECIMALS - Z.of_nat (String.length f))) /\
  0 <= decimal f.
Proof.
  intros Hf Hlen. pose proof decimals_bounded as Hd.
  assert (H0 : 0 <= decimal f) by (apply (decimal_from_le 0); lia). split; [|done].
  unfold fraction_units. destruct f as [|c f]; [done|]. set (s := String c f) in *.
  destruct (Z.ltb_spec DECIMALS (Z.of_nat (String.length s))); [lia|]. rewrite Hf. cbn [negb].
  rewrite parse_u64_decimal; [|done|].
  2: { unfold pad_fraction. rewrite digits_app, Hf. apply digits_zeros. }
  assert (Hdec : decimal (pad_fraction s) = decimal s * 10 ^ (DECIMALS - Z.of_nat (String.length s))).
  { unfold decimal, pad_fraction. rewrite decimal_from_app, decimal_zeros. f_equal. f_equal. lia. }
  rewrite Hdec.
  assert (Hbound : forall t acc, all_digits t = true -> 0 <= acc -> decimal_from acc t < (acc + 1) * 10 ^ Z.of_nat (String.length t)).
  { induction t as [|x t IH]; intros acc Ht Hacc; cbn [decimal_from String.length]; [lia|].
    cbn in Ht. apply andb_prop in Ht as [Hx Ht]. apply bool_decide_eq_true in Hx as [d Hx]. rewrite Hx. change (default 0 (Some d)) with d.
    apply digit_spec in Hx as [Hx _]. specialize (IH (acc * 10 + d) Ht ltac:(lia)).
    rewrite Nat2Z.inj_succ, Z.pow_succ_r by lia. nia. }
  specialize (Hbound s 0 Hf ltac:(lia)). fold (decimal s) in Hbound.
  assert (Hmax : decimal s * 10 ^ (DECIMALS - Z.of_nat (String.length s)) <= U64_MAX).
  { assert (Hp : 10 ^ DECIMALS = 10 ^ Z.of_nat (String.length s) * 10 ^ (DECIMALS - Z.of_nat (String.length s)))
      by (rewrite <- Z.pow_add_r by lia; f_equal; lia).
    assert (10 ^ DECIMALS <= 10 ^ 19) by (apply Z.pow_le_mono_r; lia).
    assert (0 < 10 ^ (DECIMALS - Z.of_nat (String.length s))) by (apply Z.pow_pos_nonneg; lia).
    unfold U64_MAX. nia. }
  destruct (Z.leb_spec (decimal s * 10 ^ (DECIMALS - Z.of_nat (String.length s))) U64_MAX); [done|lia].
Qed.

(** C38: the text of an amount, digits, a point and at most as many digits as there are decimals, is
    read as exactly that many units; when they do not fit in 64 bits it is refused, and never wraps
    around. *)
Theorem xpq_amount_exact w f :
  w <> "" -> all_digits w = true -> all_digits f = true -> Z.of_nat (String.length f) <= DECIMALS ->
  let units := decimal w * XPQ_units + decimal f * 10 ^ (DECIMALS - Z.of_nat (String.length f)) in
  if units <=? U64_MAX then parse_xpq_amount (w +:+ "." +:+ f) = Ok units
  else is_ok (parse_xpq_amount (w +:+ "." +:+ f)) = false.
Proof.
  intros Hne Hw Hf Hlen units. destruct (fraction_exact f Hf Hlen) as [Hfrac Hf0].
  assert (Hw0 : 0 <= decimal w) by (apply (decimal_from_le 0); lia).
  assert (Hx : 0 < XPQ_units) by (rewrite units_decimal; apply Z.pow_pos_nonneg; pose proof decimals_bounded; lia).
  assert (Hfr : 0 <= decimal f * 10 ^ (DECIMALS - Z.of_nat (String.length f)))
    by (apply Z.mul_nonneg_nonneg; [done|apply Z.pow_nonneg; lia]).
  assert (Hparse : parse_xpq_amount (w +:+ "." +:+ f) =
    (w' ← whole_units w; f' ← fraction_units (Some f);
     ok_or (units ← checked (w' * XPQ_units); checked (units + f')) "amount is too large")).
  { unfold parse_xpq_amount. rewrite trim_spaceless.
    2: { rewrite !spaceless_app, (digits_spaceless w), (digits_spaceless f); done. }
    rewrite bool_decide_eq_false_2 by (destruct w; done).
    assert (Hminus : starts_with_char "-" (w +:+ "." +:+ f) = false).
    { destruct w as [|c w']; [done|]. cbn in Hw |- *. apply andb_prop in Hw as [Hc _].
      apply bool_decide_eq_true in Hc as [d Hd]. apply bool_decide_eq_false_2. by destruct (digit_spec _ _ Hd) as (_ & _ & _ & ? & _). }
    rewrite Hminus, split_digits by (apply dot_digits || done).
    change (split_on "." ("." +:+ f) ("" +:+ w)) with (w :: split_on "." f "").
    assert (Hone : split_on "." f "" = [f]).
    { pose proof (split_digits "." f "" "" dot_digits Hf) as E. by rewrite append_nil_r in E. }
    rewrite Hone.
    change ((w :: [f]) !! 2%nat) with (@None string). change (default "" ((w :: [f]) !! 0%nat)) with w.
    change ((w :: [f]) !! 1%nat) with (Some f). rewrite bool_decide_eq_false_2 by (by intros [? ?]).
    rewrite (bool_decide_eq_false_2 (w = "")) by done. cbn [andb]. by rewrite Hw. }
  rewrite Hparse. unfold whole_units. rewrite bool_decide_eq_false_2 by done.
  rewrite parse_u64_decimal by done. rewrite Hfrac. unfold checked, mbind, result_bind, map_err, option_bind, ok_or.
  destruct (Z.leb_spec units U64_MAX) as [Hu|Hu].
  - destruct (Z.leb_spec (decimal w) U64_MAX); [|nia].
    destruct (Z.leb_spec (decimal w * XPQ_units) U64_MAX); [|lia]. fold units.
    by destruct (Z.leb_spec units U64_MAX); [|lia].
  - destruct (Z.leb_spec (decimal w) U64_MAX); [|done].
    destruct (Z.leb_spec (decimal w * XPQ_units) U64_MAX); [|done]. fold units.
    by destruct (Z.leb_spec units U64_MAX); [lia|].
Qed.
End amounts.

Module AmountExamples.
#[local] Instance units : CoinUnits.
Proof. refine {| XPQ_units := 100000000; DECIMALS := 8 |}; [lia|reflexivity]. Defined.
Lemma xpq_amount_exact_witness : parse_xpq_amount ("12" +:+ "." +:+ "05") = Ok 1205000000.
Proof.
  refine (xpq_amount_exact "12" "05" _ _ _ _); [discriminate|reflexivity|reflexivity|vm_compute; discriminate].
Defined.
Lemma shown : format_xpq 123456789012 = "1,234.56789012 XPQ".
Proof. vm_compute. reflexivity. Qed.
End AmountExamples.
