(* ===== verification/WalletCli.v ===== *)
(** The wallet's commands: wallet files, requests to the node, account state and transfers of
    wallet-cli (commands.rs, wallet_file.rs, and [status_value] of rpc_display.rs).

    A command is a program on [Cli]: the files, and how many times the world outside was asked.
    [CliEnv] answers: the node's HTTP responses, what the user types, random bytes and the failures of
    file operations. A failing write leaves a prefix of the bytes. JSON texts are read by a parameter
    into [Json], or into the record of a response (serde's derived code): class [CliOps], with the
    operations of the paqus crate the commands use. Console output is the result. *)
From Stdlib Require Import ZArith Lia Ascii.
From stdpp Require Import base numbers option strings list gmap pretty.
From S2P Require Import Prelude BTree PaqusCore Net Mempool Transport Handler Connection Config PeerFile RpcAccess Http.
From S2P Require Import Compact Recovery Lmdb Storage Cache Miner NodeState Node Rpc RpcRead WalletCore WalletAmount.
Open Scope Z_scope.

(** ** JSON values *)

Unset Elimination Schemes.
(** A number is [Some] when it is a [u64]. *)
Inductive Json :=
| JNull | JBool (b : bool) | JNumber (n : option Z) | JString (s : string)
| JArray (l : list Json) | JObject (fields : list (string * Json)).
Set Elimination Schemes.
Fixpoint field (key : string) (fields : list (string * Json)) : option Json :=
  match fields with
  | [] => None
  | (k, v) :: fields => if bool_decide (k = key) then Some v else field key fields
  end.
Definition json_get (key : string) (v : Json) : option Json :=
  match v with JObject fields => field key fields | _ => None end.
Definition as_bool (v : Json) : option bool := match v with JBool b => Some b | _ => None end.
Definition as_u64 (v : Json) : option Z := match v with JNumber n => n | _ => None end.
Definition as_str (v : Json) : option string := match v with JString s => Some s | _ => None end.

(** ** Responses of the node *)

Record BalanceRpcResponse := {
  balance_statement : option string; balance_registered : bool; balance_pending_outgoing : Z
}.
Record DraftBasisRpcResponse := {
  basis_last_state : string; basis_pending_outgoing : Z; basis_pending_hashes : list string
}.
Record DraftTransferRpcResponse := {
  d_transaction : string; d_signing_bytes : string; d_last_state : string; d_registered : bool
}.
Record WalletAccountState := {
  last_state : Hash; state_registered : bool; state_pending_outgoing : Z; state_pending_hashes : list string
}.
Inductive AuthorizationInput :=
| InputKeys (keys : AuthorizationKeys)
| InputPassword (password : string).

Class CliOps `{RpcOps} := {
  (** what the hex crate says of this text *)
  hex_error : string -> string;
  HASH_SIZE : Z;
  transfer_from : Transfer -> Address;
  transfer_outputs : Transfer -> list TransferOutput;
  transfer_last_state : Transfer -> Hash;
  (** [canonical_deserialize] *)
  transfer_of_bytes : bytes -> Result string Transfer;
  signed_transfer_bytes : SignedBatchTransfer -> Result string bytes;
  signed_transfer_hash : SignedBatchTransfer -> Result string Hash;
  signed_transfer_size : SignedBatchTransfer -> Result string Z;
  (** the transfer that was signed *)
  signed_transfer : SignedBatchTransfer -> Transfer;
  json_parse : string -> Result string Json;
  balance_from_json : string -> Result string BalanceRpcResponse;
  basis_from_json : string -> Result string DraftBasisRpcResponse;
  draft_from_json : string -> Result string DraftTransferRpcResponse;
  (** [DraftTransferRpcRequest] with its signer and outputs *)
  draft_request_json : string -> list (string * Z) -> Result string string
}.

(** ** The world outside *)

Record Cli := { cli_files : gmap string bytes; cli_asked : nat }.
Record CliEnv := {
  (** [connect_timeout], [configure_stream] and [write_all], then what the node sends *)
  ce_http : nat -> SocketAddr -> bytes -> Result string (list ReadEvent);
  ce_password : nat -> Result string string;
  ce_random : nat -> Z -> Result string bytes;
  ce_read : nat -> option IoError;
  ce_open : nat -> option IoError;
  (** how many bytes reach the file before the failure *)
  ce_write : nat -> option (nat * IoError);
  ce_sync : nat -> option IoError;
  ce_remove : nat -> option IoError
}.
Definition set_files (f : gmap string bytes) (c : Cli) : Cli := {| cli_files := f; cli_asked := cli_asked c |}.

Definition DEFAULT_WALLET_PATH : string := "wallet.json".
Definition not_found : IoError := {| io_kind := NotFound; io_text := "No such file or directory (os error 2)" |}.
Definition file_exists : IoError := {| io_kind := KindOther 17; io_text := "File exists (os error 17)" |}.

Section cli.
Context (env : CliEnv).
Abbreviation Do := (ST Cli string).

Definition ask {A} (f : nat -> A) : Do A :=
  fun c => (Ok (f (cli_asked c)), {| cli_files := cli_files c; cli_asked := S (cli_asked c) |}).
Definition on_files (f : gmap string bytes -> gmap string bytes) : Do unit :=
  st_modify (fun c => set_files (f (cli_files c)) c).

(** ** Files *)

Definition read_file (path : string) : Do (Result IoError bytes) :=
  broken ← ask (ce_read env);
  c ← st_get;
  mret (match broken with
        | Some e => Err e
        | None => match cli_files c !! path with Some b => Ok b | None => Err not_found end
        end).
(** [let _ = fs::remove_file(path)] *)
Definition remove_file (path : string) : Do unit :=
  broken ← ask (ce_remove env);
  match broken with Some _ => mret tt | None => on_files (delete path) end.
(** [write_all] into the open file *)
Definition write_bytes (path : string) (b : bytes) : Do (option IoError) :=
  broken ← ask (ce_write env);
  match broken with
  | Some (k, e) => on_files (<[path := take k b]>) ;; mret (Some e)
  | None => on_files (<[path := b]>) ;; mret None
  end.

Definition write_new_synced_file (path : string) (b : bytes) : Do unit :=
  broken ← ask (ce_open env);
  c ← st_get;
  match broken, cli_files c !! path with
  | Some e, _ => st_fail ("failed to create " +:+ path +:+ ": " +:+ io_text e)
  | None, Some _ => st_fail ("failed to create " +:+ path +:+ ": " +:+ io_text file_exists)
  | None, None =>
      on_files (<[path := []]>) ;;
      failed ← write_bytes path b;
      match failed with
      | Some e => remove_file path ;; st_fail ("failed to write " +:+ path +:+ ": " +:+ io_text e)
      | None =>
          unsynced ← ask (ce_sync env);
          match unsynced with
          | Some e => remove_file path ;; st_fail ("failed to sync " +:+ path +:+ ": " +:+ io_text e)
          | None => mret tt
          end
      end
  end.

Section wallet_files.
Context `{!WalletOps}.
Definition save_wallet (path : string) (w : Wallet) : Do unit :=
  b ← st_lift (wallet_file_bytes w);
  write_new_synced_file path b.
(** The file is emptied before it is written. *)
Definition save_wallet_overwrite (path : string) (w : Wallet) : Do unit :=
  b ← st_lift (wallet_file_bytes w);
  broken ← ask (ce_open env);
  match broken with
  | Some e => st_fail ("failed to update wallet file " +:+ path +:+ ": " +:+ io_text e)
  | None =>
      on_files (<[path := []]>) ;;
      failed ← write_bytes path b;
      match failed with
      | Some e => st_fail ("failed to write wallet file " +:+ path +:+ ": " +:+ io_text e)
      | None =>
          unsynced ← ask (ce_sync env);
          match unsynced with
          | Some e => st_fail ("failed to sync wallet file " +:+ path +:+ ": " +:+ io_text e)
          | None => mret tt
          end
      end
  end.
Definition create_mnemonic_wallet_file (path : string) (words : Z) (auth_password : string)
    : Do (Wallet * string) :=
  fill ← ask (ce_random env);
  phrase ← st_lift (generate_paqus_mnemonic fill words);
  w ← st_lift (wallet_from_paqus_mnemonic phrase auth_password);
  let w := set_mnemonic (Some phrase) w in
  save_wallet path w ;;
  mret (w, phrase).
Definition restore_mnemonic_wallet_file (path phrase auth_password : string) : Do Wallet :=
  w ← st_lift (wallet_from_paqus_mnemonic phrase auth_password);
  let w := set_mnemonic (Some phrase) w in
  save_wallet path w ;;
  mret w.
End wallet_files.

(** ** HTTP *)

(** [code.parse::<u16>()] *)
Definition parse_u16 (s : string) : option Z :=
  n ← result_ok (parse_u64 s); if n <=? 65535 then Some n else None.
Definition blank (s : string) : bool := bool_decide (trim s = "").

Section http.
Context `{PaqusTypes} `{!RpcOps} `{!ConfigOps} `{!CliOps}.

Definition rpc_error_alert (status_code : Z) (body : string) : string :=
  let value := result_ok (json_parse body) in
  let text key := v ← value; found ← json_get key v; as_str found in
  let lifecycle := text "status" in
  let told := detail ← text "error"; if blank detail then None else Some detail in
  let detail := match told with
                | Some detail => detail
                | None => if blank body then "HTTP " +:+ pretty status_code else body
                end in
  let alert :=
    match lifecycle with
    | Some "expired" => "Transaction expired"
    | Some "dropped" => "Transaction dropped from mempool"
    | Some "reverted" => "Transaction reverted by chain reorganization"
    | Some "conflicted" => "Transaction conflicted on the canonical chain"
    | Some "rejected" => "Transaction rejected"
    | _ => if status_code <? 500 then "Request rejected by node" else "Node request error"
    end in
  alert +:+ ": " +:+ detail.

Definition read_rpc_response (s : list ReadEvent) : Result string string :=
  response ← read_loop "rpc" "node response" (S (stream_weight s)) [] s;
  if negb (utf8_valid response) then Err "failed to decode rpc response" else
  let '(headers, body) :=
    match find_blank response with
    | Some n => (string_of_bytes (take n response), string_of_bytes (drop (n + 4) response))
    | None => ("", string_of_bytes response)
    end in
  let status_code := unwrap_or 200 (line ← head (lines headers); code ← split_whitespace line !! 1%nat; parse_u16 code) in
  if 400 <=? status_code then Err (rpc_error_alert status_code body) else Ok body.

Definition rpc_exchange (addr : string) (request : SocketAddr -> string) : Do string :=
  addr ← st_lift (map_err (fun error => "invalid rpc address: " +:+ error) (parse_socket addr));
  http ← ask (ce_http env);
  s ← st_lift (http addr (as_bytes (request addr)));
  st_lift (read_rpc_response s).
Definition http_post_json (addr path body : string) : Do string :=
  rpc_exchange addr (fun addr => "POST " +:+ path +:+ " HTTP/1.1" +:+ CRLF +:+ "host: " +:+ show_socket addr +:+ CRLF
    +:+ "content-type: application/json" +:+ CRLF +:+ "content-length: " +:+ pretty (zlen (as_bytes body)) +:+ CRLF
    +:+ "connection: close" +:+ CRLF +:+ CRLF +:+ body).
Definition http_get (addr path : string) : Do string :=
  rpc_exchange addr (fun addr => "GET " +:+ path +:+ " HTTP/1.1" +:+ CRLF +:+ "host: " +:+ show_socket addr +:+ CRLF
    +:+ "connection: close" +:+ CRLF +:+ CRLF).
Definition status_value (rpc_addr : string) : Do Json :=
  body ← http_get rpc_addr "/status";
  st_lift (map_err (fun error => "failed to parse rpc status response: " +:+ error +:+ ": " +:+ body) (json_parse body)).
(** [.ok()] *)
Definition attempt {A} (m : Do A) : Do (option A) := r ← st_try m; mret (result_ok r).
End http.
End cli.
