(* ===== verification/WalletTransfer.v ===== *)
(** Transfers from the wallet's command line: keys and wallet files, authorization, the account's
    state as the node reports it, the fee output, the node's draft and its verification, and the
    commands that pay and send (commands.rs). *)
From Stdlib Require Import ZArith Lia Ascii.
From stdpp Require Import base numbers option strings list gmap pretty.
From S2P Require Import Prelude BTree PaqusCore Net Mempool Transport Handler Connection Config PeerFile RpcAccess Http.
From S2P Require Import Compact Recovery Lmdb Storage Cache Miner NodeState Node Rpc RpcRead WalletCore WalletAmount WalletCli.
Open Scope Z_scope.

(** [str::contains] *)
Fixpoint contains_text (needle s : string) : bool :=
  bool_decide (is_Some (strip_prefix needle s)) || match s with EmptyString => false | String _ s => contains_text needle s end.
(** [item.split_once(c)] *)
Fixpoint split_once (sep : ascii) (s before : string) : option (string * string) :=
  match s with
  | EmptyString => None
  | String c s => if bool_decide (c = sep) then Some (before, s) else split_once sep s (before +:+ String c "")
  end.
(** [join(",")] *)
Fixpoint join_commas (l : list string) : string :=
  match l with [] => "" | [x] => x | x :: l => x +:+ "," +:+ join_commas l end.

Section transfer.
Context `{PaqusTypes} `{!RpcOps} `{!ConfigOps} `{!CliOps} `{!WalletOps} `{!CoinUnits} `{!ErrorDisplay}.
Context `{!Signable Transfer SignedBatchTransfer} (env : CliEnv).
Abbreviation Do := (ST Cli string).

(** ** Keys *)

Definition parse_address_string (value : string) : Result string Address :=
  map_err (fun error => "invalid address `" +:+ value +:+ "`: " +:+ error) (address_of_text value).
Definition parse_address (value : option string) : Result string Address :=
  value ← ok_or value "missing address"; parse_address_string value.
Definition parse_secret_key (value : option string) : Result string bytes :=
  value ← ok_or value "missing secret key";
  raw ← ok_or (unhex value) ("invalid secret key hex: " +:+ hex_error value);
  if zlen raw =? WALLET_SECRET_KEY_SIZE then Ok raw
  else Err ("secret key must be " +:+ pretty WALLET_SECRET_KEY_SIZE +:+ " bytes").
Definition parse_public_key_hex (value : string) : Result string bytes :=
  raw ← ok_or (unhex value) ("invalid public key hex: " +:+ hex_error value);
  if zlen raw =? WALLET_PUBLIC_KEY_SIZE then Ok raw
  else Err ("public key must be " +:+ pretty WALLET_PUBLIC_KEY_SIZE +:+ " bytes").
Definition parse_hash_hex (value : string) : Result string Hash :=
  raw ← ok_or (unhex value) ("invalid hash hex: " +:+ hex_error value);
  if zlen raw =? HASH_SIZE then Ok raw else Err ("hash must be " +:+ pretty HASH_SIZE +:+ " bytes").

(** ** Wallet files *)

Definition load_wallet_bytes (path : string) (contents : bytes) : Result string Wallet :=
  file ← map_err (fun error => "failed to parse wallet file " +:+ path +:+ ": " +:+ error) (from_slice contents);
  if negb (file_version file =? WALLET_VERSION) then Err "unsupported wallet format" else
  address ← map_err (fun error => "invalid wallet address `" +:+ file_address file +:+ "`: " +:+ error)
              (parse_address_string (file_address file));
  secret_key ← parse_secret_key (Some (file_secret_key file));
  auth_key ← match file_auth_public_key file with
             | Some text => parse_public_key_hex text
             | None => Err "wallet is missing auth_public_key and is incompatible with dual-key addresses"
             end;
  auth_secret ← match file_auth_secret_key file with
                | Some text => key ← parse_secret_key (Some text); Ok (Some key)
                | None => Ok None
                end;
  let w := set_mnemonic (file_mnemonic file)
             (from_keys_with_authorization (public_key_of secret_key) secret_key auth_key auth_secret) in
  if negb (bool_decide (wallet_addr w = address)) then Err "wallet address does not match secret key" else
  if negb (bool_decide (hex_encode (wallet_public_key w) = file_public_key file))
  then Err "wallet public key does not match secret key" else Ok w.
Definition load_wallet (path : string) : Do Wallet :=
  contents ← read_file env path;
  st_lift (b ← map_err (fun error => "failed to read wallet file " +:+ path +:+ ": " +:+ io_text error) contents;
           load_wallet_bytes path b).
Definition load_wallet_address (path : string) : Do Address :=
  w ← load_wallet path; mret (wallet_addr w).

(** ** Authorization *)

Definition authorization_from_secret_key (secret_key : bytes) : AuthorizationKeys :=
  {| authorization_public_key := public_key_of secret_key; authorization_secret_key := secret_key |}.
Definition authorization_from_password (password : string) (primary_public_key : bytes) : Result string AuthorizationKeys :=
  keys ← map_err (fun error => "authorization key derivation failed: " +:+ error)
           (authorization_keypair (string_bytes password) primary_public_key);
  Ok {| authorization_public_key := keys.1; authorization_secret_key := keys.2 |}.
Definition prompt_hidden : Do string := typed ← ask (ce_password env); st_lift typed.

Definition set_authorization (key : bytes) (w : Wallet) : Wallet := {|
  mnemonic := mnemonic w; wallet_addr := wallet_addr w; wallet_public_key := wallet_public_key w;
  wallet_secret_key := wallet_secret_key w; auth_public_key := Some key; auth_secret_key := None |}.
(** The keys, and the wallet as the caller's variable is left. *)
Definition resolve_authorization_for_wallet_file (path : string) (w : Wallet) (input : option AuthorizationInput)
    : Do (AuthorizationKeys * Wallet) :=
  keys ← match input with
         | Some (InputKeys keys) => mret keys
         | Some (InputPassword password) => st_lift (authorization_from_password password (wallet_public_key w))
         | None =>
             match stored_authorization_keys w with
             | Some keys => mret keys
             | None =>
                 password ← prompt_hidden;
                 st_lift (authorization_from_password password (wallet_public_key w))
             end
         end;
  if bool_decide (auth_public_key w = Some (authorization_public_key keys)) then mret (keys, w) else
  let w := set_authorization (authorization_public_key keys) w in
  save_wallet_overwrite env path w ;;
  mret (keys, w).

(** ** The account *)

Definition resolve_wallet_account_state (address : Address) (rpc_addr : string) : Do WalletAccountState :=
  let text := address_text address in
  body ← http_get env rpc_addr ("/balance/" +:+ text);
  balance ← st_lift (map_err (fun error => "failed to parse balance rpc response: " +:+ error) (balance_from_json body));
  answered ← attempt (http_get env rpc_addr ("/draft-basis/" +:+ text));
  let draft := body ← answered; result_ok (basis_from_json body) in
  statement ← st_lift (ok_or (match draft with
                              | Some basis => Some (basis_last_state basis)
                              | None => balance_statement balance
                              end) "balance rpc response is missing account statement");
  state ← st_lift (parse_hash_hex statement);
  mret {| last_state := state; state_registered := balance_registered balance;
          state_pending_outgoing := match draft with
                                    | Some basis => basis_pending_outgoing basis
                                    | None => balance_pending_outgoing balance
                                    end;
          state_pending_hashes := match draft with Some basis => basis_pending_hashes basis | None => [] end |}.
Definition ensure_no_pending_outgoing (s : WalletAccountState) : Result string unit :=
  if (state_pending_outgoing s =? 0) && bool_decide (state_pending_hashes s = []) then Ok tt else
  let hashes := if bool_decide (state_pending_hashes s = []) then "unknown pending tx"
                else join_commas (state_pending_hashes s) in
  Err ("account has pending outgoing transaction(s): " +:+ hashes
    +:+ "; wait until they are included or dropped before creating another tx from this wallet").

(** ** Fees *)

Definition fee_rate_from_status (status : Json) : Result string Z :=
  let number key := v ← json_get key status; as_u64 v in
  match number "dynamic_market_fee_rate_per_byte", number "min_relay_fee_rate_per_byte" with
  | Some dynamic, Some minimum => Ok (Z.max (Z.max dynamic minimum) 1)
  | Some dynamic, None => Ok (Z.max dynamic 1)
  | None, Some minimum => Ok (Z.max minimum 1)
  | None, None => Err "node status is missing dynamic_market_fee_rate_per_byte"
  end.
Definition policy_fee_for_virtual_size (rpc_addr : string) (virtual_size : Z) : Do Z :=
  answered ← attempt (http_get env rpc_addr "/fee-policy");
  let rate := body ← answered; policy ← result_ok (json_parse body); v ← json_get "dynamic_market_fee_rate" policy; as_u64 v in
  fee_rate ← match rate with
             | Some rate => mret (Z.max rate 1)
             | None => status ← status_value env rpc_addr; st_lift (fee_rate_from_status status)
             end;
  st_lift (fee_for_rate fee_rate virtual_size).

Definition is_fee_output (o : TransferOutput) : bool := bool_decide (to o = BlockMiner).
Definition block_miner_output_count (outputs : list TransferOutput) : nat := length (filter (fun o => to o = BlockMiner) outputs).
Definition reject_multiple_block_miner_outputs (outputs : list TransferOutput) : Result string unit :=
  if (1 <? block_miner_output_count outputs)%nat then Err "transfer supports at most one block_miner fee output" else Ok tt.

(** The outputs with the fee for the block's miner. *)
Definition append_market_fee_output (w : Wallet) (authorization : AuthorizationKeys) (registered : bool)
    (outputs : list TransferOutput) (requested_fee : Z) (state : Hash) (rpc_addr : string) : Do (list TransferOutput) :=
  if existsb is_fee_output outputs then mret outputs else
  if MAX_BATCH_OUTPUTS <=? zlen outputs
  then st_fail ("automatic MarketFee output requires one free output slot; transfer supports at most "
    +:+ pretty MAX_BATCH_OUTPUTS +:+ " outputs") else
  fee ← (if requested_fee =? DEFAULT_TRANSACTION_FEE then
           let estimate := with_last_state state (Transfer_new (wallet_addr w) outputs) in
           signed ← st_lift (sign_transaction w estimate (Some authorization) registered);
           size ← st_lift (signed_transfer_size signed);
           policy_fee_for_virtual_size rpc_addr size
         else mret requested_fee);
  if fee =? 0 then mret outputs else mret (outputs ++ [{| to := BlockMiner; amount := fee |}]).

(** ** The draft *)

Definition output_target_to_string (t : OutputTarget) : string :=
  match t with ToAddress a => address_text a | BlockMiner => "block_miner" end.

Definition verify_transfer_draft (signer : Address) (expected : list TransferOutput) (transaction : Transfer)
    (draft : DraftTransferRpcResponse) : Result string unit :=
  if negb (bool_decide (transfer_from transaction = signer)) then Err "node draft signer does not match wallet address" else
  let actual := transfer_outputs transaction in
  if negb (bool_decide (length actual = length expected)) then Err "node draft output count does not match wallet request" else
  if negb (forallb (fun p => bool_decide (to p.1 = to p.2) && (amount p.1 =? amount p.2)) (zip actual expected))
  then Err "node draft outputs do not match wallet request" else
  encoded ← map_err (fun e => "failed to verify draft: " +:+ show_codec e) (transaction_bytes transaction);
  if negb (bool_decide (hex_encode encoded = d_transaction draft)) then Err "node draft canonical encoding mismatch" else
  if negb (bool_decide (hex_encode (transfer_last_state transaction) = d_last_state draft))
  then Err "node draft last_state metadata mismatch" else
  to_sign ← map_err (fun e => "failed to verify draft signing bytes: " +:+ show_codec e) (signing_bytes transaction);
  if negb (bool_decide (hex_encode to_sign = d_signing_bytes draft)) then Err "node draft signing bytes mismatch" else
  map_err (fun e => "invalid node transfer draft: " +:+ show_transaction e) (transfer_validate transaction).

Definition draft_wallet_transfer (signer : Address) (outputs : list TransferOutput) (rpc_addr : string)
    : Do (Transfer * bool) :=
  let request_outputs := map (fun o => (output_target_to_string (to o), amount o)) outputs in
  body ← st_lift (map_err (fun error => "failed to encode draft request: " +:+ error)
           (draft_request_json (address_text signer) request_outputs));
  response ← http_post_json env rpc_addr "/draft/transfer" body;
  draft ← st_lift (map_err (fun error => "failed to parse transfer draft rpc response: " +:+ error) (draft_from_json response));
  raw ← st_lift (ok_or (unhex (d_transaction draft)) ("invalid draft tx hex: " +:+ hex_error (d_transaction draft)));
  transaction ← st_lift (map_err (fun error => "invalid draft transaction payload: " +:+ error) (transfer_of_bytes raw));
  st_lift (verify_transfer_draft signer outputs transaction draft) ;;
  mret (transaction, d_registered draft).
Definition transfer_draft_fallback_allowed (error : string) : bool :=
  contains_text "HTTP 404" error || contains_text "not found" (to_ascii_lowercase error).

(** The node's draft, or a transfer of our own if the node has no drafts. *)
Definition choose_transfer (w : Wallet) (outputs : list TransferOutput) (s : WalletAccountState) (rpc_addr : string)
    : Do (Transfer * bool) :=
  drafted ← st_try (draft_wallet_transfer (wallet_addr w) outputs rpc_addr);
  match drafted with
  | Ok draft => mret draft
  | Err error =>
      if transfer_draft_fallback_allowed error then
        let transaction := with_last_state (last_state s) (Transfer_new (wallet_addr w) outputs) in
        st_lift (map_err (fun e => "invalid transfer outputs: " +:+ show_transaction e) (transfer_validate transaction)) ;;
        mret (transaction, state_registered s)
      else st_fail error
  end.

(** ** Submitting *)

Definition signed_transaction_to_hex (signed : SignedBatchTransfer) : Result string string :=
  raw ← signed_transfer_bytes signed; Ok (hex_encode raw).
Definition quoted_tx (tx : string) : string :=
  let quote := String (ascii_of_N 34) "" in
  "{" +:+ quote +:+ "tx" +:+ quote +:+ ":" +:+ quote +:+ tx +:+ quote +:+ "}".
Inductive Submitted :=
| Posted (response : string)
| Shown (tx hash from : string) (outputs : list (string * Z)) (total : Z) (state : string).

(** Signed, with what was signed. *)
Definition sign_wallet_outputs (wallet_path : string) (outputs : list TransferOutput) (fee : Z) (rpc_addr : string)
    (authorization : option AuthorizationInput) : Do SignedBatchTransfer :=
  if bool_decide (outputs = []) then st_fail "at least one transfer output is required" else
  if MAX_BATCH_OUTPUTS <? zlen outputs
  then st_fail ("transfer supports at most " +:+ pretty MAX_BATCH_OUTPUTS +:+ " outputs") else
  w ← load_wallet wallet_path;
  resolved ← resolve_authorization_for_wallet_file wallet_path w authorization;
  let '(keys, w) := resolved in
  st_lift (reject_multiple_block_miner_outputs outputs) ;;
  state ← resolve_wallet_account_state (wallet_addr w) rpc_addr;
  st_lift (ensure_no_pending_outgoing state) ;;
  outputs ← append_market_fee_output w keys (state_registered state) outputs fee (last_state state) rpc_addr;
  chosen ← choose_transfer w outputs state rpc_addr;
  st_lift (sign_transaction w chosen.1 (Some keys) chosen.2).
Definition submit_wallet_outputs (wallet_path : string) (outputs : list TransferOutput) (fee : Z) (rpc_addr : string)
    (submit : bool) (authorization : option AuthorizationInput) : Do Submitted :=
  signed ← sign_wallet_outputs wallet_path outputs fee rpc_addr authorization;
  tx_hex ← st_lift (signed_transaction_to_hex signed);
  if submit then
    response ← http_post_json env rpc_addr "/tx" (quoted_tx tx_hex);
    mret (Posted response)
  else
    hash ← st_lift (signed_transfer_hash signed);
    let t := signed_transfer signed in
    total ← st_lift (map_err show_transaction (transfer_total_amount t));
    mret (Shown tx_hex (hex_encode hash) (address_text (transfer_from t))
      (map (fun o => (output_target_to_string (to o), amount o)) (transfer_outputs t)) total
      (hex_encode (transfer_last_state t))).
Definition submit_wallet_payment (wallet_path : string) (recipient : Address) (value fee : Z) (rpc_addr : string)
    (authorization : option AuthorizationInput) : Do Submitted :=
  submit_wallet_outputs wallet_path [{| to := ToAddress recipient; amount := value |}] fee rpc_addr true authorization.

(** ** Commands *)

Definition parse_output_spec (item : string) : Result string TransferOutput :=
  let item := trim item in
  parts ← ok_or (match split_once ":" item "" with Some parts => Some parts | None => split_once "=" item "" end)
            ("invalid output `" +:+ item +:+ "`; expected recipient:amount-xpq");
  target ← (let text := trim parts.1 in
            if bool_decide (text = "block_miner") || bool_decide (text = "miner") then Ok BlockMiner
            else a ← parse_address_string text; Ok (ToAddress a));
  value ← map_err (fun error => "invalid amount in output `" +:+ item +:+ "`: " +:+ error) (parse_xpq_amount (trim parts.2));
  Ok {| to := target; amount := value |}.
Definition parse_transfer_output_specs (value : string) : Result string (list TransferOutput) :=
  outputs ← collect_result parse_output_spec (filter (fun item => trim item <> "") (split_on "," value ""));
  if bool_decide (outputs = []) then Err "--output requires at least one recipient:amount pair" else Ok outputs.

Definition required_option (args : list string) (flag : string) : Result string string :=
  ok_or (head args) ("missing value for " +:+ flag).

(** The three commands read their options in one way; they differ in which they have. *)
Inductive SendCommand := PayCommand | ShortCommand | LongCommand.
Record SendOptions := {
  o_wallet : string; o_rpc : string; o_fee : Z; o_authorization : option AuthorizationInput;
  o_outputs : list TransferOutput; o_to : option Address; o_amount : option Z; o_submit : bool
}.
Definition send_defaults (default_rpc_addr : string) : SendOptions := {|
  o_wallet := DEFAULT_WALLET_PATH; o_rpc := default_rpc_addr; o_fee := DEFAULT_TRANSACTION_FEE;
  o_authorization := None; o_outputs := []; o_to := None; o_amount := None; o_submit := false |}.
Definition set_wallet (x : string) (o : SendOptions) : SendOptions := {|
  o_wallet := x; o_rpc := o_rpc o; o_fee := o_fee o; o_authorization := o_authorization o;
  o_outputs := o_outputs o; o_to := o_to o; o_amount := o_amount o; o_submit := o_submit o |}.
Definition set_rpc (x : string) (o : SendOptions) : SendOptions := {|
  o_wallet := o_wallet o; o_rpc := x; o_fee := o_fee o; o_authorization := o_authorization o;
  o_outputs := o_outputs o; o_to := o_to o; o_amount := o_amount o; o_submit := o_submit o |}.
Definition set_fee (x : Z) (o : SendOptions) : SendOptions := {|
  o_wallet := o_wallet o; o_rpc := o_rpc o; o_fee := x; o_authorization := o_authorization o;
  o_outputs := o_outputs o; o_to := o_to o; o_amount := o_amount o; o_submit := o_submit o |}.
Definition set_input (x : AuthorizationInput) (o : SendOptions) : SendOptions := {|
  o_wallet := o_wallet o; o_rpc := o_rpc o; o_fee := o_fee o; o_authorization := Some x;
  o_outputs := o_outputs o; o_to := o_to o; o_amount := o_amount o; o_submit := o_submit o |}.
Definition set_outputs (x : list TransferOutput) (o : SendOptions) : SendOptions := {|
  o_wallet := o_wallet o; o_rpc := o_rpc o; o_fee := o_fee o; o_authorization := o_authorization o;
  o_outputs := x; o_to := o_to o; o_amount := o_amount o; o_submit := o_submit o |}.
Definition set_to (x : Address) (o : SendOptions) : SendOptions := {|
  o_wallet := o_wallet o; o_rpc := o_rpc o; o_fee := o_fee o; o_authorization := o_authorization o;
  o_outputs := o_outputs o; o_to := Some x; o_amount := o_amount o; o_submit := o_submit o |}.
Definition set_amount (x : Z) (o : SendOptions) : SendOptions := {|
  o_wallet := o_wallet o; o_rpc := o_rpc o; o_fee := o_fee o; o_authorization := o_authorization o;
  o_outputs := o_outputs o; o_to := o_to o; o_amount := Some x; o_submit := o_submit o |}.
Definition set_submit (o : SendOptions) : SendOptions := {|
  o_wallet := o_wallet o; o_rpc := o_rpc o; o_fee := o_fee o; o_authorization := o_authorization o;
  o_outputs := o_outputs o; o_to := o_to o; o_amount := o_amount o; o_submit := true |}.

Definition is_rpc_flag (flag : string) : bool := bool_decide (flag = "--rpc") || bool_decide (flag = "--rpc-addr").
(** An option with its value, [None] at the end of the line *)
Definition send_option (command : SendCommand) (flag : string) (value : option string) (o : SendOptions)
    : Result string SendOptions :=
  let text := ok_or value ("missing value for " +:+ flag) in
  if bool_decide (flag = "--wallet") then v ← text; Ok (set_wallet v o) else
  if is_rpc_flag flag then v ← ok_or value "missing value for --rpc"; Ok (set_rpc v o) else
  if bool_decide (flag = "--fee") then fee ← parse_fee value; Ok (set_fee fee o) else
  if bool_decide (flag = "--auth-secret-key")
  then key ← parse_secret_key value; Ok (set_input (InputKeys (authorization_from_secret_key key)) o) else
  if bool_decide (flag = "--auth-password") then v ← text; Ok (set_input (InputPassword v) o) else
  match command with
  | PayCommand => Err ("unknown wallet pay option `" +:+ flag +:+ "`")
  | _ =>
      if bool_decide (flag = "--output")
      then v ← text; more ← parse_transfer_output_specs v; Ok (set_outputs (o_outputs o ++ more) o) else
      if bool_decide (flag = "--nonce") then Err "--nonce has been removed; wallet uses account statement last_state" else
      match command with
      | LongCommand =>
          if bool_decide (flag = "--to") then a ← parse_address value; Ok (set_to a o) else
          if bool_decide (flag = "--amount") then v ← parse_amount value "--amount"; Ok (set_amount v o) else
          Err ("unknown wallet send option `" +:+ flag +:+ "`")
      | _ => Err ("unknown wallet send option `" +:+ flag +:+ "`")
      end
  end.
Fixpoint send_options (command : SendCommand) (args : list string) (o : SendOptions) : Result string SendOptions :=
  match args with
  | [] => Ok o
  | flag :: args =>
      match command, bool_decide (flag = "--submit") with
      | LongCommand, true => send_options command args (set_submit o)
      | _, _ =>
          match args with
          | [] => send_option command flag None o
          | value :: args => o ← send_option command flag (Some value) o; send_options command args o
          end
      end
  end.

Context (default_rpc_addr : string).
Definition wallet_pay (args : list string) : Do Submitted :=
  recipient ← st_lift (parse_address (args !! 0%nat));
  value ← st_lift (parse_amount (args !! 1%nat) "amount");
  o ← st_lift (send_options PayCommand (drop 2 args) (send_defaults default_rpc_addr));
  submit_wallet_payment (o_wallet o) recipient value (o_fee o) (o_rpc o) (o_authorization o).
Definition wallet_send_short (args : list string) : Do Submitted :=
  recipient ← st_lift (parse_address (args !! 0%nat));
  value ← st_lift (parse_amount (args !! 1%nat) "amount");
  o ← st_lift (send_options ShortCommand (drop 2 args) (send_defaults default_rpc_addr));
  submit_wallet_outputs (o_wallet o) ({| to := ToAddress recipient; amount := value |} :: o_outputs o)
    (o_fee o) (o_rpc o) true (o_authorization o).
Definition wallet_send (args : list string) : Do Submitted :=
  let short_form := match args with a :: b :: _ => negb (starts_with_dash a) && negb (starts_with_dash b) | _ => false end in
  if short_form then wallet_send_short args else
  o ← st_lift (send_options LongCommand args (send_defaults default_rpc_addr));
  outputs ← st_lift (match o_to o, o_amount o with
                     | Some recipient, Some value => Ok ({| to := ToAddress recipient; amount := value |} :: o_outputs o)
                     | None, None => if bool_decide (o_outputs o = []) then Err "missing --to address" else Ok (o_outputs o)
                     | None, Some _ => Err "missing --to address"
                     | Some _, None => Err "missing --amount"
                     end);
  submit_wallet_outputs (o_wallet o) outputs (o_fee o) (o_rpc o) (o_submit o) (o_authorization o).
End transfer.
