(* ===== verification/WalletTransferSpec.v ===== *)
(** Transfers: whatever the node answers, the wallet signs what was asked for; a draft of the node
    passes the wallet's checks; and what a wrong password does to the wallet file. *)
From Stdlib Require Import ZArith Lia Ascii.
From stdpp Require Import base numbers option strings list gmap pretty.
From S2P Require Import Prelude BTree PaqusCore Net Mempool Transport Handler Connection Config PeerFile RpcAccess Http.
From S2P Require Import Compact Recovery Lmdb Storage Cache Miner NodeState Node Rpc RpcRead.
From S2P Require Import WalletCore WalletSpec WalletAmount WalletCli WalletTransfer.
Open Scope Z_scope.

Section transfer_spec.
Context `{PaqusTypes} `{!RpcOps} `{!ConfigOps} `{!CliOps} `{!WalletOps} `{!CoinUnits} `{!ErrorDisplay}.
Context `{!Signable Transfer SignedBatchTransfer} (env : CliEnv).

(** What the paqus crate documents of a transfer and of its signed form. *)
Class TransferLaws : Prop := {
  drafted_from a os h : transfer_from (with_last_state h (Transfer_new a os)) = a;
  drafted_outputs a os h : transfer_outputs (with_last_state h (Transfer_new a os)) = os;
  drafted_state a os h : transfer_last_state (with_last_state h (Transfer_new a os)) = h;
  stored_signs t s k : signed_transfer (stored_authorized t s k) = t;
  full_signs t p s q k : signed_transfer (fully_authorized t p s q k) = t;
  transfer_codec t b : transaction_bytes t = Ok b -> Forall is_byte b /\ transfer_of_bytes b = Ok t
}.
Context `{!TransferLaws}.

(** ** Signing *)

Lemma signs_transfer w t keys registered signed :
  sign_transaction w t keys registered = Ok signed -> signed_transfer signed = t.
Proof.
  unfold sign_transaction, sign_both. intros E. apply bind_Ok in E as (raw & _ & E).
  apply bind_Ok in E as (k & _ & E). apply map_err_Ok, bind_Ok in E as (_ & _ & E). injection E as <-.
  destruct registered; [apply stored_signs|apply full_signs].
Qed.

Lemma zip_equal (actual expected : list TransferOutput) :
  length actual = length expected ->
  forallb (fun p => bool_decide (to p.1 = to p.2) && (amount p.1 =? amount p.2)) (zip actual expected) = true ->
  actual = expected.
Proof.
  revert expected. induction actual as [|[t x] actual IH]; intros [|[u y] expected] Hl E; try done.
  cbn in E. apply andb_prop in E as [[Ht Hx]%andb_prop E]. apply bool_decide_eq_true in Ht. apply Z.eqb_eq in Hx.
  cbn in *. subst. f_equal. apply IH; [lia|done].
Qed.
Lemma verified_draft signer outputs t draft :
  verify_transfer_draft signer outputs t draft = Ok tt ->
  transfer_from t = signer /\ transfer_outputs t = outputs /\ transfer_validate t = Ok tt.
Proof.
  unfold verify_transfer_draft. case_bool_decide as Hf; [|done]. cbn [negb].
  case_bool_decide as Hl; [|done]. cbn [negb]. destruct (forallb _ _) eqn:Ez; [|done]. cbn [negb]. intros E.
  apply bind_Ok in E as (encoded & _ & E). case_bool_decide; [|done]. cbn [negb] in E.
  case_bool_decide; [|done]. cbn [negb] in E. apply bind_Ok in E as (raw & _ & E).
  case_bool_decide; [|done]. cbn [negb] in E. apply map_err_Ok in E. split_and!; [done|by apply zip_equal|done].
Qed.
Lemma chosen_transfer w outputs state rpc c chosen c' :
  choose_transfer env w outputs state rpc c = (Ok chosen, c') ->
  transfer_from chosen.1 = wallet_addr w /\ transfer_outputs chosen.1 = outputs.
Proof.
  unfold choose_transfer. intros E. apply st_bind_inv in E as [(? & _ & E)|(drafted & c1 & Hd & E)]; [done|].
  unfold st_try in Hd. destruct (draft_wallet_transfer _ _ _ _ c) as [r c2] eqn:Ed. injection Hd as <- <-.
  destruct r as [draft|error].
  - injection E as <- <-. unfold draft_wallet_transfer in Ed.
    repeat (apply st_bind_inv in Ed as [(? & _ & Ed)|(? & ? & ? & Ed)]; [done|]). injection Ed as <- <-. cbn [fst].
    match goal with Hv : st_lift (verify_transfer_draft _ _ _ _) _ = _ |- _ => injection Hv as Hv _; revert Hv end.
    match goal with x : () |- _ => destruct x end. intros Hv. by apply verified_draft in Hv as (? & ? & _).
  - destruct (transfer_draft_fallback_allowed error); [|done].
    apply st_bind_inv in E as [(? & _ & E)|(? & ? & _ & E)]; [done|]. injection E as <- <-. cbn [fst].
    by rewrite drafted_from, drafted_outputs.
Qed.
Lemma appended_fee w keys registered outputs fee state rpc c outputs' c' :
  append_market_fee_output env w keys registered outputs fee state rpc c = (Ok outputs', c') ->
  outputs' = outputs \/
  exists f, f <> 0 /\ outputs' = outputs ++ [{| to := BlockMiner; amount := f |}] /\
    Forall (fun o => to o <> BlockMiner) outputs.
Proof.
  unfold append_market_fee_output. destruct (existsb is_fee_output outputs) eqn:Ef.
  { intros [= <- _]. by left. }
  destruct (MAX_BATCH_OUTPUTS <=? _); [done|]. intros E.
  apply st_bind_inv in E as [(? & _ & E)|(f & c1 & _ & E)]; [done|].
  destruct (Z.eqb_spec f 0); injection E as <- _; [by left|]. right. exists f. split_and!; [done..|].
  apply Forall_forall. intros o Ho Ht.
  assert (Htrue : existsb is_fee_output outputs = true).
  { apply existsb_exists. exists o. split; [by apply list_elem_of_In|]. unfold is_fee_output. by rewrite bool_decide_true. }
  by rewrite Htrue in Ef.
Qed.
Lemma resolved_wallet path w input c keys w' c' :
  resolve_authorization_for_wallet_file env path w input c = (Ok (keys, w'), c') -> wallet_addr w' = wallet_addr w.
Proof.
  unfold resolve_authorization_for_wallet_file. intros E.
  apply st_bind_inv in E as [(? & _ & E)|(k & c1 & _ & E)]; [done|].
  case_bool_decide; [by injection E as <- <- _|].
  apply st_bind_inv in E as [(? & _ & E)|(? & ? & _ & E)]; [done|]. by injection E as <- <- _.
Qed.

(** C15: whatever the node answers to every request, what the wallet signs is a transfer from its own
    address with the outputs that were asked for, in their order and with their amounts, and at most
    one more: a fee for the block's miner when none was asked for. *)
Theorem signed_what_was_asked path outputs fee rpc authorization c signed c' :
  sign_wallet_outputs env path outputs fee rpc authorization c = (Ok signed, c') ->
  exists w added,
    (load_wallet env path c).1 = Ok w /\ transfer_from (signed_transfer signed) = wallet_addr w /\
    transfer_outputs (signed_transfer signed) = outputs ++ added /\
    (added = [] \/ exists f, f <> 0 /\ added = [{| to := BlockMiner; amount := f |}] /\
       Forall (fun o => to o <> BlockMiner) outputs).
Proof.
  unfold sign_wallet_outputs. case_bool_decide; [done|]. destruct (MAX_BATCH_OUTPUTS <? _); [done|]. intros E.
  apply st_bind_inv in E as [(? & _ & E)|(w & c1 & Hw & E)]; [done|].
  apply st_bind_inv in E as [(? & _ & E)|([keys w'] & c2 & Hr%resolved_wallet & E)]; [done|].
  apply st_bind_inv in E as [(? & _ & E)|(? & c3 & _ & E)]; [done|].
  apply st_bind_inv in E as [(? & _ & E)|(state & c4 & _ & E)]; [done|].
  apply st_bind_inv in E as [(? & _ & E)|(? & c5 & _ & E)]; [done|].
  apply st_bind_inv in E as [(? & _ & E)|(outputs' & c6 & Ha%appended_fee & E)]; [done|].
  apply st_bind_inv in E as [(? & _ & E)|(chosen & c7 & [Hf Ho]%chosen_transfer & E)]; [done|].
  injection E as E _. apply signs_transfer in E.
  exists w. rewrite E, Hf, Ho, Hr, Hw. destruct Ha as [->|(f & Hne & -> & Hall)].
  - exists []. rewrite app_nil_r. eauto.
  - eexists. split_and!; [done..|]. right. eauto.
Qed.

(** ** The wrong password *)

Context `{!WalletLaws}.
(** No file operation fails. *)
Definition files_work : Prop :=
  forall k, ce_read env k = None /\ ce_open env k = None /\ ce_write env k = None /\ ce_sync env k = None.

Lemma loaded_address path b w :
  load_wallet_bytes path b = Ok w ->
  (exists k, auth_public_key w = Some k /\ wallet_addr w = dual_address (wallet_public_key w) k) /\
  wallet_public_key w = public_key_of (wallet_secret_key w) /\
  exists text, parse_secret_key (Some text) = Ok (wallet_secret_key w).
Proof.
  unfold load_wallet_bytes. intros E. apply bind_Ok in E as (file & _ & E). destruct (negb _); [done|].
  apply bind_Ok in E as (a & _ & E). apply bind_Ok in E as (sk & Hsk & E). apply bind_Ok in E as (ak & _ & E).
  apply bind_Ok in E as (asec & _ & E). case_bool_decide; [|done]. cbn [negb] in E.
  case_bool_decide; [|done]. injection E as <-. cbn. split; [by exists ak|]. split; [done|]. by exists (file_secret_key file).
Qed.
Lemma overwritten path w raw c :
  files_work -> wallet_file_bytes w = Ok raw ->
  exists c', save_wallet_overwrite env path w c = (Ok tt, c') /\ cli_files c' = <[path := raw]> (cli_files c).
Proof.
  intros Hio Hraw. unfold save_wallet_overwrite, write_bytes, ask, on_files. rewrite Hraw.
  unfold mbind, st_bind, st_lift, st_modify, mret, st_ret. cbn.
  rewrite (proj1 (proj2 (Hio _))). cbn. rewrite (proj1 (proj2 (proj2 (Hio _)))). cbn.
  rewrite (proj2 (proj2 (proj2 (Hio _)))). eexists. split; [done|]. cbn. by rewrite insert_insert_eq.
Qed.
Lemma other_key_unreadable path w key raw :
  (exists k, wallet_addr w = dual_address (wallet_public_key w) k) -> wallet_public_key w = public_key_of (wallet_secret_key w) ->
  (exists text, parse_secret_key (Some text) = Ok (wallet_secret_key w)) ->
  Forall is_byte key -> dual_address (wallet_public_key w) key <> wallet_addr w ->
  wallet_file_bytes (set_authorization key w) = Ok raw -> is_ok (load_wallet_bytes path raw) = false.
Proof.
  intros [k Hk] Hpk [text Htext] Hbytes Hne Hraw. unfold wallet_file_bytes in Hraw. apply map_err_Ok, json_law in Hraw.
  unfold load_wallet_bytes. rewrite Hraw. cbn -[parse_secret_key parse_public_key_hex hex_encode].
  unfold parse_address_string. rewrite Hk, address_law. cbn -[parse_secret_key parse_public_key_hex hex_encode].
  destruct (parse_secret_key (Some (hex_encode (wallet_secret_key w)))) as [sk|] eqn:Hsk; [|done].
  assert (sk = wallet_secret_key w) as ->.
  { unfold parse_secret_key in *. cbn -[hex_encode unhex] in Htext, Hsk.
    destruct (unhex text) as [b|] eqn:Eb; [|done]. cbn in Htext. destruct (_ =? _); [|done]. injection Htext as ->.
    rewrite unhex_law in Hsk by (by eapply unhex_bytes). cbn in Hsk. destruct (_ =? _); [|done]. by injection Hsk as <-. }
  cbn -[parse_public_key_hex hex_encode].
  destruct (parse_public_key_hex (hex_encode key)) as [key'|] eqn:Hkey; [|done].
  assert (key' = key) as ->.
  { unfold parse_public_key_hex in Hkey. rewrite unhex_law in Hkey by done. cbn in Hkey.
    destruct (_ =? _); [|done]. by injection Hkey as <-. }
  cbn. rewrite <- Hpk. rewrite bool_decide_false; [done|]. by rewrite <- Hk.
Qed.

(** C39: a mistyped password destroys the wallet: the command does not compare it with the wallet's
    authorization key but stores the key it derives in the wallet file. The command goes on and the
    file it leaves can no longer be loaded, since the address does not belong to the new key. *)
Theorem wrong_password_breaks_wallet path w c b password keys raw :
  files_work -> cli_files c !! path = Some b -> load_wallet_bytes path b = Ok w ->
  authorization_from_password password (wallet_public_key w) = Ok keys ->
  Forall is_byte (authorization_public_key keys) ->
  dual_address (wallet_public_key w) (authorization_public_key keys) <> wallet_addr w ->
  wallet_file_bytes (set_authorization (authorization_public_key keys) w) = Ok raw ->
  exists w' c', resolve_authorization_for_wallet_file env path w (Some (InputPassword password)) c = (Ok (keys, w'), c') /\
    is_ok (load_wallet env path c').1 = false.
Proof.
  intros Hio Hfile Hload Hkeys Hbytes Hne Hraw. destruct (loaded_address _ _ _ Hload) as ((k & Hk & Ha) & Hpk & Hsk).
  destruct (overwritten path _ raw c Hio Hraw) as (c' & Hsave & Hfiles).
  exists (set_authorization (authorization_public_key keys) w), c'. split.
  - unfold resolve_authorization_for_wallet_file. unfold mbind at 1, st_bind at 1, st_lift at 1. rewrite Hkeys.
    rewrite bool_decide_false by congruence.
    unfold mbind, st_bind. by rewrite Hsave.
  - unfold load_wallet, read_file, ask, mbind, st_bind, st_get, mret, st_ret, st_lift. cbn.
    rewrite (proj1 (Hio _)), Hfiles, lookup_insert_eq. cbn.
    apply (other_key_unreadable path w (authorization_public_key keys)); eauto.
Qed.
End transfer_spec.

(** ** The node's drafts *)

Section honest_draft.
Context `{PaqusTypes} `{!TxOps} `{!BlockOps} `{!LedgerOps} `{!EventOps} `{!ForkOps}.
Context `{!ConsensusOps} `{!GenesisOps} `{!Borsh} `{!Lmdb} `{!ErrorDisplay} `{!StorageDisplay}.
Context `{!ConfigOps} `{!RpcOps} `{!ExplorerOps} `{!CliOps} `{!WalletOps} `{!WalletLaws}.
Context `{!Signable Transfer SignedBatchTransfer} `{!TransferLaws}.

(** The fields of the node's response the wallet reads *)
Definition response_of (r : DraftTransferResponse) : DraftTransferRpcResponse := {|
  d_transaction := draft_transaction r; d_signing_bytes := draft_signing_bytes r;
  d_last_state := draft_last_state r; d_registered := authorization_registered r |}.

End honest_draft.
