(* ===== verification/WalletNew.v ===== *)
(** Creating and restoring wallets on the command line ([wallet_new] and [wallet_restore_mnemonic] of
    commands.rs), and what is true of the file they leave.

    A command's result is what it shows: the path, the wallet and the phrase. [ce_password] answers
    the hidden prompt and [ask_mnemonic] the visible one. *)
From Stdlib Require Import ZArith Lia Ascii.
From stdpp Require Import base numbers option strings list gmap pretty.
From S2P Require Import Prelude BTree PaqusCore Net Mempool Transport Handler Connection Config PeerFile RpcAccess Http.
From S2P Require Import Compact Recovery Lmdb Storage Cache Miner NodeState Node Rpc RpcRead WalletCore WalletSpec WalletAmount.
From S2P Require Import WalletCli WalletTransfer.
Open Scope Z_scope.

Definition PAQUS_MNEMONIC_DEFAULT_WORDS : Z := 12.
Definition parse_mnemonic_words (value : option string) : Result string Z :=
  value ← ok_or value "missing value for --words";
  if bool_decide (value = "12") then Ok 12 else if bool_decide (value = "24") then Ok 24 else
  Err "mnemonic words must be 12 or 24".

Section commands.
Context `{PaqusTypes} `{!RpcOps} `{!ConfigOps} `{!CliOps} `{!WalletOps} (env : CliEnv).
Context (ask_mnemonic : nat -> Result string string) (DEFAULT_IMPORTED_WALLET_PATH : string).
Abbreviation Do := (ST Cli string).

Record NewOptions := { n_path : string; n_words : Z; n_password : option string }.
Fixpoint new_options (args : list string) (o : NewOptions) : Result string NewOptions :=
  match args with
  | [] => Ok o
  | flag :: args =>
      if bool_decide (flag = "--show-secret") then
        new_options args o else
      if bool_decide (flag = "--words") || bool_decide (flag = "--mnemonic-words") then
        words ← parse_mnemonic_words (head args);
        match args with
        | [] => Ok o
        | _ :: args => new_options args {| n_path := n_path o; n_words := words; n_password := n_password o |}
        end else
      if bool_decide (flag = "--auth-password") then
        match args with
        | [] => Err "missing value for --auth-password"
        | value :: args => new_options args {| n_path := n_path o; n_words := n_words o; n_password := Some value |}
        end else
      if starts_with_dash flag then Err ("unknown wallet new option `" +:+ flag +:+ "`") else
      new_options args {| n_path := flag; n_words := n_words o; n_password := n_password o |}
  end.
Definition given_password (password : option string) : Do string :=
  password ← match password with Some password => mret password | None => prompt_hidden env end;
  if bool_decide (password = "") then st_fail "authorization password must not be empty" else mret password.
(** Path, wallet and phrase, and the secret key when it is to be shown *)
Definition wallet_new (args : list string) : Do (string * Wallet * string * option bytes) :=
  o ← st_lift (new_options args {| n_path := DEFAULT_WALLET_PATH; n_words := PAQUS_MNEMONIC_DEFAULT_WORDS; n_password := None |});
  password ← given_password (n_password o);
  made ← create_mnemonic_wallet_file env (n_path o) (n_words o) password;
  mret (n_path o, made.1, made.2, if bool_decide ("--show-secret" ∈ args) then Some (wallet_secret_key made.1) else None).

Record RestoreOptions := { t_path : string; t_mnemonic : option string; t_password : option string }.
Fixpoint restore_options (args : list string) (o : RestoreOptions) : Result string RestoreOptions :=
  match args with
  | [] => Ok o
  | flag :: args =>
      if bool_decide (flag = "--mnemonic") then
        match args with
        | [] => Err "missing value for --mnemonic"
        | value :: args => restore_options args {| t_path := t_path o; t_mnemonic := Some value; t_password := t_password o |}
        end else
      if bool_decide (flag = "--auth-password") then
        match args with
        | [] => Err "missing value for --auth-password"
        | value :: args => restore_options args {| t_path := t_path o; t_mnemonic := t_mnemonic o; t_password := Some value |}
        end else
      if starts_with_dash flag then Err ("unknown wallet restore-mnemonic option `" +:+ flag +:+ "`") else
      restore_options args {| t_path := flag; t_mnemonic := t_mnemonic o; t_password := t_password o |}
  end.
Definition wallet_restore_mnemonic (args : list string) : Do (string * Wallet) :=
  o ← st_lift (restore_options args {| t_path := DEFAULT_IMPORTED_WALLET_PATH; t_mnemonic := None; t_password := None |});
  phrase ← match t_mnemonic o with
           | Some phrase => mret phrase
           | None => typed ← ask ask_mnemonic; st_lift typed
           end;
  password ← given_password (t_password o);
  w ← restore_mnemonic_wallet_file env (t_path o) phrase password;
  mret (t_path o, w).
Definition wallet_address (args : list string) : Do string :=
  secret_key ← st_lift (parse_secret_key (head args));
  password ← prompt_hidden env;
  keys ← st_lift (authorization_from_password password (public_key_of secret_key));
  mret (address_text (dual_address (public_key_of secret_key) (authorization_public_key keys))).
End commands.

(** What the key generation of the paqus crate promises: keys of their sizes, and the public key
    belongs to the secret one. *)
Class KeyLaws `{!WalletOps} : Prop := {
  seed_keys seed : is_key WALLET_PUBLIC_KEY_SIZE (keypair_of_seed seed).1 /\
    is_key WALLET_SECRET_KEY_SIZE (keypair_of_seed seed).2 /\
    public_key_of (keypair_of_seed seed).2 = (keypair_of_seed seed).1;
  password_key password p k : authorization_keypair password p = Ok k -> is_key WALLET_PUBLIC_KEY_SIZE k.1
}.

Section wallet_new_spec.
Context `{PaqusTypes} `{!RpcOps} `{!ConfigOps} `{!CliOps} `{!WalletOps} `{!WalletLaws} `{!KeyLaws} (env : CliEnv).

Lemma from_mnemonic_wf phrase password w :
  wallet_from_paqus_mnemonic phrase password = Ok w -> wallet_wf w /\ auth_secret_key w = None.
Proof.
  unfold wallet_from_paqus_mnemonic. intros E. apply bind_Ok in E as (entropy & _ & E).
  apply bind_Ok in E as (k & Hk%map_err_Ok%password_key & E). injection E as <-.
  destruct (seed_keys (tagged_wallet_hash PAQUS_MNEMONIC_SPEND_TAG entropy)) as (Hp & Hs & Hps).
  split; [|done]. split; cbn; [done..|]. by exists k.1.
Qed.
(** The command line's own loader reads back what the library writes. *)
Lemma loaded_back path w raw :
  wallet_wf w -> auth_secret_key w = None -> wallet_file_bytes w = Ok raw -> load_wallet_bytes path raw = Ok w.
Proof.
  intros [[Hpb Hpl] [Hsb Hsl] Hpair (k & Hauth & [Hkb Hkl] & Haddr)] Hsec Hraw.
  unfold wallet_file_bytes in Hraw. apply map_err_Ok, json_law in Hraw. unfold load_wallet_bytes. rewrite Hraw.
  cbn -[parse_secret_key parse_public_key_hex hex_encode]. unfold parse_address_string. rewrite Haddr, address_law.
  cbn -[parse_secret_key parse_public_key_hex hex_encode].
  assert (Es : parse_secret_key (Some (hex_encode (wallet_secret_key w))) = Ok (wallet_secret_key w)).
  { unfold parse_secret_key. cbn -[hex_encode unhex]. rewrite unhex_law by done. cbn. by rewrite Hsl, Z.eqb_refl. }
  rewrite Es, Hauth. cbn -[parse_public_key_hex hex_encode].
  assert (Ek : parse_public_key_hex (hex_encode k) = Ok k).
  { unfold parse_public_key_hex. rewrite unhex_law by done. cbn. by rewrite Hkl, Z.eqb_refl. }
  rewrite Ek. cbn -[hex_encode]. rewrite Hpair. rewrite !bool_decide_true by done. cbn. f_equal.
  destruct w; cbn in *. subst. reflexivity.
Qed.
Lemma saved_new path w c r c' :
  save_wallet env path w c = (Ok r, c') ->
  exists raw, wallet_file_bytes w = Ok raw /\ cli_files c !! path = None /\ cli_files c' = <[path := raw]> (cli_files c).
Proof.
  unfold save_wallet. intros E. apply st_bind_inv in E as [(? & _ & E)|(raw & c1 & [= Hraw <-] & E)]; [done|].
  exists raw. split; [done|]. revert E.
  unfold write_new_synced_file, write_bytes, ask, on_files, mbind, st_bind, st_get, st_modify, mret, st_ret, st_fail. cbn.
  destruct (ce_open env _); [done|]. destruct (cli_files c !! path); [done|].
  destruct (ce_write env _) as [[k e]|]; cbn; [unfold remove_file, ask, mbind, st_bind; cbn; by destruct (ce_remove env _)|].
  destruct (ce_sync env _); cbn; [unfold remove_file, ask, mbind, st_bind; cbn; by destruct (ce_remove env _)|].
  intros [= <- <-]. cbn. by rewrite insert_insert_eq.
Qed.

(** [getrandom] fills the buffer. *)
Context (Hrandom : forall k n b, 0 <= n -> ce_random env k n = Ok b -> zlen b = n).

End wallet_new_spec.
