(* ===== verification/WalletCash.v ===== *)
(** Cash from the wallet's command line: choosing denominations, withdrawing coins into files and
    redeeming a file (commands.rs).

    A coin file holds the secret that redeems the coin, so losing the file is losing the money. The
    denominations are an enumeration of the paqus crate, named by the code; their values, the QCash
    transactions and the coin files are the crate's: class [CashOps]. Paths are text; making a
    directory adds no file. *)
From Stdlib Require Import ZArith Lia Ascii.
From stdpp Require Import base numbers option strings list gmap pretty.
From S2P Require Import Prelude BTree PaqusCore Net Mempool Transport Handler Connection Config PeerFile RpcAccess Http.
From S2P Require Import Compact Recovery Lmdb Storage Cache Miner NodeState Node Rpc RpcRead WalletCore WalletAmount.
From S2P Require Import WalletCli WalletTransfer.
Open Scope Z_scope.

Inductive QCashDenomination :=
| One | Two | Five | Ten | Twenty | Fifty | OneHundred | FiveHundred | OneThousand | FiveThousand
| TenThousand | FiftyThousand | OneHundredThousand | FiveHundredThousand | OneMillion.
#[global] Instance denomination_eq_dec : EqDecision QCashDenomination.
Proof. solve_decision. Defined.

Class CashOps `{PaqusTypes} := {
  xpq : QCashDenomination -> Z;
  denomination_amount : QCashDenomination -> Z;
  MAX_QCASH_WITHDRAWAL_OUTPUTS : Z;
  (** [QCashWithdrawalMetadata::plan_automatic]: cash amount, remainder, denominations *)
  plan_automatic : Z -> Result string (Z * Z * list QCashDenomination);
  redeem_commitment : bytes -> bytes;
  CashOutput : Type;
  CashMetadata : Type;
  with_selected_denominations : list QCashDenomination -> list bytes -> Result string CashMetadata;
  metadata_outputs : CashMetadata -> list CashOutput;
  output_denomination : CashOutput -> QCashDenomination;
  CashTransaction : Type;
  cash_withdraw : Address -> Z -> CashMetadata -> CashTransaction;
  cash_with_last_state : Hash -> CashTransaction -> CashTransaction;
  cash_hash : CashTransaction -> Result string Hash;
  signed_cash_bytes : SignedQCashTransaction -> Result string bytes;
  CoinFile : Type;
  coin_file_new : Hash -> CashOutput -> bytes -> Result string CoinFile;
  (** [QCashCoinId(file.coin_id).file_name(denomination)] *)
  coin_file_name : CoinFile -> QCashDenomination -> string;
  encode_coin_file : CoinFile -> Result string bytes;
  decode_coin_file : bytes -> Result string CoinFile;
  redeem_from_files_at : Address -> Address -> list CoinFile -> Hash -> Result string CashTransaction
}.

(** ** Denominations *)

(** The denominations of the command line, by their text *)
Definition denomination_of_text (text : string) : option QCashDenomination :=
  if bool_decide (text = "1") then Some One else if bool_decide (text = "2") then Some Two else
  if bool_decide (text = "5") then Some Five else if bool_decide (text = "10") then Some Ten else
  if bool_decide (text = "20") then Some Twenty else if bool_decide (text = "50") then Some Fifty else
  if bool_decide (text = "100") then Some OneHundred else if bool_decide (text = "500") then Some FiveHundred else
  if bool_decide (text = "1000") then Some OneThousand else if bool_decide (text = "5000") then Some FiveThousand else
  if bool_decide (text = "10000") then Some TenThousand else if bool_decide (text = "50000") then Some FiftyThousand else
  if bool_decide (text = "100000") then Some OneHundredThousand else
  if bool_decide (text = "500000") then Some FiveHundredThousand else
  if bool_decide (text = "1000000") then Some OneMillion else None.
(** [Vec::dedup] *)
Fixpoint dedup (l : list QCashDenomination) : list QCashDenomination :=
  match l with
  | x :: ((y :: _) as rest) => if bool_decide (x = y) then dedup rest else x :: dedup rest
  | l => l
  end.
Inductive QCashDenominationSelection :=
| Allowed (denominations : list QCashDenomination)
| Exact (denominations : list QCashDenomination).
(** [item.split_once(['x', 'X'])] *)
Fixpoint split_times (s before : string) : option (string * string) :=
  match s with
  | EmptyString => None
  | String c s =>
      if bool_decide (c = "x"%char) || bool_decide (c = "X"%char) then Some (before, s)
      else split_times s (before +:+ String c "")
  end.

Section cash.
Context `{PaqusTypes} `{!CashOps} `{!CoinUnits}.

(** [sort_by_key(|d| Reverse(d.xpq()))] *)
Definition compare_denominations (a b : QCashDenomination) : comparison := xpq b ?= xpq a.
Definition parse_qcash_denominations (value : string) : Result string (list QCashDenomination) :=
  ds ← collect_result (fun text => ok_or (denomination_of_text text)
         ("unsupported QCash denomination `" +:+ text +:+
          "`; use 1,2,5,10,20,50,100,500,1000,5000,10000,50000,100000,500000,1000000"))
         (filter (fun text => text <> "") (map trim (split_on "," value "")));
  if bool_decide (ds = []) then Err "at least one QCash denomination is required" else
  if MAX_QCASH_WITHDRAWAL_OUTPUTS <? zlen ds then Err "too many QCash denominations selected" else
  Ok (dedup (sort_by compare_denominations ds)).

(** The [for item in ..] of an exact selection *)
Fixpoint exact_outputs (items : list string) (outputs : list QCashDenomination) : Result string (list QCashDenomination) :=
  match items with
  | [] => Ok outputs
  | item :: items =>
      parts ← ok_or (split_times item "") ("invalid denomination count `" +:+ item +:+ "`; use DENOMxCOUNT");
      ds ← parse_qcash_denominations parts.1;
      d ← ok_or (head ds) ("missing denomination in `" +:+ item +:+ "`");
      count ← map_err (fun _ => "invalid denomination count in `" +:+ item +:+ "`") (parse_u64 (trim parts.2));
      if count =? 0 then Err ("denomination count must be positive in `" +:+ item +:+ "`") else
      if MAX_QCASH_WITHDRAWAL_OUTPUTS <? saturating_add USIZE_MAX (zlen outputs) count
      then Err ("denomination counts require more than " +:+ pretty MAX_QCASH_WITHDRAWAL_OUTPUTS +:+ " cash files") else
      exact_outputs items (outputs ++ replicate (Z.to_nat count) d)
  end.
Definition parse_qcash_denomination_selection (value : string) : Result string QCashDenominationSelection :=
  if negb (contains_text "x" (to_ascii_lowercase value))
  then ds ← parse_qcash_denominations value; Ok (Allowed ds) else
  outputs ← exact_outputs (filter (fun item => item <> "") (map trim (split_on "," value ""))) [];
  if bool_decide (outputs = []) then Err "at least one denomination count is required" else
  Ok (Exact (sort_by compare_denominations outputs)).

(** The [for denomination in allowed_denominations] *)
Fixpoint plan_loop (allowed : list QCashDenomination) (remaining : Z) (outputs : list QCashDenomination)
    : Result string (Z * list QCashDenomination) :=
  match allowed with
  | [] => Ok (remaining, outputs)
  | d :: allowed =>
      let unit_ := denomination_amount d in
      let count := remaining / unit_ in
      if MAX_QCASH_WITHDRAWAL_OUTPUTS <? saturating_add USIZE_MAX (zlen outputs) count
      then Err ("selected denominations require more than " +:+ pretty MAX_QCASH_WITHDRAWAL_OUTPUTS +:+ " cash files") else
      plan_loop allowed (remaining mod unit_) (outputs ++ replicate (Z.to_nat count) d)
  end.
Definition plan_selected_qcash_denominations (requested : Z) (allowed : list QCashDenomination)
    : Result string (Z * Z * list QCashDenomination) :=
  planned ← plan_loop allowed requested [];
  let '(remaining, outputs) := planned in
  let qcash_amount := saturating_sub requested remaining in
  if bool_decide (outputs = []) || (qcash_amount =? 0)
  then Err "selected denominations cannot represent the requested amount" else
  Ok (qcash_amount, remaining, outputs).

(** [try_fold] with [checked_add] *)
Fixpoint sum_amounts (ds : list QCashDenomination) (total : Z) : Result string Z :=
  match ds with
  | [] => Ok total
  | d :: ds =>
      total ← ok_or (checked (total + denomination_amount d)) "explicit QCash denomination total overflowed";
      sum_amounts ds total
  end.
Definition plan_exact_qcash_denominations (requested : Z) (ds : list QCashDenomination)
    : Result string (Z * Z * list QCashDenomination) :=
  qcash_amount ← sum_amounts ds 0;
  let requested_cash := requested - requested mod XPQ_units in
  if negb (qcash_amount =? requested_cash)
  then Err ("explicit denominations total " +:+ pretty (qcash_amount / XPQ_units)
    +:+ " XPQ, but requested cash amount is " +:+ pretty (requested_cash / XPQ_units) +:+ " XPQ") else
  Ok (qcash_amount, requested - qcash_amount, ds).

Definition plan_withdrawal (requested : Z) (selection : option QCashDenominationSelection)
    : Result string (Z * Z * list QCashDenomination) :=
  match selection with
  | Some (Allowed ds) => plan_selected_qcash_denominations requested ds
  | Some (Exact ds) => plan_exact_qcash_denominations requested ds
  | None => map_err (fun error => "cash amount cannot be withdrawn: " +:+ error) (plan_automatic requested)
  end.
End cash.

(** ** Coin files *)

(** [Path::new(dir).join(name)] for a name without a slash *)
Definition path_join (dir name : string) : string :=
  match String.rev dir with
  | EmptyString => name
  | String c _ => if bool_decide (c = "/"%char) then dir +:+ name else dir +:+ "/" +:+ name
  end.

Section files.
Context `{PaqusTypes} `{!RpcOps} `{!ConfigOps} `{!CliOps} `{!WalletOps} `{!CoinUnits} `{!CashOps}.
Context `{!Signable CashTransaction SignedQCashTransaction} (env : CliEnv).
(** [fs::create_dir_all] *)
Context (make_dir : nat -> option IoError).
Abbreviation Do := (ST Cli string).

(** [PendingCashFiles]: the loop that writes and tracks, with the paths tracked when it ends. *)
Fixpoint write_cash_files (dir : string) (withdraw_hash : Hash) (coins : list (CashOutput * bytes)) (tracked : list string)
    : Do (Result string unit * list string) :=
  match coins with
  | [] => mret (Ok tt, tracked)
  | (output, secret) :: coins =>
      match coin_file_new withdraw_hash output secret with
      | Err error => mret (Err ("failed to create cash file: " +:+ error), tracked)
      | Ok file =>
          let path := path_join dir (coin_file_name file (output_denomination output)) in
          match encode_coin_file file with
          | Err error => mret (Err ("failed to encode cash file " +:+ path +:+ ": " +:+ error), tracked)
          | Ok encoded =>
              written ← st_try (write_new_synced_file env path encoded);
              match written with
              | Err error => mret (Err error, tracked)
              | Ok _ => write_cash_files dir withdraw_hash coins (tracked ++ [path])
              end
          end
      end
  end.
(** [Drop for PendingCashFiles] *)
Definition drop_cash_files (tracked : list string) : Do unit := st_for (remove_file env) tracked.

(** From the coins to the node's answer: the files are written first and removed again unless the
    node accepts. *)
Definition issue_cash (dir : string) (withdraw_hash : Hash) (coins : list (CashOutput * bytes))
    (signed : SignedQCashTransaction) (rpc_addr : string) : Do (list string) :=
  written ← write_cash_files dir withdraw_hash coins [];
  let '(result, tracked) := written in
  answered ← st_try (
    st_lift result ;;
    raw ← st_lift (signed_cash_bytes signed);
    response ← http_post_json env rpc_addr "/qcash/tx" (quoted_tx (hex_encode raw));
    if bool_decide ((v ← result_ok (json_parse response); a ← json_get "accepted" v; as_bool a) = Some true)
    then mret tt else st_fail ("node rejected cash withdraw; cash files removed: " +:+ response));
  match answered with
  | Ok _ => mret tracked
  | Err error => drop_cash_files tracked ;; st_fail error
  end.

Fixpoint draw_secrets (n : nat) : Do (list bytes) :=
  match n with
  | O => mret []
  | S n =>
      random ← ask (ce_random env);
      secret ← st_lift (map_err (fun error => "secure random generation failed: " +:+ error) (random 32));
      rest ← draw_secrets n;
      mret (secret :: rest)
  end.

Record WithdrawOptions := {
  w_wallet : string; w_rpc : string; w_dir : string; w_selection : option QCashDenominationSelection
}.
Definition withdraw_option (flag : string) (value : option string) (o : WithdrawOptions) : Result string WithdrawOptions :=
  if bool_decide (flag = "--wallet") then
    v ← ok_or value "missing value for --wallet";
    Ok {| w_wallet := v; w_rpc := w_rpc o; w_dir := w_dir o; w_selection := w_selection o |} else
  if is_rpc_flag flag then
    v ← ok_or value "missing value for --rpc";
    Ok {| w_wallet := w_wallet o; w_rpc := v; w_dir := w_dir o; w_selection := w_selection o |} else
  if bool_decide (flag = "--out") || bool_decide (flag = "--output-dir") then
    v ← ok_or value "missing value for --out";
    Ok {| w_wallet := w_wallet o; w_rpc := w_rpc o; w_dir := v; w_selection := w_selection o |} else
  if bool_decide (flag = "--fee") then _ ← parse_fee value; Ok o else
  if bool_decide (flag = "--nonce") then Err "--nonce has been removed; wallet uses account statement last_state" else
  if bool_decide (flag = "--denoms") || bool_decide (flag = "--denominations") then
    v ← ok_or value "missing value for --denoms";
    selection ← parse_qcash_denomination_selection v;
    Ok {| w_wallet := w_wallet o; w_rpc := w_rpc o; w_dir := w_dir o; w_selection := Some selection |} else
  Err ("unknown cash withdraw option `" +:+ flag +:+ "`").
Fixpoint withdraw_options (args : list string) (o : WithdrawOptions) : Result string WithdrawOptions :=
  match args with
  | [] => Ok o
  | [flag] => withdraw_option flag None o
  | flag :: value :: args => o ← withdraw_option flag (Some value) o; withdraw_options args o
  end.

(** The files' paths, the cash amount and the remainder *)
Definition wallet_cash_withdraw (default_rpc_addr : string) (args : list string) : Do (list string * Z * Z) :=
  requested ← st_lift (parse_amount (head args) "cash amount");
  o ← st_lift (withdraw_options (drop 1 args)
        {| w_wallet := DEFAULT_WALLET_PATH; w_rpc := default_rpc_addr; w_dir := "./cash"; w_selection := None |});
  plan ← st_lift (plan_withdrawal requested (w_selection o));
  let '(qcash_amount, remainder, ds) := plan in
  secrets ← draw_secrets (length ds);
  metadata ← st_lift (map_err (fun error => "failed to build withdraw outputs: " +:+ error)
               (with_selected_denominations ds (map redeem_commitment secrets)));
  w ← load_wallet env (w_wallet o);
  resolved ← resolve_authorization_for_wallet_file env (w_wallet o) w None;
  let '(keys, w) := resolved in
  state ← resolve_wallet_account_state env (wallet_addr w) (w_rpc o);
  st_lift (ensure_no_pending_outgoing state) ;;
  let transaction := cash_with_last_state (last_state state) (cash_withdraw (wallet_addr w) qcash_amount metadata) in
  withdraw_hash ← st_lift (cash_hash transaction);
  signed ← st_lift (sign_qcash_transaction w transaction keys (state_registered state));
  made ← ask make_dir;
  match made with
  | Some e => st_fail ("failed to create cash output directory " +:+ w_dir o +:+ ": " +:+ io_text e)
  | None =>
      paths ← issue_cash (w_dir o) withdraw_hash (zip (metadata_outputs metadata) secrets) signed (w_rpc o);
      mret (paths, qcash_amount, remainder)
  end.

(** ** Redeeming *)

Definition load_cash_coin_file (path : string) : Do CoinFile :=
  contents ← read_file env path;
  st_lift (b ← map_err (fun error => "failed to read cash file " +:+ path +:+ ": " +:+ io_text error) contents;
           map_err (fun error => "invalid cash file " +:+ path +:+ ": " +:+ error) (decode_coin_file b)).

Record RedeemOptions := { r_wallet : string; r_rpc : string; r_recipient : option Address }.
Definition redeem_option (flag : string) (value : option string) (o : RedeemOptions) : Result string RedeemOptions :=
  if bool_decide (flag = "--to") then
    a ← parse_address value; Ok {| r_wallet := r_wallet o; r_rpc := r_rpc o; r_recipient := Some a |} else
  if bool_decide (flag = "--wallet") then
    v ← ok_or value "missing value for --wallet"; Ok {| r_wallet := v; r_rpc := r_rpc o; r_recipient := r_recipient o |} else
  if is_rpc_flag flag then
    v ← ok_or value "missing value for --rpc"; Ok {| r_wallet := r_wallet o; r_rpc := v; r_recipient := r_recipient o |} else
  if bool_decide (flag = "--fee") then _ ← parse_fee value; Ok o else
  if bool_decide (flag = "--nonce") then Err "--nonce has been removed; wallet uses account statement last_state" else
  Err ("unknown cash redeem option `" +:+ flag +:+ "`").
Fixpoint redeem_options (args : list string) (o : RedeemOptions) : Result string RedeemOptions :=
  match args with
  | [] => Ok o
  | [flag] => redeem_option flag None o
  | flag :: value :: args => o ← redeem_option flag (Some value) o; redeem_options args o
  end.

(** The hash of the redeeming transaction; the file is kept in any case. *)
Definition wallet_cash_redeem (default_rpc_addr : string) (args : list string) : Do string :=
  path ← st_lift (ok_or (path ← head args; if starts_with_dash path then None else Some path)
           "usage: cash redeem <coin.XPQ> --to <address>");
  o ← st_lift (redeem_options (drop 1 args)
        {| r_wallet := DEFAULT_WALLET_PATH; r_rpc := default_rpc_addr; r_recipient := None |});
  recipient ← st_lift (ok_or (r_recipient o) "missing --to address");
  w ← load_wallet env (r_wallet o);
  resolved ← resolve_authorization_for_wallet_file env (r_wallet o) w None;
  let '(keys, w) := resolved in
  state ← resolve_wallet_account_state env (wallet_addr w) (r_rpc o);
  st_lift (ensure_no_pending_outgoing state) ;;
  file ← load_cash_coin_file path;
  transaction ← st_lift (map_err (fun error => "failed to authorize cash coin: " +:+ error)
    (redeem_from_files_at (wallet_addr w) recipient [file] (last_state state)));
  signed ← st_lift (sign_qcash_transaction w (cash_with_last_state (last_state state) transaction) keys (state_registered state));
  raw ← st_lift (signed_cash_bytes signed);
  response ← http_post_json env (r_rpc o) "/qcash/tx" (quoted_tx (hex_encode raw));
  value ← st_lift (map_err (fun error => "invalid node response: " +:+ error +:+ ": " +:+ response) (json_parse response));
  if negb (bool_decide ((a ← json_get "accepted" value; as_bool a) = Some true))
  then st_fail ("node rejected cash redeem; original file retained: " +:+ response) else
  st_lift (ok_or (h ← json_get "hash" value; as_str h) ("accepted redeem response has no hash: " +:+ response)).
End files.
