(* ===== verification/WalletCashSpec.v ===== *)
(** Cash: a plan is worth what it says, and coin files appear all together or not at all. *)
From Stdlib Require Import ZArith Lia Ascii.
From stdpp Require Import base numbers option strings list gmap pretty.
From S2P Require Import Prelude BTree PaqusCore Net Mempool Transport Handler Connection Config PeerFile RpcAccess Http.
From S2P Require Import Compact Recovery Lmdb Storage Cache Miner NodeState Node Rpc RpcRead WalletCore WalletAmount.
From S2P Require Import WalletCli WalletTransfer WalletCash.
Open Scope Z_scope.

Section plans.
Context `{PaqusTypes} `{!CashOps} `{!CoinUnits}.
(** A denomination is that many XPQ. *)
Class DenominationLaws : Prop := {
  xpq_positive d : 0 < xpq d;
  amount_of_xpq d : denomination_amount d = xpq d * XPQ_units
}.
Context `{!DenominationLaws}.

Definition worth (ds : list QCashDenomination) : Z := foldr (fun d total => denomination_amount d + total) 0 ds.
Lemma worth_app ds es : worth (ds ++ es) = worth ds + worth es.
Proof. unfold worth. induction ds as [|d ds IH]; cbn; [done|]. rewrite IH. lia. Qed.
Lemma worth_replicate n d : worth (replicate n d) = Z.of_nat n * denomination_amount d.
Proof. unfold worth. induction n as [|n IH]; [done|]. cbn [replicate foldr]. rewrite IH. lia. Qed.
Lemma amount_positive d : 0 < denomination_amount d.
Proof.
  rewrite amount_of_xpq. pose proof (xpq_positive d).
  assert (0 < XPQ_units) by (rewrite units_decimal; apply Z.pow_pos_nonneg; pose proof decimals_bounded; lia). nia.
Qed.

Lemma plan_loop_spec allowed remaining outputs remaining' outputs' :
  0 <= remaining -> plan_loop allowed remaining outputs = Ok (remaining', outputs') ->
  0 <= remaining' <= remaining /\ worth outputs' + remaining' = worth outputs + remaining /\
  Forall (fun d => remaining' < denomination_amount d) allowed /\
  (Forall (fun d => d ∈ allowed \/ d ∈ outputs) outputs') /\
  (zlen outputs <= MAX_QCASH_WITHDRAWAL_OUTPUTS -> MAX_QCASH_WITHDRAWAL_OUTPUTS < USIZE_MAX ->
   zlen outputs' <= MAX_QCASH_WITHDRAWAL_OUTPUTS).
Proof.
  revert remaining outputs. induction allowed as [|d allowed IH]; intros remaining outputs Hr E.
  { injection E as <- <-. split_and!; try lia; try done. apply Forall_forall. auto. }
  cbn [plan_loop] in E. pose proof (amount_positive d) as Hd. set (unit_ := denomination_amount d) in *.
  pose proof (Z.div_mod remaining unit_ ltac:(lia)) as Hdm. pose proof (Z.mod_pos_bound remaining unit_ Hd) as Hm.
  pose proof (Z.div_pos remaining unit_ Hr Hd) as Hq.
  destruct (Z.ltb_spec MAX_QCASH_WITHDRAWAL_OUTPUTS (saturating_add USIZE_MAX (zlen outputs) (remaining / unit_))) as [|Hle]; [done|].
  apply IH in E as (Hr' & Hw & Hall & Hin & Hlen); [|lia].
  rewrite worth_app, worth_replicate, Z2Nat.id in Hw by done. split_and!; try nia.
  - constructor; [fold unit_; lia|done].
  - eapply Forall_impl; [exact Hin|]. cbn. intros e [He|He]; [left; by right|].
    apply elem_of_app in He as [He|He]; [by right|]. apply elem_of_replicate in He as [-> _]. left. by left.
  - intros Ho Hmax. apply Hlen; [|done]. unfold zlen in *. rewrite length_app, length_replicate.
    unfold saturating_add in Hle. lia.
Qed.
Lemma sum_amounts_spec ds total sum : sum_amounts ds total = Ok sum -> sum = total + worth ds.
Proof.
  revert total. induction ds as [|d ds IH]; intros total E; [injection E as <-; unfold worth; cbn; lia|].
  cbn [sum_amounts] in E. apply bind_Ok in E as (t & Ht%ok_or_Ok & E). unfold checked in Ht.
  destruct (_ <=? _); [|done]. injection Ht as <-. apply IH in E. unfold worth in *. cbn. lia.
Qed.

(** C37: a withdrawal plan with chosen denominations: the coins are worth exactly the cash amount, cash
    and remainder make up the requested amount, and the remainder could not be paid with any
    allowed denomination, or is less than one XPQ for an exact choice. *)
Theorem withdrawal_plan_adds_up requested selection cash remainder ds :
  0 <= requested -> plan_withdrawal requested (Some selection) = Ok (cash, remainder, ds) ->
  worth ds = cash /\ cash + remainder = requested /\ 0 <= remainder /\
  match selection with
  | Allowed allowed => ds ⊆ allowed /\ ds <> [] /\ Forall (fun d => remainder < denomination_amount d) allowed
  | Exact exact => ds = exact /\ remainder < XPQ_units
  end.
Proof.
  intros Hr. destruct selection as [allowed|exact]; cbn [plan_withdrawal].
  - unfold plan_selected_qcash_denominations. intros E. apply bind_Ok in E as ([rest outputs] & Hp & E).
    apply plan_loop_spec in Hp as (Hrest & Hw & Hall & Hin & _); [|done].
    destruct (_ || _) eqn:Eb; [done|]. injection E as <- <- <-. unfold saturating_sub.
    change (worth []) with 0 in Hw. split_and!; try lia; try done.
    + intros d Hd. rewrite Forall_forall in Hin. destruct (Hin d Hd) as [|Hn]; [done|]. by apply not_elem_of_nil in Hn.
    + intros ->. rewrite bool_decide_true in Eb by done. done.
  - unfold plan_exact_qcash_denominations. intros E. apply bind_Ok in E as (sum & Hs%sum_amounts_spec & E).
    destruct (Z.eqb_spec sum (requested - requested mod XPQ_units)) as [Heq|]; [|done]. injection E as <- <- <-.
    assert (Hx : 0 < XPQ_units) by (rewrite units_decimal; apply Z.pow_pos_nonneg; pose proof decimals_bounded; lia).
    pose proof (Z.mod_pos_bound requested XPQ_units Hx). split_and!; try lia; done.
Qed.
End plans.

Section files.
Context `{PaqusTypes} `{!RpcOps} `{!ConfigOps} `{!CliOps} `{!WalletOps} `{!CoinUnits} `{!CashOps}.
Context `{!Signable CashTransaction SignedQCashTransaction} (env : CliEnv).
(** Files that exist can be removed. *)
Context (Hremove : forall k, ce_remove env k = None).

Lemma remove_run path c : remove_file env path c =
  (Ok tt, {| cli_files := delete path (cli_files c); cli_asked := S (cli_asked c) |}).
Proof. unfold remove_file, ask, mbind, st_bind. cbn. by rewrite Hremove. Qed.
Lemma write_new_spec path b c r c' :
  write_new_synced_file env path b c = (r, c') ->
  match r with
  | Ok _ => cli_files c !! path = None /\ cli_files c' = <[path := b]> (cli_files c)
  | Err _ => cli_files c' = cli_files c
  end.
Proof.
  unfold write_new_synced_file, write_bytes. unfold ask, on_files, mbind, st_bind, st_get, st_modify, mret, st_ret, st_fail.
  cbn. destruct (ce_open env (cli_asked c)) as [e|]; [by intros [= <- <-]|].
  destruct (cli_files c !! path) eqn:Ef; [by intros [= <- <-]|].
  destruct (ce_write env _) as [[k e]|]; cbn.
  - rewrite remove_run. intros [= <- <-]. cbn. rewrite insert_insert_eq, delete_insert_id; done.
  - destruct (ce_sync env _) as [e|]; cbn.
    + rewrite remove_run. intros [= <- <-]. cbn. rewrite insert_insert_eq, delete_insert_id; done.
    + intros [= <- <-]. cbn. by rewrite insert_insert_eq.
Qed.

(** What a coin's file is called and holds *)
Definition coin_in_file (dir : string) (hash : Hash) (coin : CashOutput * bytes) (written : string * bytes) : Prop :=
  exists file, coin_file_new hash coin.1 coin.2 = Ok file /\ encode_coin_file file = Ok written.2 /\
    written.1 = path_join dir (coin_file_name file (output_denomination coin.1)).

Lemma write_cash_spec dir hash coins tracked c r c' :
  write_cash_files env dir hash coins tracked c = (r, c') ->
  exists result written, r = Ok (result, tracked ++ written.*1) /\ NoDup written.*1 /\
    Forall (fun p => cli_files c !! p = None) written.*1 /\ cli_files c' = list_to_map written ∪ cli_files c /\
    (is_ok result = true -> Forall2 (coin_in_file dir hash) coins written).
Proof.
  revert tracked c. induction coins as [|[output secret] coins IH]; intros tracked c E; cbn [write_cash_files] in E.
  { injection E as <- <-. exists (Ok tt), []. rewrite app_nil_r.
    split_and!; try done; try constructor. by rewrite list_to_map_nil, (left_id_L ∅ (∪)). }
  assert (Hstop : forall error, r = Ok (Err error, tracked) -> cli_files c' = cli_files c ->
    exists result written, r = Ok (result, tracked ++ written.*1) /\ NoDup written.*1 /\
      Forall (fun p => cli_files c !! p = None) written.*1 /\ cli_files c' = list_to_map written ∪ cli_files c /\
      (is_ok result = true -> Forall2 (coin_in_file dir hash) ((output, secret) :: coins) written)).
  { intros error -> Hf. exists (Err error), []. rewrite app_nil_r.
    split_and!; try done; try constructor. by rewrite Hf, list_to_map_nil, (left_id_L ∅ (∪)). }
  destruct (coin_file_new hash output secret) as [file|error] eqn:Efile; [|injection E as <- <-; by eapply Hstop].
  destruct (encode_coin_file file) as [encoded|error] eqn:Eenc; [|injection E as <- <-; by eapply Hstop].
  set (path := path_join dir _) in *. unfold mbind, st_bind, st_try in E.
  destruct (write_new_synced_file env path encoded c) as [w c1] eqn:Ew. apply write_new_spec in Ew.
  destruct w as [[]|error]; [|injection E as <- <-; by eapply Hstop]. destruct Ew as [Hfresh Hc1].
  apply IH in E as (result & written & -> & Hnd & Hnew & Hfiles & Hok). exists result, ((path, encoded) :: written).
  destruct c1 as [files1 asked1]; cbn in Hc1, Hnew, Hfiles; subst files1. split_and!.
  - cbn. by rewrite <- app_assoc.
  - cbn. constructor; [|done]. intros Hin. rewrite Forall_forall in Hnew. specialize (Hnew _ Hin).
    by rewrite lookup_insert_eq in Hnew.
  - cbn. constructor; [done|]. eapply Forall_impl; [exact Hnew|]. cbn. intros p Hp.
    apply lookup_insert_None in Hp as [Hp _]. done.
  - rewrite Hfiles, list_to_map_cons, <- insert_union_l, insert_union_r; [done|].
    apply not_elem_of_list_to_map_1. intros Hin. rewrite Forall_forall in Hnew. specialize (Hnew _ Hin).
    by rewrite lookup_insert_eq in Hnew.
  - intros Hres. constructor; [|by apply Hok]. by exists file.
Qed.

Lemma drop_run tracked c :
  exists k, drop_cash_files env tracked c =
    (Ok tt, {| cli_files := fold_left (fun f p => delete p f) tracked (cli_files c); cli_asked := k |}).
Proof.
  unfold drop_cash_files. revert c. induction tracked as [|p tracked IH]; intros c; cbn [st_for fold_left].
  { exists (cli_asked c). by destruct c. }
  unfold mbind, st_bind. rewrite remove_run. apply IH.
Qed.
Lemma deleted_written written (files : gmap string bytes) :
  NoDup written.*1 -> Forall (fun p => files !! p = None) written.*1 ->
  fold_left (fun f p => delete p f) written.*1 (list_to_map written ∪ files) = files.
Proof.
  induction written as [|[p b] written IH]; intros Hnd Hfresh; cbn [fmap list_fmap fst fold_left] in *;
    [by rewrite list_to_map_nil, (left_id_L ∅ (∪))|rewrite list_to_map_cons].
  apply NoDup_cons in Hnd as [Hp Hnd]. apply Forall_cons in Hfresh as [Hf Hfresh].
  rewrite <- insert_union_l, delete_insert_id; [by apply IH|]. apply lookup_union_None. split; [|done].
  by apply not_elem_of_list_to_map_1.
Qed.
Lemma exchange_files addr request : st_keeps cli_files (rpc_exchange env addr request).
Proof. intros files. unfold rpc_exchange. st_steps ltac:(intros c Hc; exact Hc). Qed.

End files.
