(* ===== verification/NetworkExamples.v ===== *)
(** Two toy nodes talking to each other: the network theorems evaluated. *)
From Stdlib Require Import ZArith Lia.
From stdpp Require Import base numbers option strings list sets gmap relations.
From S2P Require Import Prelude BTree PaqusCore Toy Mempool MempoolInv Compact Recovery Lmdb Storage.
From S2P Require Import StorageExamples Cache NodeState Node NodeOrphans NodeMempool NodeExamples.
From S2P Require Import Message Handler HandlerSpec Sync SyncSpec SyncHonest SyncPlan SyncParallel Snapshot.
Open Scope Z_scope.

Module NetworkToy.
Import Toy StorageToy NodeToy CompactExamples.

Definition idle : NetworkMetrics := metrics_new.
(** The holder of [mined], and a node whose pool has the first of its two transactions. *)
Definition holder : Node := (apply_block clock mined fresh).2.
Definition listener : Node := (submit_protocol_transaction clock t1 fresh).2.
Definition talk : list NetworkMessage :=
  [MsgBlock b2; GetTip; MsgTransaction pay; Inventory [InvBlock a1_hash]; MsgBlock b1].

Lemma listener_wf : mempool_wf (mempool listener).
Proof. exact (submit_lawful clock t1 fresh (new_node_lawful _ _ _ _ _ fresh_eq)). Qed.
Lemma listener_pool : pool_transactions (mempool listener) = [t1].
Proof. vm_compute. reflexivity. Qed.
Lemma holder_has : block_by_hash (cache holder) mined_hash = Some mined.
Proof. vm_compute. reflexivity. Qed.
Lemma listener_lacks : block_by_hash (cache listener) mined_hash = None.
Proof. vm_compute. reflexivity. Qed.
Lemma listener_no_collision :
  no_collision mined_hash (pool_transactions (mempool listener)) (block_transactions mined).
Proof. rewrite listener_pool, <- pool_is. exact no_collisions. Qed.
Lemma compact_eq : from_block mined = Ok compact.
Proof. vm_compute. reflexivity. Qed.
End NetworkToy.

Module NetworkWitnesses.
Import Toy StorageToy NodeToy CompactExamples NetworkToy.
#[local] Opaque fresh holder listener on_a1 mined compact mined_hash pay a1 b1 b2 a1_hash.

Lemma conversation_keeps_node_witness :
  pool_wf (converse clock talk (fresh, idle)).1 /\
  mempool_wf (mempool (converse clock talk (fresh, idle)).1).
Proof. exact (conversation_keeps_node clock _ _ _ _ fresh idle talk fresh_eq). Defined.

Lemma questions_change_nothing_witness :
  asks (GetSnapshotChunk 0 zero_hash 0 10) = true /\
  (handle_message clock (GetSnapshotChunk 0 zero_hash 0 10) (holder, idle)).2.2 = idle.
Proof.
  split; [reflexivity|].
  exact (proj1 (questions_change_nothing clock (GetSnapshotChunk 0 zero_hash 0 10) (holder, idle) eq_refl)).
Defined.

Lemma ranges_answered_exactly_witness :
  exists blocks, range_exact (ledger_block (ledger holder)) 0 1000 blocks /\
    handle_message clock (GetBlocksByHeightRange 0 1000) (holder, idle) =
      (Ok (Some (MsgBlocks blocks)), (holder, idle)).
Proof.
  refine (proj1 (ranges_answered_exactly clock 0 1000 (holder, idle) _ _)); [|lia].
  unfold U64_MAX. lia.
Defined.

Lemma reconciliation_exact_witness :
  exists missing, handle_message clock (ReconcileMempool 3 [5; 7]) (listener, idle) =
      (Ok (Some (MsgTransactions missing)), (listener, idle)) /\
    forall tx, tx ∈ missing <->
      tx ∈ pool_transactions (mempool listener) /\ unknown_in_bucket 3 [5; 7] tx.
Proof.
  refine (reconciliation_exact clock 3 [5; 7] (listener, idle) _ _ listener_wf).
  - repeat constructor; set_solver.
  - vm_compute. discriminate.
Defined.

Lemma compact_relay_protocol_witness :
  is_Some (block_by_hash (cache holder) mined_hash) /\
  (handle_message clock (MsgCompactBlock compact) (listener, idle) =
     apply_and_finish clock (zero_nonce mined) (listener, idle) \/
   exists indexes txs receiver' staged,
    handle_message clock (MsgCompactBlock compact) (listener, idle) =
      (Ok (Some (GetCompactBlockTransactions mined_hash indexes)), receiver') /\
    (forall i, i ∈ indexes <-> exists (j : nat) tx, i = Z.of_nat j /\
      block_transactions mined !! j = Some tx /\ tx ∉ pool_transactions (mempool listener)) /\
    handle_message clock (GetCompactBlockTransactions mined_hash indexes) (holder, idle) =
      (Ok (Some (CompactBlockTransactions mined_hash txs)), (holder, idle)) /\
    handle_message clock (CompactBlockTransactions mined_hash txs) receiver' =
      apply_and_finish clock (zero_nonce mined) (set_pending_compact_blocks staged listener, idle)).
Proof.
  split; [exact (ex_intro _ mined holder_has)|].
  refine (compact_relay_protocol clock (holder, idle) (listener, idle) mined compact mined_hash
    compact_eq _ _ holder_has listener_lacks listener_wf listener_no_collision).
  - vm_compute. reflexivity.
  - vm_compute. discriminate.
Defined.
End NetworkWitnesses.

Module SyncToy.
Import Toy StorageToy NodeToy CompactExamples NetworkToy.

(** A local node connected to a remote one that answers every request at once. *)
Record Pair := { far : Node * NetworkMetrics; near : Node }.
Definition set_far (s : Node * NetworkMetrics) (w : Pair) : Pair := {| far := s; near := near w |}.
Definition set_near (n : Node) (w : Pair) : Pair := {| far := far w; near := n |}.
#[global] Instance pair_world : PeerWorld Pair := {
  peer_request m w :=
    let s := handle_message clock m (far w) in
    (match s.1 with
     | Ok (Some r) => Ok r
     | Ok None => Err "peer request timed out"
     | Err _ => Err "read failed"
     end, set_far s.2 w);
  peer_send m w := (Ok tt, set_far (handle_message clock m (far w)).2 w);
  peer_addr _ := "10.0.0.1:9000";
  peer_connect _ := mret tt;
  peer_handshaken _ := true;
  peer_mark_handshaken w := w;
  peer_attach_node w := w;
  peer_next_id := mret 1;
  shutdown_requested := mret false;
  instant_now := mret 0;
  unix_now := mret 60;
  with_node A m w := (Ok (m (near w)).1, set_near (m (near w)).2 w);
  run_threads A := run_in_turn
}.
#[global] Instance pair_honest : HonestPeer clock Pair far.
Proof.
  split.
  - intros m w r s' Hm. exists (set_far s' w). unfold peer_request. cbn [pair_world]. by rewrite Hm.
  - intros w. by exists w.
Qed.

(** A local node connected to a peer that has no block at all. *)
Record Deserted := { alone : Node }.
#[global] Instance deserted_world : PeerWorld Deserted := {
  peer_request m w := (Ok (Reject InvalidMessage "block not found"), w);
  peer_send m w := (Ok tt, w);
  peer_addr _ := "10.0.0.2:9000";
  peer_connect _ := mret tt;
  peer_handshaken _ := true;
  peer_mark_handshaken w := w;
  peer_attach_node w := w;
  peer_next_id := mret 1;
  shutdown_requested := mret false;
  instant_now := mret 0;
  unix_now := mret 60;
  with_node A m w := (Ok (m (alone w)).1, {| alone := (m (alone w)).2 |});
  run_threads A := run_in_turn
}.

(** The remote node has two blocks more than the local one. *)
Definition tall : Node := (apply_block clock b2 (apply_block clock b1 fresh).2).2.
Definition pair : Pair := {| far := (tall, idle); near := fresh |}.
Definition tall_tip : TipInfo :=
  match local_tip tall with Some t => t | None => {| ti_height := 0; ti_hash := []; ti_work := [] |} end.
Definition tall_snapshot : bytes := match (snapshot_bytes tall).1 with Ok raw => raw | Err _ => [] end.
(** Two orphans with different parents wait. *)
Definition a2 : Block := next_block (extend ledger0 a1) [].
Definition b1_hash : BlockHash := hash32 (ser (header b1 : Header)).
Definition two_waiting : Node := (apply_block clock a2 waiting).2.

Lemma pair_indexed {A} (P : nat -> A -> Prop) x y :
  P 0%nat x -> P 1%nat y -> forall i z, [x; y] !! i = Some z -> P i z.
Proof. intros Hx Hy [|[|i]] z; [by intros [= <-]..|done]. Qed.
Lemma tall_chain :
  remote_chain (ledger tall) 1 2 (GENESIS_HASH : BlockHash) [b1; b2].
Proof.
  split; [reflexivity|]. split.
  - cbn [map linked]. split; [vm_compute; reflexivity|]. split; [vm_compute; reflexivity|].
    exists b1_hash. split; [vm_compute; reflexivity|]. split; [vm_compute; reflexivity|].
    split; [vm_compute; reflexivity|]. eexists. split; [vm_compute; reflexivity|exact I].
  - split; [|split].
    + refine (pair_indexed (fun i b => ledger_block (ledger tall) (1 + Z.of_nat i) = Some b) b1 b2 _ _);
        vm_compute; reflexivity.
    + refine (pair_indexed (fun i h => chain_header (ledger tall) (1 + Z.of_nat i) = Some h) _ _ _ _);
        vm_compute; reflexivity.
    + refine (pair_indexed (fun i b => block_height b = 1 + Z.of_nat i) b1 b2 _ _); vm_compute; reflexivity.
Qed.
Lemma tall_serves : serves (tall, idle) (ti_height tall_tip) (ti_hash tall_tip) tall_snapshot.
Proof.
  split; [vm_compute; reflexivity|].
  assert (Hok : (snapshot_bytes tall).1 = Ok tall_snapshot) by (vm_compute; reflexivity).
  exists (snapshot_bytes tall).2. cbn [fst]. rewrite <- Hok. exact (surjective_pairing _).
Qed.
Lemma two_waiting_wf : pool_wf two_waiting.
Proof. exact (node_step_pool clock _ _ (step_apply clock a2 waiting) waiting_wf). Qed.
Lemma two_drained :
  (drain_missing_parent_requests clock two_waiting).1 = Ok [b1_hash; a1_hash].
Proof. vm_compute. reflexivity. Qed.
Lemma fresh_complete : complete_chain (ledger tall) 2.
Proof.
  split; [unfold U64_MAX; lia|]. split; [vm_compute; reflexivity|]. intros height Hh.
  assert (height = 0 \/ height = 1 \/ height = 2) as [->|[->| ->]] by lia;
    eexists _, _; (split; [vm_compute; reflexivity|vm_compute; reflexivity]).
Qed.
End SyncToy.

Module SyncWitnesses.
Import Toy StorageToy NodeToy CompactExamples NetworkToy SyncToy.
#[local] Opaque fresh tall pair b1 b2 a1 a2 a1_hash b1_hash two_waiting tall_snapshot.

Lemma honest_sync_complete_witness :
  exists w1 w2, request_headers 1 2 GENESIS_HASH pair = (Ok (map header [b1; b2]), w1) /\
    fetch_blocks 1 2 (map header [b1; b2]) w1 = (Ok [b1; b2], w2) /\ far w2 = far pair.
Proof. exact (honest_sync_complete clock far 1 2 GENESIS_HASH [b1; b2] pair ltac:(lia) eq_refl tall_chain). Defined.

Lemma honest_snapshot_download_witness :
  exists w', download_snapshot tall_tip pair = (Ok tall_snapshot, w').
Proof.
  refine (honest_snapshot_download clock far tall_tip tall_snapshot pair tall_serves _).
  vm_compute. split; [reflexivity|discriminate].
Defined.

Definition got_headers : list BlockHeader :=
  match (request_headers 1 2 GENESIS_HASH pair).1 with Ok hs => hs | Err _ => [] end.

Lemma blocks_match_headers_witness :
  (fetch_blocks 1 2 (map header [b1; b2]) pair).1 = Ok [b1; b2] /\ map header [b1; b2] = take 2 (map header [b1; b2]).
Proof.
  assert (Hr : (fetch_blocks 1 2 (map header [b1; b2]) pair).1 = Ok [b1; b2]) by (vm_compute; reflexivity).
  split; [exact Hr|].
  refine (proj1 (blocks_match_headers 1 2 (map header [b1; b2]) pair [b1; b2]
    (fetch_blocks 1 2 (map header [b1; b2]) pair).2 _ eq_refl _)).
  - unfold U64_MAX. lia.
  - rewrite <- Hr. exact (surjective_pairing _).
Defined.

Lemma download_loops_end_witness :
  request_headers_loop (range_fuel 1 2 + 7) 2 1 GENESIS_HASH [] pair = request_headers 1 2 GENESIS_HASH pair.
Proof.
  refine (proj1 (download_loops_end 1 2 GENESIS_HASH [] 7 pair _ eq_refl)). unfold U64_MAX. lia.
Defined.

Lemma locator_spans_chain_witness :
  exists locator tip_ genesis, ledger_locator (ledger tall) = Ok locator /\
    hash_at (ledger tall) 2 tip_ /\ head locator = Some tip_ /\
    hash_at (ledger tall) 0 genesis /\ last locator = Some genesis /\ zlen locator <= 33.
Proof.
  destruct (locator_spans_chain (ledger tall) 2 fresh_complete)
    as (locator & tip_ & genesis & H1 & H2 & H3 & H4 & H5 & H6 & _).
  exists locator, tip_, genesis. exact (conj H1 (conj H2 (conj H3 (conj H4 (conj H5 H6))))).
Defined.

Lemma parallel_plan_partitions_witness :
  exists ranges, plan_parallel_ranges 1 2 (map header [b1; b2]) [("10.0.0.1:9000", tall_tip)] = Some ranges.
Proof.
  destruct (parallel_plan_partitions 1 2 (map header [b1; b2]) [("10.0.0.1:9000", tall_tip)])
    as (ranges & Hr & _).
  - lia.
  - reflexivity.
  - vm_compute. discriminate.
  - exists ranges. exact Hr.
Defined.

#[local] Instance pair_threads : Threads (W := Pair).
Proof. intros A tasks w outcomes w'. apply run_in_turn_outcomes. Qed.
Definition far_peers : list (string * TipInfo) := [("10.0.0.1:9000", tall_tip)].
Definition ranges_synced : Result string ParallelSyncReport * Pair :=
  sync_ranges clock 1 2 (map header [b1; b2]) far_peers [] 2 pair.
Definition two_synced : ParallelSyncReport := {|
  ps_remote_tip := 2; ps_applied_blocks := 2; ps_used_peers := 1;
  ps_used_peer_addrs := ["10.0.0.1:9000"]; ps_failed_peer_addrs := [] |}.
Lemma parallel_sync_in_order_witness :
  (ps_applied_blocks two_synced = 0 /\ ranges_synced.2 = pair /\
    forall c, c ∈ far_peers -> ti_height c.2 < 2) \/
  exists bs w1, map header bs = map header [b1; b2] /\ ps_applied_blocks two_synced = 2 - 1 + 1 /\
    apply_downloaded clock bs 1 0 w1 = (Ok (2 + 1, 2 - 1 + 1), ranges_synced.2).
Proof.
  assert (Hr : ranges_synced.1 = Ok two_synced) by (vm_compute; reflexivity).
  refine (parallel_sync_in_order clock 1 2 (map header [b1; b2]) far_peers [] 2 pair two_synced
    ranges_synced.2 ltac:(lia) eq_refl _ _).
  - vm_compute. reflexivity.
  - rewrite <- Hr. exact (surjective_pairing _).
Defined.

Lemma missing_parents_dropped_witness :
  exists r w', request_missing_parent_blocks clock {| alone := two_waiting |} = (r, w') /\
    a1_hash ∈ missing_parent_requests two_waiting /\ a1_hash ∉ missing_parent_requests (alone w').
Proof.
  refine (missing_parents_dropped clock alone _ _ b1_hash [a1_hash] a1_hash {| alone := two_waiting |}
    two_waiting_wf two_drained _).
  - intros A m w. eexists. split; reflexivity.
  - intros hash w. eexists _, _, w. split; reflexivity.
  - apply list_elem_of_here.
Defined.
End SyncWitnesses.
