(* ===== verification/ConnectionExamples.v ===== *)
(** A toy connection: its theorems evaluated. *)
From Stdlib Require Import ZArith Lia.
From stdpp Require Import base numbers option strings list sets gmap relations.
From S2P Require Import Prelude BTree PaqusCore Toy Mempool MempoolInv Compact Recovery Lmdb Storage.
From S2P Require Import StorageExamples Cache NodeState Node NodeOrphans NodeMempool NodeExamples.
From S2P Require Import Message Transport Handler HandlerSpec Peer Sync Connection ConnectionSpec.
From S2P Require Import ReaderSpec Session.
Open Scope Z_scope.

Module ConnectionToy.
Import Toy StorageToy NodeToy TransportExamples.

(** Nothing disturbs the connection; dialling again fails. *)
Definition quiet : Environment bytes := {|
  env_instant _ := 0; env_unix _ := 60; env_stop _ := false; env_poisoned _ := false;
  env_others _ n := n; env_dial _ _ := Err "connect failed: refused"
|}.
Definition line (events : list Recv) : World bytes := {|
  connection := {| pc_addr := "10.0.0.1:9000"; pc_handshaken := true; pc_request_ids := 1;
    pc_routed := true; pc_pending := ∅; pc_attached := true;
    pc_window := {| request_window_started := 0; request_count := 0 |} |};
  outgoing := []; incoming := []; channel := events; shared_node := fresh;
  counters := metrics_new; readings := 0
|}.
(** A quiet moment, a ping of the peer, a response nobody asked for, and the response. *)
Definition mixed : World bytes := line
  [RecvTimeout; Routed (envelope_request 7 (Ping 5)); Routed (envelope_response 5 (Pong 1));
   Routed (envelope_response 1 (Pong 9))].
(** The peer announces a block before it answers the ping of the poll. *)
Definition announcing : World bytes := line
  [Routed (envelope_new (MsgBlock b1)); Routed (envelope_response 2 (Pong 1))].

Lemma mixed_answer : (request clock quiet (Ping 9) mixed).1 = Ok (Pong 9).
Proof. vm_compute. reflexivity. Qed.
Lemma announced_block_applied :
  Node.tip_height (shared_node (session clock quiet [] [Poll 64; SyncMempool] announcing)) = Some 1.
Proof. vm_compute. reflexivity. Qed.
End ConnectionToy.

Module ConnectionWitnesses.
Import Toy StorageToy NodeToy TransportExamples ConnectionToy.
#[local] Opaque fresh b1.

Lemma response_correlated_witness :
  pc_pending (connection mixed) !! 1 = Some (Pong 9) \/
  exists e, Routed e ∈ channel mixed /\ response_to e = 1 /\ message e = Pong 9.
Proof.
  refine (response_correlated clock quiet (Ping 9) mixed (Pong 9) (request clock quiet (Ping 9) mixed).2 eq_refl _).
  rewrite <- mixed_answer. apply surjective_pairing.
Defined.


Definition pong : NetworkEnvelope := envelope_response 9 (Pong 1234).
Definition both_written : bytes := (write_all_messages [ping; pong] ([], metrics_new)).2.1.
Definition both_pieces : list ReadEvent :=
  [Arrives (take 3 both_written); Breaks {| io_kind := Interrupted; io_text := "" |};
   Arrives (drop 3 both_written)].

(** The frame of [ping] with a pause after its sixth byte: nothing is delivered. *)
Definition timeout : IoError := {| io_kind := TimedOut; io_text := "timed out" |}.
Definition paused : list ReadEvent := [Arrives (take 6 written); Breaks timeout; Arrives (drop 6 written)].
Lemma paused_delivers_nothing : peer_reader (fun _ => false) paused metrics_new = [].
Proof. vm_compute. reflexivity. Qed.
Lemma timeout_loses_frame_witness :
  peer_reader (fun _ => false) paused metrics_new =
  peer_reader (fun _ => false) [Arrives (drop 6 written)] metrics_new.
Proof.
  refine (timeout_loses_frame (drop 4 written) (take 6 written) (drop 6 written) timeout
    [Arrives (drop 6 written)] metrics_new (fun _ => false) _ _ _ _ _ _).
  - vm_compute. reflexivity.
  - vm_compute. discriminate.
  - vm_compute. discriminate.
  - vm_compute. discriminate.
  - left. reflexivity.
  - reflexivity.
Defined.
End ConnectionWitnesses.
