(* ===== verification/ServiceExamples.v ===== *)
(** A toy service: the theorems on the peer file, on the turns of the service and on inbound peers
    evaluated. *)
From Stdlib Require Import ZArith Lia Ascii.
From stdpp Require Import base numbers option strings list sets gmap relations countable.
From S2P Require Import Prelude BTree PaqusCore Toy Mempool MempoolInv Compact Recovery Lmdb Storage Net.
From S2P Require Import StorageExamples Cache NodeState Node NodeOrphans NodeMempool NodeExamples.
From S2P Require Import Message Transport Handler HandlerSpec Peer Sync Connection ConnectionSpec.
From S2P Require Import Config ConfigSpec PeerFile Service ServiceSpec ConnectionExamples.
Open Scope Z_scope.

Module ServiceToy.
Import Toy StorageToy NodeToy TransportExamples ConnectionToy ConfigExamples.

(** The cache as a brace and a binary number. *)
Abbreviation RawPeer := (string * Z * Z * option Z * option Z * option Z)%type.
Definition to_raw_peer (p : CachedPeer) : RawPeer :=
  (cached_address p, cached_score p, cached_failures p, last_seen_unix p, last_success_unix p, latency_ms p).
Definition of_raw_peer (r : RawPeer) : CachedPeer :=
  let '(a, s, f, l, o, m) := r in
  {| cached_address := a; cached_score := s; cached_failures := f; last_seen_unix := l;
     last_success_unix := o; latency_ms := m |}.
#[global] Instance toy_cache : PeerCacheJson := {
  cache_to_json ps := Ok (String "{"%char (show_bits (countable.encode (map to_raw_peer ps))));
  cache_from_json s :=
    match s with
    | String _ s => ok_or (parse_bits s ≫= fun p => rs ← countable.decode (A := list RawPeer) p; Some (map of_raw_peer rs)) "expected value"
    | EmptyString => Err "EOF while parsing a value"
    end
}.
#[global] Instance toy_cache_laws : PeerCacheLaws.
Proof.
  split; intros cache contents [= <-]; [|done]. unfold cache_from_json, toy_cache.
  rewrite parse_show_bits. cbn [mbind option_bind]. rewrite decode_encode. cbn. f_equal.
  rewrite map_map. rewrite <- (map_id cache) at 2. apply map_ext. by intros [].
Qed.

Definition peer_a : SocketAddr := {| ip := V4 10 0 0 2; port := 7002 |}.
Definition peer_b : SocketAddr := {| ip := V4 10 0 0 3; port := 7003 |}.
Definition peer_c : SocketAddr := {| ip := V4 10 0 0 4; port := 7004 |}.
Definition config : RunConfig :=
  ltac:(let c := eval vm_compute in parsed_config in match c with Some ?x => exact x end).

(** Two good peers, one of them slower, a banned one and the node itself. *)
Definition table : gmap SocketAddr PeerState :=
  {[peer_a := peer_new peer_a 0 0; peer_b := set_latency 40 0 (peer_new peer_b 0 0);
    peer_c := Nat.iter 8 (mark_failed 0 0 0) (peer_new peer_c 0 0); near := peer_new near 0 0]}.
Definition calm : ServiceEnv (Ch := bytes) := {|
  se_world := quiet; se_wall _ := 60000; se_poisoned _ _ := false; se_others _ t := t; se_accept _ := [];
  se_order _ l := l; se_configure _ := Ok tt; se_write _ := Ok tt
|}.
Definition idle : Link (Ch := bytes) := {|
  link_connection := connection_new "" false 0; link_outgoing := []; link_incoming := []; link_channel := [] |}.
Definition start : Service (Ch := bytes) := {|
  sv_node := fresh; sv_counters := metrics_new; sv_readings := 0;
  sv_tables := {| t_peers := table; t_outbound := ∅; t_inbound := ∅ |}; sv_spawned := []; sv_file := None
|}.
(** A peer asks, is silent for a moment and asks again. *)
Definition asking : bytes * list ReadEvent :=
  ([], [Arrives written; Breaks {| io_kind := TimedOut; io_text := "timed out" |}; Arrives written]).

Lemma failed_wf n p : peer_wf p -> peer_wf (Nat.iter n (mark_failed 0 0 0) p).
Proof. intros Hp. induction n as [|n IH]; [done|]. eapply peer_step_wf; [constructor|exact IH]. Qed.
Lemma table_wf : peer_table_wf table.
Proof.
  unfold table. apply peer_table_insert; [reflexivity|apply peer_new_wf|].
  apply peer_table_insert; [reflexivity|eapply peer_step_wf; [constructor|apply peer_new_wf]|].
  apply peer_table_insert; [reflexivity|apply failed_wf, peer_new_wf|].
  apply map_Forall_singleton. split; [reflexivity|apply peer_new_wf].
Qed.

(** The first question is answered, the one after the silence is not. *)
Definition one_answer : bytes :=
  (write_message (W := bytes) (envelope_response 9 (Pong 1234)) ([], metrics_new)).2.1.
Lemma inbound_answers :
  (inbound_peer clock calm idle [near] peer_a asking start).1 =
    Ok (Some {| link_connection := link_connection idle; link_outgoing := one_answer;
                link_incoming := [Arrives written]; link_channel := [] |}).
Proof. vm_compute. reflexivity. Qed.
(** A turn in which nobody can be reached. *)
Lemma turn_fails_peers :
  option_map failures (t_peers (sv_tables (service_network_once clock calm idle config start).2) !! peer_b) = Some 1.
Proof. vm_compute. reflexivity. Qed.
End ServiceToy.

Module ServiceWitnesses.
Import Toy StorageToy NodeToy TransportExamples ConnectionToy ConfigExamples ServiceToy.
#[local] Opaque fresh b1.

Definition saved : list PeerState := [peer_new peer_a 0 0; Nat.iter 8 (mark_failed 0 0 0) (peer_new peer_c 0 0); peer_new peer_b 0 0].
Definition saved_text : string :=
  match peer_states_json "peers.json" (fun _ => 0) saved with Ok text => text | Err _ => "" end.
Lemma peers_file_roundtrip_witness :
  load_peers_file (fun _ => Ok saved_text) "peers.json" = Ok [peer_a; peer_b].
Proof.
  refine (peers_file_roundtrip "peers.json" (fun _ => 0) saved saved_text (fun _ => Ok saved_text) _ _).
  - reflexivity.
  - reflexivity.
Defined.

Lemma service_keeps_node_witness :
  let after := fold_left (service_act clock calm idle)
    [InboundPeer [near] peer_a asking; Turn config; InboundPeer [near] peer_b ([], [])] start in
  pool_wf (sv_node after) /\ mempool_wf (mempool (sv_node after)) /\ peer_table_wf (t_peers (sv_tables after)).
Proof.
  refine (service_keeps_node clock calm idle _ _ _ _ fresh _ start _ _ fresh_eq _ _).
  - intros t n. apply rtc_refl.
  - intros k t Ht. exact Ht.
  - apply rtc_refl.
  - exact table_wf.
Defined.

Lemma inbound_ends_at_silence_witness :
  exists ol, (inbound_peer clock calm idle [near] peer_a asking start).1 = Ok ol /\
    forall l, ol = Some l -> exists unread, link_incoming l = unread ++ [Arrives written].
Proof.
  refine (inbound_ends_at_silence clock calm idle [near] peer_a [] [Arrives written]
    {| io_kind := TimedOut; io_text := "timed out" |} [Arrives written] start _).
  discriminate.
Defined.

Lemma chosen : (choose_peers calm config start).1 = Ok [peer_b].
Proof. vm_compute. reflexivity. Qed.
Lemma chosen_peers_best_witness :
  let table := t_peers (sv_tables (choose_peers calm config start).2) in
  NoDup [peer_b] /\ zlen [peer_b] <= Z.max 0 (max_peers config) /\
  Forall (fun a => table !! a = None) (self_addrs config) /\
  forall a, a ∈ [peer_b] -> exists p, table !! a = Some p /\
    (exists k, is_banned (env_instant (se_world calm) k) p = false) /\
    forall b q, table !! b = Some q -> b ∉ [peer_b] ->
      (exists k, is_banned (env_instant (se_world calm) k) q = true) \/ compare_peers p q <> Gt.
Proof.
  refine (chosen_peers_best calm (fun k l => Permutation_refl l) config start [peer_b] _ _ table_wf _).
  - intros k t Ht. exact Ht.
  - rewrite <- chosen. apply surjective_pairing.
Defined.
End ServiceWitnesses.
