(* ===== verification/WalletCliExamples.v ===== *)
(** A toy wallet on the command line: a node that answers everything, a transfer, a mistyped
    password and two coins. *)
From Stdlib Require Import ZArith Lia Ascii.
From stdpp Require Import base numbers option strings list gmap pretty countable.
From S2P Require Import Prelude BTree PaqusCore Toy Net Mempool Transport Handler Connection Config ConfigSpec PeerFile.
From S2P Require Import RpcAccess Http Compact Recovery Lmdb Storage StorageExamples Cache Miner NodeState Node NodeExamples.
From S2P Require Import Rpc RpcRead RpcExamples WalletCore WalletSpec WalletAmount WalletCli WalletTransfer WalletTransferSpec.
From S2P Require Import WalletCash WalletCashSpec.
Open Scope Z_scope.

Module CliToy.
Import Toy StorageToy NodeToy ConfigExamples WalletExamples.

#[global] Instance coin_units : CoinUnits.
Proof. refine {| XPQ_units := 100000000; DECIMALS := 8 |}; [lia|reflexivity]. Defined.

(** Numbers as bits, one to a byte. *)
Fixpoint bits (p : positive) : bytes :=
  match p with xH => [] | xO p => 0 :: bits p | xI p => 1 :: bits p end.
Fixpoint of_bits (l : bytes) : positive :=
  match l with [] => xH | 0 :: l => xO (of_bits l) | _ :: l => xI (of_bits l) end.
Lemma of_bits_law p : of_bits (bits p) = p.
Proof. induction p as [p IH|p IH|]; cbn; congruence. Qed.
Lemma bits_bytes p : Forall is_byte (bits p).
Proof. induction p; cbn; repeat constructor; try done; unfold is_byte; lia. Qed.
Definition batch_bytes (t : Batch) : bytes := bits (countable.encode (ser t)).
Definition batch_of_bytes (b : bytes) : Result string Batch :=
  ok_or (l ← countable.decode (A := list Z) (of_bits b); Toy.parse l) "invalid".
Lemma batch_bytes_law t : batch_of_bytes (batch_bytes t) = Ok t.
Proof. unfold batch_of_bytes, batch_bytes. rewrite of_bits_law, decode_encode. cbn [mbind option_bind]. by rewrite parse_ser. Qed.

#[global] Instance cli_rpc_ops : RpcOps := {
  address_to_string _ := "address"; address_error _ := "invalid";
  batch_from_slice raw := batch_of_bytes raw; qcash_from_slice _ := Err "invalid"; protocol_from_slice _ := Err "invalid";
  batch_hash t := tx_hash (BatchTransfer t); qcash_hash t := tx_hash (QCash t);
  Transfer := Batch;
  Transfer_new a os := {| b_from := a; b_outputs := os; b_state := []; b_expiry := 0 |};
  with_last_state h t := {| b_from := b_from t; b_outputs := b_outputs t; b_state := h; b_expiry := b_expiry t |};
  signing_bytes t := Ok (batch_bytes t); transfer_validate t := Ok tt; transaction_bytes t := Ok (batch_bytes t);
  transfer_total_amount t := Ok (Toy.total t); MAX_BATCH_OUTPUTS := 16; sign _ _ := [];
  new_authorized t _ _ _ _ := t; XPQ := 1; FAUCET_MAX_REQUEST := 1000;
  faucet_keypairs := ({| public_key := alice; secret_key_bytes := [] |}, {| public_key := alice; secret_key_bytes := [] |});
  bundle_bytes _ := Ok []
}.
#[global] Instance cli_sign : Signable Batch Batch := {
  WalletCore.to_sign t := Ok (batch_bytes t); stored_authorized t _ _ := t; fully_authorized t _ _ _ _ := t;
  validate_stored_keys _ _ _ _ := Ok tt; validate_signed _ := Ok tt
}.

(** A payment of ten units with the fee of six the node's rate asks for. *)
Definition payment : list TransferOutput := [{| to := ToAddress bob; amount := 10 |}].
Definition fee_output : TransferOutput := {| to := BlockMiner; amount := 6 |}.
Definition node_draft : Batch :=
  {| b_from := wallet_addr purse; b_outputs := payment ++ [fee_output]; b_state := [7]; b_expiry := 0 |}.
#[global] Instance cli_ops : CliOps := {
  hex_error _ := "invalid digit"; HASH_SIZE := 1;
  transfer_from t := b_from t; transfer_outputs t := b_outputs t; transfer_last_state t := b_state t;
  transfer_of_bytes := batch_of_bytes; signed_transfer_bytes t := Ok (batch_bytes t);
  signed_transfer_hash t := Ok (ser t); signed_transfer_size _ := Ok 3; signed_transfer t := t;
  json_parse _ := Ok (JObject [("dynamic_market_fee_rate", JNumber (Some 2)); ("accepted", JBool true); ("height", JNumber (Some 9)); ("bundle", JString "00")]);
  balance_from_json _ := Ok {| balance_statement := None; balance_registered := true; balance_pending_outgoing := 0 |};
  basis_from_json _ := Ok {| basis_last_state := "07"; basis_pending_outgoing := 0; basis_pending_hashes := [] |};
  draft_from_json _ := Ok {| d_transaction := hex_encode (batch_bytes node_draft);
    d_signing_bytes := hex_encode (batch_bytes node_draft); d_last_state := "07"; d_registered := true |};
  draft_request_json _ _ := Ok "{}"
}.
#[global] Instance transfer_laws : TransferLaws.
Proof.
  split; try reflexivity. intros t b [= <-]. split; [apply bits_bytes|apply batch_bytes_law].
Qed.

Definition cli_env : CliEnv := {|
  ce_http _ _ _ := Ok [Arrives (as_bytes ("HTTP/1.1 200 OK" +:+ CRLF +:+ CRLF +:+ "{}"))];
  ce_password _ := Ok (String (ascii_of_N 5) ""); ce_random _ n := Ok (replicate (Z.to_nat n) 0);
  ce_read _ := None; ce_open _ := None; ce_write _ := None; ce_sync _ := None; ce_remove _ := None
|}.
Definition purse_raw : bytes := match wallet_file_bytes purse with Ok raw => raw | Err _ => [] end.
Definition cli : Cli := {| cli_files := {["wallet.json" := purse_raw]}; cli_asked := 0 |}.
Definition right_password : string := String (ascii_of_N 5) "".
Definition rpc_text : string := show_socket near.
Definition signing := sign_wallet_outputs cli_env "wallet.json" payment DEFAULT_TRANSACTION_FEE rpc_text
  (Some (InputPassword right_password)) cli.
Lemma signing_ok : signing.1 = Ok node_draft.
Proof. vm_compute. reflexivity. Qed.
End CliToy.

Module CliWitnesses.
Import Toy StorageToy NodeToy ConfigExamples WalletExamples CliToy.

Lemma signed_what_was_asked_witness : exists w added,
  (load_wallet cli_env "wallet.json" cli).1 = Ok w /\ b_outputs node_draft = payment ++ added.
Proof.
  assert (E : signing = (Ok node_draft, signing.2)) by (rewrite <- signing_ok; apply surjective_pairing).
  destruct (signed_what_was_asked cli_env "wallet.json" payment DEFAULT_TRANSACTION_FEE rpc_text
    (Some (InputPassword right_password)) cli _ _ E) as (w & added & Hw & _ & Ho & _).
  exists w, added. split; [exact Hw|exact Ho].
Defined.

Definition wrong_keys : AuthorizationKeys :=
  {| authorization_public_key := [120]; authorization_secret_key := [120] |}.
Definition broken_raw : bytes :=
  match wallet_file_bytes (set_authorization [120] (forget_authorization purse)) with Ok raw => raw | Err _ => [] end.
Lemma wrong_password_breaks_wallet_witness : exists w' c',
  resolve_authorization_for_wallet_file cli_env "wallet.json" (forget_authorization purse) (Some (InputPassword "x")) cli =
    (Ok (wrong_keys, w'), c') /\ is_ok (load_wallet cli_env "wallet.json" c').1 = false.
Proof.
  refine (wrong_password_breaks_wallet cli_env "wallet.json" (forget_authorization purse) cli purse_raw "x" wrong_keys
    broken_raw _ _ _ _ _ _ _).
  - intros k. repeat split.
  - reflexivity.
  - vm_compute. reflexivity.
  - vm_compute. reflexivity.
  - repeat constructor; discriminate.
  - vm_compute. discriminate.
  - vm_compute. reflexivity.
Defined.

Definition draft_request : DraftTransferRequest := {|
  draft_request_signer := "alice"; draft_outputs := [("bob", 7)]; fee_rate_per_byte := None; allow_pending := false |}.
Definition draft_output : list TransferOutput := [{| to := ToAddress bob; amount := 7 |}].
Definition drafted := draft_locked draft_request alice draft_output fresh.
Lemma drafted_ok : is_ok drafted = true.
Proof. vm_compute. reflexivity. Qed.
End CliWitnesses.

Module CashToy.
Import Toy StorageToy NodeToy ConfigExamples WalletExamples CliToy.

Definition value_of (d : QCashDenomination) : Z :=
  match d with
  | One => 1 | Two => 2 | Five => 5 | Ten => 10 | Twenty => 20 | Fifty => 50 | OneHundred => 100
  | FiveHundred => 500 | OneThousand => 1000 | FiveThousand => 5000 | TenThousand => 10000
  | FiftyThousand => 50000 | OneHundredThousand => 100000 | FiveHundredThousand => 500000 | OneMillion => 1000000
  end.
(** A coin file holds the coin's secret and is named by it. *)
#[global] Instance cash_ops : CashOps := {
  xpq := value_of; denomination_amount d := value_of d * 100000000; MAX_QCASH_WITHDRAWAL_OUTPUTS := 64;
  plan_automatic _ := Err "unsupported"; redeem_commitment secret := secret;
  CashOutput := QCashDenomination * bytes; CashMetadata := list (QCashDenomination * bytes);
  with_selected_denominations ds cs := Ok (zip ds cs); metadata_outputs m := m; output_denomination o := o.1;
  CashTransaction := Cash;
  cash_withdraw a v m := {| q_signer := a; q_state := []; q_kind := Withdraw v |};
  cash_with_last_state h t := {| q_signer := q_signer t; q_state := h; q_kind := q_kind t |}; cash_hash t := Ok (ser t); signed_cash_bytes t := Ok [];
  CoinFile := Hash * (QCashDenomination * bytes) * bytes;
  coin_file_new h o s := Ok (h, o, s); coin_file_name f d := hex_encode f.2 +:+ ".XPQ";
  encode_coin_file f := Ok f.2; decode_coin_file _ := Err "invalid"; redeem_from_files_at _ _ _ _ := Err "invalid"
}.
#[global] Instance denomination_laws : DenominationLaws.
Proof. split; [by intros []|reflexivity]. Qed.

Definition coins : list ((QCashDenomination * bytes) * bytes) := [((Ten, [1]), [1]); ((Five, [2]), [2])].
Definition withdrawal : Cash := {| q_signer := alice; q_state := []; q_kind := Withdraw 15 |}.
Definition issued := issue_cash cli_env "cash" [9] coins withdrawal rpc_text cli.
Lemma issued_ok : issued.1 = Ok ["cash/01.XPQ"; "cash/02.XPQ"].
Proof. vm_compute. reflexivity. Qed.
(** Two coins with one secret: the second file exists already, and the first one is removed again. *)
Lemma clash_leaves_nothing :
  cli_files (issue_cash cli_env "cash" [9] [((Ten, [1]), [1]); ((Five, [1]), [1])] withdrawal rpc_text cli).2 = cli_files cli.
Proof. vm_compute. reflexivity. Qed.
End CashToy.

Module CashWitnesses.
Import Toy StorageToy NodeToy ConfigExamples WalletExamples CliToy CashToy.

Definition planned : list QCashDenomination := [Ten; Two; Two].
Lemma withdrawal_plan_adds_up_witness :
  plan_withdrawal 1450000000 (Some (Allowed [Ten; Two])) = Ok (1400000000, 50000000, planned) /\
  worth planned = 1400000000.
Proof.
  assert (E : plan_withdrawal 1450000000 (Some (Allowed [Ten; Two])) = Ok (1400000000, 50000000, planned))
    by (vm_compute; reflexivity).
  split; [exact E|]. refine (proj1 (withdrawal_plan_adds_up 1450000000 _ _ _ _ _ E)). lia.
Defined.

End CashWitnesses.
