(* ===== verification/WalletProof.v ===== *)
(** State proofs and rollback proofs on the wallet's command line (commands.rs): the trusted
    checkpoint beside the wallet file, the proofs that move it forward, and the rollback commands.

    Checkpoints, header chains and proof bundles are checked by the paqus crate: class [ProofOps]. A
    command's result is what it shows; [print_rpc_response] shows any JSON and refuses anything
    else. [rename] says when [fs::rename] fails. *)
From Stdlib Require Import ZArith Lia Ascii.
From stdpp Require Import base numbers option strings list gmap pretty.
From S2P Require Import Prelude BTree PaqusCore Net Mempool Transport Handler Connection Config PeerFile RpcAccess Http.
From S2P Require Import Compact Recovery Lmdb Storage Cache Miner NodeState Node Rpc RpcRead WalletCore WalletSpec WalletAmount.
From S2P Require Import WalletCli WalletTransfer.
Open Scope Z_scope.

Record WalletCheckpointFile := {
  cf_version : Z; cf_height : Z; cf_block_hash : string; cf_checkpoint : string
}.
(** The three kinds of bundle the node sends *)
Inductive ProofKind := QCashProof | MembershipProof | AbsenceProof.
Record VerifiedRollbackProof := {
  rolled_transaction : Hash;
  rolled_disconnected_block : Hash;
  rolled_common_ancestor : Hash;
  rolled_losing_tip : Hash;
  rolled_canonical_tip : Hash
}.
Definition MAX_ROLLBACK_PROOF_BYTES : Z := 64 * 1024 * 1024.
Class ProofOps `{PaqusTypes} := {
  (** [TrustedHeaderCheckpoint] and its header *)
  Checkpoint : Type;
  checkpoint_header : Checkpoint -> BlockHeader;
  (** [header.hash()] and [header.height] *)
  proof_header_hash : BlockHeader -> Result string Hash;
  proof_header_height : BlockHeader -> Z;
  checkpoint_bytes : Checkpoint -> Result string bytes;
  checkpoint_of_bytes : bytes -> Result string Checkpoint;
  checkpoint_file_to_json : WalletCheckpointFile -> Result string bytes;
  checkpoint_file_from_json : bytes -> Result string WalletCheckpointFile;
  verify_header_chain_extension : Checkpoint -> list BlockHeader -> Result string unit;
  advance_trusted_header_checkpoint : Checkpoint -> list BlockHeader -> Result string Checkpoint;
  trusted_header_checkpoint : list BlockHeader -> Result string Checkpoint;
  ProofBundle : Type;
  decode_proof_bundle : ProofKind -> bytes -> Result string ProofBundle;
  canonical_headers : ProofBundle -> list BlockHeader;
  verify_state_binding : ProofBundle -> BlockHeader -> Hash -> Result string unit;
  rollback_bundle_of_bytes : bytes -> Result string RollbackProofBundle;
  rollback_bundle_verify : RollbackProofBundle -> Result string VerifiedRollbackProof
}.

(** [a.eq_ignore_ascii_case(b)] *)
Definition eq_ignore_ascii_case (a b : string) : bool := bool_decide (to_ascii_lowercase a = to_ascii_lowercase b).
Definition checkpoint_path (wallet_path : string) : string := wallet_path +:+ ".checkpoint".

Section proof.
Context `{PaqusTypes} `{!RpcOps} `{!ConfigOps} `{!CliOps} `{!WalletOps} `{!ProofOps} (env : CliEnv).
Context (rename : nat -> option IoError).
Abbreviation Do := (ST Cli string).

(** ** The checkpoint file *)

Definition checkpoint_of_file (path : string) (b : bytes) : Result string Checkpoint :=
  file ← map_err (fun error => "failed to parse checkpoint " +:+ path +:+ ": " +:+ error) (checkpoint_file_from_json b);
  if negb (cf_version file =? 1) then Err "unsupported wallet checkpoint version" else
  encoded ← ok_or (unhex (cf_checkpoint file)) ("invalid checkpoint encoding: " +:+ hex_error (cf_checkpoint file));
  checkpoint ← map_err (fun error => "invalid trusted checkpoint: " +:+ error) (checkpoint_of_bytes encoded);
  hash ← proof_header_hash (checkpoint_header checkpoint);
  if negb (proof_header_height (checkpoint_header checkpoint) =? cf_height file)
     || negb (bool_decide (hex_encode hash = cf_block_hash file))
  then Err "wallet checkpoint metadata mismatch" else Ok checkpoint.
Definition load_wallet_checkpoint (wallet_path : string) : Do (option Checkpoint) :=
  let path := checkpoint_path wallet_path in
  contents ← read_file env path;
  match contents with
  | Err error =>
      if bool_decide (io_kind error = NotFound) then mret None
      else st_fail ("failed to read checkpoint " +:+ path +:+ ": " +:+ io_text error)
  | Ok b => st_lift (checkpoint ← checkpoint_of_file path b; Ok (Some checkpoint))
  end.
Definition checkpoint_file (checkpoint : Checkpoint) : Result string bytes :=
  hash ← proof_header_hash (checkpoint_header checkpoint);
  encoded ← checkpoint_bytes checkpoint;
  map_err (fun error => "failed to encode checkpoint: " +:+ error) (checkpoint_file_to_json
    {| cf_version := 1; cf_height := proof_header_height (checkpoint_header checkpoint);
       cf_block_hash := hex_encode hash; cf_checkpoint := hex_encode encoded |}).
(** Written beside the old file and moved over it *)
Definition save_wallet_checkpoint (wallet_path : string) (checkpoint : Checkpoint) : Do unit :=
  let path := checkpoint_path wallet_path in
  b ← st_lift (checkpoint_file checkpoint);
  let temporary := path +:+ ".tmp" in
  broken ← ask (ce_open env);
  match broken with
  | Some e => st_fail ("failed to write checkpoint " +:+ temporary +:+ ": " +:+ io_text e)
  | None =>
      on_files (<[temporary := []]>) ;;
      failed ← write_bytes env temporary b;
      match failed with
      | Some e => st_fail ("failed to write checkpoint " +:+ temporary +:+ ": " +:+ io_text e)
      | None =>
          stuck ← ask rename;
          match stuck with
          | Some e => st_fail ("failed to activate checkpoint " +:+ path +:+ ": " +:+ io_text e)
          | None => on_files (fun files => <[path := b]> (delete temporary files))
          end
      end
  end.

(** ** State proofs *)

Definition proof_request_path (base : string) (checkpoint : option Checkpoint) : Result string string :=
  match checkpoint with
  | None => Ok base
  | Some checkpoint =>
      hash ← proof_header_hash (checkpoint_header checkpoint);
      Ok (base +:+ "?checkpoint_height=" +:+ pretty (proof_header_height (checkpoint_header checkpoint))
        +:+ "&checkpoint_hash=" +:+ hex_encode hash)
  end.
Definition update_checkpoint_from_headers (current : option Checkpoint) (headers : list BlockHeader) : Result string Checkpoint :=
  match current with
  | Some current =>
      _ ← map_err (fun error => "checkpoint header extension rejected: " +:+ error) (verify_header_chain_extension current headers);
      map_err (fun error => "failed to advance checkpoint: " +:+ error) (advance_trusted_header_checkpoint current headers)
  | None => map_err (fun error => "full header proof rejected: " +:+ error) (trusted_header_checkpoint headers)
  end.
Definition kind_name (kind : ProofKind) : string * string :=
  match kind with
  | QCashProof => ("QCash proof", "QCash state proof")
  | MembershipProof => ("account proof", "account state proof")
  | AbsenceProof => ("account absence proof", "account absence proof")
  end.
(** The next checkpoint, if headers and state proof are accepted *)
Definition verify_proof_bundle (current : option Checkpoint) (kind : ProofKind) (b : bytes) : Result string Checkpoint :=
  bundle ← map_err (fun error => (kind_name kind).1 +:+ " decode failed: " +:+ error) (decode_proof_bundle kind b);
  next ← update_checkpoint_from_headers current (canonical_headers bundle);
  tip_hash ← proof_header_hash (checkpoint_header next);
  _ ← map_err (fun error => (kind_name kind).2 +:+ " rejected: " +:+ error)
        (verify_state_binding bundle (checkpoint_header next) tip_hash);
  Ok next.

Record ProofOptions := { v_wallet : string; v_rpc : string }.
Fixpoint proof_options (args : list string) (o : ProofOptions) : Result string ProofOptions :=
  match args with
  | [] => Ok o
  | flag :: args =>
      if bool_decide (flag = "--wallet") then
        match args with
        | [] => Err "missing value for --wallet"
        | value :: args => proof_options args {| v_wallet := value; v_rpc := v_rpc o |}
        end else
      if is_rpc_flag flag then
        match args with
        | [] => Err "missing value for --rpc"
        | value :: args => proof_options args {| v_wallet := v_wallet o; v_rpc := value |}
        end else
      Err ("unknown proof option `" +:+ flag +:+ "`")
  end.
Definition proof_value (args : list string) : option string :=
  value ← args !! 1%nat; if bool_decide (is_Some (strip_prefix "--" value)) then None else Some value.
Definition ask_proof (action : string) (value : option string) (o : ProofOptions) (current : option Checkpoint) : Do string :=
  if bool_decide (action = "account") then
    address ← match value with
              | Some address => mret address
              | None => a ← load_wallet_address env (v_wallet o); mret (address_text a)
              end;
    path ← st_lift (proof_request_path ("/proof/account/" +:+ address) current);
    http_get env (v_rpc o) path
  else if bool_decide (action = "qcash") then
    coin_id ← st_lift (ok_or value "usage: proof qcash <coin-id> [--wallet path] [--rpc host:port]");
    path ← st_lift (proof_request_path ("/proof/qcash/" +:+ coin_id) current);
    http_get env (v_rpc o) path
  else st_fail "usage: proof <account|qcash|status> ...".
(** The checkpoint that is shown, and its hash *)
Definition wallet_proof (default_rpc_addr : string) (args : list string) : Do (Checkpoint * Hash) :=
  let action := unwrap_or "account" (head args) in
  let value := proof_value args in
  o ← st_lift (proof_options (drop (if bool_decide (is_Some value) then 2 else 1) args)
        {| v_wallet := DEFAULT_WALLET_PATH; v_rpc := default_rpc_addr |});
  if bool_decide (action = "status") then
    stored ← load_wallet_checkpoint (v_wallet o);
    match stored with
    | Some checkpoint => hash ← st_lift (proof_header_hash (checkpoint_header checkpoint)); mret (checkpoint, hash)
    | None => st_fail "wallet has no trusted checkpoint; run `proof account` first"
    end
  else
    current ← load_wallet_checkpoint (v_wallet o);
    response ← ask_proof action value o current;
    json ← st_lift (map_err (fun error => "invalid proof response: " +:+ error +:+ ": " +:+ response) (json_parse response));
    encoded ← st_lift (ok_or (v ← json_get "bundle" json; as_str v) "proof response has no bundle");
    b ← st_lift (ok_or (unhex encoded) ("invalid proof bundle hex: " +:+ hex_error encoded));
    let kind := if bool_decide (action = "qcash") then QCashProof
                else if bool_decide ((v ← json_get "proof_kind" json; as_str v) = Some "membership") then MembershipProof
                else AbsenceProof in
    next ← st_lift (verify_proof_bundle current kind b);
    save_wallet_checkpoint (v_wallet o) next ;;
    hash ← st_lift (proof_header_hash (checkpoint_header next));
    mret (next, hash).

(** ** Rollback proofs *)

Definition fetch_and_verify_rollback_proof (rpc_addr issue_id : string) : Do (string * VerifiedRollbackProof) :=
  body ← http_get env rpc_addr ("/rollback-issues/" +:+ issue_id);
  response ← st_lift (map_err (fun error => "failed to parse rollback issue response: " +:+ error) (json_parse body));
  proof_hex ← st_lift (ok_or (v ← json_get "rollback_proof_bundle" response; as_str v)
                "node response is missing rollback_proof_bundle");
  b ← st_lift (ok_or (unhex proof_hex) ("invalid rollback proof hex: " +:+ hex_error proof_hex));
  if MAX_ROLLBACK_PROOF_BYTES <? zlen b then st_fail "rollback proof exceeds the wallet verification limit" else
  bundle ← st_lift (map_err (fun error => "invalid rollback proof encoding: " +:+ error) (rollback_bundle_of_bytes b));
  verified ← st_lift (map_err (fun error => "rollback proof verification failed: " +:+ error) (rollback_bundle_verify bundle));
  if bool_decide ((v ← json_get "status" response; as_str v) = Some "reconfirmed") then mret (body, verified) else
  status ← status_value env rpc_addr;
  reported_tip ← st_lift (ok_or (v ← json_get "tip_hash" status; as_str v) "node status is missing tip_hash");
  if negb (eq_ignore_ascii_case reported_tip (hex_encode (rolled_canonical_tip verified)))
  then st_fail "rollback proof canonical tip does not match the node's current canonical tip"
  else mret (body, verified).

Inductive Rolled := ShownBody (body : string) | ShownProof (verified : VerifiedRollbackProof).
Definition print_rpc_response (body : string) : Result string Rolled :=
  _ ← map_err (fun error => "failed to parse rpc response: " +:+ error +:+ ": " +:+ body) (json_parse body);
  Ok (ShownBody body).
Fixpoint rollback_options (args : list string) (rpc_addr : string) : Result string string :=
  match args with
  | [] => Ok rpc_addr
  | flag :: args =>
      if is_rpc_flag flag then
        match args with [] => Err "missing value for --rpc" | value :: args => rollback_options args value end
      else Err ("unknown rollback option `" +:+ flag +:+ "`")
  end.
Definition wallet_rollback (default_rpc_addr : string) (args : list string) : Do Rolled :=
  match args with
  | action :: value :: options =>
      rpc_addr ← st_lift (rollback_options options default_rpc_addr);
      if bool_decide (action = "list") then
        body ← http_get env rpc_addr ("/account/" +:+ value +:+ "/rollback-issues");
        st_lift (print_rpc_response body)
      else if bool_decide (action = "show") || bool_decide (action = "inspect") then
        checked ← fetch_and_verify_rollback_proof rpc_addr value;
        st_lift (print_rpc_response checked.1)
      else if bool_decide (action = "verify") then
        checked ← fetch_and_verify_rollback_proof rpc_addr value;
        mret (ShownProof checked.2)
      else if bool_decide (action = "retry") || bool_decide (action = "claim") then
        _ ← fetch_and_verify_rollback_proof rpc_addr value;
        body ← http_post_json env rpc_addr ("/rollback-issues/" +:+ value +:+ "/retry") "{}";
        st_lift (print_rpc_response body)
      else st_fail ("unknown rollback action `" +:+ action +:+ "`")
  | _ => st_fail "usage: rollback <list address|show issue-id|verify issue-id|retry issue-id> [--rpc host:port]"
  end.
End proof.
