(* ===== verification/WalletProofSpec.v ===== *)
(** State proofs: the checkpoint moves only along a verified chain, and its file is always whole. *)
From Stdlib Require Import ZArith Lia Ascii.
From stdpp Require Import base numbers option strings list gmap pretty.
From S2P Require Import Prelude BTree PaqusCore Net Mempool Transport Handler Connection Config PeerFile RpcAccess Http.
From S2P Require Import Compact Recovery Lmdb Storage Cache Miner NodeState Node Rpc RpcRead WalletCore WalletSpec WalletAmount.
From S2P Require Import WalletCli WalletTransfer WalletCash WalletCashSpec WalletProof.
Open Scope Z_scope.

(** What the encodings promise *)
Class CheckpointLaws `{ProofOps} : Prop := {
  checkpoint_codec cp b : checkpoint_bytes cp = Ok b -> Forall is_byte b /\ checkpoint_of_bytes b = Ok cp;
  checkpoint_json f raw : checkpoint_file_to_json f = Ok raw -> checkpoint_file_from_json raw = Ok f
}.

Section proof_spec.
Context `{PaqusTypes} `{!RpcOps} `{!ConfigOps} `{!CliOps} `{!WalletOps} `{!WalletLaws} `{!ProofOps} `{!CheckpointLaws}.
Context (env : CliEnv) (rename : nat -> option IoError).

Lemma checkpoint_reads_back path cp raw : checkpoint_file cp = Ok raw -> checkpoint_of_file path raw = Ok cp.
Proof.
  unfold checkpoint_file. intros E. apply bind_Ok in E as (hash & Hh & E). apply bind_Ok in E as (b & Hb & E).
  apply map_err_Ok, checkpoint_json in E. apply checkpoint_codec in Hb as [Hbytes Hdec].
  unfold checkpoint_of_file. rewrite E. cbn -[hex_encode unhex]. rewrite unhex_law by done. cbn. rewrite Hdec. cbn.
  rewrite Hh. cbn. by rewrite Z.eqb_refl, bool_decide_true.
Qed.

Abbreviation checkpoint_name w := (checkpoint_path w).
Abbreviation temporary w := (checkpoint_path w +:+ ".tmp").
Lemma temporary_other w : checkpoint_name w <> temporary w.
Proof.
  intros E%(f_equal String.length). revert E. generalize (checkpoint_path w) as s. intros s.
  assert (Hl : String.length (s +:+ ".tmp") = (String.length s + 4)%nat).
  { induction s as [|x s IH]; [done|]. rewrite append_cons. cbn. by rewrite IH. }
  lia.
Qed.
(** Both names apart *)
Definition elsewhere (w : string) (files : gmap string bytes) : gmap string bytes :=
  delete (checkpoint_name w) (delete (temporary w) files).

Lemma save_run w cp c r c' :
  save_wallet_checkpoint env rename w cp c = (r, c') ->
  elsewhere w (cli_files c') = elsewhere w (cli_files c) /\
  match r with
  | Ok _ => exists raw, checkpoint_file cp = Ok raw /\ cli_files c' !! checkpoint_name w = Some raw
  | Err _ => cli_files c' !! checkpoint_name w = cli_files c !! checkpoint_name w
  end.
Proof.
  pose proof (temporary_other w) as Hne. unfold save_wallet_checkpoint, elsewhere.
  destruct (checkpoint_file cp) as [raw|error]; [|by intros [= <- <-]].
  unfold write_bytes, ask, on_files, mbind, st_bind, st_lift, st_modify, mret, st_ret, st_fail. cbn.
  destruct (ce_open env _); [by intros [= <- <-]|].
  destruct (ce_write env _) as [[k e]|]; cbn.
  { intros [= <- <-]. cbn. rewrite insert_insert_eq. split; [by rewrite delete_insert_eq|by rewrite lookup_insert_ne]. }
  destruct (rename _); cbn; intros [= <- <-]; cbn; rewrite insert_insert_eq.
  { split; [by rewrite delete_insert_eq|by rewrite lookup_insert_ne]. }
  rewrite delete_insert_eq. split; [|exists raw; by rewrite lookup_insert_eq].
  rewrite delete_insert_ne by done. rewrite delete_insert_eq. by rewrite delete_delete_eq.
Qed.

Lemma load_checkpoint_files w : st_keeps cli_files (load_wallet_checkpoint env w).
Proof. intros files. unfold load_wallet_checkpoint, read_file. st_steps ltac:(intros c Hc; exact Hc). Qed.
Lemma ask_proof_files action value o current : st_keeps cli_files (ask_proof env action value o current).
Proof.
  intros files. unfold ask_proof, http_get, load_wallet_address, load_wallet, read_file.
  st_steps ltac:(first [apply exchange_files | match goal with |- st_preserves _ (ask _) => intros c Hc; exact Hc end]).
Qed.

(** What it takes to move from [current] to [next] *)
Definition accepted (current : option Checkpoint) (next : Checkpoint) (hash : Hash) : Prop :=
  exists kind b bundle, decode_proof_bundle kind b = Ok bundle /\
    match current with
    | Some cp => verify_header_chain_extension cp (canonical_headers bundle) = Ok tt /\
        advance_trusted_header_checkpoint cp (canonical_headers bundle) = Ok next
    | None => trusted_header_checkpoint (canonical_headers bundle) = Ok next
    end /\
    proof_header_hash (checkpoint_header next) = Ok hash /\
    verify_state_binding bundle (checkpoint_header next) hash = Ok tt.
Lemma verified_bundle current kind b next :
  verify_proof_bundle current kind b = Ok next -> exists hash, accepted current next hash.
Proof.
  unfold verify_proof_bundle. intros E. apply bind_Ok in E as (bundle & Hd%map_err_Ok & E).
  apply bind_Ok in E as (next' & Hn & E). apply bind_Ok in E as (hash & Hh & E).
  apply bind_Ok in E as ([] & Hv%map_err_Ok & E). injection E as ->. exists hash, kind, b, bundle. split_and!; [done| |done|done].
  destruct current as [cp|]; cbn in Hn; [|by apply map_err_Ok in Hn].
  apply bind_Ok in Hn as ([] & He%map_err_Ok & Hn%map_err_Ok). done.
Qed.
(** After the checkpoint was loaded *)
Lemma proof_tail w current next c r c' :
  (exists hash, accepted current next hash) ->
  (save_wallet_checkpoint env rename w next ;;
   hash ← st_lift (proof_header_hash (checkpoint_header next)); mret (next, hash)) c = (r, c') ->
  elsewhere w (cli_files c') = elsewhere w (cli_files c) /\
  match r with
  | Ok (shown, hash) => accepted current shown hash /\
      exists raw, cli_files c' !! checkpoint_name w = Some raw /\ checkpoint_of_file (checkpoint_name w) raw = Ok shown
  | Err _ => cli_files c' !! checkpoint_name w = cli_files c !! checkpoint_name w
  end.
Proof.
  intros (hash & Ha) E. unfold mbind at 1, st_bind at 1 in E.
  destruct (save_wallet_checkpoint env rename w next c) as [saved c1] eqn:Es. apply save_run in Es as [Hother Hs].
  destruct saved as [[]|error]; [|by injection E as <- <-].
  assert (Hh : proof_header_hash (checkpoint_header next) = Ok hash) by (by destruct Ha as (? & ? & ? & _ & _ & ? & _)).
  rewrite Hh in E. injection E as <- <-. destruct Hs as (raw & Hraw & Hf).
  split; [done|]. split; [done|]. exists raw. split; [done|]. by apply checkpoint_reads_back.
Qed.

(** C17: a proof command moves the trusted checkpoint only forward along what was verified: on success
    the headers extend the checkpoint that was on file, or make up a whole chain when there was
    none, the state proof is bound to the new checkpoint's header, and the file reads back as the
    new checkpoint. On any failure, of the node, the proof or the file system, the old checkpoint
    file is there as it was. Only the checkpoint and its temporary file are touched. *)
Theorem checkpoint_moves_verified rpc args o c r c' :
  proof_options (drop (if bool_decide (is_Some (proof_value args)) then 2 else 1) args)
    {| v_wallet := DEFAULT_WALLET_PATH; v_rpc := rpc |} = Ok o ->
  head args <> Some "status" -> wallet_proof env rename rpc args c = (r, c') ->
  elsewhere (v_wallet o) (cli_files c') = elsewhere (v_wallet o) (cli_files c) /\
  match r with
  | Ok (next, hash) => exists current, (load_wallet_checkpoint env (v_wallet o) c).1 = Ok current /\
      accepted current next hash /\
      exists raw, cli_files c' !! checkpoint_path (v_wallet o) = Some raw /\
        checkpoint_of_file (checkpoint_path (v_wallet o)) raw = Ok next
  | Err _ => cli_files c' !! checkpoint_path (v_wallet o) = cli_files c !! checkpoint_path (v_wallet o)
  end.
Proof.
  intros Ho Hact E. unfold wallet_proof in E. rewrite Ho in E. unfold mbind at 1, st_bind at 1, st_lift at 1 in E.
  rewrite bool_decide_false in E.
  2: { destruct (head args) as [a|]; cbn; [|done]. intros ->. by apply Hact. }
  apply st_bind_inv in E as [(e & He & ->)|(current & c1 & Hl & E)].
  { pose proof (st_keeps_eq _ _ c (load_checkpoint_files (v_wallet o))) as Hk. rewrite He in Hk. cbn in Hk. by rewrite Hk. }
  pose proof (st_keeps_eq _ _ c (load_checkpoint_files (v_wallet o))) as Hk1. rewrite Hl in Hk1. cbn in Hk1.
  apply st_bind_inv in E as [(e & He & ->)|(response & c2 & Ha & E)].
  { pose proof (st_keeps_eq _ _ c1 (ask_proof_files (unwrap_or "account" (head args)) (proof_value args) o current)) as Hk.
    rewrite He in Hk. cbn in Hk. by rewrite Hk, Hk1. }
  pose proof (st_keeps_eq _ _ c1 (ask_proof_files (unwrap_or "account" (head args)) (proof_value args) o current)) as Hk2.
  rewrite Ha in Hk2. cbn in Hk2. rewrite Hk1 in Hk2.
  apply st_bind_inv in E as [(e & [= _ <-] & ->)|(json & ? & [= _ <-] & E)]; [by rewrite Hk2|].
  apply st_bind_inv in E as [(e & [= _ <-] & ->)|(encoded & ? & [= _ <-] & E)]; [by rewrite Hk2|].
  apply st_bind_inv in E as [(e & [= _ <-] & ->)|(b & ? & [= _ <-] & E)]; [by rewrite Hk2|].
  apply st_bind_inv in E as [(e & [= _ <-] & ->)|(next & ? & [= Hv <-] & E)]; [by rewrite Hk2|].
  apply verified_bundle in Hv. apply (proof_tail _ current) in E as [Hother Hr]; [|done]. rewrite Hk2 in Hother. split; [done|].
  destruct r as [[shown hash]|error]; [|by rewrite <- Hk2].
  exists current. rewrite Hl. split; [done|]. exact Hr.
Qed.
End proof_spec.

(** * A toy wallet

    A toy wallet that is created, and its checkpoint moved by a proof. *)
From stdpp Require Import countable.
From S2P Require Import Toy ConfigSpec.
From S2P Require Import StorageExamples NodeExamples.
From S2P Require Import RpcExamples.
From S2P Require Import WalletNew WalletCliExamples.

Module NewWitnesses.
Import Toy StorageToy NodeToy ConfigExamples WalletExamples CliToy.

#[global] Instance toy_key_laws : KeyLaws.
Proof.
  assert (Hkey : forall s, is_key 1 (first_byte s)).
  { intros s. split; [|done]. constructor; [|constructor]. unfold is_byte.
    destruct s as [|x s]; [lia|]. apply Z.mod_pos_bound. lia. }
  split; [intros seed; split_and!; try apply Hkey; done|]. intros password p k [= <-]. apply Hkey.
Qed.
Definition no_files : Cli := {| cli_files := ∅; cli_asked := 0 |}.
Definition created := create_mnemonic_wallet_file cli_env "new.json" 12 "x" no_files.
Lemma created_ok : exists w, created.1 = Ok (w, WalletCore.join words12).
Proof. eexists. vm_compute. reflexivity. Qed.
End NewWitnesses.

Module ProofToy.
Import Toy StorageToy NodeToy ConfigExamples WalletExamples CliToy.

(** A checkpoint is its header; headers extend it when there are any; its encoding is the text of
    bits of [CliToy]. *)
Definition header_bytes (h : Header) : bytes := bits (countable.encode (ser h)).
Definition header_of_bytes (b : bytes) : Result string Header :=
  ok_or (l ← countable.decode (A := list Z) (of_bits b); Toy.parse l) "invalid".
Definition next_header : Header := header genesis_block.
#[global] Instance proof_ops : ProofOps := {
  Checkpoint := Header; checkpoint_header h := h;
  proof_header_hash h := Ok [h_height h]; proof_header_height h := h_height h;
  checkpoint_bytes h := Ok (header_bytes h); checkpoint_of_bytes := header_of_bytes;
  checkpoint_file_to_json f := Ok (ser (cf_version f, (cf_height f, (cf_block_hash f, cf_checkpoint f))));
  checkpoint_file_from_json b :=
    match Toy.parse b with
    | Some (v, (h, (hash, cp))) => Ok {| cf_version := v; cf_height := h; cf_block_hash := hash; cf_checkpoint := cp |}
    | None => Err "invalid"
    end;
  verify_header_chain_extension _ hs := if bool_decide (hs = []) then Err "empty" else Ok tt;
  advance_trusted_header_checkpoint _ hs := ok_or (head (rev hs)) "empty";
  trusted_header_checkpoint hs := ok_or (head (rev hs)) "empty";
  ProofBundle := list Header; decode_proof_bundle _ _ := Ok [next_header]; canonical_headers b := b;
  verify_state_binding _ _ _ := Ok tt;
  rollback_bundle_of_bytes _ := Err "invalid"; rollback_bundle_verify _ := Err "invalid"
}.
#[global] Instance checkpoint_laws : CheckpointLaws.
Proof.
  split.
  - intros cp b [= <-]. split; [apply bits_bytes|]. unfold checkpoint_of_bytes, proof_ops, header_of_bytes, header_bytes.
    rewrite of_bits_law, decode_encode. cbn [mbind option_bind]. by rewrite parse_ser.
  - intros f raw Hf. unfold checkpoint_file_to_json, proof_ops in Hf.
    assert (Hraw : raw = ser (cf_version f, (cf_height f, (cf_block_hash f, cf_checkpoint f)))) by congruence. subst raw. unfold checkpoint_file_from_json, proof_ops. rewrite parse_ser. by destruct f.
Qed.

Definition no_rename (_ : nat) : option IoError := None.
Definition proving := wallet_proof cli_env no_rename rpc_text ["account"; "alice"] cli.
Lemma proving_ok : proving.1 = Ok (next_header, [h_height next_header]).
Proof. vm_compute. reflexivity. Qed.
End ProofToy.

Module ProofWitnesses.
Import Toy StorageToy NodeToy ConfigExamples WalletExamples CliToy ProofToy.

Lemma checkpoint_moves_verified_witness : exists raw,
  cli_files proving.2 !! "wallet.json.checkpoint" = Some raw /\
  checkpoint_of_file "wallet.json.checkpoint" raw = Ok next_header.
Proof.
  assert (E : proving = (Ok (next_header, [h_height next_header]), proving.2)) by (rewrite <- proving_ok; apply surjective_pairing).
  unfold proving in E at 1.
  destruct (checkpoint_moves_verified cli_env no_rename rpc_text ["account"; "alice"]
    {| v_wallet := "wallet.json"; v_rpc := rpc_text |} cli _ _ eq_refl ltac:(discriminate) E)
    as [_ (current & _ & _ & raw & Hraw & Hcp)].
  exists raw. split; [exact Hraw|exact Hcp].
Defined.
End ProofWitnesses.
