(* ===== verification/WalletPool.v ===== *)
(** Paying the workers of a mining pool: [wallet_pool_payout] of commands.rs.

    The pool's accounting and the receipts are files of JSON lines, read by a parameter (serde's
    derived code): class [PoolJson]. A receipt is appended after the node has accepted the payout. *)
From Stdlib Require Import ZArith Lia Ascii.
From stdpp Require Import base numbers option strings list gmap pretty.
From S2P Require Import Prelude BTree PaqusCore Net Mempool Transport Handler Connection Config PeerFile RpcAccess Http.
From S2P Require Import Compact Recovery Lmdb Storage Cache Miner NodeState Node Rpc RpcRead WalletCore WalletAmount.
From S2P Require Import WalletCli WalletTransfer.
Open Scope Z_scope.

Record PoolWorkerPayout := { payout_worker : string; payout_address : string; payout_amount : Z }.
Record PoolAccountingRound := {
  pool_address : string;
  round_height : Z;
  round_block_hash : string;
  maturity_height : Z;
  gross_reward : Z;
  payouts : list PoolWorkerPayout
}.
Record PoolPayoutReceipt := {
  receipt_block_hash : string;
  receipt_height : Z;
  receipt_worker : string;
  receipt_address : string;
  receipt_amount : Z;
  receipt_last_state : string;
  receipt_tx_hash : string;
  submitted_at_height : Z
}.
Class PoolJson := {
  round_from_json : string -> Result string PoolAccountingRound;
  receipt_from_json : string -> Result string PoolPayoutReceipt;
  receipt_to_json : PoolPayoutReceipt -> string
}.

Definition payout_key (round : PoolAccountingRound) (payout : PoolWorkerPayout) : string :=
  round_block_hash round +:+ ":" +:+ payout_worker payout +:+ ":" +:+ payout_address payout +:+ ":"
    +:+ pretty (payout_amount payout).
Definition receipt_key (receipt : PoolPayoutReceipt) : string :=
  receipt_block_hash receipt +:+ ":" +:+ receipt_worker receipt +:+ ":" +:+ receipt_address receipt +:+ ":"
    +:+ pretty (receipt_amount receipt).

(** ** JSON lines *)

Section json_lines.
Context {A : Type} (from_json : string -> Result string A).
(** [index] counts the lines from zero. *)
Fixpoint parse_json_lines (path : string) (index : Z) (ls : list string) : Result string (list A) :=
  match ls with
  | [] => Ok []
  | l :: ls =>
      if negb (utf8_valid (as_bytes l)) then Err ("failed to read " +:+ path +:+ ": stream did not contain valid UTF-8") else
      if blank l then parse_json_lines path (index + 1) ls else
      x ← map_err (fun error => "invalid JSON in " +:+ path +:+ " line " +:+ pretty (index + 1) +:+ ": " +:+ error) (from_json l);
      rest ← parse_json_lines path (index + 1) ls;
      Ok (x :: rest)
  end.
Definition json_lines_of (path : string) (b : bytes) : Result string (list A) :=
  parse_json_lines path 0 (lines (string_of_bytes b)).
Definition read_json_lines (env : CliEnv) (path : string) : ST Cli string (list A) :=
  contents ← read_file env path;
  st_lift (b ← map_err (fun error => "failed to open " +:+ path +:+ ": " +:+ io_text error) contents;
           json_lines_of path b).
End json_lines.

Section pool.
Context `{PaqusTypes} `{!RpcOps} `{!ConfigOps} `{!CliOps} `{!WalletOps} `{!ErrorDisplay} `{!PoolJson}.
Context `{!Signable Transfer SignedBatchTransfer} (env : CliEnv).
Abbreviation Do := (ST Cli string).

(** [write_all] at the end of an open file *)
Definition append_bytes (path : string) (b : bytes) : Do (option IoError) :=
  broken ← ask (ce_write env);
  let add new := on_files (fun files => <[path := default [] (files !! path) ++ new]> files) in
  match broken with
  | Some (k, e) => add (take k b) ;; mret (Some e)
  | None => add b ;; mret None
  end.
(** [create(true).append(true)] *)
Definition append_payout_receipt (path : string) (receipt : PoolPayoutReceipt) : Do unit :=
  broken ← ask (ce_open env);
  match broken with
  | Some e => st_fail ("open receipt file: " +:+ io_text e)
  | None =>
      on_files (fun files => <[path := default [] (files !! path)]> files) ;;
      failed ← append_bytes path (as_bytes (receipt_to_json receipt));
      match failed with
      | Some e => st_fail (io_text e)
      | None =>
          failed ← append_bytes path [10];
          match failed with
          | Some e => st_fail (io_text e)
          | None =>
              unsynced ← ask (ce_sync env);
              match unsynced with Some e => st_fail (io_text e) | None => mret tt end
          end
      end
  end.

(** ** Payouts *)

(** [try_fold] with [checked_add] *)
Fixpoint payout_total (ps : list PoolWorkerPayout) (total : Z) : Result string Z :=
  match ps with
  | [] => Ok total
  | p :: ps => total ← ok_or (checked (total + payout_amount p)) "round payout total overflow"; payout_total ps total
  end.
Abbreviation Pending := (PoolAccountingRound * PoolWorkerPayout * Address)%type.
Fixpoint pending_of_round (paid : list string) (round : PoolAccountingRound) (ps : list PoolWorkerPayout)
    : Result string (list Pending) :=
  match ps with
  | [] => Ok []
  | p :: ps =>
      if (0 <? payout_amount p) && negb (bool_decide (payout_key round p ∈ paid)) then
        address ← map_err (fun error => "invalid payout address for worker " +:+ payout_worker p +:+ ": " +:+ error)
                    (parse_address_string (payout_address p));
        rest ← pending_of_round paid round ps;
        Ok ((round, p, address) :: rest)
      else pending_of_round paid round ps
  end.
(** The loop over the rounds that are mature at [height] *)
Fixpoint pending_payouts (height : Z) (paid : list string) (wallet_address : string) (rounds : list PoolAccountingRound)
    : Result string (list Pending) :=
  match rounds with
  | [] => Ok []
  | round :: rounds =>
      if negb (maturity_height round <=? height) then pending_payouts height paid wallet_address rounds else
      if negb (bool_decide (pool_address round = wallet_address))
      then Err ("round " +:+ round_block_hash round +:+ " belongs to pool " +:+ pool_address round
        +:+ ", but wallet address is " +:+ wallet_address) else
      _ ← payout_total (payouts round) 0;
      here ← pending_of_round paid round (payouts round);
      rest ← pending_payouts height paid wallet_address rounds;
      Ok (here ++ rest)
  end.

Definition receipt_for (height : Z) (state : Hash) (tx_hash : string) (round : PoolAccountingRound) (p : PoolWorkerPayout)
    : PoolPayoutReceipt := {|
  receipt_block_hash := round_block_hash round; receipt_height := round_height round;
  receipt_worker := payout_worker p; receipt_address := payout_address p; receipt_amount := payout_amount p;
  receipt_last_state := hex_encode state; receipt_tx_hash := tx_hash; submitted_at_height := height |}.
(** The body of the [for] over the pending payouts *)
Definition pay_one (receipts rpc_addr : string) (height : Z) (w : Wallet) (keys : AuthorizationKeys)
    (state : WalletAccountState) (x : Pending) : Do unit :=
  let '(round, p, address) := x in
  let transaction := with_last_state (last_state state)
    (Transfer_new (wallet_addr w) [{| to := ToAddress address; amount := payout_amount p |}]) in
  signed ← st_lift (sign_transaction w transaction (Some keys) (state_registered state));
  hash ← st_lift (signed_transfer_hash signed);
  tx_hex ← st_lift (signed_transaction_to_hex signed);
  response ← http_post_json env rpc_addr "/tx" (quoted_tx tx_hex);
  if negb (bool_decide ((v ← result_ok (json_parse response); a ← json_get "accepted" v; as_bool a) = Some true))
  then st_fail ("node rejected payout for " +:+ payout_worker p +:+ ": " +:+ response) else
  append_payout_receipt receipts (receipt_for height (last_state state) (hex_encode hash) round p).

(** ** The command *)

Record PoolOptions := {
  p_ledger : string; p_receipts : string; p_wallet : string; p_rpc : string; p_execute : bool
}.
Definition pool_option (flag : string) (value : option string) (o : PoolOptions) : Result string PoolOptions :=
  if bool_decide (flag = "--ledger") then
    v ← ok_or value "missing value for --ledger"; Ok {| p_ledger := v; p_receipts := p_receipts o;
      p_wallet := p_wallet o; p_rpc := p_rpc o; p_execute := p_execute o |} else
  if bool_decide (flag = "--receipts") then
    v ← ok_or value "missing value for --receipts"; Ok {| p_ledger := p_ledger o; p_receipts := v;
      p_wallet := p_wallet o; p_rpc := p_rpc o; p_execute := p_execute o |} else
  if bool_decide (flag = "--wallet") then
    v ← ok_or value "missing value for --wallet"; Ok {| p_ledger := p_ledger o; p_receipts := p_receipts o;
      p_wallet := v; p_rpc := p_rpc o; p_execute := p_execute o |} else
  if is_rpc_flag flag then
    v ← ok_or value "missing value for --rpc"; Ok {| p_ledger := p_ledger o; p_receipts := p_receipts o;
      p_wallet := p_wallet o; p_rpc := v; p_execute := p_execute o |} else
  Err ("unknown pool-payout option `" +:+ flag +:+ "`").
Fixpoint pool_options (args : list string) (o : PoolOptions) : Result string PoolOptions :=
  match args with
  | [] => Ok o
  | flag :: args =>
      if bool_decide (flag = "--execute") then
        pool_options args {| p_ledger := p_ledger o; p_receipts := p_receipts o; p_wallet := p_wallet o;
          p_rpc := p_rpc o; p_execute := true |}
      else
        match args with
        | [] => pool_option flag None o
        | value :: args => o ← pool_option flag (Some value) o; pool_options args o
        end
  end.
Inductive PoolPayout := Preview (height count total : Z) | Paid (height : Z).

(** [Path::exists] and then the file *)
Definition prior_receipts (path : string) : Do (list PoolPayoutReceipt) :=
  c ← st_get;
  match cli_files c !! path with
  | Some _ => read_json_lines receipt_from_json env path
  | None => mret []
  end.
Definition execute_payouts (o : PoolOptions) (height : Z) (pending : list Pending) : Do unit :=
  w ← load_wallet env (p_wallet o);
  resolved ← resolve_authorization_for_wallet_file env (p_wallet o) w None;
  let '(keys, w) := resolved in
  if (1 <? length pending)%nat
  then st_fail "pool-payout needs wallet-side draft AccountStatement chaining before multi-payout" else
  state ← resolve_wallet_account_state env (wallet_addr w) (p_rpc o);
  st_lift (ensure_no_pending_outgoing state) ;;
  st_for (pay_one (p_receipts o) (p_rpc o) height w keys state) pending.
Definition wallet_pool_payout (default_rpc_addr : string) (args : list string) : Do PoolPayout :=
  o ← st_lift (pool_options args {| p_ledger := "pool-accounting.jsonl"; p_receipts := "pool-payout-receipts.jsonl";
        p_wallet := DEFAULT_WALLET_PATH; p_rpc := default_rpc_addr; p_execute := false |});
  status ← status_value env (p_rpc o);
  height ← st_lift (ok_or (h ← json_get "height" status; as_u64 h) "rpc status is missing height");
  rounds ← read_json_lines round_from_json env (p_ledger o);
  prior ← prior_receipts (p_receipts o);
  address ← load_wallet_address env (p_wallet o);
  pending ← st_lift (pending_payouts height (map receipt_key prior) (address_text address) rounds);
  if negb (p_execute o)
  then mret (Preview height (zlen pending) (foldr (fun x total => (payout_amount x.1.2 + total) mod 2 ^ 64) 0 pending)) else
  execute_payouts o height pending ;;
  mret (Paid height).
End pool.
