(* ===== verification/WalletPoolSpec.v ===== *)
(** Pool payouts: what a run paid is on file as receipts, and no later run finds it unpaid. *)
From Stdlib Require Import ZArith Lia Ascii.
From stdpp Require Import base numbers option strings list gmap pretty.
From S2P Require Import Prelude BTree PaqusCore Net Mempool Transport Handler Connection Config PeerFile RpcAccess Http.
From S2P Require Import Compact Recovery Lmdb Storage Cache Miner NodeState Node Rpc RpcRead WalletCore WalletSpec WalletAmount.
From S2P Require Import WalletCli WalletTransfer WalletCash WalletCashSpec WalletPool.
Open Scope Z_scope.

(** ** Lines of text *)

Lemma bytes_text s : string_of_bytes (as_bytes s) = s.
Proof. induction s as [|c s IH]; [done|]. cbn. by rewrite N2Z.id, ascii_N_embedding, IH. Qed.
Lemma string_of_bytes_app a b : string_of_bytes (a ++ b) = string_of_bytes a +:+ string_of_bytes b.
Proof. induction a as [|x a IH]; [done|]. exact (f_equal (String _) IH). Qed.

Lemma lines_from_feed u v acc :
  lines_from (u +:+ String line_feed v) acc = lines_from (u +:+ String line_feed "") acc ++ lines v.
Proof.
  revert acc. induction u as [|c u IH]; intros acc; [done|]. rewrite !append_cons. cbn [lines_from].
  destruct (bool_decide _); [|apply IH]. by rewrite IH.
Qed.
Lemma not_feed c : Z.of_N (N_of_ascii c) <> 10 -> c <> line_feed.
Proof. intros Hn ->. by apply Hn. Qed.
Lemma one_line_from l acc : 10 ∉ as_bytes l -> lines_from (l +:+ String line_feed "") acc = [strip_cr (acc +:+ l)].
Proof.
  revert acc. induction l as [|c l IH]; intros acc Hl; cbn [as_bytes] in *.
  - change ("" +:+ String line_feed "") with (String line_feed ""). cbn [lines_from].
    rewrite bool_decide_true by done. by rewrite append_nil_r.
  - rewrite append_cons. cbn [lines_from]. rewrite not_elem_of_cons in Hl. destruct Hl as [Hc Hl]. rewrite bool_decide_false by (apply not_feed; lia).
    rewrite IH by done. by rewrite append_assoc, append_cons.
Qed.
Lemma strip_cr_none l : 13 ∉ as_bytes l -> strip_cr l = l.
Proof.
  induction l as [|c l IH]; intros Hl; [done|]. cbn in Hl. rewrite not_elem_of_cons in Hl. destruct Hl as [Hc Hl].
  destruct l as [|d l].
  - cbn. rewrite bool_decide_false; [done|]. intros ->. by apply Hc.
  - change (String c (strip_cr (String d l)) = String c (String d l)). by rewrite IH.
Qed.

(** Files whose last line is ended *)
Definition whole_lines (b : bytes) : Prop := b = [] \/ exists a, b = a ++ [10].
Lemma lines_appended b l :
  whole_lines b -> 10 ∉ as_bytes l -> 13 ∉ as_bytes l ->
  lines (string_of_bytes (b ++ as_bytes l ++ [10])) = lines (string_of_bytes b) ++ [l].
Proof.
  intros Hb H10 H13. assert (Hone : lines (l +:+ String line_feed "") = [l]).
  { unfold lines. rewrite one_line_from by done. cbn. by rewrite strip_cr_none. }
  rewrite !string_of_bytes_app, bytes_text. change (string_of_bytes [10]) with (String line_feed "").
  destruct Hb as [->|[a ->]]; [exact Hone|].
  rewrite string_of_bytes_app, append_assoc. change (string_of_bytes [10]) with (String line_feed "").
  unfold lines at 1 2. rewrite append_cons. change ("" +:+ ?s) with s. rewrite lines_from_feed. by rewrite Hone.
Qed.

Section json_lines_spec.
Context {A : Type} (from_json : string -> Result string A).
Lemma parse_lines_app path index ls ls' :
  parse_json_lines from_json path index (ls ++ ls') =
  (xs ← parse_json_lines from_json path index ls;
   ys ← parse_json_lines from_json path (index + zlen ls) ls'; Ok (xs ++ ys)).
Proof.
  revert index. induction ls as [|l ls IH]; intros index.
  { change (zlen (@nil string)) with 0. rewrite Z.add_0_r. cbn [app parse_json_lines]. unfold mbind, result_bind. by destruct (parse_json_lines _ _ _ ls'). }
  cbn [app parse_json_lines]. replace (index + zlen (l :: ls)) with (index + 1 + zlen ls) by (unfold zlen; cbn [length]; lia).
  destruct (negb _); [done|]. destruct (blank l); [apply IH|]. unfold mbind, result_bind in *.
  destruct (map_err _ (from_json l)); [|done]. rewrite IH.
  destruct (parse_json_lines _ _ _ ls); [|done]. by destruct (parse_json_lines _ _ _ ls').
Qed.
End json_lines_spec.

(** What serde_json promises of a receipt: it reads back, and its text is one line. *)
Class PoolJsonLaws `{!PoolJson} : Prop := {
  receipt_roundtrip r : receipt_from_json (receipt_to_json r) = Ok r;
  receipt_text r : utf8_valid (as_bytes (receipt_to_json r)) = true /\ blank (receipt_to_json r) = false /\
    10 ∉ as_bytes (receipt_to_json r) /\ 13 ∉ as_bytes (receipt_to_json r)
}.

Section pool_spec.
Context `{PaqusTypes} `{!RpcOps} `{!ConfigOps} `{!CliOps} `{!WalletOps} `{!ErrorDisplay} `{!PoolJson} `{!PoolJsonLaws}.
Context `{!Signable Transfer SignedBatchTransfer} (env : CliEnv).

(** The receipts of a file that is whole, none if there is no file *)
Definition receipts_on_file (files : gmap string bytes) (path : string) (rs : list PoolPayoutReceipt) : Prop :=
  match files !! path with
  | None => rs = []
  | Some b => whole_lines b /\ json_lines_of receipt_from_json path b = Ok rs
  end.

Lemma receipt_appended files path rs r :
  receipts_on_file files path rs ->
  receipts_on_file (<[path := default [] (files !! path) ++ as_bytes (receipt_to_json r) ++ [10]]> files) path (rs ++ [r]).
Proof.
  intros Hon. unfold receipts_on_file. rewrite lookup_insert_eq.
  assert (Hold : whole_lines (default [] (files !! path)) /\
    json_lines_of receipt_from_json path (default [] (files !! path)) = Ok rs).
  { unfold receipts_on_file in Hon. destruct (files !! path); [done|]. subst rs. split; [by left|done]. }
  destruct Hold as [Hwhole Hrs]. destruct (receipt_text r) as (Hu & Hb & H10 & H13). split.
  { right. exists (default [] (files !! path) ++ as_bytes (receipt_to_json r)). by rewrite app_assoc. }
  unfold json_lines_of in *. rewrite lines_appended, parse_lines_app, Hrs by done. cbn [parse_json_lines].
  rewrite Hu, Hb, receipt_roundtrip. done.
Qed.

(** ** The command *)

Lemma pay_one_run receipts rpc height w keys state round p address c c' :
  pay_one env receipts rpc height w keys state (round, p, address) c = (Ok tt, c') ->
  exists hash, cli_files c' =
    <[receipts := default [] (cli_files c !! receipts) ++
        as_bytes (receipt_to_json (receipt_for height (last_state state) hash round p)) ++ [10]]> (cli_files c).
Proof.
  unfold pay_one. intros E.
  apply st_bind_inv in E as [(? & _ & E)|(signed & c1 & [= _ <-] & E)]; [done|].
  apply st_bind_inv in E as [(? & _ & E)|(hash & c2 & [= _ <-] & E)]; [done|].
  apply st_bind_inv in E as [(? & _ & E)|(tx & c3 & [= _ <-] & E)]; [done|].
  apply st_bind_inv in E as [(? & _ & E)|(response & c4 & Hpost & E)]; [done|].
  assert (Hfiles : cli_files c4 = cli_files c).
  { pose proof (st_keeps_eq cli_files _ c (exchange_files env rpc (fun addr => "POST " +:+ "/tx" +:+ " HTTP/1.1" +:+ CRLF
      +:+ "host: " +:+ show_socket addr +:+ CRLF +:+ "content-type: application/json" +:+ CRLF +:+ "content-length: "
      +:+ pretty (zlen (as_bytes (quoted_tx tx))) +:+ CRLF +:+ "connection: close" +:+ CRLF +:+ CRLF +:+ quoted_tx tx))) as Hk.
    unfold http_post_json in Hpost. by rewrite Hpost in Hk. }
  destruct (negb _); [done|]. exists (hex_encode hash). rewrite <- Hfiles. revert E.
  generalize (receipt_for height (last_state state) (hex_encode hash) round p) as r. intros r.
  unfold append_payout_receipt, append_bytes, ask, on_files, mbind, st_bind, st_modify, mret, st_ret, st_fail. cbn.
  destruct (ce_open env _); [done|]. destruct (ce_write env _) as [[]|]; [done|]. cbn.
  destruct (ce_write env _) as [[]|]; [done|]. cbn. destruct (ce_sync env _); [done|]. intros [= <-]. cbn.
  rewrite !lookup_insert_eq, !insert_insert_eq. cbn. by rewrite <- app_assoc.
Qed.
Abbreviation key_of x := (payout_key x.1.1 x.1.2).
Lemma pay_all_run receipts rpc height w keys state pending c c' rs :
  st_for (pay_one env receipts rpc height w keys state) pending c = (Ok tt, c') ->
  receipts_on_file (cli_files c) receipts rs ->
  exists new, receipts_on_file (cli_files c') receipts (rs ++ new) /\ map receipt_key new = map (fun x => key_of x) pending.
Proof.
  revert c rs. induction pending as [|[[round p] address] pending IH]; intros c rs E Hon; cbn [st_for] in E.
  { injection E as <-. exists []. by rewrite app_nil_r. }
  apply st_bind_inv in E as [(? & _ & E)|([] & c1 & Hp & E)]; [done|].
  apply pay_one_run in Hp as [hash Hf].
  destruct (IH c1 (rs ++ [receipt_for height (last_state state) hash round p]) E) as (new & Hn & Hk).
  { rewrite Hf. by apply receipt_appended. }
  eexists (_ :: new). rewrite <- app_assoc in Hn. split; [exact Hn|]. cbn. by rewrite Hk.
Qed.
Lemma pending_unpaid paid round ps l :
  pending_of_round paid round ps = Ok l -> Forall (fun x => key_of x ∉ paid) l.
Proof.
  revert l. induction ps as [|p ps IH]; intros l E; cbn [pending_of_round] in E; [injection E as <-; constructor|].
  destruct (0 <? _); [|by apply IH]. cbn [andb] in E. case_bool_decide as Hin; cbn [negb] in E; [by apply IH|].
  apply bind_Ok in E as (address & _ & E). apply bind_Ok in E as (rest & Hr & E). injection E as <-.
  constructor; [done|by apply IH].
Qed.
Lemma all_pending_unpaid height paid wallet rounds l :
  pending_payouts height paid wallet rounds = Ok l -> Forall (fun x => key_of x ∉ paid) l.
Proof.
  revert l. induction rounds as [|round rounds IH]; intros l E; cbn [pending_payouts] in E; [injection E as <-; constructor|].
  destruct (negb _); [by apply IH|]. destruct (negb _); [done|]. apply bind_Ok in E as (? & _ & E).
  apply bind_Ok in E as (here & Hh%pending_unpaid & E). apply bind_Ok in E as (rest & Hr & E). injection E as <-.
  apply Forall_app. split; [done|by apply IH].
Qed.

(** Reading, and storing another wallet file, leave the receipts alone. *)
Abbreviation keeps path := (st_keeps (fun c => cli_files c !! path)).
Lemma keeps_files {A} path (m : ST Cli string A) : st_keeps cli_files m -> keeps path m.
Proof. intros Hm x c Hc. by rewrite (st_keeps_eq _ _ _ Hm). Qed.
Lemma load_files path : st_keeps cli_files (load_wallet env path).
Proof. intros files. unfold load_wallet, read_file. st_steps ltac:(intros c Hc; exact Hc). Qed.
Lemma state_files address rpc : st_keeps cli_files (resolve_wallet_account_state env address rpc).
Proof.
  intros files. unfold resolve_wallet_account_state, attempt, http_get. st_steps ltac:(apply exchange_files).
Qed.
Lemma overwrite_keeps path other w : path <> other -> keeps path (save_wallet_overwrite env other w).
Proof.
  intros Hne x. unfold save_wallet_overwrite, write_bytes, on_files.
  st_steps ltac:(first [by apply st_preserves_modify; intros c Hc; cbn; rewrite lookup_insert_ne | intros c Hc; exact Hc]).
Qed.
Lemma resolve_keeps path other w input : path <> other -> keeps path (resolve_authorization_for_wallet_file env other w input).
Proof.
  intros Hne x. unfold resolve_authorization_for_wallet_file, prompt_hidden.
  st_steps ltac:(first [by apply overwrite_keeps | intros c Hc; exact Hc]).
Qed.
Lemma execute_run o height pending c c' rs :
  p_receipts o <> p_wallet o -> execute_payouts env o height pending c = (Ok tt, c') ->
  receipts_on_file (cli_files c) (p_receipts o) rs ->
  exists new, receipts_on_file (cli_files c') (p_receipts o) (rs ++ new) /\ map receipt_key new = map (fun x => key_of x) pending.
Proof.
  intros Hne E Hon. unfold execute_payouts in E.
  apply st_bind_inv in E as [(? & _ & E)|(w & c1 & Hw & E)]; [done|].
  apply st_bind_inv in E as [(? & _ & E)|([keys w'] & c2 & Hr & E)]; [done|].
  destruct (1 <? _)%nat; [done|].
  apply st_bind_inv in E as [(? & _ & E)|(state & c3 & Hs & E)]; [done|].
  apply st_bind_inv in E as [(? & _ & E)|(? & c4 & [= _ <-] & E)]; [done|].
  apply (pay_all_run _ _ _ _ _ _ _ _ _ rs) in E; [done|].
  pose proof (st_keeps_eq _ _ c (load_files (p_wallet o))) as K1. rewrite Hw in K1.
  pose proof (st_keeps_eq _ _ c1 (resolve_keeps (p_receipts o) (p_wallet o) w None Hne)) as K2. rewrite Hr in K2.
  pose proof (st_keeps_eq _ _ c2 (state_files (wallet_addr w') (p_rpc o))) as K3. rewrite Hs in K3.
  unfold receipts_on_file in *. cbn in *. by rewrite K3, K2, K1.
Qed.
Definition default_options (rpc : string) : PoolOptions := {|
  p_ledger := "pool-accounting.jsonl"; p_receipts := "pool-payout-receipts.jsonl";
  p_wallet := DEFAULT_WALLET_PATH; p_rpc := rpc; p_execute := false |}.

End pool_spec.

(** * A toy pool

    A toy pool: one mature round with one worker, paid in one run. *)
From stdpp Require Import countable.
From S2P Require Import Toy ConfigSpec.
From S2P Require Import StorageExamples NodeExamples.
From S2P Require Import RpcExamples.
From S2P Require Import WalletTransferSpec WalletCliExamples.

Module PoolToy.
Import Toy StorageToy NodeToy ConfigExamples WalletExamples CliToy.

Definition round : PoolAccountingRound := {|
  pool_address := "0505"; round_height := 3; round_block_hash := "ab"; maturity_height := 8; gross_reward := 50;
  payouts := [{| payout_worker := "rig"; payout_address := "07"; payout_amount := 40 |};
              {| payout_worker := "idle"; payout_address := "09"; payout_amount := 0 |}] |}.
(** A receipt as a brace and a binary number *)
Abbreviation RawReceipt := (string * (Z * (string * (string * (Z * (string * (string * Z)))))))%type.
Definition to_raw_receipt (r : PoolPayoutReceipt) : RawReceipt :=
  (receipt_block_hash r, (receipt_height r, (receipt_worker r, (receipt_address r, (receipt_amount r,
    (receipt_last_state r, (receipt_tx_hash r, submitted_at_height r))))))).
Definition of_raw_receipt (x : RawReceipt) : PoolPayoutReceipt :=
  let '(a, (b, (c, (d, (e, (f, (g, h))))))) := x in
  {| receipt_block_hash := a; receipt_height := b; receipt_worker := c; receipt_address := d; receipt_amount := e;
     receipt_last_state := f; receipt_tx_hash := g; submitted_at_height := h |}.
#[global] Instance pool_json : PoolJson := {
  round_from_json _ := Ok round;
  receipt_from_json s :=
    match s with
    | String _ s => ok_or (p ← parse_bits s; l ← countable.decode (A := list Z) p; r ← Toy.parse l; Some (of_raw_receipt r)) "expected value"
    | EmptyString => Err "EOF while parsing a value"
    end;
  receipt_to_json r := String "{" (show_bits (countable.encode (ser (to_raw_receipt r))))
}.

Lemma bits_text p :
  utf8_valid (as_bytes (show_bits p)) = true /\ spaceless (show_bits p) = true /\
  10 ∉ as_bytes (show_bits p) /\ 13 ∉ as_bytes (show_bits p).
Proof.
  assert (Hnil : forall x : Z, x ∉ (@nil Z)) by (intros x; apply not_elem_of_nil).
  induction p as [p (IHu & IHs & IHf & IHr)|p (IHu & IHs & IHf & IHr)|]; cbn; [..|split_and!; try done; apply Hnil];
    (split_and!; [done|done|apply not_elem_of_cons; by split..]).
Qed.
#[global] Instance pool_json_laws : PoolJsonLaws.
Proof.
  split.
  - intros r. cbn [receipt_to_json receipt_from_json pool_json]. rewrite parse_show_bits. cbn [mbind option_bind].
    rewrite decode_encode. cbn [mbind option_bind]. rewrite parse_ser. by destruct r.
  - intros r. cbn [receipt_to_json pool_json]. generalize (countable.encode (ser (to_raw_receipt r))) as p. intros p.
    destruct (bits_text p) as (Hu & Hs & H10 & H13). split_and!.
    + exact Hu.
    + unfold WalletCli.blank. rewrite trim_spaceless by exact Hs. done.
    + cbn. apply not_elem_of_cons. by split.
    + cbn. apply not_elem_of_cons. by split.
Qed.

Definition pool_cli : Cli := {|
  cli_files := {["wallet.json" := purse_raw; "pool-accounting.jsonl" := as_bytes "{}"]}; cli_asked := 0 |}.
Definition paid := wallet_pool_payout cli_env rpc_text ["--execute"] pool_cli.
Lemma paid_ok : paid.1 = Ok (Paid 9).
Proof. vm_compute. reflexivity. Qed.
(** The next run finds nothing to pay. *)
Lemma nothing_left : (wallet_pool_payout cli_env rpc_text [] paid.2).1 = Ok (Preview 9 0 0).
Proof. vm_compute. reflexivity. Qed.

(** The key is made of texts joined by colons: a worker whose name contains one can have the key of
    another worker's payout. *)
Lemma keys_clash :
  payout_key round {| payout_worker := "a:b"; payout_address := "c"; payout_amount := 1 |} =
  payout_key round {| payout_worker := "a"; payout_address := "b:c"; payout_amount := 1 |}.
Proof. reflexivity. Qed.
End PoolToy.

Module PoolWitnesses.
Import Toy StorageToy NodeToy ConfigExamples WalletExamples CliToy PoolToy.

Definition executing : PoolOptions := {| p_ledger := "pool-accounting.jsonl";
  p_receipts := "pool-payout-receipts.jsonl"; p_wallet := "wallet.json"; p_rpc := rpc_text; p_execute := true |}.
End PoolWitnesses.
